(* ===== verification/_CoqProject ===== *)
-Q . S2P
Prelude.v
RustString.v
Net.v
Multiaddr.v
Fingerprint.v
Errors.v
Stun.v
Prog.v
Threads.v
Channel.v
UdpMux.v
MuxSpec.v
MuxConc.v
ConnWorker.v
WorkerConc.v
MuxLin.v
Sdp.v
SdpRead.v
DataChannel.v
WebRtc.v
Connection.v
ConnectionSpec.v
Handshake.v
Exchange.v
HandshakeErrors.v
HandshakeSpec.v
Listener.v
ListenerSpec.v
System.v
ConcSystem.v
ConcMessage.v
Connect.v
