(* ===== verification/Prelude.v ===== *)
(** * A verification development for libp2p-webrtc-direct

    The crate is a libp2p transport over WebRTC without a STUN server: a
    listener has one UDP socket, recognises a new dialer by the STUN message it
    sends, and both sides pretend to have exchanged session descriptions that
    they render from an address and a certificate fingerprint. This library
    models the crate (under [src/] of the repository) and proves what makes it
    correct; where the code does something else than it means to, a theorem
    says what it does.

    ** The parts and how they interact

    A datagram is read by the worker ([src/udp_mux.rs]), which gives it to the
    connection of its source address, or of the local user fragment of its STUN
    message, or reports the source with the fingerprint found in the remote
    user fragment on a channel. The listen stream ([src/transport.rs]) takes
    such addresses from the channel and yields an upgrade for each, which is
    [webrtc] of [src/upgrade.rs]. A dial is [do_dial] of [src/transport.rs].
    Both render a session description ([src/sdp.rs]), open a data channel, run
    the Noise handshake over it, exchange fingerprints and return a
    [Connection] ([src/connection.rs]), whose substreams are data channels
    ([src/connection/poll_data_channel.rs]).

    ** The files

    - Prelude: results, outcomes (done, failed, panicked) and polls, with the
      monads behind [?], [unwrap] and [ready!]; tactics and hint databases.
    - RustString: bytes, strings, UTF-8, [split], [replace], [format!].
    - Net: [std::net] addresses and their text; [normalize_socket_addr].
    - Multiaddr: [ip_to_multiaddr], [multiaddr_to_socketaddr],
      [fingerprint_from_addr] and the last component read by [upgrade.rs].
    - Fingerprint: [fingerprint_to_string], [hex_to_cow],
      [fingerprint_of_first_certificate].
    - Errors: [src/error.rs] and the errors of libraries the source names.
    - Stun: [ufrag_from_stun_message].
    - Prog: [async] code as programs of events ([prog]), run against a state
      ([run]), related to a trace ([exec]) or as threads ([pool_step]).
    - Threads: pools of threads: executable schedules, invariants of every
      thread, and rely-guarantee reasoning about one of them.
    - Channel: the bounded [mpsc] channels, as an interface with its laws.
    - UdpMux: the state of [UDPMuxNewAddr] and its operations, as programs
      whose events are the critical sections of its locks.
    - MuxSpec: an abstract routing table, the invariant [mux_wf_except] and the
      refinement of the table by the operations, whoever calls them; the
      addresses it excepts are those registered by a connection that is not in
      the table, which nothing in the code prevents.
    - MuxConc: the operations as interleaved threads.
    - ConnWorker: the worker's buffer and loop ([start_conn_worker]), and what it
      is to report ([to_report]).
    - WorkerConc: the same loop as a thread among the operations, the closing
      connections and the receives of the listen stream.
    - MuxLin: the calls that act as if they ran one after the other.
    - Sdp: the templates and [render_description].
    - SdpRead: a reader of the descriptions' lines.
    - DataChannel: [PollDataChannel].
    - WebRtc: the calls to [webrtc], [libp2p_noise] and the timer, as events.
    - Connection: [Connection] and its [StreamMuxer] operations; [close] is two
      locked parts, [flush_all] and [shutdown_all].
    - ConnectionSpec: histories of these operations, of the parts of a [close]
      and of the channels that arrive, and the abstract specification they
      refine.
    - Handshake, HandshakeErrors, HandshakeSpec: [do_dial] and [webrtc]; how
      they fail; what they guarantee when they complete.
    - Exchange: their last phase, the exchange of fingerprints, on both sides at
      once over the stream of [libp2p_noise], which is an interface.
    - Listener, ListenerSpec: the transport, [WebRTCListenStream::poll_next];
      what a stream reports over a history of polls.
    - System: worker, multiplexer, watchers and listen stream as one transition
      system, from datagrams to upgrades.
    - ConcSystem: the same at the grain of critical sections, with any number of
      streams of one transport.
    - ConcMessage: what a dialer's first message leads to in that system.
    - Connect: the unit tests of [src/transport.rs]: a transport that dials the
      address another one reports, and the first upgrade that one yields.

    ** What is shown

    - Authentication: a dial or an upgrade completes exactly on the executions
      that make the listed calls and read the expected fingerprint, and, for a
      dial, the expected peer id; two sides that complete with each other over
      a faithful stream name each other's certificates; they panic only where
      the source unwraps; they fail at the first call that fails, with the
      error that call is to blame for. Exchanging fingerprints over a stream
      that does not fail, two sides whose writes accept the same number of
      bytes never wait for each other; otherwise one waits for ever.
    - Routing: over any sequence of calls the multiplexer refines its routing
      table and keeps its two maps and the connections' own address sets
      consistent but for strays; under any interleaving
      concurrent [close]s act as one, and [get_conn]s and removals act as if
      they ran one after the other; with the worker among them the tables still
      say what they should.
    - The worker delivers what it read to whom it is for, reports exactly
      the new sources that announce a fingerprint, each at its first
      announcement that the channel takes, with an address that an upgrade
      accepts; once under every interleaving of its critical sections with
      everything else, too.
    - The listen stream always answers, loses and invents neither upgrades nor
      interface events, keeps their order, reports its own addresses only,
      pauses after an error, and ends after its worker has, on one interface
      or on all of them.
    - End to end: in every reachable state each upgrade is for a message that
      was received, and a first message becomes the upgrade that expects the
      dialer's fingerprint; however the parts interleave and however many
      streams listen, each address is yielded once, in order, and a first
      message whose source and fragment nothing else claims is the next upgrade
      after four sections of the worker. The address a listener reports is one
      that a dial accepts, and two honest peers have a pair of executions that
      complete with each other.
    - Texts: rendering never fails, and each value can be read back from its
      line of the description; fingerprints and user fragments are read back as
      they were written, and any other bytes give the error of what is missing.
    - Connections: every history of calls refines a table of live substreams
      with a queue of incoming ones, none of which is lost, overtaken or,
      while the connection is open, refused;
      a [close] nothing comes into flushes and shuts down every channel before it
      closes the queue, which then drains; polled again and again it completes when the channels
      do; channels are filed and removed by their identifiers;
      reads stay within the caller's buffer.
    - Defects, as theorems about the code as it is: a malformed user fragment
      ends the worker ([worker_panics_on_bad_ufrag]); bytes of an earlier
      datagram are decoded ([worker_reads_stale_bytes]); a second dialer is not
      reported while the first is connected ([second_dialer_not_reported]); a
      [close] during [get_conn] is missed ([get_conn_races_close]); a watcher
      removes its successor ([stale_watcher_removes_connection]); a source
      whose upgrade failed is not reported again ([concurrent_reports_once]),
      nor one that is registered while it is reported
      ([report_races_registration]); a route to a removed connection is left
      behind ([registration_races_removal]); a channel that comes between the two
      parts of a [close] is shut down unflushed ([close_misses_late_channel]);
      the pause does not delay the retry
      ([failing_watcher_retried_at_once]).

    ** Conventions

    Code outside the repository is a class of operations with, where a theorem
    relies on it, a class of laws that state its documented behaviour; each has
    a reference instance (a Module whose name ends in [Ref]) at which the
    theorems with hypotheses are applied (Modules [Witness]). Shared handles
    ([Arc]) are values of an abstract type whose contents are in a heap. Ports,
    octets and stream identifiers, which the code copies and compares, are
    integers.
    A panic is an outcome; a panic of the worker is a state.

    Fuel: [poll_loop] gets 2, the loop being repeated only after a pending
    watcher became ready, and [drain] one more than the events queued;
    [listen_poll_terminates] proves this enough from every state. The worker's
    and the histories' loops recurse on the list of what happens.

    ** What is not modelled

    - A section that holds one lock is one step; a lock is never poisoned.
      Substreams, which take no lock, may be used during the loops of a [close]:
      that is only modelled between them.
    - A write or a flush on the Noise stream is an event when it is ready.
    - The order in which [close] of a connection traverses its hash map is a
      parameter; [close] of the multiplexer traverses its own in the order of
      [map_to_list], and nothing proved depends on it.
    - Cancellation of a future between two events is a trace without a result.
    - Wakers: a poll is an answer, not the registration of a task.
    - The [Display] texts of the crate's errors and logging. Of [boxed], the
      closure is modelled and the transport it is mapped over is not.
    - The smoke test, which drives a swarm of libp2p, and the documentation in
      [src/lib.rs].
    - System takes a turn of the worker and a call as one step each; ConcSystem
      and ConcMessage do not.
    - Handles are not counted: the watcher of a connection may wake as soon as
      the multiplexer has no handle of it, though its client may still have one.
    - The libraries themselves: ICE, DTLS, SCTP, Noise, STUN decoding,
      TinyTemplate, the interface watcher, sockets and timers. *)

From stdpp Require Export base tactics option list gmap sets strings.
From Stdlib Require Export Lia.

Declare Scope rust_scope.
Delimit Scope rust_scope with rust.

(** ** Results: [Result<A, E>] *)

Inductive result (E A : Type) : Type :=
| Ok (a : A)
| Err (e : E).
Arguments Ok {E A} a.
Arguments Err {E A} e.

#[global] Instance result_ret E : MRet (result E) := @Ok E.
#[global] Instance result_bind E : MBind (result E) := λ A B f r,
  match r with Ok a => f a | Err e => Err e end.
#[global] Instance result_fmap E : FMap (result E) := λ A B f r,
  match r with Ok a => Ok (f a) | Err e => Err e end.
#[global] Instance result_eq_dec `{EqDecision E, EqDecision A} :
  EqDecision (result E A).
Proof. solve_decision. Defined.

(** [Result::map_err] *)
Definition map_err {E E' A} (f : E → E') (r : result E A) : result E' A :=
  match r with Ok a => Ok a | Err e => Err (f e) end.

(** [Option::ok_or_else] *)
Definition ok_or {E A} (e : E) (o : option A) : result E A :=
  match o with Some a => Ok a | None => Err e end.

(** ** Outcomes: a computation that returns, fails with an error or panics *)

Inductive outcome (E A : Type) : Type :=
| Done (a : A)
| Fail (e : E)
| Panic.
Arguments Done {E A} a.
Arguments Fail {E A} e.
Arguments Panic {E A}.

#[global] Instance outcome_ret E : MRet (outcome E) := @Done E.
#[global] Instance outcome_bind E : MBind (outcome E) := λ A B f o,
  match o with Done a => f a | Fail e => Fail e | Panic => Panic end.
#[global] Instance outcome_eq_dec `{EqDecision E, EqDecision A} :
  EqDecision (outcome E A).
Proof. solve_decision. Defined.

(** [.unwrap()] and [.expect(_)] on a [Result] and on an [Option] *)
Definition unwrap {E E' A} (r : result E A) : outcome E' A :=
  match r with Ok a => Done a | Err _ => Panic end.
Definition unwrap_opt {E' A} (o : option A) : outcome E' A :=
  match o with Some a => Done a | None => Panic end.

(** The [?] operator: the error leaves the function. *)
Definition try_ {E A} (r : result E A) : outcome E A :=
  match r with Ok a => Done a | Err e => Fail e end.

(** ** Polls: [std::task::Poll<A>] *)

Inductive poll (A : Type) : Type :=
| Ready (a : A)
| Pending.
Arguments Ready {A} a.
Arguments Pending {A}.

(** Binding is the [ready!] macro: [Pending] leaves the function. *)
#[global] Instance poll_ret : MRet poll := @Ready.
#[global] Instance poll_bind : MBind poll := λ A B f p,
  match p with Ready a => f a | Pending => Pending end.
#[global] Instance poll_fmap : FMap poll := λ A B f p,
  match p with Ready a => Ready (f a) | Pending => Pending end.
#[global] Instance poll_eq_dec `{EqDecision A} : EqDecision (poll A).
Proof. solve_decision. Defined.

(** ** Automation *)

(** Split the innermost [match] of the goal or of a hypothesis, and clean up. *)
Ltac case_all :=
  repeat (case_match; simplify_eq/=; try done).

(** Destruct every conjunction and existential of the context. *)
Ltac split_hyps :=
  repeat match goal with
  | H : _ ∧ _ |- _ => destruct H
  | H : ∃ _, _ |- _ => destruct H
  end.

Create HintDb rust discriminated.
Create Rewrite HintDb rust.

(** ** Lists *)

Lemma list_insert_middle {A} (l1 l2 : list A) x y :
  <[length l1 := y]> (l1 ++ x :: l2) = l1 ++ y :: l2.
Proof. induction l1 as [|z l1 IH]; [done|]. exact (f_equal (cons z) IH). Qed.
