(* ===== verification/RustString.v ===== *)
(** * Rust strings and byte slices

    The part of [std::string], [str] and [core::fmt] that the transport uses.
    A [String] is a Rocq [string] holding its UTF-8 bytes, a [Vec<u8>] or
    [&[u8]] is a [list byte]; both are converted byte by byte. *)

From S2P Require Import Prelude.
From Stdlib Require Import NArith Wf_nat ZifyBool.
From Stdlib Require Export Strings.Ascii.
From Stdlib Require Strings.Byte DecimalString HexadecimalString.

Abbreviation byte := Byte.byte.

#[global] Instance byte_eq_dec : EqDecision byte := Byte.byte_eq_dec.

(** ** Conversions *)

(** [String::into_bytes] *)
Definition into_bytes (s : string) : list byte := String.list_byte_of_string s.

(** The string holding the given bytes; a [String] only when they are UTF-8. *)
Definition of_bytes (l : list byte) : string := String.string_of_list_byte l.

(** The value of a byte, between 0 and 255. *)
Definition byte_val (b : byte) : N := Byte.to_N b.

(** ** UTF-8 validation: [core::str::from_utf8]

    The well-formed sequences are those of the Unicode standard (table 3-7):
    no overlong forms, no surrogates, nothing above U+10FFFF. *)

Definition in_range (lo hi v : N) : bool := (lo <=? v)%N && (v <=? hi)%N.
Definition is_cont (v : N) : bool := in_range 128 191 v.

(** The second byte of a sequence of three bytes opened by [b0]. *)
Definition second_of_three (b0 b1 : N) : bool :=
  (N.eqb b0 224 && in_range 160 191 b1)
  || (N.eqb b0 237 && in_range 128 159 b1)
  || ((in_range 225 236 b0 || in_range 238 239 b0) && is_cont b1).

(** The second byte of a sequence of four bytes opened by [b0]. *)
Definition second_of_four (b0 b1 : N) : bool :=
  (N.eqb b0 240 && in_range 144 191 b1)
  || (N.eqb b0 244 && in_range 128 143 b1)
  || (in_range 241 243 b0 && is_cont b1).

Fixpoint utf8_valid (l : list N) : bool :=
  match l with
  | [] => true
  | b0 :: l1 =>
      if (b0 <? 128)%N then utf8_valid l1 else
      match l1 with
      | [] => false
      | b1 :: l2 =>
          if in_range 194 223 b0 then is_cont b1 && utf8_valid l2 else
          match l2 with
          | [] => false
          | b2 :: l3 =>
              if second_of_three b0 b1 then is_cont b2 && utf8_valid l3 else
              match l3 with
              | [] => false
              | b3 :: l4 =>
                  second_of_four b0 b1 && is_cont b2 && is_cont b3
                  && utf8_valid l4
              end
          end
      end
  end.

(** [Utf8Error]: how far the input is valid, and the length of the sequence
    found invalid ([None] when the input ends inside a sequence) *)
Record Utf8Error := mk_utf8_error { valid_up_to : nat; error_len : option nat }.

(** The validation loop of [core::str], [i] being the index of the sequence
    being read: [None] when the input is valid. *)
Fixpoint utf8_error (l : list N) (i : nat) : option Utf8Error :=
  let err len := Some (mk_utf8_error i len) in
  match l with
  | [] => None
  | b0 :: l1 =>
      if (b0 <? 128)%N then utf8_error l1 (S i)
      else if in_range 194 223 b0 then
        match l1 with
        | [] => err None
        | b1 :: l2 => if is_cont b1 then utf8_error l2 (i + 2) else err (Some 1)
        end
      else if in_range 224 239 b0 then
        match l1 with
        | [] => err None
        | b1 :: l2 =>
            if second_of_three b0 b1 then
              match l2 with
              | [] => err None
              | b2 :: l3 => if is_cont b2 then utf8_error l3 (i + 3) else err (Some 2)
              end
            else err (Some 1)
        end
      else if in_range 240 244 b0 then
        match l1 with
        | [] => err None
        | b1 :: l2 =>
            if second_of_four b0 b1 then
              match l2 with
              | [] => err None
              | b2 :: l3 =>
                  if is_cont b2 then
                    match l3 with
                    | [] => err None
                    | b3 :: l4 =>
                        if is_cont b3 then utf8_error l4 (i + 4) else err (Some 3)
                    end
                  else err (Some 2)
              end
            else err (Some 1)
        end
      else err (Some 1)
  end.

(** [String::from_utf8] *)
Definition from_utf8 (l : list byte) : result Utf8Error string :=
  match utf8_error (byte_val <$> l) 0 with
  | None => Ok (of_bytes l)
  | Some e => Err e
  end.

(** ** Characters *)

(** [P] holds of every byte of the string. *)
Fixpoint str_all (P : ascii → bool) (s : string) : bool :=
  match s with
  | EmptyString => true
  | String c s => P c && str_all P s
  end.

(** [s.replace(c, "")] for an ASCII character [c]. *)
Fixpoint replace_char (c : ascii) (s : string) : string :=
  match s with
  | EmptyString => EmptyString
  | String d s =>
      if Ascii.eqb d c then replace_char c s else String d (replace_char c s)
  end.

(** [s.split(c)]: the pieces between the occurrences of [c]; never empty. The
    accumulator of the recursion is the first piece of the rest. *)
Fixpoint split_char (c : ascii) (s : string) : list string :=
  match s with
  | EmptyString => [""]
  | String d s =>
      let rest := split_char c s in
      if Ascii.eqb d c then "" :: rest
      else match rest with
           | [] => [String d ""]
           | p :: ps => String d p :: ps
           end
  end.

(** [values.join(sep)] *)
Fixpoint join (sep : string) (l : list string) : string :=
  match l with
  | [] => ""
  | [s] => s
  | s :: l => s +:+ sep +:+ join sep l
  end.

(** [values.concat()] *)
Fixpoint concat_str (l : list string) : string :=
  match l with
  | [] => ""
  | s :: l => s +:+ concat_str l
  end.

Definition colon : ascii := ":"%char.

(** ** Number formats *)

(** The digit of a value below 16, in lower case. *)
Definition hex_digit (v : N) : ascii :=
  match v with
  | 0 => "0" | 1 => "1" | 2 => "2" | 3 => "3" | 4 => "4" | 5 => "5"
  | 6 => "6" | 7 => "7" | 8 => "8" | 9 => "9" | 10 => "a" | 11 => "b"
  | 12 => "c" | 13 => "d" | 14 => "e" | _ => "f"
  end%N%char.

(** [format!("{:02x}", b)] for a [u8] *)
Definition format_02x (b : byte) : string :=
  String (hex_digit (byte_val b / 16)) (String (hex_digit (byte_val b mod 16)) "").

(** [format!("{}", n)] and [format!("{:x}", n)] for an unsigned integer *)
Definition format_dec (n : Z) : string :=
  DecimalString.NilZero.string_of_uint (N.to_uint (Z.to_N n)).
Definition format_x (n : Z) : string :=
  HexadecimalString.NilZero.string_of_uint (N.to_hex_uint (Z.to_N n)).

(** [Display] of [Utf8Error] *)
Definition display_utf8_error (e : Utf8Error) : string :=
  match error_len e with
  | Some n =>
      "invalid utf-8 sequence of " +:+ format_dec (Z.of_nat n) +:+
      " bytes from index " +:+ format_dec (Z.of_nat (valid_up_to e))
  | None =>
      "incomplete utf-8 byte sequence from index " +:+
      format_dec (Z.of_nat (valid_up_to e))
  end.

(** ** Character classes *)

Definition is_dec_digit (c : ascii) : bool := in_range 48 57 (Ascii.N_of_ascii c).

(** Lower case hexadecimal digits, the alphabet of [{:02x}] and [{:x}] *)
Definition is_lower_hex (c : ascii) : bool :=
  is_dec_digit c || in_range 97 102 (Ascii.N_of_ascii c).

Definition is_ascii_char (c : ascii) : bool := (Ascii.N_of_ascii c <? 128)%N.

(** * Lemmas *)

(** ** Conversions *)

Lemma of_into_bytes s : of_bytes (into_bytes s) = s.
Proof. apply String.string_of_list_byte_of_string. Qed.

Lemma into_of_bytes l : into_bytes (of_bytes l) = l.
Proof. apply String.list_byte_of_string_of_list_byte. Qed.

Lemma into_bytes_cons c s :
  into_bytes (String c s) = Ascii.byte_of_ascii c :: into_bytes s.
Proof. done. Qed.

Lemma length_into_bytes s : length (into_bytes s) = String.length s.
Proof. induction s as [|c s IH]; [done|]. rewrite into_bytes_cons. cbn. by rewrite IH. Qed.

#[global] Instance into_bytes_inj : Inj (=) (=) into_bytes.
Proof. intros s t E. by rewrite <-(of_into_bytes s), E, of_into_bytes. Qed.

Lemma byte_val_lt b : (byte_val b < 256)%N.
Proof. pose proof (Byte.to_N_bounded b). unfold byte_val. lia. Qed.

(** ** Appending *)

Lemma append_nil_l s : "" +:+ s = s.
Proof. done. Qed.

Lemma append_cons c s t : String c s +:+ t = String c (s +:+ t).
Proof. done. Qed.

#[global] Hint Rewrite append_nil_l append_cons : rust.

Lemma append_nil_r s : s +:+ "" = s.
Proof. induction s as [|c s IH]; [done|]. by rewrite append_cons, IH. Qed.

Lemma append_assoc s t u : (s +:+ t) +:+ u = s +:+ (t +:+ u).
Proof. induction s as [|c s IH]; [done|]. by rewrite !append_cons, IH. Qed.

Lemma length_append s t : String.length (s +:+ t) = String.length s + String.length t.
Proof. induction s as [|c s IH]; [done|]. rewrite append_cons. cbn. by rewrite IH. Qed.

#[global] Hint Rewrite append_nil_r append_assoc : rust.

(** ** Predicates on all characters *)

Lemma str_all_append P s t : str_all P (s +:+ t) = str_all P s && str_all P t.
Proof.
  induction s as [|c s IH]; [done|]. rewrite append_cons. cbn.
  by rewrite IH, andb_assoc.
Qed.

Lemma str_all_impl (P Q : ascii → bool) s :
  (∀ c, P c → Q c) → str_all P s → str_all Q s.
Proof.
  intros HPQ. induction s as [|c s IH]; [done|]. cbn.
  intros [??]%andb_True. apply andb_True. auto.
Qed.

Lemma str_all_join P sep l :
  str_all P sep → Forall (λ s, str_all P s) l → str_all P (join sep l).
Proof.
  intros Hsep. induction 1 as [|s l Hs Hl IH]; [done|].
  destruct l as [|t l]; [done|].
  change (str_all P (s +:+ sep +:+ join sep (t :: l))).
  rewrite !str_all_append. by rewrite !andb_True.
Qed.

Lemma str_all_concat P l :
  Forall (λ s, str_all P s) l → str_all P (concat_str l).
Proof.
  induction 1 as [|s l Hs Hl IH]; [done|]. cbn. rewrite str_all_append.
  by rewrite andb_True.
Qed.

(** ** [replace] and [split] *)

Lemma replace_char_append c s t :
  replace_char c (s +:+ t) = replace_char c s +:+ replace_char c t.
Proof.
  induction s as [|d s IH]; [done|]. rewrite append_cons. cbn. rewrite IH.
  by case_match.
Qed.

(** The result holds no occurrence of the character. *)
Lemma replace_char_free c s : str_all (λ d, negb (Ascii.eqb d c)) (replace_char c s).
Proof.
  induction s as [|d s IH]; [done|]. cbn. case_match eqn:E; [done|].
  cbn. rewrite E. by apply IH.
Qed.

Lemma replace_char_id c s :
  str_all (λ d, negb (Ascii.eqb d c)) s → replace_char c s = s.
Proof.
  induction s as [|d s IH]; [done|]. cbn.
  intros [Hd Hs]%andb_True. apply negb_True in Hd.
  destruct (Ascii.eqb d c); [done|]. by rewrite IH.
Qed.

Lemma replace_char_join c sep l :
  replace_char c sep = "" →
  replace_char c (join sep l) = concat_str (replace_char c <$> l).
Proof.
  intros Hsep. induction l as [|s l IH]; [done|].
  destruct l as [|t l]; [by rewrite fmap_cons; cbn; rewrite append_nil_r|].
  change (replace_char c (s +:+ sep +:+ join sep (t :: l)) =
    replace_char c s +:+ concat_str (replace_char c <$> t :: l)).
  by rewrite !replace_char_append, Hsep, IH.
Qed.

Lemma split_char_nonempty c s : split_char c s ≠ [].
Proof. destruct s as [|d s]; [done|]. cbn. by case_all. Qed.

(** A string without the separator is its only piece. *)
Lemma split_char_free c s :
  str_all (λ d, negb (Ascii.eqb d c)) s → split_char c s = [s].
Proof.
  induction s as [|d s IH]; [done|]. cbn.
  intros [Hd Hs]%andb_True. apply negb_True in Hd.
  destruct (Ascii.eqb d c); [done|]. by rewrite IH.
Qed.

(** Splitting a piece, the separator, and the rest. *)
Lemma split_char_append c s t :
  str_all (λ d, negb (Ascii.eqb d c)) s →
  split_char c (s +:+ String c t) = s :: split_char c t.
Proof.
  induction s as [|d s IH]; [rewrite append_nil_l; cbn; by rewrite Ascii.eqb_refl|].
  rewrite append_cons. cbn.
  intros [Hd Hs]%andb_True. apply negb_True in Hd.
  destruct (Ascii.eqb d c); [done|]. by rewrite IH.
Qed.

(** The pieces of a split hold no separator, and joining them restores the
    string: splitting is the inverse of joining. *)
Lemma join_split_char c s : join (String c "") (split_char c s) = s.
Proof.
  induction s as [|d s IH]; [done|]. cbn.
  pose proof (split_char_nonempty c s) as Hne.
  destruct (split_char c s) as [|p ps]; [done|].
  destruct (Ascii.eqb_spec d c) as [->|Hd].
  - change (String c (join (String c "") (p :: ps)) = String c s). by rewrite IH.
  - destruct ps; cbn in *; by rewrite <-IH.
Qed.

Lemma split_char_pieces c s :
  Forall (λ p, str_all (λ d, negb (Ascii.eqb d c)) p) (split_char c s).
Proof.
  induction s as [|d s IH]; [by repeat constructor|]. cbn.
  destruct (Ascii.eqb d c) eqn:E; [by constructor|].
  destruct IH as [|p ps Hp Hps]; [repeat constructor; cbn; by rewrite E|].
  constructor; [|done]. cbn. by rewrite E.
Qed.

(** ** UTF-8 *)

Lemma utf8_error_ascii l i : Forall (λ v, v < 128)%N l → utf8_error l i = None.
Proof.
  intros Hl. revert i. induction Hl as [|v l Hv Hl IH]; intros i; [done|]. cbn.
  by rewrite (proj2 (N.ltb_lt v 128) Hv).
Qed.

(** The openings of sequences of two, three and four bytes are disjoint. *)
Lemma second_of_three_range b0 b1 :
  second_of_three b0 b1 = true → in_range 224 239 b0 = true.
Proof.
  unfold second_of_three, is_cont, in_range. lia.
Qed.

Lemma second_of_four_range b0 b1 :
  second_of_four b0 b1 = true → in_range 240 244 b0 = true.
Proof.
  unfold second_of_four, is_cont, in_range. lia.
Qed.

Lemma in_range_disjoint a b c d v :
  in_range a b v = true → (b < c)%N → in_range c d v = false.
Proof. unfold in_range. lia. Qed.

(** The validation loop accepts exactly the well-formed sequences. *)
Lemma utf8_error_valid l i : utf8_error l i = None ↔ utf8_valid l = true.
Proof.
  revert i. induction l as [l IH] using (induction_ltof1 _ (@length N)); intros i.
  unfold ltof in IH. destruct l as [|b0 l1]; [done|]. cbn.
  case_match; [apply IH; cbn; lia|].
  destruct (in_range 194 223 b0) eqn:H2.
  { destruct l1 as [|b1 l2]; [done|].
    destruct (is_cont b1); [|done]. apply IH. cbn. lia. }
  destruct l1 as [|b1 [|b2 l3]]; [by repeat case_match|by repeat case_match|].
  destruct (second_of_three b0 b1) eqn:H3.
  { rewrite (second_of_three_range _ _ H3).
    destruct (is_cont b2); [|done]. apply IH. cbn. lia. }
  destruct (second_of_four b0 b1) eqn:H4.
  - apply second_of_four_range in H4.
    destruct (in_range 224 239 b0) eqn:H3'.
    { rewrite (in_range_disjoint _ _ 240 244 _ H3') in H4; [done|lia]. }
    rewrite H4. destruct l3 as [|b3 l4]; [by repeat case_match|].
    destruct (is_cont b2), (is_cont b3); try done. apply IH. cbn. lia.
  - destruct l3; by repeat case_match.
Qed.

Lemma byte_val_of_ascii c : byte_val (Ascii.byte_of_ascii c) = Ascii.N_of_ascii c.
Proof. by destruct c as [[] [] [] [] [] [] [] []]. Qed.

(** An ASCII string survives the round trip through its bytes. *)
Lemma from_utf8_ascii s : str_all is_ascii_char s → from_utf8 (into_bytes s) = Ok s.
Proof.
  intros Hs. unfold from_utf8. rewrite of_into_bytes, utf8_error_ascii; [done|].
  induction s as [|c s IH]; [constructor|].
  cbn in Hs. apply andb_True in Hs as [Hc Hs].
  rewrite into_bytes_cons, fmap_cons. constructor; [|by apply IH].
  rewrite byte_val_of_ascii. by apply N.ltb_lt, Is_true_eq_true.
Qed.

(** A string that is read back holds exactly the bytes it was read from. *)
Lemma from_utf8_bytes l s : from_utf8 l = Ok s → into_bytes s = l.
Proof. unfold from_utf8. intros. case_match; simplify_eq. apply into_of_bytes. Qed.

(** ** Number formats *)

Lemma format_02x_lower_hex b : str_all is_lower_hex (format_02x b).
Proof. by destruct b. Qed.

Lemma format_02x_length b : String.length (format_02x b) = 2.
Proof. done. Qed.

Lemma dec_string_digits d : str_all is_dec_digit (DecimalString.NilEmpty.string_of_uint d).
Proof. by induction d. Qed.

Lemma format_dec_digits n : str_all is_dec_digit (format_dec n).
Proof.
  unfold format_dec, DecimalString.NilZero.string_of_uint.
  case_match; [done|..]; apply (dec_string_digits (_ _)).
Qed.

Lemma hex_string_digits d :
  str_all is_lower_hex (HexadecimalString.NilEmpty.string_of_uint d).
Proof. by induction d. Qed.

Lemma format_x_lower_hex n : str_all is_lower_hex (format_x n).
Proof.
  unfold format_x, HexadecimalString.NilZero.string_of_uint.
  case_match; [done|..]; apply (hex_string_digits (_ _)).
Qed.

(** ** Character classes *)

Ltac by_char := intros [[] [] [] [] [] [] [] []]; by vm_compute.

Lemma dec_digit_lower_hex c : is_dec_digit c → is_lower_hex c.
Proof. unfold is_lower_hex. intros. apply orb_True. by left. Qed.

Lemma lower_hex_ascii c : is_lower_hex c → is_ascii_char c.
Proof. revert c. by_char. Qed.

Lemma lower_hex_not_colon c : is_lower_hex c → negb (Ascii.eqb c colon).
Proof. revert c. by_char. Qed.

#[export] Hint Resolve dec_digit_lower_hex lower_hex_ascii lower_hex_not_colon
  format_02x_lower_hex format_dec_digits format_x_lower_hex : rust.
