(* ===== verification/Net.v ===== *)
(** * Socket addresses

    The part of [std::net] the transport uses (addresses, their predicates and
    their [Display] text) and [normalize_socket_addr] of [src/udp_mux.rs].
    Octets, segments and ports are unsigned integers kept as [Z]; [wf_*] are
    their ranges. *)

From S2P Require Import Prelude RustString.

(** ** Data *)

Record Ipv4Addr := mk_v4 { o0 : Z; o1 : Z; o2 : Z; o3 : Z }.

(** The eight 16-bit segments, most significant first *)
Record Ipv6Addr := mk_v6
  { s0 : Z; s1 : Z; s2 : Z; s3 : Z; s4 : Z; s5 : Z; s6 : Z; s7 : Z }.

Inductive IpAddr :=
| IpV4 (a : Ipv4Addr)
| IpV6 (a : Ipv6Addr).

(** A [SocketAddrV6] also carries a flow label and a scope id. *)
Inductive SocketAddr :=
| V4 (a : Ipv4Addr) (port : Z)
| V6 (a : Ipv6Addr) (port : Z) (flowinfo : Z) (scope_id : Z).

#[global] Instance Ipv4Addr_eq_dec : EqDecision Ipv4Addr.
Proof. solve_decision. Defined.
#[global] Instance Ipv6Addr_eq_dec : EqDecision Ipv6Addr.
Proof. solve_decision. Defined.
#[global] Instance IpAddr_eq_dec : EqDecision IpAddr.
Proof. solve_decision. Defined.
#[global] Instance SocketAddr_eq_dec : EqDecision SocketAddr.
Proof. solve_decision. Defined.

(** Socket addresses are the keys of the multiplexer's maps. *)
Definition enc_addr (a : SocketAddr) : list Z :=
  match a with
  | V4 (mk_v4 a b c d) p => [a; b; c; d; p]
  | V6 (mk_v6 a b c d e f g h) p fl sc => [a; b; c; d; e; f; g; h; p; fl; sc]
  end.
Definition dec_addr (l : list Z) : option SocketAddr :=
  match l with
  | [a; b; c; d; p] => Some (V4 (mk_v4 a b c d) p)
  | [a; b; c; d; e; f; g; h; p; fl; sc] =>
      Some (V6 (mk_v6 a b c d e f g h) p fl sc)
  | _ => None
  end.
#[global] Instance SocketAddr_countable : Countable SocketAddr.
Proof. refine (inj_countable enc_addr dec_addr _). by intros [[]|[]]. Defined.

(** ** Accessors of [SocketAddr] and [IpAddr] *)

Definition ip (a : SocketAddr) : IpAddr :=
  match a with V4 a _ => IpV4 a | V6 a _ _ _ => IpV6 a end.
Definition port (a : SocketAddr) : Z :=
  match a with V4 _ p => p | V6 _ p _ _ => p end.
Definition ip_is_ipv4 (a : IpAddr) : bool :=
  match a with IpV4 _ => true | IpV6 _ => false end.
Definition ip_is_ipv6 (a : IpAddr) : bool :=
  match a with IpV4 _ => false | IpV6 _ => true end.
Definition is_ipv4 (a : SocketAddr) : bool := ip_is_ipv4 (ip a).
Definition is_ipv6 (a : SocketAddr) : bool := ip_is_ipv6 (ip a).

(** [SocketAddr::new]: flow label and scope id are zero. *)
Definition SocketAddr_new (i : IpAddr) (p : Z) : SocketAddr :=
  match i with IpV4 a => V4 a p | IpV6 a => V6 a p 0 0 end.

Definition v4_unspecified (a : Ipv4Addr) : bool := bool_decide (a = mk_v4 0 0 0 0).
Definition v6_unspecified (a : Ipv6Addr) : bool :=
  bool_decide (a = mk_v6 0 0 0 0 0 0 0 0).
Definition is_unspecified (i : IpAddr) : bool :=
  match i with IpV4 a => v4_unspecified a | IpV6 a => v6_unspecified a end.

(** [Ipv4Addr::to_ipv6_mapped] *)
Definition to_ipv6_mapped (a : Ipv4Addr) : Ipv6Addr :=
  mk_v6 0 0 0 0 0 65535 (o0 a * 256 + o1 a) (o2 a * 256 + o3 a).

(** [Ipv6Addr::to_ipv4_mapped] *)
Definition to_ipv4_mapped (a : Ipv6Addr) : option Ipv4Addr :=
  if bool_decide ([s0 a; s1 a; s2 a; s3 a; s4 a; s5 a] = [0; 0; 0; 0; 0; 65535]%Z)
  then Some (mk_v4 (s6 a / 256) (s6 a mod 256) (s7 a / 256) (s7 a mod 256))
  else None.

(** ** Ranges *)

Definition u8 (z : Z) : Prop := (0 ≤ z < 256)%Z.

Definition wf_v4 (a : Ipv4Addr) : Prop :=
  u8 (o0 a) ∧ u8 (o1 a) ∧ u8 (o2 a) ∧ u8 (o3 a).

(** ** [normalize_socket_addr] *)

Definition normalize_socket_addr (target socket_addr : SocketAddr) : SocketAddr :=
  match target, socket_addr with
  | V4 target_ip target_port, V6 _ _ _ _ =>
      SocketAddr_new (IpV6 (to_ipv6_mapped target_ip)) target_port
  | _, _ => target
  end.

(** ** [Display] *)

Definition display_v4 (a : Ipv4Addr) : string :=
  join "." (format_dec <$> [o0 a; o1 a; o2 a; o3 a]).

(** The longest run of zero segments, the first one when there are several:
    [cur] and [best] are pairs of a start and a length. *)
Fixpoint zero_span (segs : list Z) (i : nat) (cur best : nat * nat) : nat * nat :=
  match segs with
  | [] => best
  | s :: segs =>
      if (s =? 0)%Z then
        let cur := (if Nat.eqb cur.2 0 then i else cur.1, S cur.2) in
        zero_span segs (S i) cur (if Nat.ltb best.2 cur.2 then cur else best)
      else zero_span segs (S i) (0, 0) best
  end.

Definition segments (a : Ipv6Addr) : list Z :=
  [s0 a; s1 a; s2 a; s3 a; s4 a; s5 a; s6 a; s7 a].

Definition fmt_subslice (l : list Z) : string := join ":" (format_x <$> l).

Definition display_v6 (a : Ipv6Addr) : string :=
  match to_ipv4_mapped a with
  | Some v4 => "::ffff:" +:+ display_v4 v4
  | None =>
      let '(start, len) := zero_span (segments a) 0 (0, 0) (0, 0) in
      if Nat.ltb 1 len then
        fmt_subslice (take start (segments a)) +:+ "::" +:+
        fmt_subslice (drop (start + len) (segments a))
      else fmt_subslice (segments a)
  end.

Definition display_ip (i : IpAddr) : string :=
  match i with IpV4 a => display_v4 a | IpV6 a => display_v6 a end.

(** * Lemmas *)

Lemma split_u16 a b : u8 b → ((a * 256 + b) / 256 = a ∧ (a * 256 + b) mod 256 = b)%Z.
Proof.
  unfold u8. intros. split; symmetry.
  - apply Z.div_unique with b; lia.
  - apply Z.mod_unique with a; lia.
Qed.

Lemma to_ipv4_mapped_of_mapped a :
  wf_v4 a → to_ipv4_mapped (to_ipv6_mapped a) = Some a.
Proof.
  intros (H0 & H1 & H2 & H3). destruct a as [a b c d]. cbn in *.
  unfold to_ipv4_mapped. rewrite bool_decide_true by done. cbn.
  destruct (split_u16 a b H1) as [-> ->]. by destruct (split_u16 c d H3) as [-> ->].
Qed.

Lemma port_new i p : port (SocketAddr_new i p) = p.
Proof. by destruct i. Qed.
Lemma ip_new i p : ip (SocketAddr_new i p) = i.
Proof. by destruct i. Qed.
#[global] Hint Rewrite port_new ip_new : rust.

Lemma is_ipv6_neg a : is_ipv6 a = negb (is_ipv4 a).
Proof. by destruct a. Qed.

(** The characters of an address: lower case hexadecimal digits, dots and
    colons. *)
Definition is_addr_char (c : ascii) : bool :=
  is_lower_hex c || Ascii.eqb c ":" || Ascii.eqb c ".".

Lemma lower_hex_addr_char c : is_lower_hex c → is_addr_char c.
Proof. unfold is_addr_char. intros. rewrite !orb_True. auto. Qed.

Lemma format_dec_addr z : str_all is_addr_char (format_dec z).
Proof.
  eapply str_all_impl, format_dec_digits.
  auto using lower_hex_addr_char with rust.
Qed.

Lemma format_x_addr z : str_all is_addr_char (format_x z).
Proof. eapply str_all_impl, format_x_lower_hex. auto using lower_hex_addr_char. Qed.

Lemma display_v4_chars a : str_all is_addr_char (display_v4 a).
Proof. apply str_all_join; [done|]. by repeat constructor; apply format_dec_addr. Qed.

Lemma fmt_subslice_chars l : str_all is_addr_char (fmt_subslice l).
Proof.
  apply str_all_join; [done|]. apply Forall_fmap, Forall_true.
  intros z. apply format_x_addr.
Qed.

Lemma display_ip_chars i : str_all is_addr_char (display_ip i).
Proof.
  destruct i as [a|a]; cbn; [apply display_v4_chars|].
  unfold display_v6. case_match; [|repeat case_match];
    rewrite ?str_all_append, ?andb_True;
    auto using display_v4_chars, fmt_subslice_chars.
Qed.

(** * Correctness *)

(** A target normalized for a socket is in the socket's address
    family, unless the target is IPv6 and the socket IPv4 (which the source
    leaves to fail later); its port is kept; an IPv4 target becomes the IPv6
    address that maps back to it; and normalizing again changes nothing. *)
Theorem normalize_socket_addr_spec target socket :
  (∀ a p, target = V4 a p → wf_v4 a) →
  let t := normalize_socket_addr target socket in
  port t = port target
  ∧ normalize_socket_addr t socket = t
  ∧ (is_ipv4 target ∨ is_ipv6 socket → is_ipv4 t = is_ipv4 socket)
  ∧ (ip t = ip target
     ∨ ∃ a b, ip target = IpV4 a ∧ ip t = IpV6 b ∧ to_ipv4_mapped b = Some a).
Proof.
  intros Hwf. destruct target as [a p|a p fl sc], socket; cbn; intuition eauto.
  right. repeat eexists. apply to_ipv4_mapped_of_mapped. eauto.
Qed.

Lemma normalize_socket_addr_spec_witness :
  port (normalize_socket_addr (V4 (mk_v4 127 0 0 1) 4001) (V6 (mk_v6 0 0 0 0 0 0 0 0) 1 0 0))
    = 4001%Z.
Proof.
  apply (normalize_socket_addr_spec (V4 (mk_v4 127 0 0 1) 4001)
           (V6 (mk_v6 0 0 0 0 0 0 0 0) 1 0 0)).
  intros a p E. injection E as <- <-. unfold wf_v4, u8. cbn. lia.
Defined.

Example display_loopback : display_ip (IpV6 (mk_v6 0 0 0 0 0 0 0 1)) = "::1".
Proof. reflexivity. Qed.
Example display_v6_run :
  display_ip (IpV6 (mk_v6 8193 3512 0 0 1 0 0 1)) = "2001:db8::1:0:0:1".
Proof. reflexivity. Qed.
Example display_v6_full :
  display_ip (IpV6 (mk_v6 65535 65535 65535 65535 65535 65535 65535 65535))
  = "ffff:ffff:ffff:ffff:ffff:ffff:ffff:ffff".
Proof. reflexivity. Qed.
Example display_localhost : display_ip (IpV4 (mk_v4 127 0 0 1)) = "127.0.0.1".
Proof. reflexivity. Qed.
