(* ===== verification/Multiaddr.v ===== *)
(** * Multiaddresses

    [ip_to_multiaddr], [multiaddr_to_socketaddr] and [fingerprint_from_addr] of
    [src/transport.rs], and the last-component test of [src/upgrade.rs].
    [Multiaddr] itself belongs to [libp2p_core]: it is the interface
    [MultiaddrApi], whose documented behaviour is [MultiaddrLaws]. *)

From S2P Require Import Prelude RustString Net.

(** ** The interface of [libp2p_core::multiaddr] *)

(** The variants the source names; every other one is [OtherProtocol]. *)
Inductive Protocol :=
| Ip4 (a : Ipv4Addr)
| Ip6 (a : Ipv6Addr)
| Udp (port : Z)
| XWebRTC (fingerprint : list byte)
| P2p (multihash : list byte)
| OtherProtocol (name : string).

#[global] Instance Protocol_eq_dec : EqDecision Protocol.
Proof. solve_decision. Defined.

(** [ma_empty], [ma_with] and [ma_iter] are [Multiaddr::empty], [with] and
    [iter]; [ip_into] is [impl From<IpAddr> for Protocol]; the peer id at the
    end of an address is read by [PeerId::try_from_multiaddr]. *)
Class MultiaddrApi := {
  Multiaddr : Type;
  PeerId : Type;
  #[global] PeerId_eq_dec :: EqDecision PeerId;
  ma_empty : Multiaddr;
  ma_with : Multiaddr → Protocol → Multiaddr;
  ma_iter : Multiaddr → list Protocol;
  ip_into : IpAddr → Protocol;
  try_from_multiaddr : Multiaddr → option PeerId;
}.

(** An address is the sequence of the components it was built from. *)
Class MultiaddrLaws `{MultiaddrApi} : Prop := {
  iter_empty : ma_iter ma_empty = [];
  iter_with m p : ma_iter (ma_with m p) = ma_iter m ++ [p];
  ip_into_v4 a : ip_into (IpV4 a) = Ip4 a;
  ip_into_v6 a : ip_into (IpV6 a) = Ip6 a;
}.

(** ** Operations *)

Section operations.
Context `{MultiaddrApi}.

Definition ip_to_multiaddr (i : IpAddr) (p : Z) : Multiaddr :=
  ma_with (ma_with ma_empty (ip_into i)) (Udp p).

Definition is_p2p (p : Protocol) : bool :=
  match p with P2p _ => true | _ => false end.

Definition multiaddr_to_socketaddr (addr : Multiaddr) : option SocketAddr :=
  match ma_iter addr with
  | proto1 :: proto2 :: proto3 :: rest =>
      (* a /p2p/... suffix is ignored, anything else is refused *)
      if forallb is_p2p rest then
        match proto1, proto2, proto3 with
        | Ip4 i, Udp p, XWebRTC _ => Some (SocketAddr_new (IpV4 i) p)
        | Ip6 i, Udp p, XWebRTC _ => Some (SocketAddr_new (IpV6 i) p)
        | _, _, _ => None
        end
      else None
  | _ => None
  end.

(** The loop of [fingerprint_from_addr]: the first [XWebRTC] component *)
Fixpoint first_fingerprint (l : list Protocol) : option (list byte) :=
  match l with
  | [] => None
  | XWebRTC f :: _ => Some f
  | _ :: l => first_fingerprint l
  end.
Definition fingerprint_from_addr (addr : Multiaddr) : option (list byte) :=
  first_fingerprint (ma_iter addr).

(** [if let Some(Protocol::XWebRTC(f)) = addr.iter().last()] *)
Definition last_fingerprint (addr : Multiaddr) : option (list byte) :=
  match last (ma_iter addr) with Some (XWebRTC f) => Some f | _ => None end.
End operations.

(** ** A reference instance: the list of components *)

Module MultiaddrRef.
#[export] Instance api : MultiaddrApi := {|
  Multiaddr := list Protocol;
  PeerId := list byte;
  ma_empty := [];
  ma_with m p := m ++ [p];
  ma_iter m := m;
  ip_into i := match i with IpV4 a => Ip4 a | IpV6 a => Ip6 a end;
  try_from_multiaddr m :=
    match last m with Some (P2p h) => Some h | _ => None end;
|}.

#[export] Instance laws : MultiaddrLaws.
Proof. split; done. Qed.
End MultiaddrRef.

(** * Lemmas *)

Section lemmas.
Context `{MultiaddrLaws}.

(** The shape of the addresses a WebRTC peer is reached at *)
Definition webrtc_components (i : IpAddr) (p : Z) (f : list byte)
    (suffix : list (list byte)) : list Protocol :=
  [ip_into i; Udp p; XWebRTC f] ++ (P2p <$> suffix).

Lemma iter_ip_to_multiaddr i p : ma_iter (ip_to_multiaddr i p) = [ip_into i; Udp p].
Proof. unfold ip_to_multiaddr. by rewrite !iter_with, iter_empty. Qed.

Lemma forallb_p2p l : forallb is_p2p l = true ↔ ∃ hs, l = P2p <$> hs.
Proof.
  split.
  - induction l as [|p l IH]; [by exists []|]. cbn.
    intros [Hp Hl]%andb_true_iff. destruct (IH Hl) as [hs ->].
    destruct p; try done. by exists (multihash :: hs).
  - intros [hs ->]. by induction hs.
Qed.

Lemma webrtc_components_accepted m i p f hs :
  ma_iter m = webrtc_components i p f hs →
  multiaddr_to_socketaddr m = Some (SocketAddr_new i p).
Proof.
  intros Hm. unfold multiaddr_to_socketaddr. rewrite Hm. cbn.
  rewrite (proj2 (forallb_p2p _)) by eauto.
  by destruct i; rewrite ?ip_into_v4, ?ip_into_v6.
Qed.

Lemma accepted_components m a :
  multiaddr_to_socketaddr m = Some a →
  ∃ i p f hs, ma_iter m = webrtc_components i p f hs ∧ a = SocketAddr_new i p.
Proof.
  unfold multiaddr_to_socketaddr, webrtc_components.
  destruct (ma_iter m) as [|p1 [|p2 [|p3 rest]]]; try done.
  destruct (forallb is_p2p rest) eqn:Hrest; [|done].
  apply forallb_p2p in Hrest as [hs ->].
  destruct p1; try done; destruct p2; try done; destruct p3; try done;
    intros; simplify_eq; eexists (IpV4 _) + eexists (IpV6 _); repeat eexists;
    by rewrite ?ip_into_v4, ?ip_into_v6.
Qed.

Lemma webrtc_components_fingerprint m i p f hs :
  ma_iter m = webrtc_components i p f hs → fingerprint_from_addr m = Some f.
Proof.
  intros Hm. unfold fingerprint_from_addr. rewrite Hm.
  by destruct i; cbn; rewrite ?ip_into_v4, ?ip_into_v6.
Qed.

Lemma webrtc_components_last m i p f hs :
  ma_iter m = webrtc_components i p f hs →
  last_fingerprint m = if hs is [] then Some f else None.
Proof.
  intros Hm. unfold last_fingerprint. rewrite Hm. unfold webrtc_components.
  destruct hs as [|h hs _] using rev_ind; [done|].
  rewrite fmap_app. cbn [fmap list_fmap]. rewrite app_assoc, last_snoc.
  by destruct hs.
Qed.

Lemma iter_with_fingerprint i p f :
  ma_iter (ma_with (ip_to_multiaddr i p) (XWebRTC f)) = webrtc_components i p f [].
Proof. by rewrite iter_with, iter_ip_to_multiaddr. Qed.
End lemmas.

(** * Correctness *)

Section correctness.
Context `{MultiaddrLaws}.

(** C28: exactly the addresses made of an IP, a UDP port, a fingerprint and any
    number of peer ids have a socket address, that IP with that port. All of
    them have a fingerprint for a dialer; only those without a peer id have
    one for a listener, the same. *)
Theorem multiaddr_to_socketaddr_spec m a :
  multiaddr_to_socketaddr m = Some a ↔
  ∃ i p f hs, ma_iter m = webrtc_components i p f hs ∧ a = SocketAddr_new i p
              ∧ fingerprint_from_addr m = Some f
              ∧ last_fingerprint m = if hs is [] then Some f else None.
Proof.
  split.
  - intros (i & p & f & hs & Hm & ->)%accepted_components. exists i, p, f, hs.
    split_and!; [done|done|by eapply webrtc_components_fingerprint|
      by eapply webrtc_components_last].
  - intros (i & p & f & hs & Hm & -> & _). by apply webrtc_components_accepted with f hs.
Qed.
End correctness.

Module Witness.
Import MultiaddrRef.

(** With a peer id at the end *)
Definition addr : Multiaddr :=
  [Ip4 (mk_v4 127 0 0 1); Udp 4001; XWebRTC [Byte.xab]; P2p [Byte.x07]].

Lemma multiaddr_to_socketaddr_spec_witness :
  multiaddr_to_socketaddr addr = Some (V4 (mk_v4 127 0 0 1) 4001).
Proof.
  apply (proj2 (multiaddr_to_socketaddr_spec addr (V4 (mk_v4 127 0 0 1) 4001))).
  by exists (IpV4 (mk_v4 127 0 0 1)), 4001%Z, [Byte.xab], [[Byte.x07]].
Defined.
End Witness.
