(* ===== verification/Fingerprint.v ===== *)
(** * Certificate fingerprints

    [fingerprint_to_string] and [fingerprint_of_first_certificate] of
    [src/transport.rs], [hex_to_cow] of [src/udp_mux.rs]. The [hex] crate and
    [RTCCertificate] are the interfaces [HexApi] and [CertificateApi]. *)

From S2P Require Import Prelude RustString.
From Stdlib Require Strings.Byte.

(** ** Hexadecimal text *)

(** The value of a digit of either case *)
Definition hex_val (c : ascii) : option N :=
  let v := Ascii.N_of_ascii c in
  if in_range 48 57 v then Some (v - 48)%N
  else if in_range 97 102 v then Some (v - 87)%N
  else if in_range 65 70 v then Some (v - 55)%N
  else None.

Definition is_hex (c : ascii) : bool :=
  match hex_val c with Some _ => true | None => false end.

Definition byte_of_N (v : N) : byte := default Byte.x00 (Byte.of_N v).

(** What decoding a text of digit pairs means *)
Fixpoint hex_decode (s : string) : option (list byte) :=
  match s with
  | EmptyString => Some []
  | String _ EmptyString => None
  | String c (String d s) =>
      hi ← hex_val c; lo ← hex_val d; bs ← hex_decode s;
      Some (byte_of_N (hi * 16 + lo) :: bs)
  end.

(** ** The [hex] crate *)

(** [hex::decode_to_slice(s, &mut buf)], given the length of [buf]: the new
    contents of the slice, or an error. *)
Class HexApi := {
  HexError : Type;
  decode_to_slice : string → nat → result HexError (list byte);
}.

(** It succeeds exactly on the texts of digit pairs, in either case, that fill
    the slice. *)
Class HexLaws `{HexApi} : Prop :=
  decode_to_slice_ok s n bs :
    decode_to_slice s n = Ok bs ↔ hex_decode s = Some bs ∧ length bs = n.

(** ** Certificates *)

Class CertificateApi := {
  RTCCertificate : Type;
  CertificateError : Type;
  (** the [value] of each fingerprint of [get_fingerprints()] *)
  get_fingerprints : RTCCertificate → result CertificateError (list string);
}.

(** The one field of [RTCConfiguration] the transport sets; the others are
    those of [RTCConfiguration::default()]. *)
Record RTCConfiguration `{CertificateApi} := mk_config {
  certificates : list RTCCertificate
}.
Arguments mk_config {_} certificates.

(** ** Operations *)

Definition fingerprint_to_string (f : list byte) : string :=
  join ":" (format_02x <$> f).

(** [fingerprint.replace(':', "")], the user fragment and password *)
Definition without_colons (s : string) : string := replace_char colon s.

Definition hex_to_cow `{HexApi} {E} (s : string) : outcome E (list byte) :=
  unwrap (decode_to_slice s 32).

Definition fingerprint_of_first_certificate `{CertificateApi} {E}
    (config : RTCConfiguration) : outcome E string :=
  cert ← unwrap_opt (head (certificates config));
  fingerprints ← unwrap (get_fingerprints cert);
  unwrap_opt (head fingerprints).

(** ** Reference instances *)

Module HexRef.
#[export] Instance api : HexApi := {|
  HexError := unit;
  decode_to_slice s n :=
    match hex_decode s with
    | Some bs => if bool_decide (length bs = n) then Ok bs else Err ()
    | None => Err ()
    end;
|}.

#[export] Instance laws : HexLaws.
Proof.
  intros s n bs. cbn. destruct (hex_decode s) as [bs'|]; [|naive_solver].
  case_bool_decide; naive_solver.
Qed.
End HexRef.

Module CertificateRef.
(** A certificate is the bytes of its fingerprint. *)
#[export] Instance api : CertificateApi := {|
  RTCCertificate := list byte;
  CertificateError := unit;
  get_fingerprints f := Ok [fingerprint_to_string f];
|}.
End CertificateRef.

(** * Lemmas *)

(** Two steps at a time *)
Lemma string_pair_ind (P : string → Prop) :
  P "" → (∀ c, P (String c "")) → (∀ c d s, P s → P (String c (String d s))) →
  ∀ s, P s.
Proof.
  intros H0 H1 H2. fix IH 1. intros [|c [|d s]]; [apply H0|apply H1|].
  apply H2, IH.
Qed.

Lemma hex_decode_format_02x b s :
  hex_decode (format_02x b +:+ s) = (bs ← hex_decode s; Some (b :: bs)).
Proof. by destruct b. Qed.

Lemma hex_decode_concat f : hex_decode (concat_str (format_02x <$> f)) = Some f.
Proof.
  induction f as [|b f IH]; [done|]. rewrite fmap_cons. cbn [concat_str].
  by rewrite hex_decode_format_02x, IH.
Qed.

Lemma without_colons_format_02x b : without_colons (format_02x b) = format_02x b.
Proof.
  apply replace_char_id. eapply str_all_impl; [|apply format_02x_lower_hex].
  auto with rust.
Qed.

(** Without its colons a fingerprint is the plain hexadecimal text. *)
Lemma without_colons_fingerprint f :
  without_colons (fingerprint_to_string f) = concat_str (format_02x <$> f).
Proof.
  unfold without_colons, fingerprint_to_string.
  rewrite replace_char_join by done. f_equal. rewrite <-list_fmap_compose.
  apply list_fmap_ext. intros. apply without_colons_format_02x.
Qed.

Lemma hex_decode_fingerprint f :
  hex_decode (without_colons (fingerprint_to_string f)) = Some f.
Proof. by rewrite without_colons_fingerprint, hex_decode_concat. Qed.

#[global] Instance fingerprint_to_string_inj : Inj (=) (=) fingerprint_to_string.
Proof.
  intros f g E. apply (f_equal (λ s, hex_decode (without_colons s))) in E.
  rewrite !hex_decode_fingerprint in E. by injection E.
Qed.

Definition is_fingerprint_char (c : ascii) : bool := is_lower_hex c || Ascii.eqb c colon.

Lemma fingerprint_to_string_chars f :
  str_all is_fingerprint_char (fingerprint_to_string f).
Proof.
  apply str_all_join; [done|]. apply Forall_fmap, Forall_true. intros b.
  apply (str_all_impl is_lower_hex); [|apply format_02x_lower_hex].
  unfold is_fingerprint_char. intros. rewrite orb_True. auto.
Qed.

Lemma without_colons_chars f :
  str_all is_lower_hex (without_colons (fingerprint_to_string f)).
Proof.
  rewrite without_colons_fingerprint. apply str_all_concat, Forall_fmap, Forall_true.
  intros. apply format_02x_lower_hex.
Qed.

Lemma without_colons_no_colon f :
  str_all (λ c, negb (Ascii.eqb c colon)) (without_colons (fingerprint_to_string f)).
Proof. apply replace_char_free. Qed.

Lemma fingerprint_chars_ascii f : str_all is_ascii_char (fingerprint_to_string f).
Proof.
  apply (str_all_impl is_fingerprint_char); [|apply fingerprint_to_string_chars].
  intros c. unfold is_fingerprint_char. rewrite orb_True. intros [?|?]; [auto with rust|].
  destruct (Ascii.eqb_spec c colon); by subst.
Qed.

Lemma length_fingerprint_to_string f :
  f ≠ [] → String.length (fingerprint_to_string f) = 3 * length f - 1.
Proof.
  induction f as [|b [|b' f] IH]; intros; [done..|].
  change (fingerprint_to_string (b :: b' :: f)) with
    (format_02x b +:+ ":" +:+ fingerprint_to_string (b' :: f)).
  rewrite !length_append, IH by done. cbn. lia.
Qed.

Lemma length_hex_decode s bs : hex_decode s = Some bs → String.length s = 2 * length bs.
Proof.
  revert bs. induction s as [|c|c d s IH] using string_pair_ind; intros bs;
    cbn; intros; simplify_option_eq; [done|].
  rewrite (IH _ eq_refl). cbn. lia.
Qed.

(** A text decodes exactly when it is made of digit pairs. *)
Lemma hex_decode_is_Some s :
  is_Some (hex_decode s) ↔ Nat.Even (String.length s) ∧ str_all is_hex s.
Proof.
  induction s as [|c|c d s IH] using string_pair_ind; cbn [hex_decode str_all String.length].
  - split; [|by eexists]. split; [by exists 0|done].
  - split; [by intros [? ?]|]. intros [[k Hk] _]. lia.
  - rewrite Nat.Even_succ_succ, !andb_True. unfold is_hex at 1 2.
    destruct (hex_val c), (hex_val d); cbn.
    + destruct (hex_decode s); cbn; split; intros Hd; try done.
      * destruct IH as [[? ?] _]; [by eexists|]. done.
      * exfalso. destruct IH as [_ [? [=]]]. tauto.
    + split; [by intros []|tauto].
    + split; [by intros []|tauto].
    + split; [by intros []|tauto].
Qed.

Section lemmas.
Context `{HexLaws}.

Lemma hex_to_cow_Done {E} s f :
  hex_to_cow (E := E) s = Done f ↔ hex_decode s = Some f ∧ length f = 32.
Proof.
  rewrite <-decode_to_slice_ok. unfold hex_to_cow.
  destruct (decode_to_slice s 32); naive_solver.
Qed.

Lemma hex_to_cow_not_Fail {E} s (e : E) : hex_to_cow s ≠ Fail e.
Proof. unfold hex_to_cow. by destruct (decode_to_slice s 32). Qed.

Lemma hex_to_cow_fingerprint {E} f :
  length f = 32 →
  hex_to_cow (E := E) (without_colons (fingerprint_to_string f)) = Done f.
Proof. intros. rewrite hex_to_cow_Done. by rewrite hex_decode_fingerprint. Qed.

Lemma hex_to_cow_panic_iff {E} s :
  hex_to_cow (E := E) s = Panic ↔ ¬ (String.length s = 64 ∧ str_all is_hex s).
Proof.
  destruct (hex_to_cow s) as [f|e|] eqn:Hs.
  - split; [done|]. intros []. apply hex_to_cow_Done in Hs as [Hs Hf].
    split; [rewrite (length_hex_decode _ _ Hs); lia|].
    apply hex_decode_is_Some. by eexists.
  - by apply hex_to_cow_not_Fail in Hs.
  - split; [|done]. intros _ [Hl Hh].
    destruct (proj2 (hex_decode_is_Some s)) as [f Hf].
    { split; [exists 32; lia|done]. }
    pose proof (length_hex_decode _ _ Hf).
    assert (hex_to_cow (E := E) s = Done f) by (apply hex_to_cow_Done; auto with lia).
    congruence.
Qed.
End lemmas.

(** * Correctness *)

Section correctness.
Context `{HexLaws}.

(** C26: a fingerprint printed, stripped of its colons and decoded is itself, so
    an ICE user fragment determines the certificate. Its text is 95 ASCII
    characters, which survive the conversion to bytes and back. *)
Theorem fingerprint_hex_roundtrip {E} f :
  length f = 32 →
  hex_to_cow (E := E) (without_colons (fingerprint_to_string f)) = Done f
  ∧ String.length (fingerprint_to_string f) = 95
  ∧ from_utf8 (into_bytes (fingerprint_to_string f)) = Ok (fingerprint_to_string f).
Proof.
  intros Hf. split; [by apply hex_to_cow_fingerprint|]. split.
  - rewrite length_fingerprint_to_string; [lia|by intros ->].
  - apply from_utf8_ascii, fingerprint_chars_ascii.
Qed.
End correctness.

Module Witness.
Import HexRef.

Lemma fingerprint_hex_roundtrip_witness :
  hex_to_cow (E := ()) (without_colons (fingerprint_to_string (replicate 32 Byte.xab)))
    = Done (replicate 32 Byte.xab).
Proof. apply (fingerprint_hex_roundtrip (E := ()) (replicate 32 Byte.xab) eq_refl). Defined.
End Witness.
