(* ===== verification/Errors.v ===== *)
(** * Errors

    [std::io::Error] and [webrtc_util::Error] as far as the source names them,
    and the [Error] of [src/error.rs]. The errors of the libraries that
    [Error] wraps are the interface [ErrorTypes]. *)

From S2P Require Import Prelude RustString Net Multiaddr.

(** ** [std::io] *)

Inductive IoErrorKind := TimedOut | Other | OtherIoKind (code : Z).

(** [io::Error::new(kind, msg)] *)
Record io_error := io_error_new { io_kind : IoErrorKind; io_msg : string }.

(** ** [webrtc_util::Error]: the variants the source names *)

Inductive UtilError :=
| UtilIo (kind : IoErrorKind)
| ErrAlreadyClosed
| ErrUseClosedNetworkConn
| UtilOther (msg : string)
| OtherUtilError (name : string).

#[global] Instance IoErrorKind_eq_dec : EqDecision IoErrorKind.
Proof. solve_decision. Defined.
#[global] Instance io_error_eq_dec : EqDecision io_error.
Proof. solve_decision. Defined.
#[global] Instance UtilError_eq_dec : EqDecision UtilError.
Proof. solve_decision. Defined.

(** ** [Error] of the crate *)

(** [webrtc::Error] and [libp2p_noise::NoiseError] *)
Class ErrorTypes := {
  WebRTCError : Type;
  display_webrtc_error : WebRTCError → string;
  NoiseError : Type;
  AuthenticationFailed : NoiseError;
}.

Inductive Error `{MultiaddrApi, ErrorTypes} :=
| InvalidMultiaddr (m : Multiaddr)
| WebRTC (e : WebRTCError)
| IoError (e : io_error)
| Noise (e : NoiseError)
| InvalidFingerprint (expected got : string)
| InvalidPeerID (expected : option PeerId) (got : PeerId)
| InternalError (msg : string).

Module ErrorRef.
#[export] Instance types : ErrorTypes := {|
  WebRTCError := unit;
  display_webrtc_error _ := "closed";
  NoiseError := unit;
  AuthenticationFailed := tt;
|}.
End ErrorRef.
