(* ===== verification/Stun.v ===== *)
(** * User fragments of STUN messages

    [ufrag_from_stun_message] of [src/udp_mux.rs]. Decoding a STUN message is
    the [stun] crate's: the interface [StunApi]. *)

From S2P Require Import Prelude RustString Errors.

(** ** The [stun] crate *)

(** [attributes_get] is [Attributes::get]: the attribute's value, and whether
    it was found. *)
Class StunApi := {
  StunError : Type;
  Attributes : Type;
  ATTR_USERNAME : Z;
  is_stun_message : list byte → bool;
  unmarshal_binary : list byte → result StunError Attributes;
  attributes_get : Attributes → Z → list byte * bool;
  display_stun_error : StunError → string;
}.

(** ** Operations *)

Section operations.
Context `{StunApi}.

Definition ufrag_from_stun_message (buffer : list byte) (local_ufrag : bool)
    : result UtilError string :=
  match unmarshal_binary buffer with
  | Err err =>
      Err (UtilOther ("failed to handle decode ICE: " +:+ display_stun_error err))
  | Ok attributes =>
      let '(value, found) := attributes_get attributes ATTR_USERNAME in
      if negb found then
        Err (UtilOther "no username attribute in STUN message")
      else
        match from_utf8 value with
        | Err err =>
            Err (UtilOther ("failed to decode USERNAME from STUN message as UTF-8: "
                            +:+ display_utf8_error err))
        | Ok s =>
            let res := if local_ufrag then head (split_char colon s)
                       else last (split_char colon s) in
            match res with
            | Some s => Ok s
            | None => Err (UtilOther "can't get ufrag from username")
            end
        end
  end.

(** The bytes are a STUN message whose user name is the given text. *)
Definition stun_username (buffer : list byte) (s : string) : Prop :=
  ∃ attributes, unmarshal_binary buffer = Ok attributes
    ∧ attributes_get attributes ATTR_USERNAME = (into_bytes s, true)
    ∧ from_utf8 (into_bytes s) = Ok s.
End operations.

(** ** A reference instance

    A STUN message is a one byte tag followed by its user name, up to a zero
    byte. *)

Module StunRef.
Definition tag : byte := Byte.x01.
Definition until_zero (l : list byte) : list byte :=
  List.fold_right (λ b r, if bool_decide (b = Byte.x00) then [] else b :: r) [] l.

#[export] Instance api : StunApi := {|
  StunError := unit;
  Attributes := list byte;
  ATTR_USERNAME := 6;
  is_stun_message l := match l with b :: _ => bool_decide (b = tag) | [] => false end;
  unmarshal_binary l :=
    match l with
    | b :: l => if bool_decide (b = tag) then Ok (until_zero l) else Err ()
    | [] => Err ()
    end;
  attributes_get a ty := if bool_decide (ty = 6%Z) then (a, true) else ([], false);
  display_stun_error _ := "unexpected EOF";
|}.

Definition message (username : string) : list byte := tag :: into_bytes username.
End StunRef.

(** * Lemmas *)

Section lemmas.
Context `{StunApi}.

Lemma ufrag_of_username buffer s local_ufrag :
  stun_username buffer s →
  ufrag_from_stun_message buffer local_ufrag =
    match (if local_ufrag then head else last) (split_char colon s) with
    | Some u => Ok u
    | None => Err (UtilOther "can't get ufrag from username")
    end.
Proof.
  intros (attributes & Hu & Hg & Hs). unfold ufrag_from_stun_message.
  rewrite Hu, Hg, Hs. by destruct local_ufrag.
Qed.

Lemma ufrag_Ok_username buffer local_ufrag u :
  ufrag_from_stun_message buffer local_ufrag = Ok u → ∃ s, stun_username buffer s.
Proof.
  unfold ufrag_from_stun_message, stun_username.
  destruct (unmarshal_binary buffer) as [a|]; [|done].
  destruct (attributes_get a ATTR_USERNAME) as [v []] eqn:Hg; [|done]. cbn.
  destruct (from_utf8 v) as [s|] eqn:Hs; [|done]. intros _.
  pose proof (from_utf8_bytes _ _ Hs) as Hv. exists s, a. by rewrite Hv.
Qed.
End lemmas.

Lemma last_split_char_free s :
  str_all (λ d, negb (Ascii.eqb d colon)) s → last (split_char colon s) = Some s.
Proof. intros. by rewrite split_char_free. Qed.

(** The user name of a connectivity check: two fragments and a colon *)
Definition username (local remote : string) : string := local +:+ ":" +:+ remote.

Lemma split_username local remote :
  str_all (λ d, negb (Ascii.eqb d colon)) local →
  str_all (λ d, negb (Ascii.eqb d colon)) remote →
  split_char colon (username local remote) = [local; remote].
Proof.
  intros Hl Hr. change (username local remote) with (local +:+ String colon remote).
  by rewrite split_char_append, split_char_free.
Qed.

Lemma ufrag_of_pair `{StunApi} buffer local remote b :
  stun_username buffer (username local remote) →
  str_all (λ d, negb (Ascii.eqb d colon)) local →
  str_all (λ d, negb (Ascii.eqb d colon)) remote →
  ufrag_from_stun_message buffer b = Ok (if b then local else remote).
Proof.
  intros Hu Hl Hr. by rewrite (ufrag_of_username _ _ _ Hu), split_username by done;
    destruct b.
Qed.

(** The fragment is at the start, or at the end, of the user name, which goes on
    after, or before, a colon, or not at all. *)
Definition at_end (local_ufrag : bool) (s u : string) : Prop :=
  s = u ∨ ∃ rest, s = if local_ufrag then u +:+ String colon rest
                      else rest +:+ String colon u.

Lemma join_snoc sep l s : l ≠ [] → join sep (l ++ [s]) = join sep l +:+ sep +:+ s.
Proof.
  induction l as [|p [|q l] IH]; [done..|]. intros _.
  change (join sep ((p :: q :: l) ++ [s])) with (p +:+ sep +:+ join sep ((q :: l) ++ [s])).
  rewrite IH by done. change (join sep (p :: q :: l)) with (p +:+ sep +:+ join sep (q :: l)).
  by rewrite !append_assoc.
Qed.

Lemma fragment_at_end (local_ufrag : bool) s u :
  (if local_ufrag then head (split_char colon s) else last (split_char colon s)) = Some u →
  str_all (λ d, negb (Ascii.eqb d colon)) u ∧ at_end local_ufrag s u.
Proof.
  pose proof (split_char_pieces colon s) as Hp. pose proof (join_split_char colon s) as Hj.
  revert Hp Hj. generalize (split_char colon s). intros l Hp <- Hu. unfold at_end.
  destruct local_ufrag.
  - destruct l as [|p l]; [done|]. injection Hu as ->. apply Forall_cons in Hp as [Hp _].
    split; [done|]. destruct l as [|q l]; [by left|]. right. by eexists.
  - destruct (last_Some l u) as [(l' & ->) _]; [done|]. apply Forall_app in Hp as [_ Hp].
    split; [by inversion Hp|]. destruct l' as [|q l']; [by left|].
    right. eexists. by rewrite join_snoc.
Qed.

(** * Correctness *)

Section correctness.
Context `{StunApi}.

(** The user name of a connectivity check is two fragments and a colon; the
    first one is the local fragment, the last one the remote's. *)
Lemma ufrag_from_stun_message_pair buffer local remote :
  stun_username buffer (username local remote) →
  str_all (λ d, negb (Ascii.eqb d colon)) local →
  str_all (λ d, negb (Ascii.eqb d colon)) remote →
  ufrag_from_stun_message buffer true = Ok local
  ∧ ufrag_from_stun_message buffer false = Ok remote.
Proof. intros. by split; rewrite (ufrag_of_pair _ local remote). Qed.

(** C34: for any bytes: a user name that is there and is text gives the part
    before its first colon, or after its last one, or all of it when it has
    none, and that part has no colon; of two fragments and a colon it gives the
    one asked for; anything else gives the error of what is missing, and the
    last error of the source is never returned. *)
Theorem ufrag_from_stun_message_spec buffer local_ufrag :
  match ufrag_from_stun_message buffer local_ufrag with
  | Ok u =>
      ∃ s, stun_username buffer s ∧ at_end local_ufrag s u
           ∧ str_all (λ d, negb (Ascii.eqb d colon)) u
           ∧ ∀ l r, s = username l r →
               str_all (λ d, negb (Ascii.eqb d colon)) l →
               str_all (λ d, negb (Ascii.eqb d colon)) r →
               u = if local_ufrag then l else r
  | Err e =>
      (∃ err, unmarshal_binary buffer = Err err
              ∧ e = UtilOther ("failed to handle decode ICE: " +:+ display_stun_error err))
      ∨ ∃ a v found, unmarshal_binary buffer = Ok a
          ∧ attributes_get a ATTR_USERNAME = (v, found)
          ∧ ((found = false ∧ e = UtilOther "no username attribute in STUN message")
             ∨ ∃ err, found = true ∧ from_utf8 v = Err err
                 ∧ e = UtilOther ("failed to decode USERNAME from STUN message as UTF-8: "
                                  +:+ display_utf8_error err))
  end.
Proof.
  destruct (ufrag_from_stun_message buffer local_ufrag) as [u|e] eqn:E.
  - destruct (ufrag_Ok_username _ _ _ E) as [s Hs]. exists s. split; [done|].
    assert ((if local_ufrag then head (split_char colon s) else last (split_char colon s))
      = Some u) as [Hfree Hend]%fragment_at_end.
    { rewrite (ufrag_of_username _ _ _ Hs) in E. by destruct local_ufrag; case_match; simplify_eq. }
    split_and!; [done..|].
    intros l r -> Hl Hr. rewrite (ufrag_of_pair _ l r) in E by done. by simplify_eq.
  - unfold ufrag_from_stun_message in E.
    destruct (unmarshal_binary buffer) as [a|err]; [right|left; by simplify_eq; eexists].
    destruct (attributes_get a ATTR_USERNAME) as [v []] eqn:Hg; exists a, v;
      [exists true|exists false]; split_and!; try done; cbn in E; [right|left; by simplify_eq].
    destruct (from_utf8 v) as [s|err]; [|by simplify_eq; eexists].
    pose proof (split_char_nonempty colon s).
    destruct local_ufrag; case_match eqn:Hn; simplify_eq.
    + by apply head_None in Hn.
    + by apply last_None in Hn.
Qed.
End correctness.

Module Witness.
Import StunRef.

Lemma ufrag_from_stun_message_pair_witness :
  ufrag_from_stun_message (message "ab:cd") false = Ok "cd".
Proof.
  apply (ufrag_from_stun_message_pair (message "ab:cd") "ab" "cd"); [|done..].
  by exists (into_bytes "ab:cd").
Defined.
End Witness.
