(* ===== verification/Prog.v ===== *)
(** * Interaction programs

    An [async fn] is a program that performs events, one after the other, and
    continues with their answers. A program is run against a handler that
    answers from a state ([run]), against a recorded trace ([exec]), or as a
    thread among others, the scheduler choosing which thread performs its next
    event ([pool_step]). *)

From S2P Require Import Prelude.

(** ** Programs *)

Inductive prog (E : Type → Type) (R : Type) : Type :=
| Ret (r : R)
| Vis {X : Type} (e : E X) (k : X → prog E R).
Arguments Ret {E R} r.
Arguments Vis {E R X} e k.

Fixpoint prog_bind_ {E A B} (f : A → prog E B) (p : prog E A) : prog E B :=
  match p with
  | Ret a => f a
  | Vis e k => Vis e (λ x, prog_bind_ f (k x))
  end.

#[global] Instance prog_ret E : MRet (prog E) := @Ret E.
#[global] Instance prog_bind E : MBind (prog E) := λ A B f p, prog_bind_ f p.

Definition trigger {E X} (e : E X) : prog E X := Vis e Ret.

(** Programs that return a [Result], use [?] and may panic *)
Definition may (E : Type → Type) (Er A : Type) : Type := prog E (outcome Er A).

Definition may_bind {E Er A B} (p : may E Er A) (f : A → may E Er B) : may E Er B :=
  mbind (M := prog E) (λ o : outcome Er A,
    match o with
    | Done a => f a
    | Fail e => Ret (Fail e)
    | Panic => Ret Panic
    end) p.

(** [let! x := p in q]: [q] runs when [p] is done; a failure or a panic of [p]
    is that of the whole. [p ;;; q] ignores the value. *)
Notation "'let!' x ':=' p 'in' q" := (may_bind p (λ x, q))
  (at level 10, x name, p at level 200, q at level 200) : rust_scope.
Notation "p ;;; q" := (may_bind p (λ _, q))
  (at level 100, q at level 200, right associativity) : rust_scope.

Definition pure_ {E Er A} (o : outcome Er A) : may E Er A := Ret o.
Definition returns {E Er A} (a : A) : may E Er A := Ret (Done a).
Definition throws {E Er A} (e : Er) : may E Er A := Ret (Fail e).

(** An event that cannot fail; [call(..).await?] with its error converted;
    [call(..).unwrap()] *)
Definition call {E Er X} (e : E X) : may E Er X := Vis e (λ x, Ret (Done x)).
Definition call_try {E Er Er' A} (conv : Er' → Er) (e : E (result Er' A)) : may E Er A :=
  Vis e (λ r, Ret (try_ (map_err conv r))).
Definition call_unwrap {E Er Er' A} (e : E (result Er' A)) : may E Er A :=
  Vis e (λ r, Ret (unwrap r)).

(** ** Traces *)

(** An event together with its answer *)
Inductive obs (E : Type → Type) : Type :=
| Obs {X : Type} (e : E X) (x : X).
Arguments Obs {E X} e x.

(** The program performs the trace and returns [r]. *)
Fixpoint exec {E R} (p : prog E R) (tr : list (obs E)) (r : R) : Prop :=
  match p with
  | Ret r' => tr = [] ∧ r = r'
  | Vis e k => ∃ x tr', tr = Obs e x :: tr' ∧ exec (k x) tr' r
  end.

(** ** Running against a state *)

Fixpoint run {E S R} (h : ∀ X, E X → S → S * X) (p : prog E R) (s : S) : S * R :=
  match p with
  | Ret r => (s, r)
  | Vis e k => let '(s', x) := h _ e s in run h (k x) s'
  end.

(** The trace of that run *)
Fixpoint run_trace {E S R} (h : ∀ X, E X → S → S * X) (p : prog E R) (s : S)
    : list (obs E) :=
  match p with
  | Ret _ => []
  | Vis e k => let '(s', x) := h _ e s in Obs e x :: run_trace h (k x) s'
  end.

(** ** Threads *)

(** A configuration is the shared state and the programs still running. *)
Inductive pool_step {E S R} (h : ∀ X, E X → S → S * X) :
  S * list (prog E R) → S * list (prog E R) → Prop :=
| pool_event s s' X (e : E X) k x ts1 ts2 :
    h X e s = (s', x) →
    pool_step h (s, ts1 ++ Vis e k :: ts2) (s', ts1 ++ k x :: ts2).

(** * Lemmas *)

Section lemmas.
Context {E : Type → Type} {Er : Type}.

Lemma exec_bind {A B} (p : prog E A) (f : A → prog E B) tr r :
  exec (p ≫= f) tr r ↔ ∃ tr1 tr2 a, tr = tr1 ++ tr2 ∧ exec p tr1 a ∧ exec (f a) tr2 r.
Proof.
  revert tr. induction p as [a|X e k IH]; intros tr; cbn.
  - split; [intros; by exists [], tr, a|]. by intros (? & ? & ? & -> & [-> ->] & ?).
  - split.
    + intros (x & tr' & -> & (tr1 & tr2 & a & -> & H1 & H2)%IH).
      exists (Obs e x :: tr1), tr2, a. naive_solver.
    + intros (tr1 & tr2 & a & -> & (x & tr' & -> & H1) & H2).
      exists x, (tr' ++ tr2). split; [done|]. apply IH. naive_solver.
Qed.

(** Every run is an execution. *)
Lemma exec_run {S R} (h : ∀ X, E X → S → S * X) (p : prog E R) s :
  exec p (run_trace h p s) (run h p s).2.
Proof.
  revert s. induction p as [r|X e k IH]; intros s; cbn; [done|].
  destruct (h X e s) as [s' x]. eauto.
Qed.

Lemma run_bind {S A B} (h : ∀ X, E X → S → S * X) (p : prog E A) (f : A → prog E B) s :
  run h (p ≫= f) s = let '(s', a) := run h p s in run h (f a) s'.
Proof.
  revert s. induction p as [r|X e k IH]; intros s; cbn; [done|].
  destruct (h X e s) as [s' x]. apply IH.
Qed.

(** ** Sequences, by how they end *)

Lemma exec_may_bind {A B} (p : may E Er A) (f : A → may E Er B) tr r :
  exec (may_bind p f) tr r ↔
  (∃ tr1 tr2 a, tr = tr1 ++ tr2 ∧ exec p tr1 (Done a) ∧ exec (f a) tr2 r)
  ∨ (∃ e, exec p tr (Fail e) ∧ r = Fail e)
  ∨ (exec p tr Panic ∧ r = Panic).
Proof.
  unfold may_bind. rewrite exec_bind. split.
  - intros (tr1 & tr2 & [a|e|] & -> & H1 & H2); cbn in H2.
    + left. eauto 10.
    + destruct H2 as [-> ->]. rewrite app_nil_r. eauto.
    + destruct H2 as [-> ->]. rewrite app_nil_r. eauto.
  - intros [(tr1 & tr2 & a & -> & H1 & H2)|[(e & H1 & ->)|[H1 ->]]].
    + by exists tr1, tr2, (Done a).
    + exists tr, [], (Fail e). by rewrite app_nil_r.
    + exists tr, [], Panic. by rewrite app_nil_r.
Qed.

Lemma exec_may_bind_Done {A B} (p : may E Er A) (f : A → may E Er B) tr b :
  exec (may_bind p f) tr (Done b) ↔
  ∃ tr1 tr2 a, tr = tr1 ++ tr2 ∧ exec p tr1 (Done a) ∧ exec (f a) tr2 (Done b).
Proof.
  rewrite exec_may_bind. split; [|by left].
  by intros [?|[(? & ? & ?)|[? ?]]].
Qed.

Lemma exec_may_bind_Panic {A B} (p : may E Er A) (f : A → may E Er B) tr :
  exec (may_bind p f) tr Panic ↔
  (∃ tr1 tr2 a, tr = tr1 ++ tr2 ∧ exec p tr1 (Done a) ∧ exec (f a) tr2 Panic)
  ∨ exec p tr Panic.
Proof.
  rewrite exec_may_bind. split.
  - intros [?|[(? & ? & ?)|[? ?]]]; [by left|done|by right].
  - intros [?|?]; [by left|by right; right].
Qed.

Lemma exec_may_bind_Fail {A B} (p : may E Er A) (f : A → may E Er B) tr e :
  exec (may_bind p f) tr (Fail e) ↔
  (∃ tr1 tr2 a, tr = tr1 ++ tr2 ∧ exec p tr1 (Done a) ∧ exec (f a) tr2 (Fail e))
  ∨ exec p tr (Fail e).
Proof.
  rewrite exec_may_bind. split.
  - intros [?|[(? & ? & ?)|[? ?]]]; [by left|simplify_eq; by right|done].
  - intros [?|?]; [by left|right; left; eauto].
Qed.

(** ** Single calls, by how they end *)

Lemma exec_returns {A} (a : A) tr r :
  exec (returns (E := E) (Er := Er) a) tr r ↔ tr = [] ∧ r = Done a.
Proof. done. Qed.

Lemma exec_throws {A} e tr (r : outcome Er A) :
  exec (throws (E := E) e) tr r ↔ tr = [] ∧ r = Fail e.
Proof. done. Qed.

Lemma exec_pure {A} (o : outcome Er A) tr r :
  exec (pure_ (E := E) o) tr r ↔ tr = [] ∧ r = o.
Proof. done. Qed.

Lemma exec_call {X} (e : E X) tr (r : outcome Er X) :
  exec (call e) tr r ↔ ∃ x, tr = [Obs e x] ∧ r = Done x.
Proof. cbn. naive_solver. Qed.

Lemma exec_call_try {Er' A} (conv : Er' → Er) (e : E (result Er' A)) tr r :
  exec (call_try conv e) tr r ↔
  (∃ a, tr = [Obs e (Ok a)] ∧ r = Done a)
  ∨ (∃ err, tr = [Obs e (Err err)] ∧ r = Fail (conv err)).
Proof.
  cbn. split; [intros ([a|err] & ? & ? & ? & ?); naive_solver|].
  intros [(a & -> & ->)|(err & -> & ->)]; [by exists (Ok a), []|by exists (Err err), []].
Qed.

Lemma exec_call_unwrap {Er' A} (e : E (result Er' A)) tr (r : outcome Er A) :
  exec (call_unwrap e) tr r ↔
  (∃ a, tr = [Obs e (Ok a)] ∧ r = Done a) ∨ (∃ err, tr = [Obs e (Err err)] ∧ r = Panic).
Proof.
  cbn. split; [intros ([a|err] & ? & ? & ? & ?); naive_solver|].
  intros [(a & -> & ->)|(err & -> & ->)]; [by exists (Ok a), []|by exists (Err err), []].
Qed.
End lemmas.

(** The threads of a pool that runs one thread at a time, from start to end,
    end as [run] says: the sequential composition is one of the schedules. *)
Lemma pool_run {E S R} (h : ∀ X, E X → S → S * X) (p : prog E R) s ts1 ts2 :
  rtc (pool_step h) (s, ts1 ++ p :: ts2)
    ((run h p s).1, ts1 ++ Ret (run h p s).2 :: ts2).
Proof.
  revert s. induction p as [r|X e k IH]; intros s; cbn; [done|].
  destruct (h X e s) as [s' x] eqn:Hh.
  eapply rtc_l; [by constructor|]. apply IH.
Qed.

(** Taking a completed execution apart, one call at a time *)
Ltac exec_step H :=
  lazymatch type of H with
  | exec (may_bind _ _) _ (Done _) =>
      let H' := fresh "Hx" in
      apply exec_may_bind_Done in H as (? & ? & ? & -> & H' & H); exec_step H'
  | exec (call_try _ _) _ (Done _) =>
      apply exec_call_try in H as [(? & -> & [= ->])|(? & _ & [=])]
  | exec (call_unwrap _) _ (Done _) =>
      apply exec_call_unwrap in H as [(? & -> & [= ->])|(? & _ & [=])]
  | exec (call _) _ (Done _) => apply exec_call in H as (? & -> & [= ->])
  | exec (returns _) _ (Done _) => apply exec_returns in H as [-> H]; (injection H as -> || clear H)
  | exec (throws _) _ (Done _) => apply exec_throws in H as [_ [=]]
  | exec (pure_ _) _ (Done _) => apply exec_pure in H as [-> H]
  | _ => idtac
  end.
Ltac exec_steps H := repeat (progress exec_step H).

(** The same for an execution that panicked: what panics is left *)
Ltac panic_step H :=
  lazymatch type of H with
  | exec (may_bind _ _) _ Panic =>
      let H' := fresh "Hpre" in
      apply exec_may_bind_Panic in H as [(? & ? & ? & -> & H' & H)|H]
  | exec (call_try _ _) _ Panic =>
      apply exec_call_try in H as [(? & _ & [=])|(? & _ & [=])]
  | exec (call_unwrap _) _ Panic =>
      apply exec_call_unwrap in H as [(? & _ & [=])|(? & -> & _)]
  | exec (call _) _ Panic => apply exec_call in H as (? & _ & [=])
  | exec (returns _) _ Panic => apply exec_returns in H as [_ [=]]
  | exec (throws _) _ Panic => apply exec_throws in H as [_ [=]]
  | exec (pure_ _) _ Panic => apply exec_pure in H as [-> H]
  | exec (match ?x with _ => _ end) _ Panic => destruct x eqn:?
  end.
Ltac panic_steps H := repeat (panic_step H).

(** An event is in a trace written as appended and consed pieces. *)
Ltac in_trace :=
  cbn [app];
  first [ apply list_elem_of_here
        | apply list_elem_of_further; in_trace
        | apply elem_of_app; left; in_trace
        | apply elem_of_app; right; in_trace
        | assumption ].
