(* ===== verification/Threads.v ===== *)
(** * Threads

    Programs that run together on one state: schedules, invariants that every
    event keeps, and rely-guarantee reasoning about one thread among others
    whose events are only known to respect a relation. *)

From S2P Require Import Prelude Prog.

(** ** Schedules *)

Section schedules.
Context {E : Type → Type} {S R : Type} (h : ∀ X, E X → S → S * X).

#[local] Abbreviation config := (S * list (prog E R))%type.

(** Thread [i] performs its next event, if it has one. *)
Definition sched_step (i : nat) (c : config) : config :=
  match c.2 !! i with
  | Some (Vis e k) => let '(s, x) := h _ e c.1 in (s, <[i := k x]> c.2)
  | _ => c
  end.

Fixpoint sched (l : list nat) (c : config) : config :=
  match l with
  | [] => c
  | i :: l => sched l (sched_step i c)
  end.

Lemma sched_step_steps i c : rtc (pool_step h) c (sched_step i c).
Proof.
  destruct c as [s ts]. unfold sched_step. cbn.
  destruct (ts !! i) as [[r|X e k]|] eqn:Hi; [done| |done].
  destruct (h X e s) as [s' x] eqn:Hh. apply rtc_once.
  apply take_drop_middle in Hi as Hts.
  assert (length (take i ts) = i) as Hl.
  { apply length_take_le, Nat.lt_le_incl. by eapply lookup_lt_Some. }
  rewrite <-Hts at 1. replace (<[i := k x]> ts) with (take i ts ++ k x :: drop (Datatypes.S i) ts).
  - by constructor.
  - rewrite <-Hts at 3. rewrite <-Hl at 3. by rewrite list_insert_middle.
Qed.

Lemma sched_steps l c : rtc (pool_step h) c (sched l c).
Proof.
  revert c. induction l as [|i l IH]; intros c; [done|]. cbn.
  etrans; [apply sched_step_steps|apply IH].
Qed.

(** The next event of one thread *)
Definition thread_step (p : prog E R) (s : S) : option (S * prog E R) :=
  match p with
  | Ret _ => None
  | Vis e k => let '(s', x) := h _ e s in Some (s', k x)
  end.

(** A step is a step of one of the threads. *)
Lemma pool_step_thread s ts s' ts' :
  pool_step h (s, ts) (s', ts') →
  ∃ i p p', ts !! i = Some p ∧ thread_step p s = Some (s', p') ∧ ts' = <[i := p']> ts.
Proof.
  inversion 1 as [s1 s1' X e k x ts1 ts2 Hh]; subst.
  exists (length ts1), (Vis e k), (k x). split; [by rewrite list_lookup_middle|].
  cbn. rewrite Hh. split; [done|]. by rewrite list_insert_middle.
Qed.

Lemma pool_length (c c' : config) : rtc (pool_step h) c c' → length c'.2 = length c.2.
Proof.
  induction 1 as [c|[s ts] [s1 ts1] c Hstep _ IH]; [done|]. rewrite IH.
  apply pool_step_thread in Hstep as (i & p & p' & _ & _ & ->). apply length_insert.
Qed.

(** Every event of the program keeps [I]. *)
Fixpoint keeps (I : S → Prop) (p : prog E R) : Prop :=
  match p with
  | Ret _ => True
  | Vis e k => (∀ s, I s → I (h _ e s).1) ∧ ∀ x, keeps I (k x)
  end.

Lemma keeps_step I p s s' p' :
  thread_step p s = Some (s', p') → keeps I p → I s → I s' ∧ keeps I p'.
Proof.
  destruct p as [r|X e k]; [done|]. cbn. intros Hst [He Hk] Hs. specialize (He s Hs).
  destruct (h X e s). by simplify_eq.
Qed.

Lemma run_step p s s' p' : thread_step p s = Some (s', p') → run h p s = run h p' s'.
Proof. destruct p as [r|X e k]; [done|]. cbn. destruct (h X e s). by intros [= <- <-]. Qed.
Lemma keeps_pool I (c c' : config) :
  rtc (pool_step h) c c' → Forall (keeps I) c.2 → I c.1 → I c'.1 ∧ Forall (keeps I) c'.2.
Proof.
  induction 1 as [c|[s ts] [s1 ts1] c Hstep _ IH]; [done|]. intros Hts Hs.
  apply pool_step_thread in Hstep as (i & p & p' & Hi & Hst & ->). cbn in *.
  destruct (keeps_step _ _ _ _ _ Hst (Forall_lookup_1 _ _ _ _ Hts Hi) Hs).
  apply IH; [|done]. by apply Forall_insert.
Qed.

(** One thread, while the others wait *)
Definition alone (c c' : S * prog E R) : Prop := thread_step c.2 c.1 = Some c'.

Lemma alone_pool s p s' p' ts1 ts2 :
  rtc alone (s, p) (s', p') →
  rtc (pool_step h) (s, ts1 ++ p :: ts2) (s', ts1 ++ p' :: ts2).
Proof.
  remember (s, p) as c eqn:Hc. remember (s', p') as c' eqn:Hc'. intros Hr.
  revert s p Hc. induction Hr as [c|c [s1 p1] c'' Hst _ IH]; intros s p Hc; subst; [by simplify_eq|].
  etrans; [|by apply IH]. apply rtc_once. unfold alone in Hst. cbn in Hst.
  destruct p as [r|X e k]; [done|]. cbn in Hst. destruct (h X e s) as [s2 x] eqn:Hh.
  simplify_eq. by constructor.
Qed.

Lemma alone_run p s : rtc alone (s, p) ((run h p s).1, Ret (run h p s).2).
Proof.
  revert s. induction p as [r|X e k IH]; intros s; [done|]. cbn [run].
  destruct (h X e s) as [s' x] eqn:Hh. eapply rtc_l; [|apply IH].
  unfold alone. cbn. by rewrite Hh.
Qed.

(** ** Rely and guarantee *)

(** Every event of the program, from every state, is within [G]. *)
Fixpoint guarantees (G : S → S → Prop) (p : prog E R) : Prop :=
  match p with
  | Ret _ => True
  | Vis e k => (∀ s, G s (h _ e s).1) ∧ ∀ x, guarantees G (k x)
  end.

(** From [s], and whatever the others do within [G] between its events, [J]
    holds while the program runs, and [Q] when it has returned. *)
Fixpoint safe (G : S → S → Prop) (J : S → Prop) (Q : R → S → Prop) (p : prog E R) (s : S)
    : Prop :=
  ∀ s', G s s' →
    J s' ∧ match p with
           | Ret r => Q r s'
           | Vis e k => safe G J Q (k (h _ e s').2) (h _ e s').1
           end.

Section safe.
Context (G : S → S → Prop) `{!PreOrder G} (J : S → Prop) (Q : R → S → Prop).

Lemma safe_rely p s s' : safe G J Q p s → G s s' → safe G J Q p s'.
Proof using Type*. destruct p; cbn; intros Hp Hs s2 Hs2; apply Hp; by etrans. Qed.

Lemma safe_holds p s : safe G J Q p s → J s.
Proof using Type*. destruct p; cbn; intros Hp; by apply (Hp s). Qed.

(** A thread that is safe among threads that respect [G] stays so. *)
Lemma safe_pool p s ts c :
  rtc (pool_step h) (s, p :: ts) c → safe G J Q p s → Forall (guarantees G) ts →
  ∃ p' ts', c = (c.1, p' :: ts') ∧ safe G J Q p' c.1 ∧ Forall (guarantees G) ts'.
Proof using Type*.
  remember (s, p :: ts) as c0 eqn:Hc0. intros Hr. revert s p ts Hc0.
  induction Hr as [c|[s0 ts0] [s1 ts1] c Hstep _ IH]; intros s p ts Hc0 Hp Hts;
    [subst c; by exists p, ts|injection Hc0 as -> ->].
  apply pool_step_thread in Hstep as (i & q & q' & Hi & Hst & ->).
  destruct i as [|i]; cbn in *.
  - injection Hi as <-. apply (IH s1 q' ts); [done| |done].
    destruct p as [r|X e k]; [done|]. cbn in Hst.
    pose proof (proj2 (Hp s ltac:(reflexivity))) as Hk.
    destruct (h X e s). by simplify_eq.
  - destruct q as [r|X e k]; [done|]. cbn in Hst.
    pose proof (Forall_lookup_1 _ _ _ _ Hts Hi) as [He Hk]. specialize (He s).
    destruct (h X e s) as [s2 x]. simplify_eq/=.
    apply (IH s1 p (<[i := k x]> ts)); [done|by eapply safe_rely|by apply Forall_insert].
Qed.
End safe.
End schedules.

(** ** Sequences *)

Section sequences.
Context {E : Type → Type} {S : Type} (h : ∀ X, E X → S → S * X).

Lemma alone_bind {A B} (p : prog E A) (f : A → prog E B) s s' p' :
  rtc (alone h) (s, p) (s', p') → rtc (alone h) (s, p ≫= f) (s', p' ≫= f).
Proof.
  remember (s, p) as c eqn:Hc. remember (s', p') as c' eqn:Hc'. intros Hr.
  revert s p Hc. induction Hr as [c|c [s1 p1] c'' Hst _ IH]; intros s p Hc; subst; [by simplify_eq|].
  eapply rtc_l; [|by apply IH]. unfold alone in *. cbn in Hst.
  destruct p as [r|X e k]; [done|]. cbn in *. destruct (h X e s) as [s2 x]. by simplify_eq.
Qed.

Lemma keeps_run {A} I (p : prog E A) s : keeps h I p → I s → I (run h p s).1.
Proof.
  revert s. induction p as [a|X e k IH]; intros s Hp Hs; [done|]. destruct Hp as [He Hk].
  cbn. specialize (He s Hs). destruct (h X e s). by apply IH.
Qed.

Lemma keeps_bind {A B} I (p : prog E A) (f : A → prog E B) :
  keeps h I p → (∀ a, keeps h I (f a)) → keeps h I (p ≫= f).
Proof.
  induction p as [a|X e k IH]; cbn; [by auto|]. intros [He Hk] Hf. split; [done|].
  intros x. by apply IH.
Qed.

Lemma guarantees_bind {A B} G (p : prog E A) (f : A → prog E B) :
  guarantees h G p → (∀ a, guarantees h G (f a)) → guarantees h G (p ≫= f).
Proof.
  induction p as [a|X e k IH]; cbn; [by auto|]. intros [He Hk] Hf. split; [done|].
  intros x. by apply IH.
Qed.

Section safe.
Context (G : S → S → Prop) `{!PreOrder G} (J : S → Prop).

Lemma safe_bind {A B} Q Q' (p : prog E A) (f : A → prog E B) s :
  safe h G J Q p s → (∀ a s, Q a s → safe h G J Q' (f a) s) → safe h G J Q' (p ≫= f) s.
Proof using Type*.
  revert s. induction p as [a|X e k IH]; intros s Hp Hf.
  - cbn. apply Hf. by apply (Hp s).
  - intros s' Hs. destruct (Hp s' Hs) as [HJ Hk]. split; [done|]. cbn. by apply IH.
Qed.

(** Events within [G] keep what [G] keeps. *)
Lemma safe_guarantees {A} (I : S → Prop) (p : prog E A) s :
  (∀ s s', I s → G s s' → I s') → (∀ s, I s → J s) →
  guarantees h G p → I s → safe h G J (λ _, I) p s.
Proof using Type*.
  intros HG HJ. revert s. induction p as [a|X e k IH]; intros s Hp Hs s' Hs'.
  - split; [apply HJ|]; by eapply HG.
  - destruct Hp as [He Hk]. split; [apply HJ; by eapply HG|].
    apply IH; [done|]. eapply HG; [by eapply HG|apply He].
Qed.
End safe.
End sequences.
