(* ===== verification/Channel.v ===== *)
(** * Bounded channels

    The [futures::channel::mpsc] channels between the multiplexer and the
    listener ([src/udp_mux.rs], [src/transport.rs]) and between the peer
    connection and its data channels ([src/connection.rs]): an interface with
    the first-in first-out contract its clients rely on. *)

From S2P Require Import Prelude.

(** [channel n] is [mpsc::channel(n)], both halves in one value; [chan_items]
    are the messages sent and not yet received. [try_send] is that of the one
    [Sender]; [try_send_clone] that of a fresh clone of it, which sends once:
    every sender has a slot of its own beside the buffer. [poll_next] is
    [Receiver::poll_next], [chan_close] is [Receiver::close], [drop_sender]
    the drop of the only [Sender]. *)
Class ChannelApi := {
  Chan : Type → Type;
  TrySendError : Type;
  channel : ∀ {A}, nat → Chan A;
  chan_items : ∀ {A}, Chan A → list A;
  chan_closed : ∀ {A}, Chan A → bool;
  try_send : ∀ {A}, Chan A → A → Chan A * result TrySendError ();
  try_send_clone : ∀ {A}, Chan A → A → Chan A * result TrySendError ();
  poll_next : ∀ {A}, Chan A → Chan A * poll (option A);
  chan_close : ∀ {A}, Chan A → Chan A;
  drop_sender : ∀ {A}, Chan A → Chan A;
}.

(** A message is queued at the end or refused, but not by an open channel from
    which all others were received; messages leave in order; the stream ends
    only when the channel is closed and empty. *)
Class ChannelLaws `{ChannelApi} : Prop := {
  channel_empty A n : chan_items (channel (A := A) n) = [];
  channel_open A n : chan_closed (channel (A := A) n) = false;
  try_send_items A (c c' : Chan A) a r :
    try_send c a = (c', r) →
    chan_items c' = chan_items c ++ (if r is Ok _ then [a] else [])
    ∧ chan_closed c' = chan_closed c;
  try_send_closed A (c : Chan A) a :
    chan_closed c = true → ∃ e, (try_send c a).2 = Err e;
  try_send_empty A (c : Chan A) a :
    chan_closed c = false → chan_items c = [] → (try_send c a).2 = Ok ();
  try_send_clone_items A (c c' : Chan A) a r :
    try_send_clone c a = (c', r) →
    chan_closed c' = chan_closed c
    ∧ if chan_closed c then (∃ e, r = Err e) ∧ chan_items c' = chan_items c
      else r = Ok () ∧ chan_items c' = chan_items c ++ [a];
  poll_next_items A (c c' : Chan A) p :
    poll_next c = (c', p) →
    chan_closed c' = chan_closed c
    ∧ match p with
      | Ready (Some a) => chan_items c = a :: chan_items c'
      | Ready None => chan_items c = [] ∧ chan_items c' = [] ∧ chan_closed c = true
      | Pending => chan_items c = [] ∧ chan_items c' = [] ∧ chan_closed c = false
      end;
  chan_close_items A (c : Chan A) : chan_items (chan_close c) = chan_items c;
  chan_close_closed A (c : Chan A) : chan_closed (chan_close c) = true;
  drop_sender_items A (c : Chan A) : chan_items (drop_sender c) = chan_items c;
  drop_sender_closed A (c : Chan A) : chan_closed (drop_sender c) = true;
}.

(** ** A reference instance: a queue with a capacity *)

Module ChannelRef.
Record queue (A : Type) := mk_queue { cap : nat; items : list A; closed : bool }.
Arguments mk_queue {A} cap items closed.
Arguments cap {A}. Arguments items {A}. Arguments closed {A}.

#[export] Instance api : ChannelApi := {|
  Chan := queue;
  TrySendError := unit;
  channel A n := mk_queue n [] false;
  chan_items A := items;
  chan_closed A := closed;
  try_send A q a :=
    (* the sender has a slot on top of the buffer *)
    if closed q || Nat.ltb (cap q) (length (items q)) then (q, Err ())
    else (mk_queue (cap q) (items q ++ [a]) (closed q), Ok ());
  try_send_clone A q a :=
    if closed q then (q, Err ()) else (mk_queue (cap q) (items q ++ [a]) false, Ok ());
  poll_next A q :=
    match items q with
    | a :: l => (mk_queue (cap q) l (closed q), Ready (Some a))
    | [] => (q, if closed q then Ready None else Pending)
    end;
  chan_close A q := mk_queue (cap q) (items q) true;
  drop_sender A q := mk_queue (cap q) (items q) true;
|}.

#[export] Instance laws : ChannelLaws.
Proof.
  split; try done.
  - intros A c c' a r. cbn. case_match; intros; simplify_eq/=; by rewrite ?app_nil_r.
  - intros A c a Hc. cbn in *. rewrite Hc. cbn. by eexists.
  - intros A [n l b] a Hc Hi. cbn in *. by subst.
  - intros A [n l [|]] c' a r; cbn; intros; simplify_eq/=; [|done].
    split; [done|]. split; [by eexists|done].
  - intros A [n [|a l] [|]] c' p; cbn; intros; by simplify_eq/=.
Qed.
End ChannelRef.
