(* ===== verification/UdpMux.v ===== *)
(** * The UDP multiplexer

    [UDPMuxNewAddr] of [src/udp_mux.rs]: its state, the critical sections of
    its locks, and its operations as programs over these sections. The
    connections it routes to ([UDPMuxConn], of [webrtc_ice]) and the socket it
    reads from ([Conn], of [webrtc_util]) are interfaces. *)

From S2P Require Import Prelude RustString Net Multiaddr Errors Stun Channel Prog.

#[local] Open Scope rust_scope.

(** ** Interfaces *)

(** [UDPMuxConnParams] without its back reference to the multiplexer *)
Record UDPMuxConnParams := mk_conn_params { local_addr : SocketAddr; key : string }.

(** A [UDPMuxConn] is a shared handle: equality is identity, and what it
    points to is in a heap. [conn_add_address] is what a connection does by
    itself before it registers with the multiplexer. *)
Class UDPMuxConnApi := {
  UDPMuxConn : Type;
  #[global] UDPMuxConn_eq_dec :: EqDecision UDPMuxConn;
  ConnHeap : Type;
  (** the handle was made in this heap *)
  conn_made : ConnHeap → UDPMuxConn → Prop;
  conn_new : UDPMuxConnParams → ConnHeap → ConnHeap * UDPMuxConn;
  conn_key : UDPMuxConn → string;
  conn_get_addresses : ConnHeap → UDPMuxConn → list SocketAddr;
  conn_add_address : UDPMuxConn → SocketAddr → ConnHeap → ConnHeap;
  conn_remove_address : UDPMuxConn → SocketAddr → ConnHeap → ConnHeap;
  conn_close : UDPMuxConn → ConnHeap → ConnHeap;
  conn_is_closed : ConnHeap → UDPMuxConn → bool;
  conn_write_packet :
    UDPMuxConn → list byte → SocketAddr → ConnHeap → ConnHeap * result UtilError ();
  (** the packets written and not yet read by the connection's owner *)
  conn_packets : ConnHeap → UDPMuxConn → list (list byte * SocketAddr);
}.

Class UDPMuxConnLaws `{UDPMuxConnApi} : Prop := {
  conn_new_fresh p h h' c : conn_new p h = (h', c) → ¬ conn_made h c;
  conn_new_made p h h' c c' :
    conn_new p h = (h', c) → c' = c ∨ conn_made h c' → conn_made h' c';
  conn_close_made c h c' : conn_made h c' → conn_made (conn_close c h) c';
  conn_new_key p h h' c : conn_new p h = (h', c) → conn_key c = key p;
  conn_new_addresses p h h' c c' a :
    conn_new p h = (h', c) →
    a ∈ conn_get_addresses h' c' ↔ c' ≠ c ∧ a ∈ conn_get_addresses h c';
  conn_new_open p h h' c : conn_new p h = (h', c) → conn_is_closed h' c = false;
  conn_add_addresses c a h c' a' :
    a' ∈ conn_get_addresses (conn_add_address c a h) c' ↔
    a' ∈ conn_get_addresses h c' ∨ (c' = c ∧ a' = a);
  conn_remove_addresses c a h c' a' :
    a' ∈ conn_get_addresses (conn_remove_address c a h) c' ↔
    a' ∈ conn_get_addresses h c' ∧ ¬ (c' = c ∧ a' = a);
  conn_close_addresses c h c' :
    conn_get_addresses (conn_close c h) c' = conn_get_addresses h c';
  conn_close_closed c h c' :
    conn_is_closed (conn_close c h) c' = bool_decide (c' = c) || conn_is_closed h c';
  conn_write_addresses c buf a h c' :
    conn_get_addresses (conn_write_packet c buf a h).1 c' = conn_get_addresses h c';
  conn_write_packets c buf a h c' :
    conn_packets (conn_write_packet c buf a h).1 c' =
    conn_packets h c' ++
      (if decide (c' = c) then
         if (conn_write_packet c buf a h).2 is Ok _ then [(buf, a)] else []
       else []);
}.

(** The part of [webrtc_util::Conn] the multiplexer calls outside its worker *)
Class SocketApi := {
  Socket : Type;
  socket_local_addr : Socket → result UtilError SocketAddr;
  socket_send_to : list byte → SocketAddr → Socket → Socket * result UtilError nat;
}.

Section mux.
Context `{UDPMuxConnApi, SocketApi, MultiaddrApi, ChannelApi}.

(** ** State *)

Record UDPMuxParams := mk_params { params_socket : Socket }.

(** [UDPMuxParams::new] *)
Definition UDPMuxParams_new (conn : Socket) : UDPMuxParams := mk_params conn.

(** The fields of the Rust struct; [closed_watch_tx] holds the sender of the
    close signal until [close] takes it. *)
Record UDPMuxNewAddr := mk_mux {
  params : UDPMuxParams;
  conns : gmap string UDPMuxConn;
  address_map : gmap SocketAddr UDPMuxConn;
  closed_watch_tx : option ();
  new_addrs : gset SocketAddr;
}.

(** What the multiplexer's tasks share: its state, the connections' heap,
    whether the close signal was sent, the close watchers spawned and not
    yet fired, and the channel of new addresses. *)
Record World := mk_world {
  mux : UDPMuxNewAddr;
  heap : ConnHeap;
  close_signal : bool;
  watchers : list (UDPMuxConn * string);
  new_addr_chan : Chan Multiaddr;
}.

Definition set_mux (f : UDPMuxNewAddr → UDPMuxNewAddr) (w : World) : World :=
  mk_world (f (mux w)) (heap w) (close_signal w) (watchers w) (new_addr_chan w).
Definition set_heap (f : ConnHeap → ConnHeap) (w : World) : World :=
  mk_world (mux w) (f (heap w)) (close_signal w) (watchers w) (new_addr_chan w).
Definition send_close_signal (w : World) : World :=
  mk_world (mux w) (heap w) true (watchers w) (new_addr_chan w).
Definition set_watchers f (w : World) : World :=
  mk_world (mux w) (heap w) (close_signal w) (f (watchers w)) (new_addr_chan w).
Definition set_chan (c : Chan Multiaddr) (w : World) : World :=
  mk_world (mux w) (heap w) (close_signal w) (watchers w) c.

Definition set_conns f (m : UDPMuxNewAddr) : UDPMuxNewAddr :=
  mk_mux (params m) (f (conns m)) (address_map m) (closed_watch_tx m) (new_addrs m).
Definition set_address_map f (m : UDPMuxNewAddr) : UDPMuxNewAddr :=
  mk_mux (params m) (conns m) (f (address_map m)) (closed_watch_tx m) (new_addrs m).
Definition set_closed_tx o (m : UDPMuxNewAddr) : UDPMuxNewAddr :=
  mk_mux (params m) (conns m) (address_map m) o (new_addrs m).
Definition set_new_addrs f (m : UDPMuxNewAddr) : UDPMuxNewAddr :=
  mk_mux (params m) (conns m) (address_map m) (closed_watch_tx m) (f (new_addrs m)).
Definition set_socket s (m : UDPMuxNewAddr) : UDPMuxNewAddr :=
  mk_mux (mk_params s) (conns m) (address_map m) (closed_watch_tx m) (new_addrs m).

(** [UDPMuxNewAddr::new]: the worker it starts is in the file ConnWorker. *)
Definition mux_new (params : UDPMuxParams) (h : ConnHeap) (tx : Chan Multiaddr) : World :=
  mk_world (mk_mux params ∅ ∅ (Some ()) ∅) h false [] tx.

(** ** Critical sections

    A section runs while one lock is held, so it is one event. *)

Definition muxE (X : Type) : Type := World → World * X.
#[local] Abbreviation muxP := (prog muxE).
Definition atomic {X} (f : World → World * X) : muxP X := trigger (E := muxE) f.
Definition mux_handler (X : Type) (e : muxE X) (w : World) : World * X := e w.

Definition read_closed (w : World) : World * bool :=
  (w, bool_decide (closed_watch_tx (mux w) = None)).

(** [closed_tx.take()], and the signal sent under the same guard *)
Definition take_closed_tx (w : World) : World * option () :=
  let tx := closed_watch_tx (mux w) in
  let w := set_mux (set_closed_tx None) w in
  (if tx is Some _ then send_close_signal w else w, tx).

Definition take_conns (w : World) : World * gmap string UDPMuxConn :=
  (set_mux (set_conns (λ _, ∅)) w, conns (mux w)).
Definition close_conn (c : UDPMuxConn) (w : World) : World * () :=
  (set_heap (conn_close c) w, ()).
Definition take_address_map (w : World) : World * () :=
  (set_mux (set_address_map (λ _, ∅)) w, ()).
Definition take_new_addrs (w : World) : World * () :=
  (set_mux (set_new_addrs (λ _, ∅)) w, ()).

Definition create_muxed_conn (ufrag : string) (w : World)
    : World * result UtilError UDPMuxConn :=
  match socket_local_addr (params_socket (params (mux w))) with
  | Err e => (w, Err e)
  | Ok la =>
      let '(h, c) := conn_new (mk_conn_params la ufrag) (heap w) in
      (set_heap (λ _, h) w, Ok c)
  end.

(** The section of [get_conn] that holds [conns]: look the fragment up, or
    create a connection, spawn the watcher of its close signal and insert
    it. *)
Definition get_conn_locked (ufrag : string) (w : World)
    : World * result UtilError UDPMuxConn :=
  match conns (mux w) !! ufrag with
  | Some conn => (w, Ok conn)
  | None =>
      match create_muxed_conn ufrag w with
      | (w, Err e) => (w, Err e)
      | (w, Ok muxed_conn) =>
          let w := set_watchers (cons (muxed_conn, ufrag)) w in
          let w := set_mux (set_conns <[ufrag := muxed_conn]>) w in
          (w, Ok muxed_conn)
      end
  end.

Definition remove_conn (ufrag : string) (w : World) : World * option UDPMuxConn :=
  (set_mux (set_conns (delete ufrag)) w, conns (mux w) !! ufrag).

Definition delete_all (l : list SocketAddr) (m : gmap SocketAddr UDPMuxConn)
    : gmap SocketAddr UDPMuxConn := foldl (λ m a, delete a m) m l.
Definition remove_addresses (conn : UDPMuxConn) (w : World) : World * () :=
  (set_mux (set_address_map (delete_all (conn_get_addresses (heap w) conn))) w, ()).

(** The entry of the address is left alone when it has the same key. *)
Definition register_address (conn : UDPMuxConn) (addr : SocketAddr) (w : World)
    : World * () :=
  match address_map (mux w) !! addr with
  | Some e =>
      if bool_decide (conn_key e ≠ conn_key conn) then
        (set_mux (set_address_map <[addr := conn]>)
           (set_heap (conn_remove_address e addr) w), ())
      else (w, ())
  | None => (set_mux (set_address_map <[addr := conn]>) w, ())
  end.
Definition forget_new_addr (addr : SocketAddr) (w : World) : World * () :=
  (set_mux (set_new_addrs (λ s, s ∖ {[addr]})) w, ()).

(** ** Operations *)

Definition is_closed : muxP bool := atomic read_closed.

Fixpoint close_all (l : list (string * UDPMuxConn)) : muxP () :=
  match l with
  | [] => Ret ()
  | (_, conn) :: l => _ ← atomic (close_conn conn); close_all l
  end.

Definition close : muxP (result UtilError ()) :=
  closed ← is_closed;
  if closed : bool then Ret (Err ErrAlreadyClosed) else
  tx ← atomic take_closed_tx;
  match tx with
  | Some _ =>
      old_conns ← atomic take_conns;
      _ ← close_all (map_to_list old_conns);
      _ ← atomic take_address_map;
      _ ← atomic take_new_addrs;
      Ret (Ok ())
  | None => Ret (Ok ())
  end.

Definition get_conn (ufrag : string) : muxP (result UtilError UDPMuxConn) :=
  closed ← is_closed;
  if closed : bool then Ret (Err ErrUseClosedNetworkConn) else
  atomic (get_conn_locked ufrag).

Definition remove_conn_by_ufrag (ufrag : string) : muxP () :=
  removed_conn ← atomic (remove_conn ufrag);
  match removed_conn with
  | Some conn => atomic (remove_addresses conn)
  | None => Ret ()
  end.

Definition register_conn_for_address (conn : UDPMuxConn) (addr : SocketAddr) : muxP () :=
  closed ← is_closed;
  if closed : bool then Ret () else
  _ ← atomic (register_address conn addr);
  atomic (forget_new_addr addr).

Definition send_to (buf : list byte) (target : SocketAddr)
    : muxP (result UtilError nat) :=
  atomic (λ w,
    let '(s, r) := socket_send_to buf target (params_socket (params (mux w))) in
    (set_mux (set_socket s) w, map_err id r)).

(** An operation run with no other task in between *)
Definition run_mux {R} (p : muxP R) (w : World) : World * R := run mux_handler p w.
End mux.

#[global] Arguments mux_handler {_ _ _ _} X e w /.

(** ** A reference instance *)

Module MuxRef.
(** A connection is its number in the heap and its key. *)
Record conn_state := mk_conn_state
  { addrs : gset SocketAddr; is_shut : bool; packets : list (list byte * SocketAddr) }.
Definition empty_conn : conn_state := mk_conn_state ∅ false [].
Record conn_heap := mk_heap { next : nat; cells : gmap (nat * string) conn_state }.
Definition cell (h : conn_heap) (c : nat * string) : conn_state :=
  default empty_conn (cells h !! c).
Definition upd (f : conn_state → conn_state) (c : nat * string) (h : conn_heap)
    : conn_heap := mk_heap (next h) (<[c := f (cell h c)]> (cells h)).

#[export] Instance conn_api : UDPMuxConnApi := {|
  UDPMuxConn := nat * string;
  ConnHeap := conn_heap;
  conn_made h c := c.1 < next h;
  conn_new p h :=
    let c := (next h, key p) in
    (mk_heap (S (next h)) (<[c := empty_conn]> (cells h)), c);
  conn_key c := c.2;
  conn_get_addresses h c := elements (addrs (cell h c));
  conn_add_address c a :=
    upd (λ s, mk_conn_state ({[a]} ∪ addrs s) (is_shut s) (packets s)) c;
  conn_remove_address c a :=
    upd (λ s, mk_conn_state (addrs s ∖ {[a]}) (is_shut s) (packets s)) c;
  conn_close := upd (λ s, mk_conn_state (addrs s) true (packets s));
  conn_is_closed h c := is_shut (cell h c);
  conn_write_packet c buf a h :=
    (upd (λ s, mk_conn_state (addrs s) (is_shut s) (packets s ++ [(buf, a)])) c h, Ok ());
  conn_packets h c := packets (cell h c);
|}.

Lemma cell_upd f c h c' : cell (upd f c h) c' = if decide (c' = c) then f (cell h c) else cell h c'.
Proof.
  unfold cell, upd at 1. cbn. case_decide as Hc.
  - subst. by rewrite lookup_insert_eq.
  - by rewrite lookup_insert_ne.
Qed.

#[export] Instance conn_laws : UDPMuxConnLaws.
Proof.
  split; cbn.
  - intros. simplify_eq. cbn. lia.
  - intros p h h' c c' E [->|Hc]; simplify_eq; cbn; lia.
  - done.
  - intros. by simplify_eq.
  - intros p h h' c c' a E. simplify_eq. unfold cell. cbn.
    destruct (decide (c' = (next h, key p))) as [->|Hc].
    + rewrite lookup_insert_eq. cbn. set_solver.
    + rewrite lookup_insert_ne by done. set_solver.
  - intros p h h' c E. simplify_eq. unfold cell. cbn. by rewrite lookup_insert_eq.
  - intros. rewrite cell_upd. case_decide; subst; cbn; set_solver.
  - intros. rewrite cell_upd. case_decide; subst; cbn; set_solver.
  - intros. rewrite cell_upd. by case_decide; subst.
  - intros. rewrite cell_upd. case_decide as Hc; subst; cbn.
    + by rewrite bool_decide_true.
    + by rewrite bool_decide_false.
  - intros. rewrite cell_upd. by case_decide; subst.
  - intros. rewrite cell_upd. case_decide; subst; cbn; by rewrite ?app_nil_r.
Qed.

(** A socket bound to an address, with what was sent on it *)
#[export] Instance socket_api : SocketApi := {|
  Socket := SocketAddr * list (list byte * SocketAddr);
  socket_local_addr s := Ok s.1;
  socket_send_to buf a s := ((s.1, s.2 ++ [(buf, a)]), Ok (length buf));
|}.

Definition any_v4 : SocketAddr := V4 (mk_v4 0 0 0 0) 4001.
Definition socket (a : SocketAddr) : Socket := (a, []).
Definition handle (n : nat) (k : string) : UDPMuxConn := (n, k).
Definition empty_heap : ConnHeap := mk_heap 0 ∅.
End MuxRef.
