(* ===== verification/MuxSpec.v ===== *)
(** * The multiplexer implements a routing table

    An abstract specification of [UDPMuxNewAddr] (the connection of each
    fragment, the fragment each address is routed to, which addresses were
    reported, whether it is open), an invariant of its two maps and of the
    connections' own address sets, and the refinement of the first by the
    operations of UdpMux under the second, for any calls in any order. *)

From S2P Require Import Prelude RustString Net Multiaddr Errors Stun Channel Prog.
From S2P Require Import UdpMux.

Section spec.
Context `{UDPMuxConnApi, SocketApi, MultiaddrApi, ChannelApi}.

(** ** The abstract routing table *)

(** [r_strays] are the addresses that a connection registered when it was not,
    or no longer, the one of its fragment: nothing in the code prevents it. *)
Record Routing := mk_routing {
  r_conns : gmap string UDPMuxConn;
  r_routes : gmap SocketAddr string;
  r_reported : gset SocketAddr;
  r_strays : gset SocketAddr;
  r_open : bool;
}.

(** Closing a list of connections, one after the other *)
Definition close_list (l : list (string * UDPMuxConn)) (h : ConnHeap) : ConnHeap :=
  foldl (λ h uc, conn_close uc.2 h) h l.

(** The calls of the traits [UDPMux] and [UDPMuxWriter], and their results *)
Inductive mux_op :=
| OpClose
| OpGetConn (ufrag : string)
| OpRemove (ufrag : string)
| OpRegister (conn : UDPMuxConn) (addr : SocketAddr).

Inductive op_result :=
| RClose (r : result UtilError ())
| RConn (r : result UtilError UDPMuxConn)
| RUnit.

#[global] Instance op_result_eq_dec : EqDecision op_result.
Proof. solve_decision. Defined.

Definition without_ufrag (u : string) (routes : gmap SocketAddr string)
    : gmap SocketAddr string := filter (λ kv, kv.2 ≠ u) routes.

(** What removing a fragment does to the routes: those of the fragment go, and
    no other, except that the route of a stray address may stay or go, whatever
    its fragment; without a connection to remove, nothing changes. *)
Definition routes_removed (u : string) (s : Routing) (routes : gmap SocketAddr string)
    : Prop :=
  ∀ a, routes !! a =
         (if decide (a ∈ r_strays s) then r_routes s else without_ufrag u (r_routes s)) !! a
       ∨ a ∈ r_strays s ∧ is_Some (r_conns s !! u) ∧ routes !! a = None.

Definition register_strays (c : UDPMuxConn) (a : SocketAddr) (s : Routing)
    : gset SocketAddr :=
  if decide (r_conns s !! conn_key c = Some c) then r_strays s else {[a]} ∪ r_strays s.

Inductive spec_step : Routing → mux_op → Routing → op_result → Prop :=
| spec_close s :
    r_open s = true →
    spec_step s OpClose (mk_routing ∅ ∅ ∅ ∅ false) (RClose (Ok ()))
| spec_close_again s :
    r_open s = false → spec_step s OpClose s (RClose (Err ErrAlreadyClosed))
| spec_get_closed s u :
    r_open s = false → spec_step s (OpGetConn u) s (RConn (Err ErrUseClosedNetworkConn))
| spec_get_known s u c :
    r_open s = true → r_conns s !! u = Some c → spec_step s (OpGetConn u) s (RConn (Ok c))
| spec_get_new s u c :
    r_open s = true → r_conns s !! u = None → conn_key c = u →
    spec_step s (OpGetConn u)
      (mk_routing (<[u := c]> (r_conns s)) (r_routes s) (r_reported s) (r_strays s) true)
      (RConn (Ok c))
| spec_get_fail s u e :
    r_open s = true → r_conns s !! u = None → spec_step s (OpGetConn u) s (RConn (Err e))
| spec_remove s u routes :
    routes_removed u s routes →
    spec_step s (OpRemove u)
      (mk_routing (delete u (r_conns s)) routes (r_reported s) (r_strays s) (r_open s)) RUnit
| spec_register_closed s c a :
    r_open s = false → spec_step s (OpRegister c a) s RUnit
| spec_register s c a :
    r_open s = true →
    spec_step s (OpRegister c a)
      (mk_routing (r_conns s) (<[a := conn_key c]> (r_routes s))
         (r_reported s ∖ {[a]}) (register_strays c a s) true) RUnit.

Inductive spec_run : Routing → list (mux_op * op_result) → Routing → Prop :=
| spec_run_nil s : spec_run s [] s
| spec_run_cons s op s1 r tr s2 :
    spec_step s op s1 r → spec_run s1 tr s2 → spec_run s ((op, r) :: tr) s2.

(** ** The operations of the code *)

(** A connection adds the address to its own set, then registers it. *)
Definition mux_do (op : mux_op) (w : World) : World * op_result :=
  match op with
  | OpClose => let '(w, r) := run_mux close w in (w, RClose r)
  | OpGetConn u => let '(w, r) := run_mux (get_conn u) w in (w, RConn r)
  | OpRemove u => let '(w, _) := run_mux (remove_conn_by_ufrag u) w in (w, RUnit)
  | OpRegister c a =>
      let w := set_heap (conn_add_address c a) w in
      let '(w, _) := run_mux (register_conn_for_address c a) w in (w, RUnit)
  end.

Definition mux_closed (w : World) : bool :=
  bool_decide (closed_watch_tx (mux w) = None).

(** A sequence of calls, with their results *)
Fixpoint mux_exec (w : World) (ops : list mux_op) : World * list (mux_op * op_result) :=
  match ops with
  | [] => (w, [])
  | op :: ops =>
      let '(w1, r) := mux_do op w in
      let '(w2, tr) := mux_exec w1 ops in (w2, (op, r) :: tr)
  end.

(** ** Abstraction and invariant *)

Definition routing (strays : gset SocketAddr) (w : World) : Routing :=
  mk_routing (conns (mux w)) (conn_key <$> address_map (mux w)) (new_addrs (mux w)) strays
    (negb (mux_closed w)).

(** For the addresses that are not strays: *)
Record mux_wf_except (strays : gset SocketAddr) (w : World) : Prop := {
  wf_key u c : conns (mux w) !! u = Some c → conn_key c = u;
  (** an address is routed to the connection of its fragment *)
  wf_routed a c : a ∉ strays →
    address_map (mux w) !! a = Some c → conns (mux w) !! conn_key c = Some c;
  (** and a connection's own set holds the addresses routed to it *)
  wf_addresses u c a : a ∉ strays → conns (mux w) !! u = Some c →
    a ∈ conn_get_addresses (heap w) c ↔ address_map (mux w) !! a = Some c;
  (** a closed multiplexer holds no connection *)
  wf_closed : mux_closed w = true → conns (mux w) = ∅ ∧ address_map (mux w) = ∅;
}.
Definition mux_wf : World → Prop := mux_wf_except ∅.
End spec.

(** * Lemmas *)

Section lemmas.
Context `{UDPMuxConnLaws, SocketApi, MultiaddrApi, ChannelApi}.

Lemma delete_all_lookup l (m : gmap SocketAddr UDPMuxConn) a :
  delete_all l m !! a = if decide (a ∈ l) then None else m !! a.
Proof.
  unfold delete_all. revert m. induction l as [|b l IH]; intros m; cbn; [done|].
  rewrite IH, lookup_delete. repeat case_decide; set_solver.
Qed.

Lemma run_close_all l w :
  (run_mux (close_all l) w).1 = set_heap (close_list l) w.
Proof.
  revert w. induction l as [|[u c] l IH]; intros w; [by destruct w|].
  unfold run_mux in *. cbn. rewrite IH. by destruct w.
Qed.

(** What each operation does, sections composed *)

Lemma run_close w :
  run_mux close w =
    if mux_closed w then (w, Err ErrAlreadyClosed) else
    (mk_world (mk_mux (params (mux w)) ∅ ∅ None ∅)
       (close_list (map_to_list (conns (mux w))) (heap w))
       true (watchers w) (new_addr_chan w), Ok ()).
Proof.
  unfold run_mux, close, is_closed, mux_closed. cbn.
  destruct (closed_watch_tx (mux w)) as [[]|] eqn:Htx; cbn; rewrite ?Htx; cbn; [|done].
  rewrite run_bind.
  match goal with |- context [run _ (close_all ?l) ?w'] =>
    pose proof (run_close_all l w') as E; unfold run_mux in E;
    destruct (run mux_handler (close_all l) w') as [w1 []]
  end.
  cbn in E. subst w1.
  by destruct w as [[]].
Qed.

Lemma run_get_conn u w :
  run_mux (get_conn u) w =
    if mux_closed w then (w, Err ErrUseClosedNetworkConn) else get_conn_locked u w.
Proof.
  unfold run_mux, get_conn, is_closed, mux_closed. cbn.
  destruct (bool_decide _); cbn; [done|]. unfold mux_handler.
  by destruct (get_conn_locked u w).
Qed.

Lemma run_remove u w :
  (run_mux (remove_conn_by_ufrag u) w).1 =
    match conns (mux w) !! u with
    | Some c => set_mux (set_address_map (delete_all (conn_get_addresses (heap w) c)))
                  (set_mux (set_conns (delete u)) w)
    | None => set_mux (set_conns (delete u)) w
    end.
Proof. unfold run_mux. cbn. by destruct (conns (mux w) !! u). Qed.

Lemma run_register c a w :
  (run_mux (register_conn_for_address c a) w).1 =
    if mux_closed w then w else (forget_new_addr a (register_address c a w).1).1.
Proof.
  unfold run_mux, register_conn_for_address, is_closed, mux_closed. cbn.
  destruct (bool_decide _); cbn; [done|]. unfold mux_handler.
  by destruct (register_address c a w).
Qed.

Lemma run_get_conn_new u w la h c :
  conns (mux w) !! u = None →
  socket_local_addr (params_socket (params (mux w))) = Ok la →
  conn_new (mk_conn_params la u) (heap w) = (h, c) →
  get_conn_locked u w =
    (set_mux (set_conns <[u := c]>) (set_watchers (cons (c, u)) (set_heap (λ _, h) w)), Ok c).
Proof.
  intros Hu Hla Hc. unfold get_conn_locked, create_muxed_conn. by rewrite Hu, Hla, Hc.
Qed.

(** ** The invariant is preserved and the specification met, by operation *)

Section refines.
Context (S : gset SocketAddr).

#[local] Abbreviation wf := (mux_wf_except S).

Lemma mux_new_wf p h tx : wf (mux_new p h tx).
Proof. by split. Qed.

Lemma close_refines w w' r :
  wf w → mux_do OpClose w = (w', r) →
  ∃ S', spec_step (routing S w) OpClose (routing S' w') r ∧ mux_wf_except S' w'.
Proof.
  intros Hw. unfold mux_do. rewrite run_close. destruct (mux_closed w) eqn:Hc; intros [= <- <-].
  - exists S. split; [|done]. apply spec_close_again. cbn. by rewrite Hc.
  - exists ∅. split; [|by split]. unfold routing at 2. cbn. rewrite fmap_empty.
    apply spec_close. cbn. by rewrite Hc.
Qed.

Lemma get_conn_refines u w w' r :
  wf w → mux_do (OpGetConn u) w = (w', r) →
  spec_step (routing S w) (OpGetConn u) (routing S w') r ∧ wf w'.
Proof.
  intros Hw. unfold mux_do. rewrite run_get_conn.
  destruct (mux_closed w) eqn:Hc.
  { intros [= <- <-]. split; [|done]. apply spec_get_closed. cbn. by rewrite Hc. }
  destruct (conns (mux w) !! u) as [c|] eqn:Hu.
  { unfold get_conn_locked. rewrite Hu. intros [= <- <-]. split; [|done].
    apply spec_get_known; cbn; [by rewrite Hc|done]. }
  destruct (socket_local_addr (params_socket (params (mux w)))) as [la|e] eqn:Hla; last first.
  { unfold get_conn_locked, create_muxed_conn. rewrite Hu, Hla. intros [= <- <-].
    split; [|done]. apply spec_get_fail; cbn; [by rewrite Hc|done]. }
  destruct (conn_new (mk_conn_params la u) (heap w)) as [h c] eqn:Hn.
  rewrite (run_get_conn_new u w la h c) by done. intros [= <- <-].
  pose proof (conn_new_key _ _ _ _ Hn) as Hk. cbn in Hk.
  split; [|split; cbn].
  - unfold routing at 2. unfold mux_closed in *. cbn. rewrite Hc.
    apply (spec_get_new (routing S w)); [cbn; unfold mux_closed; by rewrite Hc|done|done].
  - intros u' c' [[<- <-]|[? ?]]%lookup_insert_Some; [done|by eapply wf_key].
  - intros a c' HS Ha. apply (wf_routed _ _ Hw) in Ha as Hr; [|done].
    rewrite lookup_insert_ne; [done|]. congruence.
  - intros u' c' a HS Hc'. rewrite (conn_new_addresses _ _ _ _ _ _ Hn).
    apply lookup_insert_Some in Hc' as [[<- <-]|[Hne Hc']].
    + split; [by intros []|]. intros Ha. apply (wf_routed _ _ Hw) in Ha; [congruence|done].
    + rewrite (wf_addresses _ _ Hw u' c' a HS Hc'). split; [by intros []|].
      intros Ha. split; [|done]. intros ->.
      apply (wf_routed _ _ Hw) in Ha; [congruence|done].
  - unfold mux_closed in *. cbn. congruence.
Qed.

(** The routes left: of a stray, its own or none; of another address, its own
    unless it was of the fragment *)
Lemma remove_routes u w w1 :
  wf w → run_mux (remove_conn_by_ufrag u) w = (w1, ()) →
  (∀ a, a ∉ S → address_map (mux w1) !! a =
     c ← address_map (mux w) !! a; if decide (conn_key c = u) then None else Some c)
  ∧ (∀ a, address_map (mux w1) !! a = address_map (mux w) !! a
          ∨ is_Some (conns (mux w) !! u) ∧ address_map (mux w1) !! a = None).
Proof.
  intros Hw E. pose proof (run_remove u w) as E1. rewrite E in E1. cbn in E1. subst w1.
  destruct (conns (mux w) !! u) as [c|] eqn:Hu; cbn; split; try (intros a; by left).
  - intros a Ha. rewrite delete_all_lookup. case_decide as Hin.
    + rewrite (wf_addresses _ _ Hw u c a Ha Hu) in Hin. rewrite Hin. cbn.
      by rewrite decide_True by by eapply wf_key.
    + destruct (address_map (mux w) !! a) as [c'|] eqn:Hc'; [|done]. cbn.
      rewrite decide_False; [done|]. intros Hk. apply Hin.
      rewrite (wf_addresses _ _ Hw u c a Ha Hu). apply (wf_routed _ _ Hw) in Hc' as Hr; [|done].
      congruence.
  - intros a. rewrite delete_all_lookup. case_decide; [right|by left]. by split; [eexists|].
  - intros a Ha. destruct (address_map (mux w) !! a) as [c'|] eqn:Hc'; [|done]. cbn.
    rewrite decide_False; [done|]. apply (wf_routed _ _ Hw) in Hc'; [congruence|done].
Qed.

Lemma remove_refines u w w' r :
  wf w → mux_do (OpRemove u) w = (w', r) →
  spec_step (routing S w) (OpRemove u) (routing S w') r ∧ wf w'.
Proof.
  intros Hw. unfold mux_do. pose proof (run_remove u w) as E.
  destruct (run_mux (remove_conn_by_ufrag u) w) as [w1 []] eqn:Hrun. cbn in E. intros [= <- <-].
  destruct (remove_routes u w w1 Hw Hrun) as [Hmap Hstray].
  assert (conns (mux w1) = delete u (conns (mux w)) ∧ new_addrs (mux w1) = new_addrs (mux w)
    ∧ mux_closed w1 = mux_closed w ∧ heap w1 = heap w) as (Hcs & Hna & Hcl & Hh).
  { subst w1. by destruct (conns (mux w) !! u). }
  clear E. split; [|split; rewrite ?Hcs, ?Hna, ?Hcl, ?Hh].
  - unfold routing at 2. rewrite Hcs, Hna, Hcl. apply (spec_remove (routing S w)).
    intros a. cbn. rewrite lookup_fmap. case_decide as Ha.
    + rewrite lookup_fmap. destruct (Hstray a) as [->|[? ->]]; [by left|by right].
    + left. unfold without_ufrag. rewrite map_lookup_filter, lookup_fmap, Hmap by done.
      destruct (address_map (mux w) !! a) as [c|]; [|done]. cbn.
      repeat case_guard; repeat case_decide; by try congruence.
  - intros u' c [? ?]%lookup_delete_Some. by eapply wf_key.
  - intros a c Ha. rewrite Hmap, lookup_delete_Some by done. intros (c' & Hc' & ?)%bind_Some.
    case_decide; simplify_eq. split; [done|]. by eapply wf_routed.
  - intros u' c a Ha [Hne Hc]%lookup_delete_Some.
    rewrite (wf_addresses _ _ Hw u' c a Ha Hc), Hmap by done.
    apply (wf_key _ _ Hw) in Hc. destruct (address_map (mux w) !! a) as [c'|]; [|done]. cbn.
    case_decide; [|done]. split; [|done]. intros. congruence.
  - intros Hc. destruct (wf_closed _ _ Hw Hc) as (-> & Ham).
    split; [by rewrite delete_empty|]. apply map_empty. intros a.
    destruct (Hstray a) as [->|[_ ->]]; by rewrite ?Ham, ?lookup_empty.
Qed.

(** Registering changes the route and the sets of that address only. *)
Lemma register_address_other c a w :
  let w1 := (register_address c a (set_heap (conn_add_address c a) w)).1 in
  (∃ m, mux w1 = set_address_map (λ _, m) (mux w)
        ∧ conn_key <$> m = <[a := conn_key c]> (conn_key <$> address_map (mux w))
        ∧ ∀ a', a' ≠ a → m !! a' = address_map (mux w) !! a')
  ∧ ∀ c' a', a' ≠ a →
      a' ∈ conn_get_addresses (heap w1) c' ↔ a' ∈ conn_get_addresses (heap w) c'.
Proof.
  unfold register_address. cbn.
  destruct (address_map (mux w) !! a) as [e|] eqn:Ha; [case_bool_decide as Hk|]; cbn; split.
  - eexists. split; [done|]. split; [by rewrite fmap_insert|]. intros. by apply lookup_insert_ne.
  - intros c' a' Hne. rewrite conn_remove_addresses, conn_add_addresses. naive_solver.
  - exists (address_map (mux w)). split; [by destruct w as [[]]|]. split; [|done].
    symmetry. apply insert_id. rewrite lookup_fmap, Ha. cbn. f_equal.
    destruct (decide (conn_key e = conn_key c)); [done|]. by destruct Hk.
  - intros c' a' Hne. rewrite conn_add_addresses. naive_solver.
  - eexists. split; [done|]. split; [by rewrite fmap_insert|]. intros. by apply lookup_insert_ne.
  - intros c' a' Hne. rewrite conn_add_addresses. naive_solver.
Qed.

(** When the connection is the one of its fragment and the address no stray, the
    address becomes the connection's alone. *)
Lemma register_address_own c a w :
  wf w → a ∉ S → conns (mux w) !! conn_key c = Some c →
  let w1 := (register_address c a (set_heap (conn_add_address c a) w)).1 in
  address_map (mux w1) !! a = Some c
  ∧ ∀ u c', conns (mux w) !! u = Some c' → a ∈ conn_get_addresses (heap w1) c' ↔ c' = c.
Proof.
  intros Hw HS Hc. unfold register_address. cbn.
  destruct (address_map (mux w) !! a) as [e|] eqn:Ha; [case_bool_decide as Hk|]; cbn.
  - split; [by rewrite lookup_insert_eq|]. intros u c' Hu.
    rewrite conn_remove_addresses, conn_add_addresses.
    rewrite (wf_addresses _ _ Hw u c' a HS Hu), Ha. split; [naive_solver|].
    intros ->. split; [by right|]. by intros [-> _].
  - assert (e = c) as -> by (apply (wf_routed _ _ Hw) in Ha; [congruence|done]).
    split; [done|]. intros u c' Hu. rewrite conn_add_addresses.
    rewrite (wf_addresses _ _ Hw u c' a HS Hu), Ha. naive_solver.
  - split; [by rewrite lookup_insert_eq|]. intros u c' Hu. rewrite conn_add_addresses.
    rewrite (wf_addresses _ _ Hw u c' a HS Hu), Ha. naive_solver.
Qed.

Lemma register_refines c a w w' r :
  wf w → mux_do (OpRegister c a) w = (w', r) →
  ∃ S', spec_step (routing S w) (OpRegister c a) (routing S' w') r ∧ mux_wf_except S' w'.
Proof.
  intros Hw. unfold mux_do.
  pose proof (run_register c a (set_heap (conn_add_address c a) w)) as E.
  change (mux_closed (set_heap _ w)) with (mux_closed w) in E.
  destruct (run_mux _ _) as [w1 []]. cbn [fst] in E. intros [= <- <-]. subst w1.
  destruct (mux_closed w) eqn:Hc.
  { exists S. destruct (wf_closed _ _ Hw Hc) as (Hcs & Ham). split.
    - apply (spec_register_closed (routing S w)). cbn. by rewrite Hc.
    - split; cbn; rewrite ?Hcs, ?Ham; done. }
  exists (register_strays c a (routing S w)).
  destruct (register_address_other c a w) as [(m & Hmux & Hkeys & Hm) Haddr].
  pose proof (register_address_own c a w Hw) as Hown.
  destruct (register_address c a _) as [w1 []]. cbn [fst] in *. split.
  - unfold routing at 2. unfold forget_new_addr, mux_closed in *. cbn. rewrite Hmux. cbn.
    rewrite Hkeys, Hc. apply (spec_register (routing S w)).
    cbn. unfold mux_closed. by rewrite Hc.
  - assert (∀ b, b ∉ register_strays c a (routing S w) →
      b ∉ S ∧ (b = a → conns (mux w) !! conn_key c = Some c)) as Hb.
    { intros b. unfold register_strays. cbn. case_decide; set_solver. }
    unfold forget_new_addr. split; cbn; rewrite ?Hmux; cbn.
    + intros u c' ?. by eapply wf_key.
    + intros b c' [HS Hba]%Hb. destruct (decide (b = a)) as [->|Hne].
      * destruct (Hown HS (Hba eq_refl)) as [Ha _]. rewrite Hmux in Ha. cbn in Ha.
        rewrite Ha. intros [= <-]. by apply Hba.
      * rewrite Hm by done. by apply (wf_routed _ _ Hw).
    + intros u c' b [HS Hba]%Hb Hu. destruct (decide (b = a)) as [->|Hne].
      * destruct (Hown HS (Hba eq_refl)) as [Ha Hc']. rewrite Hmux in Ha. cbn in Ha.
        rewrite (Hc' u c' Hu), Ha. split; [by intros ->|by intros [=]].
      * rewrite Haddr, Hm by done. by apply (wf_addresses _ _ Hw u).
    + unfold mux_closed in *. cbn. rewrite Hmux. cbn. congruence.
Qed.

Lemma mux_do_refines op w w' r :
  wf w → mux_do op w = (w', r) →
  ∃ S', spec_step (routing S w) op (routing S' w') r ∧ mux_wf_except S' w'.
Proof.
  destruct op; eauto using close_refines, register_refines;
    intros; exists S; eauto using get_conn_refines, remove_refines.
Qed.
End refines.

Lemma mux_exec_refines S w ops w' tr :
  mux_wf_except S w → mux_exec w ops = (w', tr) →
  ∃ S', spec_run (routing S w) tr (routing S' w') ∧ mux_wf_except S' w'.
Proof.
  revert S w tr. induction ops as [|op ops IH]; intros S w tr Hw; cbn.
  { intros [= <- <-]. exists S. by split; [constructor|]. }
  destruct (mux_do op w) as [w1 r] eqn:Hdo, (mux_exec w1 ops) as [w2 tr2] eqn:Hex.
  intros [= <- <-]. destruct (mux_do_refines S op w w1 r Hw Hdo) as (S1 & Hstep & Hw1).
  destruct (IH _ _ _ Hw1 Hex) as (S2 & Hrun & Hw2). exists S2. by split; [econstructor|].
Qed.

(** The operations of the multiplexer leave the channel alone. *)
Lemma mux_do_chan op w : new_addr_chan (mux_do op w).1 = new_addr_chan w.
Proof.
  destruct op as [|u|u|c a]; unfold mux_do.
  - rewrite run_close. by destruct (mux_closed w).
  - rewrite run_get_conn. destruct (mux_closed w); [done|].
    unfold get_conn_locked, create_muxed_conn. by repeat case_match; simplify_eq/=.
  - pose proof (run_remove u w) as E. destruct (run_mux _ w) as [w' []]. cbn in *.
    subst w'. by destruct (conns (mux w) !! u).
  - pose proof (run_register c a (set_heap (conn_add_address c a) w)) as E.
    destruct (run_mux _ _) as [w' []]. cbn [fst] in *. subst w'.
    destruct (mux_closed _); [done|]. unfold forget_new_addr, register_address. cbn.
    by repeat case_match.
Qed.
End lemmas.

(** * Correctness *)

Section correctness.
Context `{UDPMuxConnLaws, SocketApi, MultiaddrApi, ChannelApi}.

(** C4: any sequence of calls to the multiplexer, whatever the connections that
    register addresses, is one of the abstract routing table: the same results,
    and in the end the table of its maps. Each address is routed to the
    connection of its fragment, whose own set holds exactly the addresses
    routed to it, except for the strays, the addresses registered by a
    connection that was not in the table; a closed multiplexer routes
    nothing. *)
Theorem mux_implements_routing socket h tx ops :
  let '(w, tr) := mux_exec (mux_new (UDPMuxParams_new socket) h tx) ops in
  ∃ strays, spec_run (mk_routing ∅ ∅ ∅ ∅ true) tr (routing strays w)
            ∧ mux_wf_except strays w.
Proof.
  destruct (mux_exec _ ops) as [w tr] eqn:Hex.
  destruct (mux_exec_refines ∅ _ _ _ _ (mux_new_wf ∅ (UDPMuxParams_new socket) h tx) Hex)
    as (S & Hs & Hw). exists S. split; [|done].
  unfold routing in Hs at 1. cbn in Hs. by rewrite fmap_empty in Hs.
Qed.
End correctness.

(** ** Witness *)

Module Witness.
Import MuxRef MultiaddrRef ChannelRef.

Definition peer : SocketAddr := V4 (mk_v4 127 0 0 1) 5000.
Definition start : World := mux_new (UDPMuxParams_new (socket any_v4)) empty_heap (channel 1).

(** Two fragments share an address in turn, one is removed, the multiplexer
    is closed twice. *)
Definition session : list mux_op :=
  [ OpGetConn "a"; OpGetConn "b"; OpRegister (handle 0 "a") peer;
    OpRegister (handle 1 "b") peer; OpRemove "a"; OpGetConn "b"; OpClose;
    OpGetConn "b"; OpClose ].

Example session_results :
  bool_decide (snd <$> (mux_exec start session).2 =
  [ RConn (Ok (handle 0 "a")); RConn (Ok (handle 1 "b")); RUnit; RUnit; RUnit;
    RConn (Ok (handle 1 "b")); RClose (Ok ());
    RConn (Err ErrUseClosedNetworkConn); RClose (Err ErrAlreadyClosed) ]) = true.
Proof. vm_compute. reflexivity. Qed.

(** A removed connection registers: its address is routed to it, with no
    connection of its fragment. *)
Definition stray_session : list mux_op :=
  [OpGetConn "a"; OpRemove "a"; OpRegister (handle 0 "a") peer].

Example stray_route :
  bool_decide (address_map (mux (mux_exec start stray_session).1) !! peer
                 = Some (handle 0 "a")
               ∧ conns (mux (mux_exec start stray_session).1) !! "a" = None) = true.
Proof. vm_compute. reflexivity. Qed.

(** Afterwards that address is a stray. *)
Lemma mux_implements_routing_witness :
  ∃ strays, strays ≠ ∅ ∧ mux_wf_except strays (mux_exec start stray_session).1.
Proof.
  pose proof (mux_implements_routing (socket any_v4) empty_heap (channel 1) stray_session) as Hr.
  fold start in Hr.
  pose proof stray_route as Hs%bool_decide_eq_true.
  destruct (mux_exec start stray_session) as [w tr]. destruct Hr as (strays & _ & Hw).
  exists strays. split; [|exact Hw]. intros ->. destruct Hs as [Ha Hc].
  pose proof (wf_routed _ _ Hw peer (handle 0 "a") (not_elem_of_empty _) Ha) as Hno.
  cbn in Hno. cbn in Hc. rewrite Hc in Hno. discriminate Hno.
Defined.
End Witness.
