(* ===== verification/MuxConc.v ===== *)
(** * The multiplexer under concurrent calls

    The operations of UdpMux as threads: every critical section is one step,
    and the scheduler chooses the next thread. What holds under every
    interleaving, and what only holds when operations do not overlap. *)

From S2P Require Import Prelude RustString Net Multiaddr Errors Stun Channel Prog.
From S2P Require Import Threads UdpMux MuxSpec.

(** ** Calls as threads *)

Section calls.
Context `{UDPMuxConnApi, SocketApi, MultiaddrApi, ChannelApi}.

(** The call and its result, as in MuxSpec; a connection that registers adds
    the address to its own set first. *)
Definition op_prog (op : mux_op) : prog muxE op_result :=
  match op with
  | OpClose => r ← close; Ret (RClose r)
  | OpGetConn u => r ← get_conn u; Ret (RConn r)
  | OpRemove u => _ ← remove_conn_by_ufrag u; Ret RUnit
  | OpRegister c a =>
      _ ← atomic (λ w, (set_heap (conn_add_address c a) w, ()));
      _ ← register_conn_for_address c a; Ret RUnit
  end.

#[local] Abbreviation steps := (rtc (pool_step mux_handler)).

(** Not interrupted, a thread does what MuxSpec says of the call. *)
Lemma op_prog_run op w : run mux_handler (op_prog op) w = mux_do op w.
Proof.
  destruct op; unfold op_prog, mux_do, run_mux; rewrite run_bind.
  - by destruct (run mux_handler close w).
  - by destruct (run mux_handler (get_conn ufrag) w).
  - by destruct (run mux_handler (remove_conn_by_ufrag ufrag) w).
  - unfold atomic at 1. cbn [run trigger mux_handler]. rewrite run_bind.
    by destruct (run mux_handler _ _).
Qed.
End calls.

(** * Lemmas *)

Section lemmas.
Context `{UDPMuxConnLaws, SocketApi, MultiaddrApi, ChannelApi}.

#[local] Abbreviation reaches := (rtc (pool_step mux_handler)).

(** ** Concurrent [get_conn]s *)

Definition get_conn_tail (u : string) : prog muxE op_result :=
  r ← atomic (get_conn_locked u); Ret (RConn r).

(** A thread of [get_conn u] before its check, after it, or done; what it has
    returned is the connection of [u]. *)
Definition getting (w : World) (u : string) (p : prog muxE op_result) : Prop :=
  p = op_prog (OpGetConn u) ∨ p = get_conn_tail u
  ∨ ∃ r, p = Ret (RConn r) ∧ ∀ c, r = Ok c → conns (mux w) !! u = Some c.

(** The connections of a world are those of another, and maybe more. *)
Definition conns_grow (w w' : World) : Prop := conns (mux w) ⊆ conns (mux w').

Lemma getting_grow w w' u p : conns_grow w w' → getting w u p → getting w' u p.
Proof.
  intros Hg [?|[?|(r & -> & Hr)]]; [by left|by right; left|right; right].
  exists r. split; [done|]. intros c Hc. eapply lookup_weaken; eauto.
Qed.

Lemma get_conn_locked_grows u w :
  conns_grow w (get_conn_locked u w).1
  ∧ ∀ c, (get_conn_locked u w).2 = Ok c →
         conns (mux (get_conn_locked u w).1) !! u = Some c.
Proof.
  unfold conns_grow, get_conn_locked, create_muxed_conn.
  destruct (conns (mux w) !! u) as [c|] eqn:Hu; [by split; [|intros ? [= <-]]|].
  destruct (socket_local_addr _) as [la|]; [|done].
  destruct (conn_new _ _) as [h c]. cbn. split.
  - by apply insert_subseteq.
  - intros ? [= <-]. apply lookup_insert_eq.
Qed.

Lemma getting_step w u p w' p' :
  getting w u p → thread_step mux_handler p w = Some (w', p') →
  conns_grow w w' ∧ getting w' u p'.
Proof.
  intros [->|[->|(r & -> & _)]]; cbn; [| |done].
  - intros [= <- <-]. split; [unfold conns_grow; reflexivity|].
    destruct (bool_decide _); cbn; right; [right|by left].
    eexists. split; [done|]. by intros ? [=].
  - destruct (get_conn_locked_grows u w) as [Hg Hc].
    destruct (get_conn_locked u w) as [w1 r]. intros [= <- <-]. split; [done|].
    right; right. by eexists.
Qed.

(** ** Concurrent [close]s *)

Definition close_tail : prog muxE op_result :=
  (tx ← atomic take_closed_tx;
   match tx with
   | Some _ =>
       old_conns ← atomic take_conns;
       _ ← close_all (map_to_list old_conns);
       _ ← atomic take_address_map;
       _ ← atomic take_new_addrs;
       Ret (Ok ())
   | None => Ret (Ok ())
   end) ≫= λ r, Ret (RClose r).

(** A thread of [close] that has not taken the sender *)
Definition not_closing (p : prog muxE op_result) : Prop :=
  p = op_prog OpClose ∨ p = close_tail.

(** A thread of [close] that will not do anything any more *)
Definition idle (p : prog muxE op_result) : Prop :=
  not_closing p ∨ ∃ r, p = Ret (RClose r).

Definition is_closed_world (w : World) : Prop := closed_watch_tx (mux w) = None.

(** What the pool has come to: nobody has closed yet, or one thread is on its
    way to the world of a single [close] and the others are idle. *)
Definition closing (w0 : World) (c : World * list (prog muxE op_result)) : Prop :=
  (c.1 = w0 ∧ Forall not_closing c.2)
  ∨ ∃ i p, c.2 !! i = Some p
      ∧ run mux_handler p c.1 = mux_do OpClose w0
      ∧ is_closed_world c.1 ∧ keeps mux_handler is_closed_world p
      ∧ ∀ j q, j ≠ i → c.2 !! j = Some q → idle q.

Lemma close_all_keeps l : keeps mux_handler is_closed_world (close_all l).
Proof. induction l as [|[u c] l IH]; cbn; [done|]. by split. Qed.

Lemma close_tail_rest_keeps (tx : option ()) :
  keeps mux_handler is_closed_world
    ((match tx with
      | Some _ =>
          old_conns ← atomic take_conns;
          _ ← close_all (map_to_list old_conns);
          _ ← atomic take_address_map;
          _ ← atomic take_new_addrs;
          Ret (Ok ())
      | None => Ret (Ok ())
      end) ≫= λ r, Ret (RClose r)).
Proof.
  destruct tx as [[]|]; [|done]. cbn. split; [done|]. intros m.
  apply keeps_bind; [|done]. apply keeps_bind; [apply close_all_keeps|]. cbn. auto.
Qed.

(** On a closed multiplexer an idle thread changes nothing. *)
Lemma idle_step w p w' p' :
  is_closed_world w → idle p → thread_step mux_handler p w = Some (w', p') →
  w' = w ∧ idle p'.
Proof.
  unfold is_closed_world. intros Hw [[->| ->]|[r ->]]; cbn; [| |done].
  - rewrite bool_decide_true by done. intros [= <- <-]. split; [done|]. right. by eexists.
  - rewrite Hw. intros [= <- <-]. split; [|right; by eexists].
    destruct w as [[] ? ? ? ?]. cbn in *. by subst.
Qed.

Lemma not_closing_step w i ts p w' p' :
  mux_closed w = false → Forall not_closing ts → ts !! i = Some p →
  thread_step mux_handler p w = Some (w', p') → closing w (w', <[i := p']> ts).
Proof.
  intros Hw Hts Hi. pose proof (Forall_lookup_1 _ _ _ _ Hts Hi) as [-> | ->].
  - cbn. unfold mux_closed in Hw. rewrite Hw. intros [= <- <-]. left. split; [done|].
    apply Forall_insert; [done|]. by right.
  - intros Hst. right. exists i, p'. cbn [fst snd].
    split; [apply list_lookup_insert_eq; by eapply lookup_lt_Some|].
    split.
    { rewrite <-op_prog_run. rewrite <-(run_step _ _ _ _ _ Hst). unfold op_prog.
      symmetry. transitivity (run mux_handler close_tail w); [|done].
      unfold close, is_closed. cbn. unfold mux_closed in Hw. by rewrite Hw. }
    cbn in Hst. injection Hst as <- <-.
    split; [unfold is_closed_world; by destruct (closed_watch_tx (mux w))|].
    split; [apply close_tail_rest_keeps|].
    intros j q Hj. rewrite list_lookup_insert_ne by done. intros Hq. left.
    by eapply Forall_lookup_1.
Qed.

Lemma closing_step w0 w ts w' ts' :
  mux_closed w0 = false → closing w0 (w, ts) →
  pool_step mux_handler (w, ts) (w', ts') → closing w0 (w', ts').
Proof.
  intros Hw0 Hc (j & q & q' & Hj & Hst & ->)%pool_step_thread.
  destruct Hc as [[Hw Hts]|(i & p & Hi & Hrun & Hw & Hp & Hidle)]; cbn in *.
  { subst w. by eapply not_closing_step. }
  right. destruct (decide (j = i)) as [->|Hji].
  - rewrite Hi in Hj. simplify_eq. exists i, q'. cbn.
    destruct (keeps_step _ _ _ _ _ _ Hst Hp Hw) as [Hw' Hq'].
    split; [apply list_lookup_insert_eq; by eapply lookup_lt_Some|].
    split; [by rewrite <-(run_step _ _ _ _ _ Hst)|]. split; [done|]. split; [done|].
    intros j' r Hj'. rewrite list_lookup_insert_ne by done. by apply Hidle.
  - destruct (idle_step _ _ _ _ Hw (Hidle _ _ Hji Hj) Hst) as [-> Hq'].
    exists i, p. cbn. split; [by rewrite list_lookup_insert_ne|].
    do 3 (split; [done|]). intros j' r Hj'.
    destruct (decide (j' = j)) as [->|Hjj].
    + rewrite list_lookup_insert_eq by (by eapply lookup_lt_Some). by intros [= <-].
    + rewrite list_lookup_insert_ne by done. by apply Hidle.
Qed.

Lemma closing_reaches w0 c c' :
  mux_closed w0 = false → closing w0 c → reaches c c' → closing w0 c'.
Proof.
  intros Hw0 Hc Hr. induction Hr as [|[w ts] [w1 ts1] c' Hstep _ IH]; [done|].
  eauto using closing_step.
Qed.

Lemma getting_pool_step us w ts w' ts' :
  Forall2 (getting w) us ts → pool_step mux_handler (w, ts) (w', ts') →
  Forall2 (getting w') us ts'.
Proof.
  intros Hts (j & p & p' & Hj & Hst & ->)%pool_step_thread.
  destruct (Forall2_lookup_r _ _ _ _ _ Hts Hj) as (u & Hu & Hp).
  destruct (getting_step _ _ _ _ _ Hp Hst) as [Hg Hp'].
  rewrite <-(list_insert_id us j u) by done. apply Forall2_insert; [|done].
  eapply Forall2_impl; [done|]. intros. by eapply getting_grow.
Qed.

Lemma getting_reaches us w0 w ts :
  reaches (w0, (λ u, op_prog (OpGetConn u)) <$> us) (w, ts) →
  Forall2 (getting w) us ts.
Proof.
  remember (w0, (λ u, op_prog (OpGetConn u)) <$> us) as c0 eqn:Hc0.
  remember (w, ts) as c1 eqn:Hc1.
  assert (Forall2 (getting c0.1) us c0.2) as H0'.
  { subst c0. cbn. clear. induction us as [|u us IH]; constructor; [by left|done]. }
  clear Hc0. intros Hr. revert H0' Hc1.
  induction Hr as [c|[wa tsa] [wb tsb] c Hstep _ IH]; intros Hf ->; [done|].
  apply IH; [|done]. by eapply getting_pool_step.
Qed.
End lemmas.

(** * Correctness *)

Section correctness.
Context `{UDPMuxConnLaws, SocketApi, MultiaddrApi, ChannelApi}.

#[local] Abbreviation reaches := (rtc (pool_step mux_handler)).

(** Whatever the interleaving of concurrent [get_conn]s, two that ask for
    the same fragment and succeed have the same connection, and it is the one
    packets for the fragment go to. *)
Theorem concurrent_get_conn_agree us w0 w ts i j u c c' :
  reaches (w0, (λ u, op_prog (OpGetConn u)) <$> us) (w, ts) →
  us !! i = Some u → us !! j = Some u →
  ts !! i = Some (Ret (RConn (Ok c))) → ts !! j = Some (Ret (RConn (Ok c'))) →
  c = c' ∧ conns (mux w) !! u = Some c.
Proof.
  intros Hr%getting_reaches Hui Huj Hi Hj.
  assert (∀ k d, us !! k = Some u → ts !! k = Some (Ret (RConn (Ok d))) →
    conns (mux w) !! u = Some d) as Hget.
  { intros k d Huk Hk.
    destruct (Forall2_lookup_lr _ _ _ _ _ _ Hr Huk Hk) as [Hp|[Hp|(r & Hp & Hd)]]; [done..|].
    apply Hd. by injection Hp. }
  pose proof (Hget i c Hui Hi). pose proof (Hget j c' Huj Hj). by simplify_eq.
Qed.

(** C23: any number of concurrent [close]s, however they interleave, leave the
    multiplexer as one [close] does: one of them tears it down, once, and the
    others find it done. *)
Theorem concurrent_closes_as_one n w0 w ts :
  mux_closed w0 = false → 0 < n →
  reaches (w0, replicate n (op_prog OpClose)) (w, ts) →
  (∀ p, p ∈ ts → ∃ r, p = Ret r) →
  w = (mux_do OpClose w0).1 ∧ Ret (RClose (Ok ())) ∈ ts.
Proof.
  intros Hw0 Hn Hr Hdone.
  assert (closing w0 (w, ts)) as Hc.
  { eapply closing_reaches; [done| |done]. left. split; [done|].
    apply Forall_replicate. by left. }
  assert ((mux_do OpClose w0).2 = RClose (Ok ())) as Hok.
  { unfold mux_do. by rewrite run_close, Hw0. }
  destruct Hc as [[_ Hts]|(i & p & Hi & Hrun & _)]; cbn [fst snd] in *.
  - exfalso. destruct ts as [|p ts].
    + apply pool_length in Hr. cbn in Hr. rewrite length_replicate in Hr. lia.
    + apply Forall_cons_1 in Hts as [[-> | ->] _];
        by destruct (Hdone _ (list_elem_of_here _ _)).
  - destruct (Hdone p) as [r ->]; [by eapply list_elem_of_lookup_2|]. cbn [run] in Hrun.
    rewrite <-Hrun in *. cbn in Hok. subst. split; [done|].
    by eapply list_elem_of_lookup_2.
Qed.

(** C39: [get_conn] checks that the multiplexer is open before it takes the
    lock of the connections, so a [close] in between is not noticed: both
    calls succeed, and the closed multiplexer holds a connection that is open
    and that nothing closes any more. *)
Theorem get_conn_races_close socket h tx u la :
  socket_local_addr socket = Ok la →
  ∃ w c, reaches (mux_new (UDPMuxParams_new socket) h tx, [op_prog (OpGetConn u); op_prog OpClose])
           (w, [Ret (RConn (Ok c)); Ret (RClose (Ok ()))])
         ∧ mux_closed w = true ∧ conns (mux w) !! u = Some c
         ∧ conn_is_closed (heap w) c = false ∧ ¬ mux_wf w.
Proof.
  intros Hla. destruct (conn_new (mk_conn_params la u) h) as [h' c] eqn:Hc.
  pose proof (sched_steps mux_handler [0; 1; 1; 1; 1; 1; 0]
    (mux_new (UDPMuxParams_new socket) h tx, [op_prog (OpGetConn u); op_prog OpClose])) as Hs.
  cbn in Hs. rewrite map_to_list_empty in Hs. cbn in Hs.
  unfold get_conn_locked at 2, create_muxed_conn in Hs. cbn in Hs.
  rewrite lookup_empty, Hla, Hc in Hs. cbn in Hs.
  eexists _, c. split; [exact Hs|]. cbn. split; [done|].
  split; [apply lookup_insert_eq|]. split; [by eapply conn_new_open|].
  intros Hwf. destruct (wf_closed _ _ Hwf) as [Hcs _]; [done|]. cbn in Hcs.
  by apply insert_non_empty in Hcs.
Qed.
End correctness.

(** ** Witnesses *)

Module Witness.
Import MuxRef MultiaddrRef ChannelRef.

Definition start : World := mux_new (UDPMuxParams_new (socket any_v4)) empty_heap (channel 1).

(** Two threads check, then the second one gets the connection first. *)
Definition getters : list string := ["a"; "a"].
Definition got : World * list (prog muxE op_result) :=
  sched mux_handler [0; 1; 1; 0] (start, (λ u, op_prog (OpGetConn u)) <$> getters).

Lemma concurrent_get_conn_agree_witness : conns (mux got.1) !! "a" = Some (handle 0 "a").
Proof.
  refine (proj2 (concurrent_get_conn_agree getters start got.1 got.2 0 1 "a"
    (handle 0 "a") (handle 0 "a") _ _ _ _ _)); [|reflexivity..].
  exact (sched_steps mux_handler [0; 1; 1; 0] _).
Defined.

(** A multiplexer with a connection, closed by two threads that both find it
    open *)
Definition one_conn : World := (mux_do (OpGetConn "a") start).1.
Definition closes : World * list (prog muxE op_result) :=
  sched mux_handler [0; 1; 1; 0; 1; 1; 1; 1; 1] (one_conn, replicate 2 (op_prog OpClose)).

Definition returned (p : prog muxE op_result) : bool :=
  match p with Ret _ => true | Vis _ _ => false end.
Lemma closes_done : forallb returned closes.2 = true.
Proof. vm_compute. reflexivity. Qed.

Lemma concurrent_closes_as_one_witness :
  closes.1 = (mux_do OpClose one_conn).1 ∧ Ret (RClose (Ok ())) ∈ closes.2.
Proof.
  apply (concurrent_closes_as_one 2 one_conn closes.1 closes.2).
  - reflexivity.
  - lia.
  - exact (sched_steps mux_handler [0; 1; 1; 0; 1; 1; 1; 1; 1] _).
  - intros p Hp%list_elem_of_In. pose proof (proj1 (forallb_forall _ _) closes_done p Hp) as Hr.
    destruct p as [r|]; [by eexists|discriminate Hr].
Defined.

Lemma get_conn_races_close_witness :
  ∃ w c, rtc (pool_step mux_handler) (start, [op_prog (OpGetConn "a"); op_prog OpClose])
           (w, [Ret (RConn (Ok c)); Ret (RClose (Ok ()))])
         ∧ mux_closed w = true ∧ conns (mux w) !! "a" = Some c
         ∧ conn_is_closed (heap w) c = false ∧ ¬ mux_wf w.
Proof.
  apply (get_conn_races_close (socket any_v4) empty_heap (channel 1) "a" any_v4).
  reflexivity.
Defined.
End Witness.
