(* ===== verification/ConnWorker.v ===== *)
(** * The connection worker

    The task started by [UDPMuxNewAddr::start_conn_worker] of
    [src/udp_mux.rs]: it reads datagrams into one buffer, gives each to the
    connection of its source address or of the user fragment of its STUN
    message, and reports the addresses it does not know. *)

From S2P Require Import Prelude RustString Net Multiaddr Fingerprint Errors Stun.
From S2P Require Import Channel Prog UdpMux MuxSpec.

#[local] Open Scope rust_scope.

(** ** Model *)

Section worker.
Context `{UDPMuxConnApi, SocketApi, MultiaddrApi, ChannelApi, StunApi, HexApi}.

Definition RECEIVE_MTU : nat := Z.to_nat 8192.

(** The answers of [conn.recv_from(&mut buffer)], with the datagram read *)
Inductive recv_result :=
| Received (datagram : list byte) (addr : SocketAddr)
| RecvError (e : UtilError).

(** The two branches of [tokio::select!] *)
Inductive worker_event :=
| Recv (r : recv_result)
| CloseSignal.

(** [recv_from] overwrites the front of the buffer; what does not fit is
    lost, what was behind stays. The length is that of the front. *)
Definition fits (buffer datagram : list byte) : list byte :=
  take (length buffer) datagram.
Definition recv_into (buffer datagram : list byte) : list byte :=
  fits buffer datagram ++ drop (length (fits buffer datagram)) buffer.

Definition read_address_map (addr : SocketAddr) (w : World)
    : World * option UDPMuxConn := (w, address_map (mux w) !! addr).
Definition read_conns (ufrag : string) (w : World) : World * option UDPMuxConn :=
  (w, conns (mux w) !! ufrag).
Definition read_new_addrs (addr : SocketAddr) (w : World) : World * bool :=
  (w, bool_decide (addr ∈ new_addrs (mux w))).
Definition insert_new_addr (addr : SocketAddr) (w : World) : World * () :=
  (set_mux (set_new_addrs (union {[addr]})) w, ()).
Definition try_send_new_addr (a : Multiaddr) (w : World)
    : World * result TrySendError () :=
  let '(c, r) := try_send (new_addr_chan w) a in (set_chan c w, r).
Definition write_packet (conn : UDPMuxConn) (buf : list byte) (addr : SocketAddr)
    (w : World) : World * result UtilError () :=
  let '(h, r) := conn_write_packet conn buf addr (heap w) in (set_heap (λ _, h) w, r).

Definition conn_from_stun_message (buffer : list byte)
    : may muxE UtilError (option UDPMuxConn) :=
  match ufrag_from_stun_message buffer true with
  | Ok ufrag => call (E := muxE) (read_conns ufrag)
  | Err _ => returns None
  end.

Definition new_address (addr : SocketAddr) (fingerprint : list byte) : Multiaddr :=
  ma_with (ma_with (ma_with ma_empty (ip_into (ip addr))) (Udp (port addr)))
    (XWebRTC fingerprint).

(** The branch taken for a packet without a connection *)
Definition report_new_address (buffer : list byte) (addr : SocketAddr)
    : may muxE UtilError () :=
  let! known := call (E := muxE) (read_new_addrs addr) in
  if negb known then
    match ufrag_from_stun_message buffer false with
    | Ok ufrag =>
        let! fingerprint := pure_ (hex_to_cow (without_colons ufrag)) in
        let! sent := call (E := muxE) (try_send_new_addr (new_address addr fingerprint)) in
        match sent with
        | Err _ => returns ()
        | Ok _ => call (E := muxE) (insert_new_addr addr)
        end
    | Err _ => returns ()
    end
  else returns ().

(** The body of [Ok((len, addr)) => ..], on the buffer after the read *)
Definition handle_packet (buffer : list byte) (len : nat) (addr : SocketAddr)
    : may muxE UtilError () :=
  let! conn := call (E := muxE) (read_address_map addr) in
  let! conn := match conn with
          | None => if is_stun_message buffer then conn_from_stun_message buffer
                    else returns None
          | Some c => returns (Some c)
          end in
  match conn with
  | None => report_new_address buffer addr
  | Some conn =>
      call (E := muxE) (write_packet conn (take len buffer) addr) ;;;
      returns ()
  end.

(** [Running] between two iterations; [Stopped] after [break] or [return];
    [Panicked] after a panic, which ends the task as well. *)
Inductive status := Running | Stopped | Panicked.

Record Worker := mk_worker { buffer : list byte; worker_status : status }.

Definition worker_new : Worker := mk_worker (replicate RECEIVE_MTU Byte.x00) Running.

(** The end of the task drops the sender of new addresses. *)
Definition end_task (w : World) : World :=
  set_chan (drop_sender (new_addr_chan w)) w.

(** One iteration of the loop; a stopped worker ignores everything. *)
Definition worker_turn (ev : worker_event) (k : Worker) (w : World) : Worker * World :=
  match worker_status k with
  | Running =>
      match ev with
      | Recv (Received datagram addr) =>
          let b := recv_into (buffer k) datagram in
          let len := length (fits (buffer k) datagram) in
          let '(w, r) := run mux_handler (handle_packet b len addr) w in
          if r is Panic then (mk_worker b Panicked, end_task w)
          else (mk_worker b Running, w)
      | Recv (RecvError (UtilIo TimedOut)) => (k, w)
      | Recv (RecvError _) => (mk_worker (buffer k) Stopped, end_task w)
      | CloseSignal => (mk_worker (buffer k) Stopped, end_task w)
      end
  | _ => (k, w)
  end.

Fixpoint worker_run (evs : list worker_event) (k : Worker) (w : World) : Worker * World :=
  match evs with
  | [] => (k, w)
  | ev :: evs => let '(k, w) := worker_turn ev k w in worker_run evs k w
  end.

(** The connection a packet is for: that of its source address, else that
    of the local fragment of its STUN message *)
Definition lookup_conn (buffer : list byte) (addr : SocketAddr) (m : UDPMuxNewAddr)
    : option UDPMuxConn :=
  match address_map m !! addr with
  | Some c => Some c
  | None =>
      if is_stun_message buffer then
        match ufrag_from_stun_message buffer true with
        | Ok ufrag => conns m !! ufrag
        | Err _ => None
        end
      else None
  end.

(** ** What the worker is to report *)

(** The buffer holds a message whose remote fragment is the fingerprint [f]. *)
Definition announces (b : list byte) (f : list byte) : Prop :=
  ∃ u, ufrag_from_stun_message b false = Ok u ∧ hex_decode (without_colons u) = Some f.

(** A packet of a source that has no connection and is not remembered *)
Definition is_new (m : UDPMuxNewAddr) (known : gset SocketAddr) (b : list byte)
    (a : SocketAddr) : Prop := lookup_conn b a m = None ∧ a ∉ known.

(** The worker's events, between which the listener takes messages off the
    channel; what it took is the last component. *)
Inductive worker_input :=
| Turned (ev : worker_event)
| Taken.

Fixpoint worker_session (l : list worker_input) (k : Worker) (w : World)
    : Worker * World * list Multiaddr :=
  match l with
  | [] => (k, w, [])
  | Turned ev :: l => let '(k, w) := worker_turn ev k w in worker_session l k w
  | Taken :: l =>
      let '(rx, p) := poll_next (new_addr_chan w) in
      let '(k, w, got) := worker_session l k (set_chan rx w) in
      (k, w, (if p is Ready (Some a) then [a] else []) ++ got)
  end.

(** The sources reported over a session with their fingerprints, when the
    buffer is [b], the sources [known] are remembered and [q] messages wait in
    the channel: every new source at its first announcement, unless others wait
    and the channel is full, which leaves it as it was; no other packet is
    reported. The session is over at an error other than a time-out, at the
    close signal, and at a fragment that is no fingerprint. *)
Inductive to_report (m : UDPMuxNewAddr) :
  list byte → gset SocketAddr → nat → list worker_input → list (SocketAddr * list byte) → Prop :=
| report_end b known q : to_report m b known q [] []
| report_taken b known q l r :
    to_report m b known (pred q) l r → to_report m b known q (Taken :: l) r
| report_first b known q d a f l r :
    is_new m known (recv_into b d) a → announces (recv_into b d) f → length f = 32 →
    to_report m (recv_into b d) ({[a]} ∪ known) (S q) l r →
    to_report m b known q (Turned (Recv (Received d a)) :: l) ((a, f) :: r)
| report_refused b known q d a f l r :
    is_new m known (recv_into b d) a → announces (recv_into b d) f → length f = 32 → 0 < q →
    to_report m (recv_into b d) known q l r →
    to_report m b known q (Turned (Recv (Received d a)) :: l) r
| report_not_new b known q d a l r :
    ¬ is_new m known (recv_into b d) a → to_report m (recv_into b d) known q l r →
    to_report m b known q (Turned (Recv (Received d a)) :: l) r
| report_no_fragment b known q d a e l r :
    ufrag_from_stun_message (recv_into b d) false = Err e →
    to_report m (recv_into b d) known q l r →
    to_report m b known q (Turned (Recv (Received d a)) :: l) r
| report_bad_fragment b known q d a u l :
    is_new m known (recv_into b d) a →
    ufrag_from_stun_message (recv_into b d) false = Ok u →
    ¬ (String.length (without_colons u) = 64 ∧ str_all is_hex (without_colons u)) →
    to_report m b known q (Turned (Recv (Received d a)) :: l) []
| report_time_out b known q l r :
    to_report m b known q l r →
    to_report m b known q (Turned (Recv (RecvError (UtilIo TimedOut))) :: l) r
| report_over b known q ev l :
    (ev = CloseSignal ∨ ∃ e, ev = Recv (RecvError e) ∧ e ≠ UtilIo TimedOut) →
    to_report m b known q (Turned ev :: l) [].
End worker.

(** * Lemmas *)

Section lemmas.
Context `{UDPMuxConnLaws, SocketApi, MultiaddrLaws, ChannelLaws, StunApi, HexLaws}.

Lemma length_recv_into b d : length (recv_into b d) = length b.
Proof. unfold recv_into, fits. rewrite length_app, length_drop, length_take. lia. Qed.

Lemma take_recv_into b d : take (length (fits b d)) (recv_into b d) = fits b d.
Proof. apply take_app_length. Qed.

Lemma recv_into_nil b : recv_into b [] = b.
Proof. unfold recv_into, fits. by rewrite take_nil. Qed.

Lemma fits_all b d : length d ≤ length b → fits b d = d.
Proof. apply take_ge. Qed.

(** What one packet does, the critical sections composed *)
Lemma run_handle_packet b len addr w :
  run mux_handler (handle_packet b len addr) w =
    match lookup_conn b addr (mux w) with
    | Some c => ((write_packet c (take len b) addr w).1, Done ())
    | None => run mux_handler (report_new_address b addr) w
    end.
Proof.
  unfold handle_packet, lookup_conn, conn_from_stun_message. cbn.
  destruct (address_map (mux w) !! addr) as [c|]; cbn.
  { by destruct (write_packet _ _ _ _). }
  destruct (is_stun_message b); [|done].
  destruct (ufrag_from_stun_message b true) as [u|]; [|done]. cbn.
  destruct (conns (mux w) !! u); [|done]. cbn. by destruct (write_packet _ _ _ _).
Qed.

Lemma run_report b addr w :
  run mux_handler (report_new_address b addr) w =
    if bool_decide (addr ∈ new_addrs (mux w)) then (w, Done ()) else
    match ufrag_from_stun_message b false with
    | Err _ => (w, Done ())
    | Ok u =>
        match hex_to_cow (without_colons u) with
        | Done f =>
            let '(w', r) := try_send_new_addr (new_address addr f) w in
            (if r is Ok _ then (insert_new_addr addr w').1 else w', Done ())
        | Fail e => (w, Fail e)
        | Panic => (w, Panic)
        end
    end.
Proof.
  unfold report_new_address. cbn.
  destruct (bool_decide _); [done|]. cbn.
  destruct (ufrag_from_stun_message b false) as [u|]; [|done]. cbn.
  destruct (hex_to_cow _) as [f|e|]; [|done..]. cbn.
  destruct (try_send_new_addr _ _) as [w' [?|?]]; done.
Qed.

(** The address reported for a source is the one a dialer would use. *)
Lemma new_address_components addr f :
  ma_iter (new_address addr f) = webrtc_components (ip addr) (port addr) f [].
Proof. apply iter_with_fingerprint. Qed.

Lemma mux_wf_ext S w w' :
  mux_wf_except S w →
  conns (mux w') = conns (mux w) → address_map (mux w') = address_map (mux w) →
  closed_watch_tx (mux w') = closed_watch_tx (mux w) →
  (∀ c, conn_get_addresses (heap w') c = conn_get_addresses (heap w) c) →
  mux_wf_except S w'.
Proof.
  intros Hw Hc Ha Htx Hh. split; rewrite ?Hc, ?Ha.
  - by eapply wf_key.
  - by eapply wf_routed.
  - intros u c a Ha' Hu. rewrite Hh. by eapply wf_addresses.
  - unfold mux_closed. rewrite Htx. by eapply wf_closed.
Qed.

Lemma end_task_wf S w : mux_wf_except S w → mux_wf_except S (end_task w).
Proof. intros. by eapply mux_wf_ext. Qed.

Lemma worker_turn_wf S ev k w :
  mux_wf_except S w → mux_wf_except S (worker_turn ev k w).2.
Proof.
  intros Hw. unfold worker_turn.
  destruct (worker_status k); [|done..].
  destruct ev as [[d addr|[[]| | | |]]|]; try done; try by apply end_task_wf.
  rewrite run_handle_packet, run_report. destruct (lookup_conn _ _ _) as [c|]; cbn.
  - unfold write_packet. destruct (conn_write_packet _ _ _ _) as [h r] eqn:Hwr. cbn.
    eapply mux_wf_ext; [done..|]. intros c'. cbn.
    by rewrite <-(conn_write_addresses c (take (length (fits (buffer k) d))
      (recv_into (buffer k) d)) addr (heap w) c'), Hwr.
  - unfold try_send_new_addr.
    repeat (case_match; simplify_eq/=; try done); try (by apply end_task_wf);
      by eapply mux_wf_ext.
Qed.

(** ** Reports *)

(** The reports of a run: each source with the address sent for it *)
Definition reports_of (l : list (SocketAddr * list byte)) : list Multiaddr :=
  (λ af, new_address af.1 af.2) <$> l.

Lemma to_report_new m b known q l r :
  to_report m b known q l r →
  NoDup r.*1 ∧ ∀ a f, (a, f) ∈ r → a ∉ known ∧ length f = 32.
Proof.
  induction 1 as [| |b known q d a f l r [_ Ha] ? Hf _ [Hd Hr]| | | | | |];
    try done; try (by split; [constructor|intros ? ? ?%elem_of_nil]).
  split.
  - constructor; [|done]. intros ([a' f'] & [= <-] & Hin)%list_elem_of_fmap.
    destruct (Hr _ _ Hin) as [Hn _]. set_solver.
  - intros a' f' [[= -> ->]|Hin]%elem_of_cons; [done|].
    destruct (Hr _ _ Hin) as [Hn ?]. split; [set_solver|done].
Qed.

(** Where a session has got to: what the channel had and took *)
Definition session_sent (w w' : World) (got : list Multiaddr) (r : list (SocketAddr * list byte))
    : Prop :=
  got ++ chan_items (new_addr_chan w') = chan_items (new_addr_chan w) ++ reports_of r
  ∧ new_addrs (mux w') = list_to_set r.*1 ∪ new_addrs (mux w).

Lemma session_over l k w w0 k' w' got :
  worker_status k ≠ Running → worker_session l k w = (k', w', got) →
  chan_items (new_addr_chan w) = chan_items (new_addr_chan w0) → mux w = mux w0 →
  session_sent w0 w' got [].
Proof.
  intros Hk Hs Hc Hm. unfold session_sent. cbn. rewrite app_nil_r, union_empty_l_L, <-Hc, <-Hm.
  clear w0 Hc Hm. revert k w k' w' got Hk Hs.
  induction l as [|[ev|] l IH]; intros k w k' w' got Hk; cbn.
  - by intros [= <- <- <-].
  - unfold worker_turn. destruct (worker_status k) eqn:E; [done|..]; apply IH; congruence.
  - destruct (poll_next (new_addr_chan w)) as [rx p] eqn:Hp. apply poll_next_items in Hp as [_ Hp].
    destruct (worker_session l k _) as [[k1 w1] got1] eqn:Hs. intros [= <- <- <-].
    apply IH in Hs as [Hs Hm]; [|done]. cbn in Hs, Hm. rewrite Hm, <-app_assoc, Hs.
    split; [|done]. destruct p as [[a|]|]; cbn; [done|..]; destruct Hp as (-> & -> & _); done.
Qed.

(** One turn of a running worker, by what the packet is *)
Lemma turn_not_new d a k w :
  worker_status k = Running →
  ¬ is_new (mux w) (new_addrs (mux w)) (recv_into (buffer k) d) a
    ∨ (∃ e, ufrag_from_stun_message (recv_into (buffer k) d) false = Err e) →
  ∃ h, worker_turn (Recv (Received d a)) k w
         = (mk_worker (recv_into (buffer k) d) Running, set_heap h w).
Proof.
  intros Hk Hn. unfold worker_turn. rewrite Hk, run_handle_packet, run_report.
  destruct (lookup_conn _ _ _) as [c|] eqn:Hc.
  { unfold write_packet. destruct (conn_write_packet _ _ _ _) as [h r]. by eexists. }
  exists id. assert (set_heap id w = w) as -> by by destruct w.
  case_bool_decide as Ha; [done|]. destruct Hn as [Hn|[e ->]]; [by destruct Hn|done].
Qed.

Lemma turn_announced d a k w f :
  worker_status k = Running →
  is_new (mux w) (new_addrs (mux w)) (recv_into (buffer k) d) a →
  announces (recv_into (buffer k) d) f → length f = 32 →
  worker_turn (Recv (Received d a)) k w =
    (mk_worker (recv_into (buffer k) d) Running,
     let '(w, r) := try_send_new_addr (new_address a f) w in
     if r is Ok _ then (insert_new_addr a w).1 else w).
Proof.
  intros Hk [Hc Ha] (u & Hu & Hf) Hl. unfold worker_turn.
  rewrite Hk, run_handle_packet, Hc, run_report, bool_decide_false, Hu by done.
  rewrite (proj2 (hex_to_cow_Done (E := UtilError) _ f)) by done.
  by destruct (try_send_new_addr _ _) as [w' [[]|]].
Qed.

Lemma turn_bad_fragment d a k w u :
  worker_status k = Running →
  is_new (mux w) (new_addrs (mux w)) (recv_into (buffer k) d) a →
  ufrag_from_stun_message (recv_into (buffer k) d) false = Ok u →
  ¬ (String.length (without_colons u) = 64 ∧ str_all is_hex (without_colons u)) →
  worker_turn (Recv (Received d a)) k w
    = (mk_worker (recv_into (buffer k) d) Panicked, end_task w).
Proof.
  intros Hk [Hc Ha] Hu Hx. unfold worker_turn.
  rewrite Hk, run_handle_packet, Hc, run_report, bool_decide_false, Hu by done.
  by rewrite (proj2 (hex_to_cow_panic_iff (E := UtilError) _) Hx).
Qed.

Lemma is_new_dec m known b a : is_new m known b a ∨ ¬ is_new m known b a.
Proof.
  unfold is_new. destruct (lookup_conn b a m); [by right; intros []|].
  destruct (decide (a ∈ known)); [by right; intros []|by left].
Qed.

(** What a packet's remote fragment is *)
Lemma fragment_cases b :
  (∃ e, ufrag_from_stun_message b false = Err e)
  ∨ (∃ f, announces b f ∧ length f = 32)
  ∨ (∃ u, ufrag_from_stun_message b false = Ok u
          ∧ ¬ (String.length (without_colons u) = 64 ∧ str_all is_hex (without_colons u))).
Proof.
  destruct (ufrag_from_stun_message b false) as [u|e] eqn:Hu; [right|left; by eexists].
  destruct (hex_to_cow (E := UtilError) (without_colons u)) as [f|e|] eqn:Hf.
  - left. exists f. apply hex_to_cow_Done in Hf as [Hf Hl]. split; [by exists u|done].
  - by apply hex_to_cow_not_Fail in Hf.
  - right. exists u. split; [done|]. by apply hex_to_cow_panic_iff in Hf.
Qed.

(** A time-out is ignored; any other error ends the task. *)
Lemma turn_error e k w :
  worker_status k = Running →
  worker_turn (Recv (RecvError e)) k w =
    if decide (e = UtilIo TimedOut) then (k, w)
    else (mk_worker (buffer k) Stopped, end_task w).
Proof.
  intros Hk. unfold worker_turn. rewrite Hk. case_decide as He; [by subst|].
  by destruct e as [[]| | | |].
Qed.

(** What follows a turn that sends [r], given the rest of the session *)
Lemma session_sent_app w w1 w' got r1 r :
  chan_items (new_addr_chan w1) = chan_items (new_addr_chan w) ++ reports_of r1 →
  new_addrs (mux w1) = list_to_set r1.*1 ∪ new_addrs (mux w) →
  session_sent w1 w' got r → session_sent w w' got (r1 ++ r).
Proof.
  unfold session_sent, reports_of. intros Hi Hn [-> ->]. rewrite Hi, Hn, !fmap_app, <-app_assoc.
  split; [done|]. rewrite list_to_set_app_L. set_solver.
Qed.

(** A packet, and a session [l] of which the claim holds *)
Lemma session_packet d a l k w k1 w1 k' w' got m :
  worker_status k = Running → chan_closed (new_addr_chan w) = false →
  (∀ b a, lookup_conn b a (mux w) = lookup_conn b a m) →
  worker_turn (Recv (Received d a)) k w = (k1, w1) →
  worker_session l k1 w1 = (k', w', got) →
  (worker_status k1 = Running → chan_closed (new_addr_chan w1) = false →
   (∀ b a, lookup_conn b a (mux w1) = lookup_conn b a m) →
   ∃ r, to_report m (buffer k1) (new_addrs (mux w1)) (length (chan_items (new_addr_chan w1))) l r
        ∧ session_sent w1 w' got r) →
  ∃ r, to_report m (buffer k) (new_addrs (mux w)) (length (chan_items (new_addr_chan w)))
         (Turned (Recv (Received d a)) :: l) r
       ∧ session_sent w w' got r.
Proof.
  intros Hk Hcl Hm Ht Hs IH. set (b := recv_into (buffer k) d).
  assert (∀ known, is_new m known b a ↔ is_new (mux w) known b a) as Hiff
    by (intros; unfold is_new; by rewrite Hm).
  destruct (is_new_dec (mux w) (new_addrs (mux w)) b a) as [Hnew|Hnew]; last first.
  { destruct (turn_not_new d a k w Hk (or_introl Hnew)) as [h E]. rewrite E in Ht.
    injection Ht as <- <-. destruct (IH eq_refl Hcl Hm) as (r & Hr & Hx).
    exists r. split; [|done]. apply report_not_new; [by intros ?%Hiff|done]. }
  destruct (fragment_cases b) as [[e He]|[(f & Hf & Hl)|(u & Hu & Hx)]].
  - destruct (turn_not_new d a k w Hk (or_intror (ex_intro _ e He))) as [h E]. rewrite E in Ht.
    injection Ht as <- <-. destruct (IH eq_refl Hcl Hm) as (r & Hr & Hx).
    exists r. split; [|done]. by eapply report_no_fragment.
  - rewrite (turn_announced d a k w f) in Ht by done. unfold try_send_new_addr in Ht.
    destruct (try_send (new_addr_chan w) _) as [c o] eqn:Hsend.
    destruct (try_send_items _ _ _ _ _ Hsend) as [Hi Hcl'].
    destruct o as [[]|e]; injection Ht as <- <-; cbn in IH; rewrite Hcl', Hi in IH;
      destruct (IH eq_refl Hcl Hm) as (r & Hr & Hx).
    + exists ((a, f) :: r). split.
      * apply report_first; [by apply Hiff|done..|].
        rewrite length_app in Hr. cbn in Hr. by rewrite Nat.add_1_r in Hr.
      * eapply (session_sent_app _ _ _ _ [(a, f)]); [..|exact Hx]; cbn; [done|set_solver].
    + rewrite app_nil_r in Hr. exists r. split.
      * eapply report_refused; [by apply Hiff|done..| |done].
        destruct (chan_items (new_addr_chan w)) eqn:Hq; cbn; [|lia].
        pose proof (try_send_empty _ _ (new_address a f) Hcl Hq) as Hok.
        by rewrite Hsend in Hok.
      * eapply (session_sent_app _ _ _ _ []); [..|exact Hx]; cbn; [done|set_solver].
  - rewrite (turn_bad_fragment d a k w u) in Ht by done. injection Ht as <- <-.
    exists []. split; [eapply report_bad_fragment; [by apply Hiff|done..]|].
    eapply session_over; [|exact Hs|..]; [done|apply drop_sender_items|done].
Qed.

Lemma worker_session_reports l k w k' w' got m :
  worker_status k = Running → chan_closed (new_addr_chan w) = false →
  (∀ b a, lookup_conn b a (mux w) = lookup_conn b a m) →
  worker_session l k w = (k', w', got) →
  ∃ r, to_report m (buffer k) (new_addrs (mux w)) (length (chan_items (new_addr_chan w))) l r
       ∧ session_sent w w' got r.
Proof.
  revert k w k' w' got. induction l as [|[ev|] l IH]; intros k w k' w' got Hk Hcl Hm.
  - intros [= <- <- <-]. exists []. split; [constructor|]. split; cbn; [by rewrite app_nil_r|].
    by rewrite union_empty_l_L.
  - cbn [worker_session]. destruct (worker_turn ev k w) as [k1 w1] eqn:Ht. intros Hs.
    destruct ev as [[d a|e]|].
    + eapply session_packet; eauto.
    + destruct (decide (e = UtilIo TimedOut)) as [->|He].
      { unfold worker_turn in Ht. rewrite Hk in Ht. injection Ht as <- <-.
        destruct (IH _ _ _ _ _ Hk Hcl Hm Hs) as (r & Hr & Hx). exists r. split; [|done].
        by constructor. }
      exists []. split; [apply report_over; eauto|].
      rewrite turn_error, decide_False in Ht by done. injection Ht as <- <-. eapply session_over; [|exact Hs|..]; [done|apply drop_sender_items|done].
    + exists []. split; [apply report_over; eauto|].
      unfold worker_turn in Ht. rewrite Hk in Ht. injection Ht as <- <-.
      eapply session_over; [|exact Hs|..]; [done|apply drop_sender_items|done].
  - cbn. destruct (poll_next (new_addr_chan w)) as [rx p] eqn:Hp.
    apply poll_next_items in Hp as [Hcl' Hp].
    destruct (worker_session l k _) as [[k1 w1] got1] eqn:Hs. intros [= <- <- <-].
    apply IH in Hs as (r & Hr & Hi & Hn); [|done|cbn; congruence|done]. cbn in Hr, Hi, Hn.
    exists r. split.
    + constructor. destruct p as [[a|]|]; [by rewrite Hp|..]; destruct Hp as (E1 & E2 & _);
        rewrite E1; by rewrite E2 in Hr.
    + split; [|done]. rewrite <-app_assoc, Hi.
      destruct p as [[a|]|]; [by rewrite Hp|..]; by destruct Hp as (-> & -> & _).
Qed.

Lemma worker_run_stopped evs k w :
  worker_status k ≠ Running → worker_run evs k w = (k, w).
Proof.
  intros Hk. induction evs as [|ev evs IH]; [done|]. cbn. unfold worker_turn.
  by destruct (worker_status k).
Qed.

Lemma worker_turn_buffer ev k w :
  length (buffer (worker_turn ev k w).1) = length (buffer k).
Proof.
  unfold worker_turn. destruct (worker_status k); [|done..].
  destruct ev as [[d addr|[[]| | | |]]|]; try done.
  destruct (run _ _ _) as [w' []]; apply length_recv_into.
Qed.

Lemma worker_run_buffer evs k w :
  length (buffer (worker_run evs k w).1) = length (buffer k).
Proof.
  revert k w. induction evs as [|ev evs IH]; intros k w; [done|]. cbn.
  pose proof (worker_turn_buffer ev k w) as Hl.
  destruct (worker_turn ev k w) as [k1 w1]. by rewrite IH.
Qed.
End lemmas.

(** * Correctness *)

Section correctness.
Context `{UDPMuxConnLaws, SocketApi, MultiaddrLaws, ChannelLaws, StunApi, HexLaws}.

(** C15: a datagram for a connection, by its source or by the fragment of its
    message, is written to that connection, as it was received, with its
    source; nothing else changes and the worker goes on. *)
Theorem worker_delivers d addr k w c :
  worker_status k = Running →
  length d ≤ length (buffer k) →
  lookup_conn (recv_into (buffer k) d) addr (mux w) = Some c →
  let '(k', w') := worker_turn (Recv (Received d addr)) k w in
  k' = mk_worker (recv_into (buffer k) d) Running
  ∧ mux w' = mux w ∧ new_addr_chan w' = new_addr_chan w
  ∧ (∀ c', conn_packets (heap w') c' = conn_packets (heap w) c'
           ∨ c' = c ∧ conn_packets (heap w') c' = conn_packets (heap w) c' ++ [(d, addr)])
  ∧ ((conn_write_packet c d addr (heap w)).2 = Ok () →
     conn_packets (heap w') c = conn_packets (heap w) c ++ [(d, addr)]).
Proof.
  intros Hk Hd Hc. unfold worker_turn. rewrite Hk, run_handle_packet, Hc, take_recv_into.
  rewrite (fits_all _ _ Hd). unfold write_packet.
  pose proof (conn_write_packets c d addr (heap w)) as Hp.
  destruct (conn_write_packet c d addr (heap w)) as [h r]. cbn in *.
  split_and!; try done.
  - intros c'. rewrite Hp. case_decide; [|left; by rewrite app_nil_r].
    destruct r; [by right|left; by rewrite app_nil_r].
  - intros ->. by rewrite Hp, decide_True.
Qed.

(** C16: the worker reports each new source once. Over any session,
    while no call changes the tables and the channel is open, the addresses
    sent are those of [to_report], until the worker ends: of every source that has no
    connection and is not remembered, when its message announces a fingerprint,
    with that fingerprint; only when others wait for the listener may one not
    be sent, and then a later message of its source is. The sources of those
    sent are remembered, and none is sent again. Every address sent is one that
    [multiaddr_to_socketaddr] maps to its source, with the fingerprint, of 32
    bytes, where an upgrade looks for it. *)
Theorem worker_reports_once l k w k' w' got :
  worker_status k = Running → chan_closed (new_addr_chan w) = false →
  worker_session l k w = (k', w', got) →
  ∃ r, to_report (mux w) (buffer k) (new_addrs (mux w))
         (length (chan_items (new_addr_chan w))) l r
    ∧ got ++ chan_items (new_addr_chan w') = chan_items (new_addr_chan w) ++ reports_of r
    ∧ new_addrs (mux w') = list_to_set r.*1 ∪ new_addrs (mux w)
    ∧ NoDup r.*1
    ∧ ∀ a f, (a, f) ∈ r →
        a ∉ new_addrs (mux w) ∧ length f = 32
        ∧ multiaddr_to_socketaddr (new_address a f) = Some (SocketAddr_new (ip a) (port a))
        ∧ last_fingerprint (new_address a f) = Some f.
Proof.
  intros Hk Hcl Hs. destruct (worker_session_reports _ _ _ _ _ _ (mux w) Hk Hcl
    (λ _ _, eq_refl) Hs) as (r & Hr & Hi & Hn).
  destruct (to_report_new _ _ _ _ _ _ Hr) as [Hd Hf].
  exists r. split_and!; [done..|]. intros a f Haf. destruct (Hf _ _ Haf) as [Ha Hl].
  pose proof (new_address_components a f) as Hc. split_and!; [done..| |].
  - by apply webrtc_components_accepted with f [].
  - by rewrite (webrtc_components_last _ _ _ _ _ Hc).
Qed.

(** C35: the worker decodes the remote fragment with [unwrap]: one message of an
    unknown source, whose fragment is not 64 hexadecimal digits, ends it, and
    no later packet is handled, for any connection. *)
Theorem worker_panics_on_bad_ufrag d addr k w u evs :
  worker_status k = Running →
  let b := recv_into (buffer k) d in
  lookup_conn b addr (mux w) = None →
  addr ∉ new_addrs (mux w) →
  ufrag_from_stun_message b false = Ok u →
  ¬ (String.length (without_colons u) = 64 ∧ str_all is_hex (without_colons u)) →
  worker_run (Recv (Received d addr) :: evs) k w = (mk_worker b Panicked, end_task w).
Proof.
  intros Hk b Hc Ha Hu Hx. subst b. cbn. unfold worker_turn.
  rewrite Hk, run_handle_packet, Hc, run_report, bool_decide_false, Hu by done.
  rewrite (proj2 (hex_to_cow_panic_iff (E := UtilError) _) Hx).
  by apply worker_run_stopped.
Qed.

(** C36: the worker decodes the whole buffer, not the datagram: an empty
    datagram of a new source makes it report this source with the fingerprint
    of the message left in the buffer by another. *)
Theorem worker_reads_stale_bytes addr k w u f :
  worker_status k = Running →
  lookup_conn (buffer k) addr (mux w) = None →
  addr ∉ new_addrs (mux w) →
  ufrag_from_stun_message (buffer k) false = Ok u →
  hex_decode (without_colons u) = Some f → length f = 32 →
  (try_send (new_addr_chan w) (new_address addr f)).2 = Ok () →
  let '(k', w') := worker_turn (Recv (Received [] addr)) k w in
  k' = k
  ∧ chan_items (new_addr_chan w') = chan_items (new_addr_chan w) ++ [new_address addr f]
  ∧ addr ∈ new_addrs (mux w').
Proof.
  intros Hk Hc Ha Hu Hf Hl Hs. unfold worker_turn.
  rewrite Hk, recv_into_nil, run_handle_packet, Hc, run_report, bool_decide_false, Hu by done.
  rewrite (proj2 (hex_to_cow_Done (E := UtilError) _ f)) by done.
  unfold try_send_new_addr. destruct (try_send _ _) as [c r] eqn:E. cbn in Hs. subst r.
  destruct (try_send_items _ _ _ _ _ E) as [Hi _]. cbn.
  split_and!; [destruct k; cbn in *; congruence|done|set_solver].
Qed.
End correctness.

(** ** Witnesses *)

Module Witness.
Import MuxRef MultiaddrRef ChannelRef StunRef HexRef MuxSpec.Witness.

Definition fingerprint : list byte := replicate 32 Byte.xab.
Definition hex_fragment : string := without_colons (fingerprint_to_string fingerprint).
Definition other : SocketAddr := V4 (mk_v4 10 0 0 7) 6000.

(** A small buffer keeps the computation small. *)
Definition idle : Worker := mk_worker (replicate 100 Byte.x00) Running.

(** The multiplexer knows the fragment "a" and routes [peer] to it. *)
Definition routed : World := (mux_exec start [OpGetConn "a"; OpRegister (handle 0 "a") peer]).1.

Lemma worker_delivers_witness :
  let '(_, w') := worker_turn (Recv (Received [Byte.x7f] peer)) idle routed in
  conn_packets (heap w') (handle 0 "a") =
    conn_packets (heap routed) (handle 0 "a") ++ [([Byte.x7f], peer)].
Proof.
  assert (bool_decide (lookup_conn (recv_into (buffer idle) [Byte.x7f]) peer (mux routed)
    = Some (handle 0 "a")) = true) as Hc%bool_decide_eq_true by (vm_compute; reflexivity).
  assert (length [Byte.x7f] ≤ length (buffer idle)) as Hl by (cbn; lia).
  pose proof (worker_delivers [Byte.x7f] peer idle routed (handle 0 "a") eq_refl Hl Hc) as Hd.
  destruct (worker_turn _ _ _) as [k' w'].
  apply Hd. reflexivity.
Defined.

Lemma worker_panics_on_bad_ufrag_witness :
  worker_run [Recv (Received (message "a:zz") other); Recv (Received [] peer)] idle start
  = (mk_worker (recv_into (buffer idle) (message "a:zz")) Panicked, end_task start).
Proof.
  apply (worker_panics_on_bad_ufrag (message "a:zz") other idle start "zz").
  - reflexivity.
  - reflexivity.
  - apply not_elem_of_empty.
  - vm_compute. reflexivity.
  - intros [Hl _]. discriminate Hl.
Defined.

(** The buffer still holds a message of another source. *)
Definition stale : Worker :=
  mk_worker (message ("a:" +:+ hex_fragment) ++ [Byte.x00]) Running.

Lemma worker_reads_stale_bytes_witness :
  other ∈ new_addrs (mux (worker_turn (Recv (Received [] other)) stale start).2).
Proof.
  assert (hex_decode (without_colons hex_fragment) = Some fingerprint) as Hd
    by (vm_compute; reflexivity).
  assert (ufrag_from_stun_message (buffer stale) false = Ok hex_fragment) as Hu
    by (vm_compute; reflexivity).
  pose proof (worker_reads_stale_bytes other stale start hex_fragment fingerprint
    eq_refl eq_refl (not_elem_of_empty _) Hu Hd eq_refl eq_refl) as Hs.
  destruct (worker_turn _ _ _) as [k' w']. apply Hs.
Defined.

(** Two messages of one source, the second one not reported *)
Definition greeting : worker_event :=
  Recv (Received (message ("zz:" +:+ hex_fragment)) other).
Definition twice : list worker_event := [greeting; greeting].
Definition taken_once : list worker_input := (Turned <$> twice) ++ [Taken].

Lemma worker_reports_once_witness :
  ∃ r, to_report (mux start) (buffer idle) ∅ 0 taken_once r
       ∧ reports_of r = [new_address other fingerprint] ∧ NoDup r.*1.
Proof.
  assert (bool_decide (let '(_, w', got) := worker_session taken_once idle start in
    got ++ chan_items (new_addr_chan w') = [new_address other fingerprint]) = true)
    as Hsent%bool_decide_eq_true by (vm_compute; reflexivity).
  destruct (worker_session taken_once idle start) as [[k' w'] got] eqn:Hs.
  destruct (worker_reports_once taken_once idle start k' w' got eq_refl eq_refl Hs)
    as (r & Hr & Hi & _ & Hd & _).
  exists r. split; [exact Hr|]. split; [|exact Hd]. rewrite <-Hsent. symmetry. exact Hi.
Defined.

(** A first message from an unknown source is reported with its address. *)
Example reports_new_address :
  bool_decide (chan_items (new_addr_chan (worker_turn
    (Recv (Received (message ("zz:" +:+ hex_fragment)) other)) idle start).2)
    = [[Ip4 (mk_v4 10 0 0 7); Udp 6000; XWebRTC fingerprint]]) = true.
Proof. vm_compute. reflexivity. Qed.
End Witness.
