(* ===== verification/WorkerConc.v ===== *)
(** * The worker among the calls of the multiplexer

    The loop of [start_conn_worker] of [src/udp_mux.rs] as a thread, its
    critical sections interleaved with those of the calls, of the connections
    that close and of the listen stream that receives: what holds under every
    interleaving, and what an unlucky one does. *)

From S2P Require Import Prelude RustString Net Multiaddr Fingerprint Errors Stun.
From S2P Require Import Channel Prog Threads UdpMux MuxSpec MuxConc ConnWorker.

#[local] Open Scope rust_scope.

(** ** Model *)

Section model.
Context `{UDPMuxConnApi, SocketApi, MultiaddrApi, ChannelApi, StunApi, HexApi}.

(** The loop on a list of answers of [select!], one event per section *)
Fixpoint worker_prog (evs : list worker_event) (k : Worker) : prog muxE Worker :=
  match evs with
  | [] => Ret k
  | ev :: evs =>
      match worker_status k, ev with
      | Running, Recv (Received datagram addr) =>
          let b := recv_into (buffer k) datagram in
          let len := length (fits (buffer k) datagram) in
          r ← handle_packet b len addr;
          if r is Panic then
            _ ← atomic (λ w, (end_task w, ()));
            worker_prog evs (mk_worker b Panicked)
          else worker_prog evs (mk_worker b Running)
      | Running, Recv (RecvError (UtilIo TimedOut)) => worker_prog evs k
      | Running, _ =>
          _ ← atomic (λ w, (end_task w, ()));
          worker_prog evs (mk_worker (buffer k) Stopped)
      | _, _ => worker_prog evs k
      end
  end.

(** What runs beside the worker: a call, a connection that closes, a receive
    of the listen stream *)
Inductive task :=
| Call (op : mux_op)
| ConnCloses (c : UDPMuxConn)
| Receive.

Inductive task_result :=
| TWorker (k : Worker)
| TCall (r : op_result)
| TUnit.

Definition receive (w : World) : World * poll (option Multiaddr) :=
  let '(rx, p) := poll_next (new_addr_chan w) in (set_chan rx w, p).

Definition worker_thread (evs : list worker_event) (k : Worker) : prog muxE task_result :=
  k ← worker_prog evs k; Ret (TWorker k).
Definition task_thread (t : task) : prog muxE task_result :=
  match t with
  | Call op => r ← op_prog op; Ret (TCall r)
  | ConnCloses c => _ ← atomic (close_conn c); Ret TUnit
  | Receive => _ ← atomic receive; Ret TUnit
  end.

(** A handler that also logs what each event adds to the channel *)
Definition logged (X : Type) (e : muxE X) (s : World * list Multiaddr)
    : (World * list Multiaddr) * X :=
  let '(w', x) := e s.1 in
  (w', s.2 ++ drop (length (chan_items (new_addr_chan s.1))) (chan_items (new_addr_chan w')), x).

(** The reported address is that of the source *)
Definition names (a : SocketAddr) (m : Multiaddr) : Prop :=
  take 2 (ma_iter m) = [ip_into (ip a); Udp (port a)].
#[global] Instance names_dec a m : Decision (names a m).
Proof. unfold names. apply _. Defined.

Definition reports_for (a : SocketAddr) (log : list Multiaddr) : nat :=
  length (filter (names a) log).

(** A call that lets the multiplexer forget that it reported the source *)
Definition forgets (a : SocketAddr) (t : task) : Prop :=
  match t with
  | Call OpClose => True
  | Call (OpRegister _ b) => b = a
  | _ => False
  end.

(** The sources of the datagrams *)
Definition sources (evs : list worker_event) : list SocketAddr :=
  omap (λ ev, if ev is Recv (Received _ b) then Some b else None) evs.
Definition calls (ts : list task) : list mux_op :=
  omap (λ t, if t is Call op then Some op else None) ts.

(** What holds of the multiplexer's tables however its sections interleave *)
Record tables_ok (w0 : World) (ops : list mux_op) (srcs : list SocketAddr) (w : World)
    : Prop := {
  tb_key u c : conns (mux w) !! u = Some c → conn_key c = u;
  tb_routed a c : address_map (mux w) !! a = Some c →
    address_map (mux w0) !! a = Some c ∨ OpRegister c a ∈ ops;
  tb_reported a : a ∈ new_addrs (mux w) → a ∈ new_addrs (mux w0) ∨ a ∈ srcs;
  tb_closed : mux_closed w0 = true → mux_closed w = true;
}.
End model.

#[global] Arguments reports_for : simpl never.

(** * Lemmas *)

Section lemmas.
Context `{UDPMuxConnLaws, SocketApi, MultiaddrLaws, ChannelLaws, StunApi, HexLaws}.

(** Not interrupted, the thread does what ConnWorker says of the loop. *)
Lemma worker_prog_run evs k w :
  run mux_handler (worker_prog evs k) w = ((worker_run evs k w).2, (worker_run evs k w).1).
Proof.
  revert k w. induction evs as [|ev evs IH]; intros k w; [done|]. cbn [worker_prog worker_run].
  unfold worker_turn. destruct (worker_status k); [|apply IH..].
  destruct ev as [[d a|[[]| | | |]]|]; try apply IH.
  rewrite run_bind.
  destruct (run mux_handler (handle_packet _ _ _) w) as [w' [u|e|]]; apply IH.
Qed.

(** ** The relation the other tasks respect *)

(** Nothing is logged, and a source that was reported stays so. *)
Definition spares (a : SocketAddr) (s s' : World * list Multiaddr) : Prop :=
  s'.2 = s.2 ∧ (a ∈ new_addrs (mux s.1) → a ∈ new_addrs (mux s'.1)).

#[global] Instance spares_preorder a : PreOrder (spares a).
Proof.
  split; [by split|]. intros s1 s2 s3 [Hl1 Hn1] [Hl2 Hn2].
  split; [by rewrite Hl2|auto].
Qed.

(** An event that leaves the channel alone logs nothing. *)
Lemma spares_logged a X (e : muxE X) s :
  new_addr_chan (e s.1).1 = new_addr_chan s.1 →
  (a ∈ new_addrs (mux s.1) → a ∈ new_addrs (mux (e s.1).1)) →
  spares a s (logged X e s).1.
Proof.
  destruct s as [w log]. unfold logged, spares. cbn. destruct (e w) as [w' x]. cbn.
  intros -> Hn. by rewrite drop_all, app_nil_r.
Qed.

(** The sections of the operations, split into their cases *)
Ltac sections :=
  unfold get_conn_locked, create_muxed_conn, remove_conn, remove_addresses,
    register_address, forget_new_addr, close_conn, read_closed;
  repeat (case_match; simplify_eq/=); cbn; auto.

Lemma receive_spares a s : spares a s (logged _ receive s).1.
Proof.
  destruct s as [w log]. unfold logged, receive, spares. cbn.
  destruct (poll_next _) as [rx p] eqn:Hp.
  destruct (poll_next_items _ _ _ _ Hp) as [_ Hi]. cbn. split; [|done].
  rewrite drop_ge, app_nil_r; [done|].
  destruct p as [[m|]|]; [rewrite Hi; cbn; lia|destruct Hi as (-> & -> & _); done..].
Qed.

Lemma task_spares a t : ¬ forgets a t → guarantees logged (spares a) (task_thread t).
Proof.
  intros Ht.
  destruct t as [[|u|u|c b]|c|]; cbn in Ht; [by destruct Ht|..]; cbn -[logged receive].
  - split; [intros s; by apply spares_logged|]. intros b.
    destruct b; cbn -[logged]; [done|]. split; [|done].
    intros s. apply spares_logged; sections.
  - split; [intros s; by apply spares_logged|]. intros [c|]; cbn -[logged]; [|done].
    split; [|done]. intros s. by apply spares_logged.
  - split; [intros s; by apply spares_logged|]. intros _.
    split; [intros s; by apply spares_logged|]. intros [|]; cbn -[logged]; [done|].
    split; [intros s; apply spares_logged; sections|]. intros _.
    split; [|done]. intros s. apply spares_logged; [done|]. cbn. set_solver.
  - split; [|done]. intros s. by apply spares_logged.
  - split; [|done]. apply receive_spares.
Qed.

(** ** One source *)

Section source.
Context (a : SocketAddr) (n : nat).

(** What may still be reported *)
Definition budget (s : World * list Multiaddr) : Prop :=
  reports_for a s.2 + (if decide (a ∈ new_addrs (mux s.1)) then 0 else 1) ≤ n.
Definition within (s : World * list Multiaddr) : Prop := reports_for a s.2 ≤ n.
Definition one_left (s : World * list Multiaddr) : Prop := reports_for a s.2 + 1 ≤ n.

#[local] Abbreviation sound := (safe logged (spares a) within).

Lemma budget_spares s s' : budget s → spares a s s' → budget s'.
Proof.
  unfold budget. intros Hb [-> Hn]. repeat case_decide; try lia. tauto.
Qed.

Lemma budget_within s : budget s → within s.
Proof. unfold budget, within. lia. Qed.

(** Parts of the loop that do not report *)
Lemma quiet {A} (p : prog muxE A) s :
  guarantees logged (spares a) p → budget s → sound (λ _, budget) p s.
Proof.
  intros. apply safe_guarantees; eauto using budget_spares, budget_within.
  apply _.
Qed.

Lemma end_task_spares s : spares a s (logged _ (λ w, (end_task w, ())) s).1.
Proof.
  destruct s as [w log]. unfold logged, spares. cbn.
  by rewrite drop_sender_items, drop_all, app_nil_r.
Qed.

Lemma names_new_address b f : names a (new_address b f) ↔ ip b = ip a ∧ port b = port a.
Proof.
  unfold names. rewrite new_address_components. cbn.
  split; [|by intros [-> ->]]. intros [= Hip Hp]. split; [|done]. revert Hip.
  destruct (ip a), (ip b); rewrite ?ip_into_v4, ?ip_into_v6; congruence.
Qed.

(** Sending logs the address, if the channel takes it. *)
Lemma try_send_logged m s :
  (logged _ (try_send_new_addr m) s).1.2 =
    s.2 ++ (if (logged _ (try_send_new_addr m) s).2 is Ok _ then [m] else [])
  ∧ mux (logged _ (try_send_new_addr m) s).1.1 = mux s.1.
Proof.
  destruct s as [w log]. unfold logged, try_send_new_addr. cbn.
  destruct (try_send _ _) as [c r] eqn:Hs. destruct (try_send_items _ _ _ _ _ Hs) as [Hi _].
  cbn. by rewrite Hi, drop_app_length.
Qed.

Lemma reports_for_app l1 l2 : reports_for a (l1 ++ l2) = reports_for a l1 + reports_for a l2.
Proof. unfold reports_for. by rewrite filter_app, length_app. Qed.

Lemma reports_for_new_address b f :
  reports_for a [new_address b f] = (if decide (ip b = ip a ∧ port b = port a) then 1 else 0).
Proof.
  unfold reports_for. rewrite filter_cons, filter_nil.
  pose proof (names_new_address b f). repeat case_decide; cbn; tauto.
Qed.

(** Sending the address of another source changes nothing; for this one, one
    report was left. *)
Lemma send_budget b f s :
  budget s → (b = a → one_left s) → (ip b = ip a → port b = port a → b = a) →
  let '(s', r) := logged _ (try_send_new_addr (new_address b f)) s in
  within s' ∧ ((if r is Ok _ then b ≠ a else True) → budget s').
Proof.
  intros Hb Ho Hab. pose proof (try_send_logged (new_address b f) s) as [Hl Hm].
  destruct (logged _ _ s) as [s' r]. cbn in *.
  unfold budget, within, one_left in *. rewrite Hm, Hl, reports_for_app.
  destruct r as [[]|]; cbn.
  - rewrite reports_for_new_address. split.
    + destruct (decide (b = a)) as [->|]; [specialize (Ho eq_refl)|]; repeat case_decide;
        lia || tauto.
    + intros Hne. repeat case_decide; lia || tauto.
  - assert (reports_for a [] = 0) as -> by done. split; [|intros _]; lia.
Qed.

Lemma insert_budget b s : within s → (b ≠ a → budget s) → budget (logged _ (insert_new_addr b) s).1.
Proof.
  destruct s as [w log]. unfold logged, within, budget, insert_new_addr. cbn.
  rewrite drop_all, app_nil_r. intros Hw Hb. destruct (decide (b = a)) as [->|Hne].
  - rewrite decide_True by set_solver. lia.
  - specialize (Hb Hne). repeat case_decide; try lia; set_solver.
Qed.

Lemma report_safe buf b s :
  (ip b = ip a → port b = port a → b = a) → budget s →
  sound (λ _, budget) (report_new_address buf b) s.
Proof.
  intros Hab Hb s1 Hs1. pose proof (budget_spares _ _ Hb Hs1) as Hb1.
  split; [by apply budget_within|].
  assert (spares a s1 (logged _ (read_new_addrs b) s1).1) as Hs2 by by apply spares_logged.
  assert (budget (logged _ (read_new_addrs b) s1).1) as Hb2 by by eapply budget_spares.
  set (s2 := (logged _ (read_new_addrs b) s1).1) in *.
  change (logged _ (read_new_addrs b) s1).2 with (bool_decide (b ∈ new_addrs (mux s1.1))).
  case_bool_decide as Hin; cbn -[logged safe]; [by apply quiet|].
  destruct (ufrag_from_stun_message buf false) as [u|]; cbn -[logged safe]; [|by apply quiet].
  destruct (hex_to_cow _) as [f|e|]; cbn -[logged safe]; [|by apply quiet..].
  assert (b = a → one_left s2) as Ho.
  { intros ->. destruct Hs2 as [Hl _]. unfold one_left. rewrite Hl.
    unfold budget in Hb1. rewrite decide_False in Hb1 by done. done. }
  intros s3 Hs3. pose proof (budget_spares _ _ Hb2 Hs3) as Hb3.
  split; [by apply budget_within|].
  assert (b = a → one_left s3) as Ho3.
  { intros He. unfold one_left. rewrite (proj1 Hs3). by apply Ho. }
  pose proof (send_budget b f s3 Hb3 Ho3 Hab) as Hsend.
  destruct (logged _ (try_send_new_addr _) s3) as [s4 r]. destruct Hsend as [Hw Hb4].
  destruct r as [[]|]; cbn -[logged safe].
  - intros s5 Hs5. assert (within s5) as Hw5 by by (unfold within; rewrite (proj1 Hs5)).
    split; [done|].
    assert (budget (logged _ (insert_new_addr b) s5).1) as Hb6.
    { apply insert_budget; [done|]. intros Hne. eapply budget_spares; [by apply Hb4|done]. }
    by apply quiet.
  - apply quiet; [done|]. by apply Hb4.
Qed.

Lemma event_spares X (e : muxE X) :
  (∀ w, new_addr_chan (e w).1 = new_addr_chan w ∧ mux (e w).1 = mux w) →
  ∀ s, spares a s (logged X e s).1.
Proof. intros He s. destruct (He s.1) as [Hc Hm]. by apply spares_logged; rewrite ?Hm. Qed.

Lemma handle_safe buf len b s :
  (ip b = ip a → port b = port a → b = a) → budget s →
  sound (λ _, budget) (handle_packet buf len b) s.
Proof.
  intros Hab Hb. unfold handle_packet, may_bind.
  apply safe_bind with (λ _, budget); [apply _|..].
  { apply quiet; [|done]. split; [|done]. by apply event_spares. }
  intros [conn|e|] s1 Hb1; [|by apply quiet..].
  apply safe_bind with (λ _, budget); [apply _|..].
  { apply quiet; [|done]. destruct conn; [done|]. destruct (is_stun_message buf); [|done].
    unfold conn_from_stun_message. destruct (ufrag_from_stun_message buf true); [|done].
    split; [|done]. by apply event_spares. }
  intros [[c|]|e|] s2 Hb2; [|by apply report_safe|by apply quiet..].
  apply quiet; [|done]. split; [|done]. apply event_spares. intros w.
  unfold write_packet. by destruct (conn_write_packet _ _ _ _).
Qed.

Lemma worker_safe evs k s :
  (∀ b, b ∈ sources evs → ip b = ip a → port b = port a → b = a) → budget s →
  sound (λ _, budget) (worker_prog evs k) s.
Proof.
  revert k s. induction evs as [|ev evs IH]; intros k s Hevs Hb; [by apply quiet|].
  assert (∀ k, ∀ s, budget s → sound (λ _, budget) (worker_prog evs k) s) as IHk.
  { intros. apply IH; [|done]. intros c Hc. apply Hevs.
    destruct ev as [[]|]; cbn; [by right|done..]. }
  assert (∀ k, ∀ s, budget s → sound (λ _, budget)
    (_ ← atomic (λ w, (end_task w, ())); worker_prog evs k) s) as IHend.
  { intros k1 s1 Hb1. apply safe_bind with (λ _, budget); [apply _| |by intros; apply IHk].
    apply quiet; [|done]. split; [|done]. apply end_task_spares. }
  cbn [worker_prog]. destruct (worker_status k); [|by apply IHk..].
  destruct ev as [[d b|[[]| | | |]]|]; try by apply IHend || apply IHk.
  apply safe_bind with (λ _, budget); [apply _|..].
  { apply handle_safe; [|done]. apply Hevs. left. }
  intros [u|e|] s1 Hb1; [by apply IHk..|by apply IHend].
Qed.
End source.

(** ** Tables *)

Section tables.
Context (w0 : World) (ops : list mux_op) (srcs : list SocketAddr).

#[local] Abbreviation ok := (tables_ok w0 ops srcs).
#[local] Abbreviation keeps_ok := (keeps mux_handler ok).

Lemma tables_ok_ext w w' : ok w → mux w' = mux w → ok w'.
Proof. intros [Hk Hr Hn Hc] Hm. split; rewrite ?Hm; try done. unfold mux_closed in *. by rewrite Hm. Qed.

Lemma tables_ok_set_mux f w :
  ok w →
  conns (f (mux w)) = conns (mux w) →
  (∀ a, address_map (f (mux w)) !! a = None
        ∨ address_map (f (mux w)) !! a = address_map (mux w) !! a) →
  (∀ a, a ∈ new_addrs (f (mux w)) → a ∈ new_addrs (mux w)) →
  (closed_watch_tx (mux w) = None → closed_watch_tx (f (mux w)) = None) →
  ok (set_mux f w).
Proof.
  intros [Hk Hr Hn Hc] Hcs Ham Hna Htx. split; cbn.
  - rewrite Hcs. done.
  - intros a c Ha. destruct (Ham a) as [Ha'|Ha']; rewrite Ha' in Ha; [done|auto].
  - auto.
  - intros Hw0. apply bool_decide_eq_true. cbn. apply Htx.
    by apply Hc, bool_decide_eq_true in Hw0.
Qed.

Lemma close_all_keeps_ok l : keeps_ok (close_all l).
Proof.
  induction l as [|[u c] l IH]; cbn; [done|]. split; [|done].
  intros w Hw. by eapply tables_ok_ext.
Qed.

Lemma get_conn_locked_ok u w : ok w → ok (get_conn_locked u w).1.
Proof.
  intros Hw. unfold get_conn_locked, create_muxed_conn.
  destruct (conns (mux w) !! u); [done|].
  destruct (socket_local_addr _) as [la|]; [|done].
  destruct (conn_new _ _) as [h c] eqn:Hn. destruct Hw as [Hk Hr Hna Hc]. split; cbn; try done.
  intros u' c' [[<- <-]|[_ Hu]]%lookup_insert_Some; [by apply conn_new_key in Hn|auto].
Qed.

Lemma register_address_ok c a w :
  OpRegister c a ∈ ops → ok w → ok (register_address c a w).1.
Proof.
  intros Hin [Hk Hr Hn Hc]. unfold register_address. repeat case_match; [|done|];
    (split; cbn; [done| |done|done]);
    intros a' c' [[<- <-]|[_ Ha]]%lookup_insert_Some; auto.
Qed.

Lemma call_keeps_ok op : op ∈ ops → keeps_ok (op_prog op).
Proof.
  intros Hin. destruct op as [|u|u|c a]; cbn.
  - split; [done|]. intros [|]; cbn; [done|]. split.
    { intros w Hw. assert (ok (set_mux (set_closed_tx None) w)) as Hw'
        by (apply tables_ok_set_mux; auto).
      unfold take_closed_tx. destruct (closed_watch_tx (mux w)); [by eapply tables_ok_ext|done]. }
    intros [[]|]; cbn; [|done]. split; [intros w []; by split|].
    intros l. apply keeps_bind; [|done]. apply keeps_bind; [apply close_all_keeps_ok|].
    intros _. cbn. split; [intros w Hw; apply tables_ok_set_mux; auto|].
    intros _. split; [|done]. intros w Hw. apply tables_ok_set_mux; auto. cbn. set_solver.
  - split; [done|]. intros [|]; cbn; [done|]. split; [|done]. apply get_conn_locked_ok.
  - split.
    { intros w [Hk Hr Hn Hc]. split; cbn; try done.
      intros u' c [_ Hu]%lookup_delete_Some. auto. }
    intros [c|]; cbn; [|done]. split; [|done]. intros w Hw. apply tables_ok_set_mux; try done.
    intros a. cbn. rewrite delete_all_lookup. case_decide; auto.
  - split; [intros w Hw; by eapply tables_ok_ext|]. intros _.
    split; [done|]. intros [|]; cbn; [done|].
    split; [intros w; by apply register_address_ok|]. intros _. split; [|done].
    intros w Hw. apply tables_ok_set_mux; try done; [by right|set_solver].
Qed.

Lemma report_keeps_ok buf a : a ∈ srcs → keeps_ok (report_new_address buf a).
Proof.
  intros Ha. unfold report_new_address. cbn. split; [done|].
  intros [|]; cbn; [done|]. destruct (ufrag_from_stun_message buf false); cbn; [|done].
  destruct (hex_to_cow _); cbn; [|done..]. split.
  { intros w Hw. unfold try_send_new_addr. destruct (try_send _ _).
    by eapply tables_ok_ext. }
  intros [[]|]; cbn; [|done]. split; [|done]. intros w [Hk Hr Hn Hc]. split; cbn; try done.
  intros b [->%elem_of_singleton|Hb]%elem_of_union; auto.
Qed.

Lemma handle_keeps_ok buf len a : a ∈ srcs → keeps_ok (handle_packet buf len a).
Proof.
  intros Ha. unfold handle_packet, may_bind. apply keeps_bind; [by split|].
  intros [c|e|]; [|done..]. apply keeps_bind.
  { destruct c; [done|]. destruct (is_stun_message buf); [|done].
    unfold conn_from_stun_message. by destruct (ufrag_from_stun_message buf true). }
  intros [[c'|]|e|]; [|by apply report_keeps_ok|done..]. cbn. split; [|done].
  intros w Hw. unfold write_packet. destruct (conn_write_packet _ _ _ _).
  by eapply tables_ok_ext.
Qed.

Lemma worker_keeps_ok evs k : sources evs ⊆ srcs → keeps_ok (worker_prog evs k).
Proof.
  revert k. induction evs as [|ev evs IH]; intros k Hs; [done|].
  assert (∀ k, keeps_ok (worker_prog evs k)) as IHk.
  { intros. apply IH. intros a Ha. apply Hs. destruct ev as [[]|]; cbn; [by right|done..]. }
  assert (∀ k, keeps_ok (_ ← atomic (λ w, (end_task w, ())); worker_prog evs k)) as IHend.
  { intros. apply keeps_bind; [|by intros]. split; [|done]. intros w Hw.
    by eapply tables_ok_ext. }
  cbn [worker_prog]. destruct (worker_status k); [|apply IHk..].
  destruct ev as [[d a|[[]| | | |]]|]; try (exact (IHk _) || exact (IHend _)).
  apply keeps_bind; [|by intros [| |]; [apply IHk..|apply IHend]].
  apply handle_keeps_ok, Hs. left.
Qed.

Lemma task_keeps_ok t : (∀ op, t = Call op → op ∈ ops) → keeps_ok (task_thread t).
Proof.
  intros Ht. destruct t as [op|c|]; apply keeps_bind; try done.
  - by apply call_keeps_ok, Ht.
  - split; [|done]. intros w Hw. by eapply tables_ok_ext.
  - split; [|done]. intros w Hw. apply (tables_ok_ext w); [done|]. cbn. unfold receive.
    by destruct (poll_next (new_addr_chan w)).
Qed.
End tables.

(** ** Schedules made of segments *)

Lemma task_alone op w :
  rtc (alone mux_handler) (w, task_thread (Call op))
    ((mux_do op w).1, Ret (TCall (mux_do op w).2)).
Proof.
  rewrite <-op_prog_run. cbn.
  apply (alone_bind mux_handler _ (λ r, Ret (TCall r)) _ _ _ (alone_run mux_handler _ w)).
Qed.

(** A packet of an unknown source, up to the report *)
Lemma handle_alone b len addr w :
  lookup_conn b addr (mux w) = None →
  rtc (alone mux_handler) (w, handle_packet b len addr) (w, report_new_address b addr).
Proof.
  unfold lookup_conn, handle_packet, conn_from_stun_message. intros Hc.
  eapply rtc_l; [reflexivity|]. cbn -[report_new_address].
  destruct (address_map (mux w) !! addr); [done|].
  destruct (is_stun_message b); [|apply rtc_refl].
  destruct (ufrag_from_stun_message b true) as [u|]; [|apply rtc_refl].
  eapply rtc_l; [reflexivity|]. cbn -[report_new_address]. rewrite Hc; apply rtc_refl.
Qed.

(** The report, up to the insertion into the set of known sources *)
Lemma report_alone b addr w u f :
  addr ∉ new_addrs (mux w) →
  ufrag_from_stun_message b false = Ok u →
  hex_decode (without_colons u) = Some f → length f = 32 →
  (try_send (new_addr_chan w) (new_address addr f)).2 = Ok () →
  rtc (alone mux_handler) (w, report_new_address b addr)
    (set_chan (try_send (new_addr_chan w) (new_address addr f)).1 w,
     call (E := muxE) (insert_new_addr addr)).
Proof.
  intros Ha Hu Hf Hl Hs. unfold report_new_address.
  eapply rtc_l; [done|]. cbn. rewrite bool_decide_false by done. cbn. rewrite Hu. cbn.
  rewrite (proj2 (hex_to_cow_Done (E := UtilError) _ f)) by done.
  apply rtc_once. unfold alone. cbn. unfold try_send_new_addr.
  destruct (try_send _ _) as [c r]. cbn in *. by subst r.
Qed.

(** A reporting worker is about to remember the source after it has told the
    listen stream of it. *)
Lemma worker_alone d addr k w u f :
  worker_status k = Running →
  let b := recv_into (buffer k) d in
  lookup_conn b addr (mux w) = None → addr ∉ new_addrs (mux w) →
  ufrag_from_stun_message b false = Ok u →
  hex_decode (without_colons u) = Some f → length f = 32 →
  (try_send (new_addr_chan w) (new_address addr f)).2 = Ok () →
  ∃ p, rtc (alone mux_handler) (w, worker_thread [Recv (Received d addr)] k)
         (set_chan (try_send (new_addr_chan w) (new_address addr f)).1 w, p)
       ∧ ∀ w', rtc (alone mux_handler) (w', p)
           ((insert_new_addr addr w').1, Ret (TWorker (mk_worker b Running))).
Proof.
  intros Hk b Hc Ha Hu Hf Hl Hs. unfold worker_thread. cbn [worker_prog]. rewrite Hk.
  eexists. split.
  - do 2 apply alone_bind. etrans; [by apply handle_alone|by eapply report_alone].
  - intros w'. apply rtc_once. reflexivity.
Qed.

(** An address without a route is routed and forgotten by registering it. *)
Lemma register_unrouted c a w :
  mux_closed w = false → address_map (mux w) !! a = None →
  (mux_do (OpRegister c a) w).1 =
    set_mux (λ m, set_new_addrs (λ s, s ∖ {[a]}) (set_address_map <[a := c]> m))
      (set_heap (conn_add_address c a) w).
Proof.
  intros Hcl Ha. unfold mux_do.
  pose proof (run_register c a (set_heap (conn_add_address c a) w)) as E.
  destruct (run_mux _ _) as [w' []]. cbn [fst] in *. subst w'.
  unfold mux_closed in *. cbn. rewrite Hcl. unfold register_address. cbn. by rewrite Ha.
Qed.

(** Removing a fragment removes the routes to its connection's addresses. *)
Lemma remove_unroutes u c a w :
  conns (mux w) !! u = Some c → a ∈ conn_get_addresses (heap w) c →
  let w' := (mux_do (OpRemove u) w).1 in
  address_map (mux w') !! a = None ∧ new_addrs (mux w') = new_addrs (mux w).
Proof.
  intros Hu Ha. unfold mux_do. pose proof (run_remove u w) as E. rewrite Hu in E.
  destruct (run_mux _ _) as [w' []]. cbn [fst] in *. subst w'. cbn.
  by rewrite delete_all_lookup, decide_True.
Qed.
End lemmas.

(** * Correctness *)

Section correctness.
Context `{UDPMuxConnLaws, SocketApi, MultiaddrLaws, ChannelLaws, StunApi, HexLaws}.

(** C9: whatever the worker is interleaved with, section by section, calls,
    closing connections and the listen stream's receives, it reports a source
    at most once, and not at all one that was reported before, as long as no
    connection registers the source and the multiplexer is not closed. So a
    source whose upgrade failed before a connection was registered for it is
    never reported again, whatever it sends. *)
Theorem concurrent_reports_once evs k tasks w a w' log ts :
  (∀ b, b ∈ sources evs → ip b = ip a → port b = port a → b = a) →
  Forall (λ t, ¬ forgets a t) tasks →
  rtc (pool_step logged) ((w, []), worker_thread evs k :: (task_thread <$> tasks))
    ((w', log), ts) →
  reports_for a log ≤ (if decide (a ∈ new_addrs (mux w)) then 0 else 1).
Proof.
  intros Hevs Htasks Hr.
  set (n := if decide (a ∈ new_addrs (mux w)) then 0 else 1).
  destruct (safe_pool logged (spares a) (within a n) (λ _, budget a n) _ _ _ _ Hr)
    as (p' & ts' & _ & Hsafe & _).
  - apply safe_bind with (λ _, budget a n); [apply _| |by intros; apply quiet].
    apply worker_safe; [done|]. unfold budget, n. cbn. by case_decide.
  - apply Forall_fmap. eapply Forall_impl; [done|]. intros t. apply task_spares.
  - by eapply (safe_holds logged (spares a) (within a n)) in Hsafe.
Qed.

(** C21: whatever the interleaving of the worker with calls, closing connections
    and receives: a fragment has a connection of its own key, a new route was
    registered by a call, a remembered source is one that sent a datagram, and
    a closed multiplexer is not opened again. *)
Theorem interleaved_tables_sound evs k tasks w ws :
  (∀ u c, conns (mux w) !! u = Some c → conn_key c = u) →
  rtc (pool_step mux_handler) (w, worker_thread evs k :: (task_thread <$> tasks)) ws →
  tables_ok w (calls tasks) (sources evs) ws.1.
Proof.
  intros Hk Hr. refine (proj1 (keeps_pool mux_handler _ _ _ Hr _ _)).
  - apply Forall_cons. split; [apply keeps_bind; [by apply worker_keeps_ok|done]|].
    apply Forall_fmap, Forall_forall. intros t Ht. apply task_keeps_ok. intros op ->.
    apply list_elem_of_omap. by exists (Call op).
  - split; auto.
Qed.

(** C38: the worker tells the listen stream of a source before it remembers it.
    When the upgrade it causes gets its connection and registers it for the
    source in between, the source is remembered after it was forgotten: once
    this connection is gone, it has no route and yet is not reported again. *)
Theorem report_races_registration d addr k w u f u0 la h' c :
  worker_status k = Running →
  let b := recv_into (buffer k) d in
  lookup_conn b addr (mux w) = None → addr ∉ new_addrs (mux w) →
  ufrag_from_stun_message b false = Ok u →
  hex_decode (without_colons u) = Some f → length f = 32 →
  (try_send (new_addr_chan w) (new_address addr f)).2 = Ok () →
  mux_closed w = false → conns (mux w) !! u0 = None →
  socket_local_addr (params_socket (params (mux w))) = Ok la →
  conn_new (mk_conn_params la u0) (heap w) = (h', c) →
  ∃ w', rtc (pool_step mux_handler)
      (w, [worker_thread [Recv (Received d addr)] k;
           task_thread (Call (OpGetConn u0)); task_thread (Call (OpRegister c addr))])
      (w', [Ret (TWorker (mk_worker b Running)); Ret (TCall (RConn (Ok c)));
            Ret (TCall RUnit)])
    ∧ chan_items (new_addr_chan w') = chan_items (new_addr_chan w) ++ [new_address addr f]
    ∧ let w2 := (mux_do (OpRemove u0) w').1 in
      address_map (mux w2) !! addr = None ∧ addr ∈ new_addrs (mux w2).
Proof.
  intros Hk b Hc Ha Hu Hf Hl Hs Hcl Hu0 Hla Hn.
  assert (address_map (mux w) !! addr = None) as Ham.
  { unfold lookup_conn in Hc. by destruct (address_map (mux w) !! addr). }
  destruct (worker_alone d addr k w u f Hk Hc Ha Hu Hf Hl Hs) as (p & Hp1 & Hp2).
  destruct (try_send _ _) as [rx r] eqn:Hsend. cbn [fst snd] in *. subst r.
  destruct (try_send_items _ _ _ _ _ Hsend) as [Hi _].
  set (w1 := set_chan rx w) in *.
  assert (mux_do (OpGetConn u0) w1
    = (set_mux (set_conns <[u0 := c]>) (set_watchers (cons (c, u0)) (set_heap (λ _, h') w1)),
       RConn (Ok c))) as Hg.
  { unfold mux_do. rewrite run_get_conn. unfold mux_closed in *. cbn.
    rewrite Hcl. by rewrite (run_get_conn_new u0 w1 la h' c). }
  set (w2 := (mux_do (OpGetConn u0) w1).1) in *.
  set (w3 := (mux_do (OpRegister c addr) w2).1).
  exists (insert_new_addr addr w3).1. split; [|split].
  - etrans; [apply (alone_pool _ _ _ _ _ [] _ Hp1)|].
    etrans; [apply (alone_pool _ _ _ _ _ [p] _ (task_alone (OpGetConn u0) w1))|].
    etrans; [apply (alone_pool _ _ _ _ _ [p; _] _ (task_alone (OpRegister c addr) w2))|].
    rewrite Hg. assert ((mux_do (OpRegister c addr) w2).2 = RUnit) as ->.
    { unfold mux_do. by destruct (run_mux _ _). }
    apply (alone_pool _ _ _ _ _ [] _ (Hp2 w3)).
  - rewrite <-Hi. cbn. unfold w3, w2. by rewrite !mux_do_chan.
  - assert (w3 = set_mux (λ m, set_new_addrs (λ s, s ∖ {[addr]}) (set_address_map <[addr := c]> m))
      (set_heap (conn_add_address c addr) w2)) as Hw3.
    { apply register_unrouted; unfold w2; by rewrite Hg. }
    destruct (remove_unroutes u0 c addr (insert_new_addr addr w3).1) as [-> ->].
    + rewrite Hw3. unfold w2. rewrite Hg. apply lookup_insert_eq.
    + rewrite Hw3. cbn. apply conn_add_addresses. by right.
    + split; [done|]. cbn. set_solver.
Qed.

(** Registering an address checks that the multiplexer is open, not that
    the connection is still there. When its fragment is removed in between, the
    route is added after the removal looked for it: the address stays routed to
    a connection that is gone, every datagram from it, whatever it holds, is
    written there, and it is never reported. *)
Theorem registration_races_removal w u c addr :
  mux_closed w = false → conns (mux w) !! u = Some c → conn_key c = u →
  ∃ w', rtc (pool_step mux_handler)
      (w, [task_thread (Call (OpRegister c addr)); task_thread (Call (OpRemove u))])
      (w', [Ret (TCall RUnit); Ret (TCall RUnit)])
    ∧ conns (mux w') !! u = None ∧ address_map (mux w') !! addr = Some c
    ∧ ¬ mux_wf w'
    ∧ ∀ d k, let '(_, w2) := worker_turn (Recv (Received d addr)) k w' in
        mux w2 = mux w' ∧ new_addr_chan w2 = new_addr_chan w'.
Proof.
  intros Hcl Hu Hk. set (w1 := set_heap (conn_add_address c addr) w).
  set (w2 := (mux_do (OpRemove u) w1).1).
  set (w3 := (forget_new_addr addr (register_address c addr w2).1).1).
  assert (∃ p, rtc (alone mux_handler) (w, task_thread (Call (OpRegister c addr))) (w1, p)
    ∧ rtc (alone mux_handler) (w2, p) (w3, Ret (TCall RUnit))) as (p & Hp1 & Hp2).
  { eexists. split.
    - do 2 (eapply rtc_l; [reflexivity|]). cbn. unfold mux_closed in Hcl. rewrite Hcl.
      apply rtc_refl.
    - match goal with |- rtc _ (_, ?p) _ => pose proof (alone_run mux_handler p w2) as Hr end.
      cbn in Hr. unfold w3, forget_new_addr. by destruct (register_address c addr w2). }
  destruct (remove_unroutes u c addr w1) as [Ha _]; [done|apply conn_add_addresses; by right|].
  fold w2 in Ha.
  assert (conns (mux w2) !! u = None ∧ conns (mux w3) = conns (mux w2)
    ∧ address_map (mux w3) !! addr = Some c) as (Hu2 & Hc3 & Ha3).
  { unfold w3, register_address. rewrite Ha. cbn. split_and!; [|done|apply lookup_insert_eq].
    unfold w2, mux_do. pose proof (run_remove u w1) as E.
    destruct (run_mux _ _) as [w' []]. cbn [fst] in *. subst w'.
    destruct (conns (mux w1) !! u); apply lookup_delete_eq. }
  exists w3. split_and!; [|by rewrite Hc3|done|..].
  - etrans; [apply (alone_pool _ _ _ _ _ [] _ Hp1)|].
    etrans; [apply (alone_pool _ _ _ _ _ [p] _ (task_alone (OpRemove u) w1))|].
    fold w2. assert ((mux_do (OpRemove u) w1).2 = RUnit) as ->.
    { unfold mux_do. by destruct (run_mux _ _). }
    apply (alone_pool _ _ _ _ _ [] _ Hp2).
  - intros Hwf. apply (wf_routed _ _ Hwf) in Ha3 as Hr; [|apply not_elem_of_empty]. rewrite Hk, Hc3 in Hr. congruence.
  - intros d k. unfold worker_turn. destruct (worker_status k); [|done..].
    rewrite run_handle_packet. unfold lookup_conn. rewrite Ha3. unfold write_packet.
    by destruct (conn_write_packet _ _ _ _).
Qed.
End correctness.

(** ** Witnesses *)

Module Witness.
Import MuxRef MultiaddrRef ChannelRef StunRef HexRef MuxSpec.Witness ConnWorker.Witness.

Definition greeting : list byte := message ("zz:" +:+ hex_fragment).

(** The worker and a stream that receives in the middle of the report, and a
    call for another fragment *)
Definition others : list task := [Receive; Call (OpGetConn "a")].
Definition pool (S : Type) (s : S) : S * list (prog muxE task_result) :=
  (s, worker_thread twice idle :: (task_thread <$> others)).
Definition order : list nat := [0; 0; 2; 0; 0; 1; 0; 2; 0; 0; 0; 0; 0].
Definition played : (World * list Multiaddr) * list (prog muxE task_result) :=
  sched logged order (pool _ (start, [])).

Example played_log : bool_decide (played.1.2 = [new_address other fingerprint]) = true.
Proof. vm_compute. reflexivity. Qed.

Lemma concurrent_reports_once_witness : reports_for other played.1.2 ≤ 1.
Proof.
  refine (concurrent_reports_once twice idle others start other played.1.1 played.1.2
    played.2 _ _ _).
  - intros b Hb _ _. cbn in Hb. rewrite !elem_of_cons in Hb.
    destruct Hb as [->|[->|Hb]]; [reflexivity..|]. by apply elem_of_nil in Hb.
  - repeat constructor; cbn; auto.
  - replace (played.1.1, played.1.2, played.2) with played
      by (destruct played as [[? ?] ?]; reflexivity).
    exact (sched_steps logged order (pool _ (start, []))).
Defined.

Definition interleaved : World * list (prog muxE task_result) :=
  sched mux_handler order (pool _ start).

Lemma interleaved_tables_sound_witness :
  tables_ok start [OpGetConn "a"] [other; other] interleaved.1.
Proof.
  refine (interleaved_tables_sound twice idle others start interleaved _ _).
  - intros u c Hu. by destruct (lookup_empty_Some u c Hu).
  - exact (sched_steps mux_handler order (pool _ start)).
Defined.

Lemma report_races_registration_witness :
  ∃ w', chan_items (new_addr_chan w') = [new_address other fingerprint]
    ∧ let w2 := (mux_do (OpRemove "zz") w').1 in
      address_map (mux w2) !! other = None ∧ other ∈ new_addrs (mux w2).
Proof.
  assert (hex_decode (without_colons hex_fragment) = Some fingerprint) as Hd
    by (vm_compute; reflexivity).
  assert (ufrag_from_stun_message (recv_into (buffer idle) greeting) false = Ok hex_fragment)
    as Hu by (vm_compute; reflexivity).
  assert (lookup_conn (recv_into (buffer idle) greeting) other (mux start) = None) as Hc
    by (vm_compute; reflexivity).
  destruct (report_races_registration greeting other idle start hex_fragment fingerprint "zz"
    any_v4 _ _ eq_refl Hc (not_elem_of_empty _) Hu Hd eq_refl eq_refl eq_refl eq_refl eq_refl
    eq_refl) as (w' & _ & Hi & Hr).
  exists w'. split; [exact Hi|exact Hr].
Defined.

Definition with_conn : World := (mux_do (OpGetConn "a") start).1.

Lemma registration_races_removal_witness :
  ∃ w', conns (mux w') !! "a" = None ∧ address_map (mux w') !! peer = Some (handle 0 "a").
Proof.
  assert (bool_decide (conns (mux with_conn) !! "a" = Some (handle 0 "a")) = true)
    as Hu%bool_decide_eq_true by (vm_compute; reflexivity).
  destruct (registration_races_removal with_conn "a" (handle 0 "a") peer eq_refl Hu eq_refl)
    as (w' & _ & Hc & Ha & _).
  exists w'. split; [exact Hc|exact Ha].
Defined.
End Witness.
