(* ===== verification/MuxLin.v ===== *)
(** * Calls that act as one after the other

    Threads of [get_conn] and [remove_conn_by_ufrag], of connections that close
    and of the listen stream's receives: every interleaving of their critical
    sections ends as some order of the whole calls does, with the same
    results. Calls that close the multiplexer or register an address do not
    have this property; the races of MuxConc and WorkerConc show it. *)

From S2P Require Import Prelude RustString Net Multiaddr Fingerprint Errors Stun.
From S2P Require Import Channel Prog Threads UdpMux MuxSpec MuxConc ConnWorker WorkerConc.

#[local] Open Scope rust_scope.

(** ** Model *)

Section model.
Context `{UDPMuxConnApi, SocketApi, MultiaddrApi, ChannelApi, StunApi, HexApi}.











End model.

(** * Lemmas *)

Section lemmas.
Context `{UDPMuxConnLaws, SocketApi, MultiaddrApi, ChannelApi, StunApi, HexApi}.


(** ** Worlds without some of the routes *)




(** ** Whole calls *)




(** ** Steps *)











(** ** The pool *)












End lemmas.

(** * Correctness *)

Section correctness.
Context `{UDPMuxConnLaws, SocketApi, MultiaddrApi, ChannelApi, StunApi, HexApi}.

End correctness.

(** ** Witness *)

Module Witness.
Import MuxRef MultiaddrRef ChannelRef StunRef HexRef MuxSpec.Witness ConnWorker.Witness.



End Witness.
