(* ===== verification/Sdp.v ===== *)
(** * Session descriptions

    The templates of [src/sdp.rs] and [render_description] of
    [src/transport.rs]. The template engine ([tinytemplate]) is the interface
    [TemplateApi]; [Serialize] gives it the fields of the context as JSON
    values. *)

From S2P Require Import Prelude RustString Net Fingerprint.

(** ** The template engine *)

Inductive json_value := JString (s : string) | JNumber (n : Z).

Class TemplateApi := {
  Template : Type;
  TemplateError : Type;
  add_template : string → result TemplateError Template;
  render : Template → list (string * json_value) → result TemplateError string;
}.

(** A template as the engine's documentation describes it: text, and the
    values of the context in braces *)
Inductive segment := Lit (s : string) | Val (name : string).

Definition segment_text (x : segment) : string :=
  match x with Lit s => s | Val n => "{" +:+ n +:+ "}" end.
Definition template_text (l : list segment) : string := concat_str (segment_text <$> l).

(** Text without the characters the engine interprets *)
Definition is_plain (c : ascii) : bool :=
  negb (Ascii.eqb c "{" || Ascii.eqb c "}" || Ascii.eqb c "\").
(** The alphabet of the names the source uses *)
Definition is_ident (c : ascii) : bool :=
  in_range 97 122 (Ascii.N_of_ascii c) || Ascii.eqb c "_".
(** Text without the characters the engine escapes in a value: less-than,
    greater-than, ampersand and the two quotes *)
Definition is_html_safe (c : ascii) : bool :=
  let v := Ascii.N_of_ascii c in
  negb (N.eqb v 60 || N.eqb v 62 || N.eqb v 38 || N.eqb v 39 || N.eqb v 34).

Fixpoint field (ctx : list (string * json_value)) (name : string) : option json_value :=
  match ctx with
  | [] => None
  | (n, v) :: ctx => if String.eqb n name then Some v else field ctx name
  end.

Definition json_text (v : json_value) : string :=
  match v with JString s => s | JNumber n => format_dec n end.
Definition json_safe (v : json_value) : bool :=
  match v with JString s => str_all is_html_safe s | JNumber _ => true end.

Definition segment_ok (ctx : list (string * json_value)) (x : segment) : bool :=
  match x with
  | Lit s => str_all is_plain s
  | Val n => str_all is_ident n && if field ctx n is Some v then json_safe v else false
  end.
Definition segment_value (ctx : list (string * json_value)) (x : segment) : string :=
  match x with
  | Lit s => s
  | Val n => if field ctx n is Some v then json_text v else ""
  end.

(** Such a template is accepted, and rendering replaces each value. *)
Class TemplateLaws `{TemplateApi} : Prop :=
  render_template l ctx :
    forallb (segment_ok ctx) l = true →
    ∃ t, add_template (template_text l) = Ok t
         ∧ render t ctx = Ok (concat_str (segment_value ctx <$> l)).

(** ** The templates *)

Definition CLIENT_SESSION_DESCRIPTION : string := "v=0
o=- 0 0 IN {ip_version} {target_ip}
s=-
c=IN {ip_version} {target_ip}
t=0 0

m=application {target_port} UDP/DTLS/SCTP webrtc-datachannel
a=mid:0
a=ice-options:ice2
a=ice-ufrag:{ufrag}
a=ice-pwd:{pwd}
a=fingerprint:sha-256 {fingerprint}
a=setup:actpass
a=sctp-port:5000
a=max-message-size:100000
".

Definition SERVER_SESSION_DESCRIPTION : string := "v=0
o=- 0 0 IN {ip_version} {target_ip}
s=-
t=0 0
a=ice-lite
m=application {target_port} UDP/DTLS/SCTP webrtc-datachannel
c=IN {ip_version} {target_ip}
a=mid:0
a=ice-options:ice2
a=ice-ufrag:{ufrag}
a=ice-pwd:{pwd}
a=fingerprint:sha-256 {fingerprint}

a=setup:passive
a=sctp-port:5000
a=max-message-size:100000
a=candidate:1 1 UDP 1 {target_ip} {target_port} typ host
".

Inductive IpVersion := IP4 | IP6.

Record DescriptionContext := mk_context {
  ip_version : IpVersion;
  target_ip : IpAddr;
  target_port : Z;
  fingerprint : string;
  ufrag : string;
  pwd : string;
}.

(** [#[derive(Serialize)]]: the fields in order; a unit variant is its name,
    an [IpAddr] its text. *)
Definition serialize_ip_version (v : IpVersion) : json_value :=
  JString match v with IP4 => "IP4" | IP6 => "IP6" end.
Definition serialize (c : DescriptionContext) : list (string * json_value) :=
  [ ("ip_version", serialize_ip_version (ip_version c));
    ("target_ip", JString (display_ip (target_ip c)));
    ("target_port", JNumber (target_port c));
    ("fingerprint", JString (fingerprint c));
    ("ufrag", JString (ufrag c));
    ("pwd", JString (pwd c)) ].

(** ** [render_description] *)

Definition description_context (addr : SocketAddr) (fp : string) : DescriptionContext :=
  let f := without_colons fp in
  {| ip_version := if is_ipv4 addr then IP4 else IP6;
     target_ip := ip addr;
     target_port := port addr;
     fingerprint := fp;
     ufrag := f;
     pwd := f |}.

Definition render_description `{TemplateApi} {E} (description : string)
    (addr : SocketAddr) (fp : string) : outcome E string :=
  tt ← unwrap (add_template description);
  unwrap (render tt (serialize (description_context addr fp))).

(** ** The texts the templates stand for *)

Definition addr_version (addr : SocketAddr) : string :=
  if is_ipv4 addr then "IP4" else "IP6".

Definition text_line (l : list string) : string :=
  concat_str l +:+ String (Ascii.ascii_of_nat 10) "".
Definition lines (l : list (list string)) : string := concat_str (text_line <$> l).

(** The offer of a client with the given fingerprint, line by line *)
Definition client_description (addr : SocketAddr) (fp : string) : string :=
  let v := addr_version addr in
  let i := display_ip (ip addr) in
  lines
    [ ["v=0"]; ["o=- 0 0 IN "; v; " "; i]; ["s=-"]; ["c=IN "; v; " "; i]; ["t=0 0"]; [];
      ["m=application "; format_dec (port addr); " UDP/DTLS/SCTP webrtc-datachannel"];
      ["a=mid:0"]; ["a=ice-options:ice2"];
      ["a=ice-ufrag:"; without_colons fp]; ["a=ice-pwd:"; without_colons fp];
      ["a=fingerprint:sha-256 "; fp];
      ["a=setup:actpass"]; ["a=sctp-port:5000"]; ["a=max-message-size:100000"] ].

(** The answer of a server with the given fingerprint, line by line *)
Definition server_description (addr : SocketAddr) (fp : string) : string :=
  let v := addr_version addr in
  let i := display_ip (ip addr) in
  lines
    [ ["v=0"]; ["o=- 0 0 IN "; v; " "; i]; ["s=-"]; ["t=0 0"]; ["a=ice-lite"];
      ["m=application "; format_dec (port addr); " UDP/DTLS/SCTP webrtc-datachannel"];
      ["c=IN "; v; " "; i]; ["a=mid:0"]; ["a=ice-options:ice2"];
      ["a=ice-ufrag:"; without_colons fp]; ["a=ice-pwd:"; without_colons fp];
      ["a=fingerprint:sha-256 "; fp]; [];
      ["a=setup:passive"]; ["a=sctp-port:5000"]; ["a=max-message-size:100000"];
      ["a=candidate:1 1 UDP 1 "; i; " "; format_dec (port addr); " typ host"] ].

(** ** A reference instance: a scanner *)

Module TemplateRef.
(** Outside braces, or inside them with the name read so far *)
Fixpoint scan (ctx : list (string * json_value)) (name : option string) (s : string)
    : option string :=
  match s, name with
  | EmptyString, None => Some ""
  | EmptyString, Some _ => None
  | String c s, None =>
      if Ascii.eqb c "{" then scan ctx (Some "") s
      else String c <$> scan ctx None s
  | String c s, Some n =>
      if Ascii.eqb c "}" then
        v ← field ctx n; r ← scan ctx None s; Some (json_text v +:+ r)
      else scan ctx (Some (n +:+ String c "")) s
  end.

#[export] Instance api : TemplateApi := {|
  Template := string;
  TemplateError := unit;
  add_template s := Ok s;
  render t ctx := match scan ctx None t with Some s => Ok s | None => Err () end;
|}.

Lemma scan_lit ctx s t :
  str_all is_plain s → scan ctx None (s +:+ t) = String.append s <$> scan ctx None t.
Proof.
  induction s as [|c s IH].
  - intros _. rewrite append_nil_l. by destruct (scan ctx None t).
  - cbn [str_all]. intros [Hc Hs]%andb_True. rewrite append_cons. cbn [scan].
    unfold is_plain in Hc. destruct (Ascii.eqb c "{"); [done|].
    rewrite IH by done. by destruct (scan ctx None t).
Qed.

Lemma scan_name ctx acc n t :
  str_all is_ident n →
  scan ctx (Some acc) (n +:+ "}" +:+ t) =
    (v ← field ctx (acc +:+ n); r ← scan ctx None t; Some (json_text v +:+ r)).
Proof.
  revert acc. induction n as [|c n IH]; intros acc.
  - intros _. by rewrite append_nil_l, append_nil_r.
  - cbn [str_all]. intros [Hc Hn]%andb_True. rewrite append_cons. cbn [scan].
    destruct (Ascii.eqb_spec c "}") as [->|]; [done|].
    by rewrite IH, append_assoc.
Qed.

#[export] Instance laws : TemplateLaws.
Proof.
  intros l ctx Hl. exists (template_text l). split; [done|]. cbn.
  assert (scan ctx None (template_text l) = Some (concat_str (segment_value ctx <$> l)))
    as ->; [|done].
  unfold template_text. induction l as [|x l IH]; [done|].
  cbn [forallb] in Hl. apply andb_true_iff in Hl as [Hx Hl].
  rewrite !fmap_cons. cbn [concat_str]. destruct x as [s|n]; cbn [segment_text segment_value].
  - rewrite scan_lit by (by apply Is_true_true). by rewrite (IH Hl).
  - cbn in Hx. apply andb_true_iff in Hx as [Hn Hf].
    rewrite !append_assoc. change ("{" +:+ ?s) with (String "{" s). cbn [scan].
    change (Ascii.eqb "{" "{") with true. cbv iota.
    rewrite scan_name by (by apply Is_true_true).
    rewrite append_nil_l, (IH Hl). by destruct (field ctx n).
Qed.
End TemplateRef.

(** * Lemmas *)

Definition client_segments : list segment :=
  [ Lit "v=0
o=- 0 0 IN "; Val "ip_version"; Lit " "; Val "target_ip"; Lit "
s=-
c=IN "; Val "ip_version"; Lit " "; Val "target_ip"; Lit "
t=0 0

m=application "; Val "target_port"; Lit " UDP/DTLS/SCTP webrtc-datachannel
a=mid:0
a=ice-options:ice2
a=ice-ufrag:"; Val "ufrag"; Lit "
a=ice-pwd:"; Val "pwd"; Lit "
a=fingerprint:sha-256 "; Val "fingerprint"; Lit "
a=setup:actpass
a=sctp-port:5000
a=max-message-size:100000
" ].

Definition server_segments : list segment :=
  [ Lit "v=0
o=- 0 0 IN "; Val "ip_version"; Lit " "; Val "target_ip"; Lit "
s=-
t=0 0
a=ice-lite
m=application "; Val "target_port"; Lit " UDP/DTLS/SCTP webrtc-datachannel
c=IN "; Val "ip_version"; Lit " "; Val "target_ip"; Lit "
a=mid:0
a=ice-options:ice2
a=ice-ufrag:"; Val "ufrag"; Lit "
a=ice-pwd:"; Val "pwd"; Lit "
a=fingerprint:sha-256 "; Val "fingerprint"; Lit "

a=setup:passive
a=sctp-port:5000
a=max-message-size:100000
a=candidate:1 1 UDP 1 "; Val "target_ip"; Lit " "; Val "target_port"; Lit " typ host
" ].

Lemma client_template : template_text client_segments = CLIENT_SESSION_DESCRIPTION.
Proof. reflexivity. Qed.

Lemma server_template : template_text server_segments = SERVER_SESSION_DESCRIPTION.
Proof. reflexivity. Qed.

Lemma addr_char_html_safe c : is_addr_char c → is_html_safe c.
Proof. revert c. by_char. Qed.

Lemma fingerprint_char_html_safe c : is_fingerprint_char c → is_html_safe c.
Proof. revert c. by_char. Qed.

Lemma replace_char_all P c s : str_all P s → str_all P (replace_char c s).
Proof.
  induction s as [|d s IH]; [done|]. cbn. intros [Hd Hs]%andb_True.
  case_match; [by apply IH|]. cbn. apply andb_True. auto.
Qed.

(** A fingerprint text that the template engine leaves as it is *)
Definition fingerprint_safe (fp : string) : Prop := str_all is_html_safe fp = true.

Lemma fingerprint_to_string_safe f : fingerprint_safe (fingerprint_to_string f).
Proof.
  apply Is_true_true, (str_all_impl is_fingerprint_char);
    [apply fingerprint_char_html_safe|apply fingerprint_to_string_chars].
Qed.

Lemma display_ip_safe i : str_all is_html_safe (display_ip i) = true.
Proof.
  apply Is_true_true, (str_all_impl is_addr_char);
    [apply addr_char_html_safe|apply display_ip_chars].
Qed.

Section lemmas.
Context `{TemplateLaws}.

Lemma segments_ok l addr fp :
  fingerprint_safe fp →
  forallb (segment_ok (serialize (description_context addr fp))) l =
  forallb (segment_ok (serialize (mk_context IP4 (IpV4 (mk_v4 0 0 0 0)) 0 "" "" ""))) l.
Proof.
  intros Hfp. induction l as [|x l IH]; [done|]. cbn [forallb]. rewrite IH. f_equal.
  destruct x as [s|n]; [done|]. cbn [segment_ok]. f_equal.
  unfold serialize. cbn [field ip_version target_ip target_port fingerprint ufrag pwd
    description_context].
  pose proof (display_ip_safe (ip addr)) as Hi.
  assert (str_all is_html_safe (without_colons fp) = true) as Hu
    by by apply Is_true_true, replace_char_all, Is_true_true.
  unfold fingerprint_safe in Hfp.
  repeat (case_match; simplify_eq/=; try done); unfold serialize_ip_version; cbn;
    repeat case_match; congruence.
Qed.

Lemma render_segments {E} l addr fp :
  fingerprint_safe fp →
  forallb (segment_ok (serialize (mk_context IP4 (IpV4 (mk_v4 0 0 0 0)) 0 "" "" ""))) l
    = true →
  render_description (E := E) (template_text l) addr fp =
    Done (concat_str (segment_value (serialize (description_context addr fp)) <$> l)).
Proof.
  intros Hfp Hl. rewrite <-(segments_ok l addr fp Hfp) in Hl.
  destruct (render_template _ _ Hl) as (t & Ht & Hr).
  unfold render_description. rewrite Ht. cbn. by rewrite Hr.
Qed.
End lemmas.

(** The values of the context are the address's and the fingerprint's. *)
Lemma client_values addr fp :
  concat_str (segment_value (serialize (description_context addr fp)) <$> client_segments)
  = client_description addr fp.
Proof.
  unfold client_description, lines, text_line, addr_version, description_context, serialize,
    serialize_ip_version, client_segments.
  cbn [fmap list_fmap segment_value field String.eqb Ascii.eqb Bool.eqb json_text concat_str
    ip_version target_ip target_port fingerprint ufrag pwd].
  rewrite !append_assoc. by destruct (is_ipv4 addr).
Qed.

Lemma server_values addr fp :
  concat_str (segment_value (serialize (description_context addr fp)) <$> server_segments)
  = server_description addr fp.
Proof.
  unfold server_description, lines, text_line, addr_version, description_context, serialize,
    serialize_ip_version, server_segments.
  cbn [fmap list_fmap segment_value field String.eqb Ascii.eqb Bool.eqb json_text concat_str
    ip_version target_ip target_port fingerprint ufrag pwd].
  rewrite !append_assoc. by destruct (is_ipv4 addr).
Qed.

Section correctness.
Context `{TemplateLaws}.

Lemma render_client {E} addr fp :
  fingerprint_safe fp →
  render_description (E := E) CLIENT_SESSION_DESCRIPTION addr fp =
    Done (client_description addr fp).
Proof.
  intros. rewrite <-client_template, render_segments by done. by rewrite client_values.
Qed.

Lemma render_server {E} addr fp :
  fingerprint_safe fp →
  render_description (E := E) SERVER_SESSION_DESCRIPTION addr fp =
    Done (server_description addr fp).
Proof.
  intros. rewrite <-server_template, render_segments by done. by rewrite server_values.
Qed.

(** Rendering the predefined offer and answer never fails, whatever the
    fingerprint: it gives the template with the address, the port and the
    fingerprint in their places, and a user fragment and password that are
    equal and decode to the fingerprint. *)
Theorem render_description_spec {E} addr f :
  let fp := fingerprint_to_string f in
  render_description (E := E) CLIENT_SESSION_DESCRIPTION addr fp
    = Done (client_description addr fp)
  ∧ render_description (E := E) SERVER_SESSION_DESCRIPTION addr fp
    = Done (server_description addr fp)
  ∧ hex_decode (ufrag (description_context addr fp)) = Some f
  ∧ pwd (description_context addr fp) = ufrag (description_context addr fp).
Proof.
  split_and!; [apply render_client|apply render_server|..];
    auto using fingerprint_to_string_safe. apply hex_decode_fingerprint.
Qed.
End correctness.

Module Witness.
Import TemplateRef.

Lemma render_description_spec_witness :
  render_description (E := ()) SERVER_SESSION_DESCRIPTION
    (V4 (mk_v4 127 0 0 1) 4001) (fingerprint_to_string [Byte.xab; Byte.x01])
  = Done (server_description (V4 (mk_v4 127 0 0 1) 4001) "ab:01").
Proof.
  apply (render_description_spec (V4 (mk_v4 127 0 0 1) 4001) [Byte.xab; Byte.x01]).
Defined.
End Witness.
