(* ===== verification/SdpRead.v ===== *)
(** * Session descriptions read back

    A reader of the lines of a session description, and what it finds in the
    ones [render_description] makes. *)

From S2P Require Import Prelude RustString Net Fingerprint Sdp.

(** ** Reader *)

Definition newline : ascii := Ascii.ascii_of_nat 10.

Fixpoint strip_prefix (p s : string) : option string :=
  match p, s with
  | EmptyString, _ => Some s
  | String c p, String d s => if Ascii.eqb c d then strip_prefix p s else None
  | String _ _, EmptyString => None
  end.

Definition sdp_lines (text : string) : list string := split_char newline text.

(** What follows [key] on the lines that begin with it *)
Definition sdp_values (key text : string) : list string :=
  omap (strip_prefix key) (sdp_lines text).

Definition on_one_line (s : string) : Prop := str_all (λ d, negb (Ascii.eqb d newline)) s.

(** * Lemmas *)

Lemma addr_char_on_line c : is_addr_char c → negb (Ascii.eqb c newline).
Proof. revert c. by_char. Qed.

Lemma fingerprint_char_on_line c : is_fingerprint_char c → negb (Ascii.eqb c newline).
Proof. revert c. by_char. Qed.

(** The lines are the ones written, and what follows the last line break. *)
Lemma sdp_lines_lines ls :
  Forall (Forall on_one_line) ls → sdp_lines (lines ls) = (concat_str <$> ls) ++ [""].
Proof.
  induction 1 as [|l ls Hl _ IH]; [done|]. unfold sdp_lines, lines, text_line in *. cbn.
  rewrite append_assoc. change (String (Ascii.ascii_of_nat 10) "" +:+ ?t) with (String newline t).
  rewrite split_char_append by by apply str_all_concat. by rewrite IH.
Qed.

Lemma values_on_one_line addr f :
  on_one_line (addr_version addr) ∧ on_one_line (display_ip (ip addr))
  ∧ on_one_line (format_dec (port addr)) ∧ on_one_line (fingerprint_to_string f)
  ∧ on_one_line (without_colons (fingerprint_to_string f)).
Proof.
  assert (on_one_line (fingerprint_to_string f)) as Hf.
  { eapply str_all_impl; [apply fingerprint_char_on_line|apply fingerprint_to_string_chars]. }
  split_and!; [by unfold addr_version; destruct (is_ipv4 addr)|..|done|].
  - eapply str_all_impl; [apply addr_char_on_line|apply display_ip_chars].
  - eapply str_all_impl; [apply addr_char_on_line|apply format_dec_addr].
  - by apply replace_char_all.
Qed.

(** The same lines in both descriptions, and those that differ *)
Lemma client_lines addr f :
  let v := addr_version addr in
  let i := display_ip (ip addr) in
  let fp := fingerprint_to_string f in
  sdp_lines (client_description addr fp) = (concat_str <$>
    [ ["v=0"]; ["o=- 0 0 IN "; v; " "; i]; ["s=-"]; ["c=IN "; v; " "; i]; ["t=0 0"]; [];
      ["m=application "; format_dec (port addr); " UDP/DTLS/SCTP webrtc-datachannel"];
      ["a=mid:0"]; ["a=ice-options:ice2"];
      ["a=ice-ufrag:"; without_colons fp]; ["a=ice-pwd:"; without_colons fp];
      ["a=fingerprint:sha-256 "; fp];
      ["a=setup:actpass"]; ["a=sctp-port:5000"]; ["a=max-message-size:100000"] ]) ++ [""].
Proof.
  destruct (values_on_one_line addr f) as (Hv & Hi & Hp & Hf & Hu).
  apply sdp_lines_lines. repeat constructor; done.
Qed.

Lemma server_lines addr f :
  let v := addr_version addr in
  let i := display_ip (ip addr) in
  let fp := fingerprint_to_string f in
  sdp_lines (server_description addr fp) = (concat_str <$>
    [ ["v=0"]; ["o=- 0 0 IN "; v; " "; i]; ["s=-"]; ["t=0 0"]; ["a=ice-lite"];
      ["m=application "; format_dec (port addr); " UDP/DTLS/SCTP webrtc-datachannel"];
      ["c=IN "; v; " "; i]; ["a=mid:0"]; ["a=ice-options:ice2"];
      ["a=ice-ufrag:"; without_colons fp]; ["a=ice-pwd:"; without_colons fp];
      ["a=fingerprint:sha-256 "; fp]; [];
      ["a=setup:passive"]; ["a=sctp-port:5000"]; ["a=max-message-size:100000"];
      ["a=candidate:1 1 UDP 1 "; i; " "; format_dec (port addr); " typ host"] ]) ++ [""].
Proof.
  destruct (values_on_one_line addr f) as (Hv & Hi & Hp & Hf & Hu).
  apply sdp_lines_lines. repeat constructor; done.
Qed.

(** Reading lines of which each is a key and its value, or another one *)
Definition keys_read (ls : list (list string)) (v i p fp u : string) (candidate : list string)
    : Prop :=
  let read key := omap (strip_prefix key) ((concat_str <$> ls) ++ [""]) in
  read "c=IN " = [v +:+ " " +:+ i]
  ∧ read "m=application " = [p +:+ " UDP/DTLS/SCTP webrtc-datachannel"]
  ∧ read "a=fingerprint:sha-256 " = [fp]
  ∧ read "a=ice-ufrag:" = [u] ∧ read "a=ice-pwd:" = [u]
  ∧ read "a=candidate:" = candidate.

Lemma client_keys v i p fp u :
  keys_read
    [ ["v=0"]; ["o=- 0 0 IN "; v; " "; i]; ["s=-"]; ["c=IN "; v; " "; i]; ["t=0 0"]; [];
      ["m=application "; p; " UDP/DTLS/SCTP webrtc-datachannel"];
      ["a=mid:0"]; ["a=ice-options:ice2"]; ["a=ice-ufrag:"; u]; ["a=ice-pwd:"; u];
      ["a=fingerprint:sha-256 "; fp];
      ["a=setup:actpass"]; ["a=sctp-port:5000"]; ["a=max-message-size:100000"] ]
    v i p fp u [].
Proof.
  unfold keys_read. cbn [fmap list_fmap concat_str app]. rewrite !append_nil_r.
  vm_compute. by split_and!.
Qed.

Lemma server_keys v i p fp u :
  keys_read
    [ ["v=0"]; ["o=- 0 0 IN "; v; " "; i]; ["s=-"]; ["t=0 0"]; ["a=ice-lite"];
      ["m=application "; p; " UDP/DTLS/SCTP webrtc-datachannel"];
      ["c=IN "; v; " "; i]; ["a=mid:0"]; ["a=ice-options:ice2"];
      ["a=ice-ufrag:"; u]; ["a=ice-pwd:"; u];
      ["a=fingerprint:sha-256 "; fp]; [];
      ["a=setup:passive"]; ["a=sctp-port:5000"]; ["a=max-message-size:100000"];
      ["a=candidate:1 1 UDP 1 "; i; " "; p; " typ host"] ]
    v i p fp u ["1 1 UDP 1 " +:+ i +:+ " " +:+ p +:+ " typ host"].
Proof.
  unfold keys_read. cbn [fmap list_fmap concat_str app]. rewrite !append_nil_r.
  vm_compute. by split_and!.
Qed.

(** * Correctness *)

Section correctness.
Context `{TemplateLaws}.

(** C27: the descriptions can be read back: rendering never fails, no value
    adds a line, and the connection, the port, the fingerprint, the user
    fragment and the password are each on one line, as they were given; the
    fragment and the password decode to the fingerprint; only the answer names
    a candidate, the address itself. *)
Theorem description_read_back {E} addr f (server : bool) :
  let fp := fingerprint_to_string f in
  let i := display_ip (ip addr) in
  ∃ text u,
    render_description (E := E)
      (if server then SERVER_SESSION_DESCRIPTION else CLIENT_SESSION_DESCRIPTION) addr fp
      = Done text
    ∧ length (sdp_lines text) = (if server then 18 else 16)
    ∧ sdp_values "c=IN " text = [addr_version addr +:+ " " +:+ i]
    ∧ sdp_values "m=application " text
        = [format_dec (port addr) +:+ " UDP/DTLS/SCTP webrtc-datachannel"]
    ∧ sdp_values "a=fingerprint:sha-256 " text = [fp]
    ∧ sdp_values "a=ice-ufrag:" text = [u] ∧ sdp_values "a=ice-pwd:" text = [u]
    ∧ hex_decode u = Some f
    ∧ sdp_values "a=candidate:" text
        = if server then ["1 1 UDP 1 " +:+ i +:+ " " +:+ format_dec (port addr) +:+ " typ host"]
          else [].
Proof.
  intros fp i. pose proof (fingerprint_to_string_safe f) as Hs.
  assert (hex_decode (without_colons fp) = Some f) as Hd by apply hex_decode_fingerprint.
  unfold sdp_values. destruct server.
  - exists (server_description addr fp), (without_colons fp).
    destruct (server_keys (addr_version addr) i (format_dec (port addr)) fp (without_colons fp))
      as (Hc & Hm & Hf & Hu & Hp & Hk).
    split; [by apply render_server|]. unfold fp, i in *. rewrite server_lines.
    by split_and!.
  - exists (client_description addr fp), (without_colons fp).
    destruct (client_keys (addr_version addr) i (format_dec (port addr)) fp (without_colons fp))
      as (Hc & Hm & Hf & Hu & Hp & Hk).
    split; [by apply render_client|]. unfold fp, i in *. rewrite client_lines.
    by split_and!.
Qed.
End correctness.

Module Witness.
Import TemplateRef.

Lemma description_read_back_witness :
  ∃ text, render_description (E := ()) SERVER_SESSION_DESCRIPTION
      (V4 (mk_v4 127 0 0 1) 4001) (fingerprint_to_string [Byte.xab; Byte.x01]) = Done text
    ∧ sdp_values "a=ice-ufrag:" text = ["ab01"].
Proof.
  destruct (description_read_back (E := ()) (V4 (mk_v4 127 0 0 1) 4001) [Byte.xab; Byte.x01] true)
    as (text & u & Hr & _ & _ & _ & _ & Hu & _).
  exists text. split; [exact Hr|]. rewrite Hu. vm_compute in Hr. injection Hr as <-.
  vm_compute in Hu. injection Hu as <-. reflexivity.
Defined.
End Witness.
