(* ===== verification/DataChannel.v ===== *)
(** * Data channels

    [PollDataChannel] of [src/connection/poll_data_channel.rs]: the adapter
    from the polled data channel of [webrtc_data] (the interface
    [DataChannelApi]) to [AsyncRead] and [AsyncWrite]. *)

From S2P Require Import Prelude RustString Net Multiaddr Errors.

(** ** Interfaces *)

(** [tokio::io::ReadBuf] as far as it is filled *)
Record ReadBuf := mk_read_buf { rb_storage : list byte; rb_filled : nat }.
Definition ReadBuf_new (buf : list byte) : ReadBuf := mk_read_buf buf 0.
Definition filled (b : ReadBuf) : list byte := take (rb_filled b) (rb_storage b).

(** [webrtc_data]: a detached channel is an [Arc<DataChannel>]; polling a
    channel changes the state behind the handles, the heap. *)
Class DataChannelApi := {
  DetachedDataChannel : Type;
  RTCPollDataChannel : Type;
  DcHeap : Type;
  detached_id : DetachedDataChannel → Z;
  rtc_id : RTCPollDataChannel → Z;
  rtc_new : DetachedDataChannel → DcHeap → DcHeap * RTCPollDataChannel;
  rtc_clone : RTCPollDataChannel → DcHeap → DcHeap * RTCPollDataChannel;
  rtc_poll_read :
    RTCPollDataChannel → ReadBuf → DcHeap → DcHeap * ReadBuf * poll (result io_error ());
  rtc_poll_write :
    RTCPollDataChannel → list byte → DcHeap → DcHeap * poll (result io_error nat);
  rtc_poll_write_vectored :
    RTCPollDataChannel → list (list byte) → DcHeap → DcHeap * poll (result io_error nat);
  rtc_poll_flush : RTCPollDataChannel → DcHeap → DcHeap * poll (result io_error ());
  rtc_poll_shutdown : RTCPollDataChannel → DcHeap → DcHeap * poll (result io_error ());
  (** the counters of the channel *)
  rtc_messages_sent : RTCPollDataChannel → DcHeap → Z;
  rtc_messages_received : RTCPollDataChannel → DcHeap → Z;
  rtc_bytes_sent : RTCPollDataChannel → DcHeap → Z;
  rtc_bytes_received : RTCPollDataChannel → DcHeap → Z;
  rtc_buffered_amount : RTCPollDataChannel → DcHeap → Z;
  rtc_buffered_amount_low_threshold : RTCPollDataChannel → DcHeap → Z;
}.

(** A handle keeps the identifier of its channel; a reader fills its buffer
    from the front and within its capacity. *)
Class DataChannelLaws `{DataChannelApi} : Prop := {
  rtc_new_id d h : rtc_id (rtc_new d h).2 = detached_id d;
  rtc_clone_id c h : rtc_id (rtc_clone c h).2 = rtc_id c;
  rtc_poll_read_buf c b h h' b' p :
    rtc_poll_read c b h = (h', b', p) →
    length (rb_storage b') = length (rb_storage b)
    ∧ rb_filled b ≤ rb_filled b'
    ∧ (rb_filled b ≤ length (rb_storage b) → rb_filled b' ≤ length (rb_storage b'))
    ∧ drop (rb_filled b') (rb_storage b') = drop (rb_filled b') (rb_storage b);
}.

(** ** Operations *)

Section poll_data_channel.
Context `{DataChannelApi}.

Inductive PollDataChannel := mk_poll_data_channel (inner : RTCPollDataChannel).

Definition into_inner (self : PollDataChannel) : RTCPollDataChannel :=
  let 'mk_poll_data_channel c := self in c.
Definition PollDataChannel_new (d : DetachedDataChannel) (h : DcHeap)
    : DcHeap * PollDataChannel :=
  let '(h, c) := rtc_new d h in (h, mk_poll_data_channel c).
Definition clone_inner (self : PollDataChannel) (h : DcHeap)
    : DcHeap * RTCPollDataChannel := rtc_clone (into_inner self) h.
Definition clone (self : PollDataChannel) (h : DcHeap) : DcHeap * PollDataChannel :=
  let '(h, c) := clone_inner self h in (h, mk_poll_data_channel c).

Definition stream_identifier (self : PollDataChannel) : Z := rtc_id (into_inner self).
Definition messages_sent (self : PollDataChannel) : DcHeap → Z :=
  rtc_messages_sent (into_inner self).
Definition messages_received (self : PollDataChannel) : DcHeap → Z :=
  rtc_messages_received (into_inner self).
Definition bytes_sent (self : PollDataChannel) : DcHeap → Z :=
  rtc_bytes_sent (into_inner self).
Definition bytes_received (self : PollDataChannel) : DcHeap → Z :=
  rtc_bytes_received (into_inner self).
Definition buffered_amount (self : PollDataChannel) : DcHeap → Z :=
  rtc_buffered_amount (into_inner self).
Definition buffered_amount_low_threshold (self : PollDataChannel) : DcHeap → Z :=
  rtc_buffered_amount_low_threshold (into_inner self).

(** [AsyncRead::poll_read]: the heap, the caller's buffer and the answer *)
Definition poll_read (self : PollDataChannel) (buf : list byte) (h : DcHeap)
    : DcHeap * list byte * poll (result io_error nat) :=
  let read_buf := ReadBuf_new buf in
  let '(h, read_buf, p) := rtc_poll_read (into_inner self) read_buf h in
  (h, rb_storage read_buf,
   r ← p;
   match r with
   | Err e => Ready (Err e)
   | Ok _ => Ready (Ok (length (filled read_buf)))
   end).

(** [AsyncWrite] *)
Definition poll_write (self : PollDataChannel) (buf : list byte) (h : DcHeap)
    : DcHeap * poll (result io_error nat) := rtc_poll_write (into_inner self) buf h.
Definition poll_flush (self : PollDataChannel) (h : DcHeap)
    : DcHeap * poll (result io_error ()) := rtc_poll_flush (into_inner self) h.
Definition poll_close (self : PollDataChannel) (h : DcHeap)
    : DcHeap * poll (result io_error ()) := rtc_poll_shutdown (into_inner self) h.
Definition poll_write_vectored (self : PollDataChannel) (bufs : list (list byte)) (h : DcHeap)
    : DcHeap * poll (result io_error nat) :=
  rtc_poll_write_vectored (into_inner self) bufs h.
End poll_data_channel.

(** ** A reference instance *)

Module DataChannelRef.
(** A channel is its number; the heap holds for each channel the bytes to
    read, the bytes written, and how often it was flushed and shut down. A
    channel without an entry fails. *)
Record cell := mk_cell
  { to_read : list byte; written : list byte; flushes : nat; shutdowns : nat }.

Definition failure : io_error := io_error_new Other "no such channel".

Definition on_cell {A} (c : Z) (h : gmap Z cell) (f : cell → cell * A)
    : gmap Z cell * poll (result io_error A) :=
  match h !! c with
  | Some s => let '(s, a) := f s in (<[c := s]> h, Ready (Ok a))
  | None => (h, Ready (Err failure))
  end.

Definition fill (b : ReadBuf) (l : list byte) : ReadBuf :=
  let l := take (length (rb_storage b) - rb_filled b) l in
  mk_read_buf (take (rb_filled b) (rb_storage b) ++ l
               ++ drop (rb_filled b + length l) (rb_storage b))
    (rb_filled b + length l).

Definition read_cell (c : Z) (b : ReadBuf) (h : gmap Z cell)
    : gmap Z cell * ReadBuf * poll (result io_error ()) :=
  match h !! c with
  | None => (h, b, Ready (Err failure))
  | Some s =>
      match to_read s with
      | [] => (h, b, Pending)
      | l =>
          let n := length (rb_storage b) - rb_filled b in
          (<[c := mk_cell (drop n l) (written s) (flushes s) (shutdowns s)]> h,
           fill b l, Ready (Ok ()))
      end
  end.

#[export] Instance api : DataChannelApi := {|
  DetachedDataChannel := Z;
  RTCPollDataChannel := Z;
  DcHeap := gmap Z cell;
  detached_id d := d;
  rtc_id c := c;
  rtc_new d h := (h, d);
  rtc_clone c h := (h, c);
  rtc_poll_read := read_cell;
  rtc_poll_write c buf h := on_cell c h (λ s,
    (mk_cell (to_read s) (written s ++ buf) (flushes s) (shutdowns s), length buf));
  rtc_poll_write_vectored c bufs h := on_cell c h (λ s,
    (mk_cell (to_read s) (written s ++ concat bufs) (flushes s) (shutdowns s),
     length (concat bufs)));
  rtc_poll_flush c h := on_cell c h (λ s,
    (mk_cell (to_read s) (written s) (S (flushes s)) (shutdowns s), ()));
  rtc_poll_shutdown c h := on_cell c h (λ s,
    (mk_cell (to_read s) (written s) (flushes s) (S (shutdowns s)), ()));
  rtc_messages_sent _ _ := 0%Z;
  rtc_messages_received _ _ := 0%Z;
  rtc_bytes_sent _ _ := 0%Z;
  rtc_bytes_received _ _ := 0%Z;
  rtc_buffered_amount _ _ := 0%Z;
  rtc_buffered_amount_low_threshold _ _ := 0%Z;
|}.

Lemma fill_spec b l :
  rb_filled b ≤ length (rb_storage b) →
  length (rb_storage (fill b l)) = length (rb_storage b)
  ∧ rb_filled b ≤ rb_filled (fill b l) ≤ length (rb_storage b)
  ∧ drop (rb_filled (fill b l)) (rb_storage (fill b l)) =
    drop (rb_filled (fill b l)) (rb_storage b).
Proof.
  intros Hb. unfold fill. cbn.
  set (l' := take _ l). assert (length l' ≤ length (rb_storage b) - rb_filled b) as Hl
    by (unfold l'; rewrite length_take; lia).
  split_and!; [|lia|lia|].
  - rewrite !length_app, length_take, length_drop. lia.
  - rewrite app_assoc, drop_app_ge by (rewrite length_app, length_take; lia).
    rewrite length_app, length_take, Nat.min_l by lia.
    by rewrite Nat.sub_diag, drop_0.
Qed.

Lemma read_cell_buf c b h h' b' p :
  read_cell c b h = (h', b', p) → b' = b ∨ ∃ l, b' = fill b l.
Proof.
  unfold read_cell. intros. repeat case_match; simplify_eq; eauto.
Qed.

#[export] Instance laws : DataChannelLaws.
Proof.
  split; [done..|]. intros c b h h' b' p [->|[l ->]]%read_cell_buf; [auto|].
  destruct (decide (rb_filled b ≤ length (rb_storage b))) as [Hb|Hb].
  - destruct (fill_spec b l Hb) as (-> & [? ?] & ?). auto.
  - unfold fill. replace (length (rb_storage b) - rb_filled b) with 0 by lia. cbn.
    rewrite Nat.add_0_r, take_ge, drop_ge, app_nil_r by lia.
    split_and!; [done|lia|lia|by rewrite !drop_ge by lia].
Qed.
End DataChannelRef.

(** * Correctness *)

Section correctness.
Context `{DataChannelLaws}.

(** A read reports no more bytes than the caller's buffer has, which keeps
    its length, and leaves what is behind them as it was. *)
Theorem poll_read_bounds self buf h :
  let '(_, buf', p) := poll_read self buf h in
  length buf' = length buf
  ∧ ∀ n, p = Ready (Ok n) → n ≤ length buf ∧ drop n buf' = drop n buf.
Proof.
  unfold poll_read. destruct (rtc_poll_read _ _ h) as [[h' b'] p] eqn:Hr.
  destruct (rtc_poll_read_buf _ _ _ _ _ _ Hr) as (Hl & _ & Hf & Hd). cbn in *.
  split; [done|]. intros n Hn. destruct p as [[[]|e]|]; try done. cbn in Hn.
  injection Hn as <-. unfold filled.
  rewrite length_take, Nat.min_l by lia. split; [lia|done].
Qed.
End correctness.

Module Witness.
Import DataChannelRef.

Definition ready_cell : cell := mk_cell [Byte.x01; Byte.x02; Byte.x03] [] 0 0.

Lemma poll_read_bounds_witness :
  let '(_, buf', p) := poll_read (mk_poll_data_channel 7%Z) [Byte.x00; Byte.x00]
    {[ 7%Z := ready_cell ]} in
  length buf' = 2.
Proof.
  pose proof (poll_read_bounds (mk_poll_data_channel 7%Z) [Byte.x00; Byte.x00]
    {[ 7%Z := ready_cell ]}) as Hb.
  destruct (poll_read _ _ _) as [[h' buf'] p]. apply Hb.
Defined.
End Witness.
