(* ===== verification/WebRtc.v ===== *)
(** * The WebRTC and Noise libraries as events

    The calls the source makes to [webrtc], [libp2p_noise] and the timer are
    the events of its [async] functions: each is performed with its arguments
    and answered by the environment. Also [register_data_channel_open_handler]
    of [src/connection.rs], whose callback decides what its receiver gets. *)

From S2P Require Import Prelude RustString Net Multiaddr Fingerprint Errors.
From S2P Require Import DataChannel Prog.

#[local] Open Scope rust_scope.

(** ** Values of the libraries *)

Class WebRTCApi `{MultiaddrApi} := {
  RTCPeerConnection : Type;
  RTCSessionDescription : Type;
  RTCDataChannel : Type;
  (** [identity::Keypair] and the authentic Noise key pair made from it *)
  Keypair : Type;
  AuthenticKeypair : Type;
  NoiseInfo : Type;
  NoiseOutput : Type;
  PublicKey : Type;
  to_peer_id : PublicKey → PeerId;
  protocol_info : AuthenticKeypair → list NoiseInfo;
  (** [Display] of [oneshot::Canceled] *)
  display_canceled : string;
}.

Inductive NetworkType := Udp4 | Udp6.
Inductive DTLSRole := DTLSServer.

(** A [SettingEngine] is the calls made on the default one, latest last. *)
Inductive SettingCall :=
| SetIceCredentials (ufrag pwd : string)
| SetUdpNetworkMuxed
| DetachDataChannels
| SetNetworkTypes (l : list NetworkType)
| SetLite (b : bool)
| SetAnsweringDtlsRole (r : DTLSRole).
Definition SettingEngine : Type := list SettingCall.

(** [RTCDataChannelInit]: the fields the source sets *)
Record RTCDataChannelInit := mk_init { negotiated : option bool; init_id : option Z }.
Definition default_init : RTCDataChannelInit := mk_init None None.

Inductive Direction := Inbound | Outbound.

(** [libp2p_noise::RemoteIdentity]: the variant the source accepts, and the
    others *)
Inductive RemoteIdentity `{WebRTCApi} := IdentityKey (pk : PublicKey) | NoIdentityKey.

Section events.
Context `{MultiaddrApi, ErrorTypes, DataChannelApi, CertificateApi, !WebRTCApi}.

(** What happens to a callback registered with [on_open]: it runs and
    [detach] answers, or it is dropped without running. *)
Inductive open_event :=
| CallbackRan (detached : result WebRTCError DetachedDataChannel)
| CallbackDropped.

(** The branches of [select!] between the receiver and the timer *)
Inductive select_event :=
| RxReady (e : open_event)
| DelayElapsed.

Inductive rtcE : Type → Type :=
| DtlsRoleCheck (se : SettingEngine) (r : DTLSRole) : rtcE (result WebRTCError ())
| NewPeerConnection (se : SettingEngine) (config : RTCConfiguration)
    : rtcE (result WebRTCError RTCPeerConnection)
| CreateOffer (pc : RTCPeerConnection) : rtcE (result WebRTCError RTCSessionDescription)
| CreateAnswer (pc : RTCPeerConnection) : rtcE (result WebRTCError RTCSessionDescription)
| SetLocalDescription (pc : RTCPeerConnection) (sd : RTCSessionDescription)
    : rtcE (result WebRTCError ())
| SetRemoteDescription (pc : RTCPeerConnection) (sd : RTCSessionDescription)
    : rtcE (result WebRTCError ())
| ParseOffer (text : string) : rtcE (result WebRTCError RTCSessionDescription)
| ParseAnswer (text : string) : rtcE (result WebRTCError RTCSessionDescription)
| CreateDataChannel (pc : RTCPeerConnection) (label : string)
    (init : option RTCDataChannelInit) : rtcE (result WebRTCError RTCDataChannel)
| OnOpen (dc : RTCDataChannel) : rtcE ()
| AwaitOpen (dc : RTCDataChannel) : rtcE open_event
| SelectOpen (dc : RTCDataChannel) (seconds : Z) : rtcE select_event
| IntoAuthentic (keys : Keypair) : rtcE (result NoiseError AuthenticKeypair)
| NoiseUpgrade (dir : Direction) (keys : AuthenticKeypair) (info : NoiseInfo)
    (detached : DetachedDataChannel)
    : rtcE (result NoiseError (RemoteIdentity * NoiseOutput))
| NoiseWrite (io : NoiseOutput) (buf : list byte) : rtcE (result io_error nat)
| NoiseFlush (io : NoiseOutput) : rtcE (result io_error ())
| NoiseReadExact (io : NoiseOutput) (n : nat) : rtcE (result io_error (list byte))
| OnDataChannel (pc : RTCPeerConnection) : rtcE ().

(** ** [register_data_channel_open_handler] *)

Definition register_data_channel_open_handler {Er} (dc : RTCDataChannel)
    : may rtcE Er () := call (OnOpen dc).

(** Its callback: what is sent to the receiver, which is cancelled when
    nothing is *)
Definition open_callback (detached : result WebRTCError DetachedDataChannel)
    : option DetachedDataChannel :=
  match detached with Ok d => Some d | Err _ => None end.
Definition rx_result (e : open_event) : result () DetachedDataChannel :=
  match e with
  | CallbackRan r => ok_or () (open_callback r)
  | CallbackDropped => Err ()
  end.
End events.

(** ** A reference instance *)

Module WebRtcRef.
Import MultiaddrRef.

(** A public key is the hash in the peer id. *)
#[export] Instance api : WebRTCApi := {|
  RTCPeerConnection := nat;
  RTCSessionDescription := string;
  RTCDataChannel := nat;
  Keypair := list byte;
  AuthenticKeypair := list byte;
  NoiseInfo := string;
  NoiseOutput := nat;
  PublicKey := list byte;
  to_peer_id pk := pk;
  protocol_info _ := ["/noise"];
  display_canceled := "oneshot canceled";
|}.
End WebRtcRef.
