(* ===== verification/Connection.v ===== *)
(** * Connections

    [Connection] of [src/connection.rs]: the map of its data channels, the
    queue of incoming ones, and the [StreamMuxer] operations. *)

From S2P Require Import Prelude RustString Net Multiaddr Fingerprint Errors Channel.
From S2P Require Import DataChannel Prog WebRtc.

#[local] Open Scope rust_scope.

Section connection.
Context `{MultiaddrApi, ErrorTypes, DataChannelApi, CertificateApi, !WebRTCApi,
          ChannelApi}.

(** ** State *)

Record DataChannelsInner := mk_inner {
  map : gmap Z PollDataChannel;
  incoming_data_channels_rx : Chan DetachedDataChannel;
  read_buf_cap : option Z;
}.

Record Connection := mk_connection {
  rtc_conn : RTCPeerConnection;
  data_channels_inner : DataChannelsInner;
}.

Definition set_map f (c : DataChannelsInner) : DataChannelsInner :=
  mk_inner (f (map c)) (incoming_data_channels_rx c) (read_buf_cap c).
Definition set_rx rx (c : DataChannelsInner) : DataChannelsInner :=
  mk_inner (map c) rx (read_buf_cap c).

(** ** Construction *)

Definition DataChannelsInner_new : DataChannelsInner := mk_inner ∅ (channel 10) None.

(** [Connection::new], with [register_incoming_data_channels_handler] *)
Definition Connection_new {Er} (pc : RTCPeerConnection) : may rtcE Er Connection :=
  call (OnDataChannel pc) ;;;
  returns (mk_connection pc DataChannelsInner_new).

(** The callback that handler installs on each incoming channel, when it
    opens and [detach] answers: each has its own clone of the sender. *)
Definition incoming_data_channel_open (detached : result WebRTCError DetachedDataChannel)
    (tx : Chan DetachedDataChannel) : Chan DetachedDataChannel :=
  match detached with
  | Ok d => (try_send_clone tx d).1
  | Err _ => tx
  end.

Definition set_data_channels_read_buf_capacity (cap : Z) (c : DataChannelsInner)
    : DataChannelsInner := mk_inner (map c) (incoming_data_channels_rx c) (Some cap).

(** ** [StreamMuxer] *)

Definition io_other (msg : string) : io_error := io_error_new Other msg.

(** A new channel is wrapped, a clone of it goes into the map. *)
Definition insert_channel (d : DetachedDataChannel) (c : DataChannelsInner) (h : DcHeap)
    : DataChannelsInner * DcHeap * PollDataChannel :=
  let '(h, ch) := PollDataChannel_new d h in
  let '(h, ch') := clone ch h in
  (set_map <[stream_identifier ch := ch']> c, h, ch).

Definition poll_event (c : DataChannelsInner) (h : DcHeap)
    : DataChannelsInner * DcHeap * poll (result io_error PollDataChannel) :=
  let '(rx, p) := poll_next (incoming_data_channels_rx c) in
  let c := set_rx rx c in
  match p with
  | Pending => (c, h, Pending)
  | Ready (Some detached) =>
      let '(c, h, ch) := insert_channel detached c h in (c, h, Ready (Ok ch))
  | Ready None =>
      (c, h, Ready (Err (io_other
         "incoming_data_channels_rx is closed (no messages left)")))
  end.

Definition open_outbound (pc : RTCPeerConnection) : may rtcE io_error DetachedDataChannel :=
  let! data_channel :=
    call_try (λ e, io_other ("webrtc error: " +:+ display_webrtc_error e))
      (CreateDataChannel pc "data" None) in
  register_data_channel_open_handler data_channel ;;;
  let! e := call (AwaitOpen data_channel) in
  match rx_result e with
  | Ok detached => returns detached
  | Err _ => throws (io_other display_canceled)
  end.

(** [poll_outbound], given the answer of polling the future *)
Definition poll_outbound (s : poll (result io_error DetachedDataChannel))
    (c : DataChannelsInner) (h : DcHeap)
    : DataChannelsInner * DcHeap * poll (result io_error PollDataChannel) :=
  match s with
  | Pending => (c, h, Pending)
  | Ready (Ok detached) =>
      let '(c, h, ch) := insert_channel detached c h in (c, h, Ready (Ok ch))
  | Ready (Err e) => (c, h, Ready (Err e))
  end.

Definition destroy_outbound (c : DataChannelsInner) : DataChannelsInner := c.

Definition read_substream (s : PollDataChannel) (buf : list byte) (h : DcHeap) :=
  poll_read s buf h.
Definition write_substream (s : PollDataChannel) (buf : list byte) (h : DcHeap) :=
  poll_write s buf h.
Definition flush_substream (s : PollDataChannel) (h : DcHeap) := poll_flush s h.
Definition shutdown_substream (s : PollDataChannel) (h : DcHeap) := poll_close s h.

Definition destroy_substream (s : PollDataChannel) (c : DataChannelsInner)
    : DataChannelsInner := set_map (delete (stream_identifier s)) c.

(** [for (_, ch) in &mut map { match ready!(f(ch)) { Ok(_) => continue,
    Err(e) => return .. } }] *)
Fixpoint poll_each (f : PollDataChannel → DcHeap → DcHeap * poll (result io_error ()))
    (l : list (Z * PollDataChannel)) (h : DcHeap)
    : DcHeap * poll (result io_error ()) :=
  match l with
  | [] => (h, Ready (Ok ()))
  | (_, ch) :: l =>
      match f ch h with
      | (h, Ready (Ok _)) => poll_each f l h
      | (h, Ready (Err e)) => (h, Ready (Err e))
      | (h, Pending) => (h, Pending)
      end
  end.

(** The order in which a hash map is traversed is not specified. *)
Context (order : gmap Z PollDataChannel → list (Z * PollDataChannel)).

Definition flush_all (c : DataChannelsInner) (h : DcHeap)
    : DcHeap * poll (result io_error ()) :=
  poll_each flush_substream (order (map c)) h.

(** What [close] does under its second lock *)
Definition shutdown_all (c : DataChannelsInner) (h : DcHeap)
    : DataChannelsInner * DcHeap * poll (result io_error ()) :=
  match poll_each shutdown_substream (order (map c)) h with
  | (h, Pending) => (c, h, Pending)
  | (h, Ready (Err e)) => (c, h, Ready (Err e))
  | (h, Ready (Ok _)) =>
      (set_rx (chan_close (incoming_data_channels_rx c)) c, h, Ready (Ok ()))
  end.

(** [close] locks the channels twice; [between] is what other tasks do while
    they are not locked. *)
Definition close_while (between : DataChannelsInner * DcHeap → DataChannelsInner * DcHeap)
    (c : DataChannelsInner) (h : DcHeap)
    : DataChannelsInner * DcHeap * poll (result io_error ()) :=
  match flush_all c h with
  | (h, Pending) => (c, h, Pending)
  | (h, Ready (Err e)) => (c, h, Ready (Err e))
  | (h, Ready (Ok _)) => let '(c, h) := between (c, h) in shutdown_all c h
  end.

(** A [close] no other task comes into *)
Definition close : DataChannelsInner → DcHeap
    → DataChannelsInner * DcHeap * poll (result io_error ()) := close_while (λ s, s).
End connection.

(** ** Specifications *)

Section specs.
Context `{MultiaddrApi, ErrorTypes, DataChannelApi, CertificateApi, !WebRTCApi,
          ChannelApi}.

(** A channel is filed under its own stream identifier. *)
Definition conn_wf (c : DataChannelsInner) : Prop :=
  map_Forall (λ id ch, stream_identifier ch = id) (map c).

(** [f] answered [Ok] on each channel of the list, one after the other. *)
Inductive all_ok (f : PollDataChannel → DcHeap → DcHeap * poll (result io_error ()))
    : list (Z * PollDataChannel) → DcHeap → DcHeap → Prop :=
| all_ok_nil h : all_ok f [] h h
| all_ok_cons id ch l h h1 h2 u :
    f ch h = (h1, Ready (Ok u)) → all_ok f l h1 h2 → all_ok f ((id, ch) :: l) h h2.

(** The multiplexer polled [n] times: the answers *)
Fixpoint poll_events (n : nat) (c : DataChannelsInner) (h : DcHeap)
    : DataChannelsInner * DcHeap * list (poll (result io_error PollDataChannel)) :=
  match n with
  | 0 => (c, h, [])
  | S n =>
      let '(c, h, p) := poll_event c h in
      let '(c, h, ps) := poll_events n c h in (c, h, p :: ps)
  end.

Definition channel_closed_error : io_error :=
  io_other "incoming_data_channels_rx is closed (no messages left)".

(** Equality of all but the capacity of the read buffers *)
#[global] Instance same_channels : Equiv DataChannelsInner := λ c1 c2,
  map c1 = map c2 ∧ incoming_data_channels_rx c1 = incoming_data_channels_rx c2.
End specs.

(** * Lemmas *)

Section lemmas.
Context `{MultiaddrApi, ErrorTypes, DataChannelLaws, CertificateApi, !WebRTCApi,
          ChannelLaws}.

#[global] Instance same_channels_equivalence : Equivalence (≡@{DataChannelsInner}).
Proof.
  split; [done|by intros ?? []|].
  intros ??? [] []. split; by etrans.
Qed.

#[global] Instance set_map_proper f : Proper ((≡) ==> (≡)) (set_map f).
Proof. intros c1 c2 [Hm Hr]. split; cbn; [by rewrite Hm|done]. Qed.

#[global] Instance set_rx_proper rx : Proper ((≡) ==> (≡)) (set_rx rx).
Proof. intros c1 c2 [Hm Hr]. by split. Qed.

#[global] Instance destroy_substream_proper s : Proper ((≡) ==> (≡)) (destroy_substream s).
Proof. intros c1 c2 Hc. unfold destroy_substream. by rewrite Hc. Qed.

(** Equal channels, heaps and answers *)
Definition same_answer {A} (r1 r2 : DataChannelsInner * DcHeap * A) : Prop :=
  r1.1.1 ≡ r2.1.1 ∧ r1.1.2 = r2.1.2 ∧ r1.2 = r2.2.

Lemma insert_channel_proper d c1 c2 h :
  c1 ≡ c2 → same_answer (insert_channel d c1 h) (insert_channel d c2 h).
Proof.
  intros Hc. unfold insert_channel.
  destruct (PollDataChannel_new d h) as [h1 ch], (clone ch h1) as [h2 ch'].
  split; [cbn; by rewrite Hc|done].
Qed.

Lemma poll_event_proper c1 c2 h :
  c1 ≡ c2 → same_answer (poll_event c1 h) (poll_event c2 h).
Proof.
  intros Hc. unfold poll_event. destruct Hc as [Hm Hr] eqn:E. rewrite Hr.
  destruct (poll_next (incoming_data_channels_rx c2)) as [rx p].
  assert (set_rx rx c1 ≡ set_rx rx c2) as Hs by by split.
  destruct p as [[d|]|]; [|by split..].
  destruct (insert_channel_proper d _ _ h Hs) as (Hi1 & Hi2 & Hi3).
  destruct (insert_channel d (set_rx rx c1) h) as [[? ?] ?],
    (insert_channel d (set_rx rx c2) h) as [[? ?] ?]. cbn in *. subst. by split.
Qed.

Lemma poll_outbound_proper s c1 c2 h :
  c1 ≡ c2 → same_answer (poll_outbound s c1 h) (poll_outbound s c2 h).
Proof.
  intros Hc. unfold poll_outbound. destruct s as [[d|e]|]; [|by split..].
  destruct (insert_channel_proper d _ _ h Hc) as (Hi1 & Hi2 & Hi3).
  destruct (insert_channel d c1 h) as [[? ?] ?], (insert_channel d c2 h) as [[? ?] ?].
  cbn in *. subst. by split.
Qed.

Lemma close_proper order c1 c2 h :
  c1 ≡ c2 → same_answer (close order c1 h) (close order c2 h).
Proof.
  intros [Hm Hr]. unfold close, close_while, flush_all, shutdown_all. rewrite Hm.
  destruct (poll_each flush_substream _ h) as [h1 [[|]|]]; [|by split..].
  destruct (poll_each shutdown_substream _ h1) as [h2 [[|]|]]; [|by split..].
  split; [split; cbn; by rewrite ?Hr|done].
Qed.

(** ** Loops over the channels *)

Lemma poll_each_ok f l h h' u :
  poll_each f l h = (h', Ready (Ok u)) ↔ all_ok f l h h'.
Proof.
  destruct u. revert h. induction l as [|[id ch] l IH]; intros h; cbn.
  - split; [intros; simplify_eq; constructor|by inversion 1].
  - split.
    + destruct (f ch h) as [h1 [[u|e]|]] eqn:Hf; try done.
      intros Hl. econstructor; [done|]. by apply IH.
    + inversion 1; subst. case_match. simplify_eq. by apply IH.
Qed.

(** Each channel of the list was answered [Ok]. *)
Lemma all_ok_elem f l h h' id ch :
  all_ok f l h h' → (id, ch) ∈ l → ∃ h1 h2 u, f ch h1 = (h2, Ready (Ok u)).
Proof.
  induction 1 as [|id' ch' l h h1 h2 u Hf Hl IH]; intros Hin; [by apply elem_of_nil in Hin|].
  apply elem_of_cons in Hin as [[= <- <-]|Hin]; eauto.
Qed.

(** A close that is not finished leaves everything in place. *)
Lemma close_cases order c h c' h' p :
  close order c h = (c', h', p) →
  (p = Ready (Ok ())
   ∧ (∃ h1, all_ok flush_substream (order (map c)) h h1
            ∧ all_ok shutdown_substream (order (map c)) h1 h')
   ∧ c' = set_rx (chan_close (incoming_data_channels_rx c)) c)
  ∨ (p ≠ Ready (Ok ()) ∧ c' = c
     ∧ ¬ ∃ h1 h2, all_ok flush_substream (order (map c)) h h1
                  ∧ all_ok shutdown_substream (order (map c)) h1 h2).
Proof.
  unfold close, close_while, flush_all, shutdown_all. setoid_rewrite <-(poll_each_ok _ _ _ _ ()).
  destruct (poll_each flush_substream _ h) as [h1 [[[]|e1]|]] eqn:Hf.
  - destruct (poll_each shutdown_substream _ h1) as [h2 [[[]|e2]|]] eqn:Hs;
      intros; simplify_eq; [left; split_and!; eauto|right..];
      (split_and!; [done|done|intros (h3 & h4 & ? & ?); simplify_eq; congruence]).
  - intros; simplify_eq. right. split_and!; [done|done|intros (? & ? & ? & _); simplify_eq].
  - intros; simplify_eq. right. split_and!; [done|done|intros (? & ? & ? & _); simplify_eq].
Qed.

(** ** Filing *)

Lemma insert_channel_spec d c h :
  let '(c', _, ch) := insert_channel d c h in
  stream_identifier ch = detached_id d
  ∧ ∃ ch', stream_identifier ch' = detached_id d
           ∧ c' = set_map <[detached_id d := ch']> c.
Proof.
  unfold insert_channel, PollDataChannel_new, clone, clone_inner, stream_identifier.
  pose proof (rtc_new_id d h) as Hn. destruct (rtc_new d h) as [h1 r]. cbn in *.
  pose proof (rtc_clone_id r h1) as Hcl. destruct (rtc_clone r h1) as [h2 r']. cbn in *.
  split; [done|]. rewrite Hn. exists (mk_poll_data_channel r'). cbn. by rewrite Hcl.
Qed.

Lemma conn_wf_insert c id ch :
  conn_wf c → stream_identifier ch = id → conn_wf (set_map <[id := ch]> c).
Proof. intros Hc Hid. by apply map_Forall_insert_2. Qed.

Lemma poll_event_wf c h : conn_wf c → conn_wf (poll_event c h).1.1.
Proof.
  intros Hc. unfold poll_event. destruct (poll_next _) as [rx [[d|]|]]; try done.
  pose proof (insert_channel_spec d (set_rx rx c) h) as Hi.
  destruct (insert_channel d _ h) as [[c' h'] ch]. destruct Hi as (_ & ch' & Hid & ->).
  by apply (conn_wf_insert (set_rx rx c)).
Qed.

Lemma poll_outbound_wf s c h : conn_wf c → conn_wf (poll_outbound s c h).1.1.
Proof.
  intros Hc. unfold poll_outbound. destruct s as [[d|]|]; try done.
  pose proof (insert_channel_spec d c h) as Hi.
  destruct (insert_channel d c h) as [[c' h'] ch]. destruct Hi as (_ & ch' & Hid & ->).
  by apply conn_wf_insert.
Qed.

Lemma destroy_substream_wf s c : conn_wf c → conn_wf (destroy_substream s c).
Proof. intros. by apply map_Forall_delete. Qed.

Lemma shutdown_all_wf order c h : conn_wf c → conn_wf (shutdown_all order c h).1.1.
Proof. intros. unfold shutdown_all. by destruct (poll_each _ _ _) as [? [[]|]]. Qed.

Lemma close_wf order c h : conn_wf c → conn_wf (close order c h).1.1.
Proof.
  intros. unfold close, close_while. destruct (flush_all _ c h) as [? [[]|]]; try done.
  by apply shutdown_all_wf.
Qed.

(** ** Draining *)

Lemma poll_event_items c h d l :
  chan_items (incoming_data_channels_rx c) = d :: l →
  let '(c', _, p) := poll_event c h in
  chan_items (incoming_data_channels_rx c') = l
  ∧ chan_closed (incoming_data_channels_rx c') = chan_closed (incoming_data_channels_rx c)
  ∧ ∃ ch, p = Ready (Ok ch) ∧ stream_identifier ch = detached_id d.
Proof.
  intros Hl. unfold poll_event.
  destruct (poll_next _) as [rx p] eqn:Hp.
  destruct (poll_next_items _ _ _ _ Hp) as [Hcl Hi].
  destruct p as [[d'|]|]; [|destruct Hi as [? _]; congruence..].
  rewrite Hl in Hi. simplify_eq.
  pose proof (insert_channel_spec d' (set_rx rx c) h) as Hins.
  destruct (insert_channel d' _ h) as [[c' h'] ch]. destruct Hins as (Hid & ch' & _ & ->).
  cbn. eauto.
Qed.

Lemma poll_event_drained c h :
  chan_items (incoming_data_channels_rx c) = [] →
  chan_closed (incoming_data_channels_rx c) = true →
  let '(c', _, p) := poll_event c h in
  chan_items (incoming_data_channels_rx c') = []
  ∧ chan_closed (incoming_data_channels_rx c') = true
  ∧ p = Ready (Err channel_closed_error).
Proof.
  intros Hl Hc. unfold poll_event.
  destruct (poll_next _) as [rx p] eqn:Hp.
  destruct (poll_next_items _ _ _ _ Hp) as [Hcl Hi].
  destruct p as [[d'|]|]; [congruence| |destruct Hi as (_ & _ & ?); congruence].
  cbn. destruct Hi as (_ & ? & ?). split_and!; [done|congruence|done].
Qed.

Lemma poll_events_drain l k c h :
  chan_items (incoming_data_channels_rx c) = l →
  chan_closed (incoming_data_channels_rx c) = true →
  ∃ chs, (poll_events (length l + k) c h).2 =
           ((λ ch, Ready (Ok ch)) <$> chs) ++ replicate k (Ready (Err channel_closed_error))
         ∧ stream_identifier <$> chs = detached_id <$> l.
Proof.
  revert c h. induction l as [|d l IH]; intros c h Hl Hc.
  - exists []. split; [|done]. cbn. revert c h Hl Hc.
    induction k as [|k IHk]; intros c h Hl Hc; [done|]. cbn.
    pose proof (poll_event_drained c h Hl Hc) as Hp.
    destruct (poll_event c h) as [[c' h'] p]. destruct Hp as (Hl' & Hc' & ->).
    specialize (IHk c' h' Hl' Hc'). destruct (poll_events k c' h') as [[? ?] ps].
    cbn in *. by rewrite IHk.
  - cbn. pose proof (poll_event_items c h d l Hl) as Hp.
    destruct (poll_event c h) as [[c' h'] p].
    destruct Hp as (Hl' & Hc' & ch & -> & Hid). rewrite <-Hc' in Hc.
    destruct (IH c' h' Hl' Hc) as (chs & Hps & Hids).
    destruct (poll_events _ c' h') as [[? ?] ps]. cbn in Hps. subst ps.
    exists (ch :: chs). cbn. by rewrite Hid, Hids.
Qed.
End lemmas.

(** * Correctness *)

Section correctness.
Context `{MultiaddrApi, ErrorTypes, DataChannelLaws, CertificateApi, !WebRTCApi,
          ChannelLaws}.

(** C29: a close that no other task comes into succeeds exactly when every data
    channel, in whatever order the map is traversed, was flushed and then every
    one shut down; only then the
    queue of incoming channels is closed. Otherwise nothing but the channels
    has changed, so the next poll starts over. *)
Theorem close_spec order c h c' h' p :
  (∀ m, order m ≡ₚ map_to_list m) →
  close order c h = (c', h', p) →
  map c' = map c
  ∧ chan_items (incoming_data_channels_rx c') = chan_items (incoming_data_channels_rx c)
  ∧ (p ≠ Ready (Ok ()) → c' = c)
  ∧ (p = Ready (Ok ()) ↔
     ∃ h1, all_ok flush_substream (order (map c)) h h1
           ∧ all_ok shutdown_substream (order (map c)) h1 h')
  ∧ (p = Ready (Ok ()) →
     chan_closed (incoming_data_channels_rx c') = true
     ∧ ∀ id ch, map c !! id = Some ch →
         (∃ h1 h2 u, flush_substream ch h1 = (h2, Ready (Ok u)))
         ∧ (∃ h1 h2 u, shutdown_substream ch h1 = (h2, Ready (Ok u)))).
Proof.
  intros Horder [(-> & Hok & ->)|(Hp & -> & Hno)]%close_cases; cbn.
  - rewrite chan_close_items, chan_close_closed. split_and!; try done.
    intros _. split; [done|]. intros id ch Hid.
    assert ((id, ch) ∈ order (map c)) as Hin
      by (rewrite Horder; by apply elem_of_map_to_list).
    destruct Hok as (h1 & Hf & Hs). split; by eapply all_ok_elem.
  - split_and!; try done. split; [done|]. intros (h1 & Hf & Hs). destruct Hno; eauto.
Qed.

(** A closed connection still yields the channels that were queued, in
    order, and after them the same error at every poll. *)
Theorem closed_connection_drains order c h c' h' k :
  close order c h = (c', h', Ready (Ok ())) →
  ∃ chs, (poll_events (length (chan_items (incoming_data_channels_rx c)) + k) c' h').2 =
           ((λ ch, Ready (Ok ch)) <$> chs) ++ replicate k (Ready (Err channel_closed_error))
         ∧ stream_identifier <$> chs =
           detached_id <$> chan_items (incoming_data_channels_rx c).
Proof.
  intros [(_ & _ & ->)|[[] _]]%close_cases; [|done]. apply poll_events_drain.
  - apply chan_close_items.
  - apply chan_close_closed.
Qed.

(** Every channel is filed under its stream identifier, whichever side
    opened it; the substream yielded for a channel has its identifier, and
    destroying it removes that channel and no other. *)
Theorem channels_filed_by_identifier c h d s :
  conn_wf c →
  conn_wf (poll_event c h).1.1
  ∧ conn_wf (poll_outbound s c h).1.1
  ∧ let '(c', _, p) := poll_outbound (Ready (Ok d)) c h in
    ∃ ch, p = Ready (Ok ch)
          ∧ conn_wf c' ∧ is_Some (map c' !! stream_identifier ch)
          ∧ map (destroy_substream ch c') = delete (detached_id d) (map c)
          ∧ (∀ id, id ≠ detached_id d → map c' !! id = map c !! id).
Proof.
  intros Hc. split_and!; [by apply poll_event_wf|by apply poll_outbound_wf|].
  pose proof (poll_outbound_wf (Ready (Ok d)) c h Hc) as Hwf. unfold poll_outbound in *.
  pose proof (insert_channel_spec d c h) as Hi.
  destruct (insert_channel d c h) as [[c' h'] ch]. destruct Hi as (Hid & ch' & Hid' & ->).
  exists ch. cbn in *. rewrite Hid. split_and!; [done|done|..].
  - by rewrite lookup_insert_eq.
  - by rewrite delete_insert_eq.
  - intros id Hne. by rewrite lookup_insert_ne.
Qed.

(** The capacity of the read buffers changes nothing. *)
Lemma read_buf_capacity_ignored cap order s d c h :
  let c1 := set_data_channels_read_buf_capacity cap c in
  c1 ≡ c
  ∧ same_answer (poll_event c1 h) (poll_event c h)
  ∧ same_answer (poll_outbound s c1 h) (poll_outbound s c h)
  ∧ same_answer (close order c1 h) (close order c h)
  ∧ destroy_substream d c1 ≡ destroy_substream d c.
Proof.
  intros c1. assert (c1 ≡ c) as Hc by by split.
  split_and!; [done|by apply poll_event_proper|by apply poll_outbound_proper|
    by apply close_proper|by rewrite Hc].
Qed.

(** An outbound substream is a data channel of its own: the calls made to
    open one and every way it ends; a [detach] that fails is seen as a
    cancelled receiver, without its error. *)
Theorem open_outbound_spec pc tr r :
  exec (open_outbound pc) tr r ↔
  (∃ e, tr = [Obs (CreateDataChannel pc "data" None) (Err e)]
        ∧ r = Fail (io_other ("webrtc error: " +:+ display_webrtc_error e)))
  ∨ (∃ dc ev, tr = [Obs (CreateDataChannel pc "data" None) (Ok dc);
                    Obs (OnOpen dc) (); Obs (AwaitOpen dc) ev]
        ∧ r = match ev with
              | CallbackRan (Ok d) => Done d
              | _ => Fail (io_other display_canceled)
              end).
Proof.
  cbn. split.
  - intros ([dc|e] & tr' & -> & Hex); cbn in Hex.
    + destruct Hex as ([] & tr2 & -> & ev & tr3 & -> & Hex). right. exists dc, ev.
      destruct ev as [[d|e]|]; cbn in Hex; destruct Hex as [-> ->]; done.
    + destruct Hex as [-> ->]. left. by exists e.
  - intros [(e & -> & ->)|(dc & ev & -> & ->)].
    + by exists (Err e), [].
    + eexists (Ok dc), _. split; [done|]. eexists (), _. split; [done|].
      eexists ev, _. split; [done|]. by destruct ev as [[d|e]|].
Qed.
End correctness.

(** ** Witnesses *)

Module Witness.
Import MultiaddrRef ErrorRef DataChannelRef ChannelRef.

Definition id_order (m : gmap Z PollDataChannel) : list (Z * PollDataChannel) :=
  map_to_list m.

(** Two channels, one of them in the queue *)
Definition two_cells : gmap Z cell :=
  {[ 1%Z := mk_cell [] [] 0 0; 3%Z := mk_cell [] [] 0 0 ]}.
Definition one_queued : Chan DetachedDataChannel := mk_queue 10 [3%Z] false.
Definition conn : DataChannelsInner :=
  mk_inner {[ 1%Z := mk_poll_data_channel 1%Z ]} one_queued None.
Definition closed_conn : DataChannelsInner * DcHeap * poll (result io_error ()) :=
  close id_order conn two_cells.

Example closed_conn_ok : bool_decide (closed_conn.2 = Ready (Ok ())) = true.
Proof. vm_compute. reflexivity. Qed.

Lemma close_spec_witness :
  map closed_conn.1.1 = map conn
  ∧ chan_closed (incoming_data_channels_rx closed_conn.1.1) = true.
Proof.
  assert (∀ m, id_order m ≡ₚ map_to_list m) as Ho by done.
  pose proof closed_conn_ok as Hp%bool_decide_eq_true.
  destruct closed_conn as [[c' h'] p] eqn:E. cbn in *.
  destruct (close_spec id_order conn two_cells c' h' p Ho E) as (Hm & _ & _ & _ & Hc).
  split; [exact Hm|]. by apply Hc.
Defined.

Lemma closed_connection_drains_witness :
  ∃ ch, (poll_events 2 closed_conn.1.1 closed_conn.1.2).2 =
    [Ready (Ok ch); Ready (Err channel_closed_error)].
Proof.
  pose proof closed_conn_ok as Hp%bool_decide_eq_true.
  destruct closed_conn as [[c' h'] p] eqn:E. cbn in *. subst p.
  destruct (closed_connection_drains id_order conn two_cells c' h' 1 E) as (chs & Hps & Hids).
  destruct chs as [|ch [|]]; try discriminate Hids. exists ch. exact Hps.
Defined.

Lemma channels_filed_by_identifier_witness :
  conn_wf (poll_event conn two_cells).1.1.
Proof.
  apply (channels_filed_by_identifier conn two_cells 3%Z Pending).
  apply map_Forall_singleton. reflexivity.
Defined.
End Witness.
