(* ===== verification/ConnectionSpec.v ===== *)
(** * What a connection promises

    The [StreamMuxer] of [src/connection.rs] over a whole history of calls: an
    abstract specification (the identifiers of the live substreams, the queue
    of incoming ones, whether it is open), its refinement by the operations of
    Connection, and what follows for the substreams a connection yields. *)

From S2P Require Import Prelude RustString Net Multiaddr Fingerprint Errors Channel.
From S2P Require Import DataChannel Prog WebRtc Connection.

#[local] Open Scope rust_scope.

(** ** The specification *)

Record Streams := mk_streams {
  s_live : gset Z;
  s_queue : list Z;
  s_open : bool;
}.

(** What can be seen of a connection *)
Inductive action :=
| Arrived (id : Z)
| Refused
| Inbound (id : Z)
| InboundEnd
| Waiting
| Outbound (id : Z)
| Destroyed (id : Z)
| Closed
| Nothing.

Inductive stream_step : Streams → action → Streams → Prop :=
| stream_arrived live q id :
    stream_step (mk_streams live q true) (Arrived id) (mk_streams live (q ++ [id]) true)
| stream_refused live q :
    stream_step (mk_streams live q false) Refused (mk_streams live q false)
| stream_inbound live q id open :
    stream_step (mk_streams live (id :: q) open) (Inbound id)
      (mk_streams ({[id]} ∪ live) q open)
| stream_inbound_end live :
    stream_step (mk_streams live [] false) InboundEnd (mk_streams live [] false)
| stream_waiting live :
    stream_step (mk_streams live [] true) Waiting (mk_streams live [] true)
| stream_outbound live q open id :
    stream_step (mk_streams live q open) (Outbound id) (mk_streams ({[id]} ∪ live) q open)
| stream_destroyed live q open id :
    stream_step (mk_streams live q open) (Destroyed id) (mk_streams (live ∖ {[id]}) q open)
| stream_closed live q open :
    stream_step (mk_streams live q open) Closed (mk_streams live q false)
| stream_nothing s : stream_step s Nothing s.

Inductive stream_run : Streams → list action → Streams → Prop :=
| stream_run_nil s : stream_run s [] s
| stream_run_cons s a s1 l s2 :
    stream_step s a s1 → stream_run s1 l s2 → stream_run s (a :: l) s2.

(** The identifiers of a history: accepted into the queue, yielded from it *)
Definition accepted (l : list action) : list Z :=
  omap (λ a, if a is Arrived id then Some id else None) l.
Definition inbound (l : list action) : list Z :=
  omap (λ a, if a is Inbound id then Some id else None) l.

(** ** Histories of the code *)

Section histories.
Context `{MultiaddrApi, ErrorTypes, DataChannelApi, CertificateApi, !WebRTCApi,
          ChannelApi}.
Context (order : gmap Z PollDataChannel → list (Z * PollDataChannel)).

(** The calls of [StreamMuxer] with what the library answers to them, and the
    opening of an incoming data channel; [CloseFlush] and [CloseShutdown] are
    the two locked parts of a [close] between which other calls come. *)
Inductive conn_op :=
| Arrive (detached : result WebRTCError DetachedDataChannel)
| PollEvent
| PollOutbound (s : poll (result io_error DetachedDataChannel))
| DestroyOutbound
| Read (s : PollDataChannel) (buf : list byte)
| Write (s : PollDataChannel) (buf : list byte)
| Flush (s : PollDataChannel)
| Shutdown (s : PollDataChannel)
| Destroy (s : PollDataChannel)
| Close
| CloseFlush
| CloseShutdown.

Inductive conn_answer :=
| AStream (p : poll (result io_error PollDataChannel))
| ADone (p : poll (result io_error ()))
| ARead (buf : list byte) (p : poll (result io_error nat))
| AWrite (p : poll (result io_error nat))
| AUnit.

Definition conn_state : Type := DataChannelsInner * DcHeap.

Definition conn_do (op : conn_op) (s : conn_state) : conn_state * conn_answer :=
  let '(c, h) := s in
  match op with
  | Arrive d => (set_rx (incoming_data_channel_open d (incoming_data_channels_rx c)) c, h, AUnit)
  | PollEvent => let '(c, h, p) := poll_event c h in (c, h, AStream p)
  | PollOutbound s => let '(c, h, p) := poll_outbound s c h in (c, h, AStream p)
  | DestroyOutbound => (destroy_outbound c, h, AUnit)
  | Read s buf => let '(h, buf, p) := read_substream s buf h in (c, h, ARead buf p)
  | Write s buf => let '(h, p) := write_substream s buf h in (c, h, AWrite p)
  | Flush s => let '(h, p) := flush_substream s h in (c, h, ADone p)
  | Shutdown s => let '(h, p) := shutdown_substream s h in (c, h, ADone p)
  | Destroy s => (destroy_substream s c, h, AUnit)
  | Close => let '(c, h, p) := close order c h in (c, h, ADone p)
  | CloseFlush => let '(h, p) := flush_all order c h in (c, h, ADone p)
  | CloseShutdown => let '(c, h, p) := shutdown_all order c h in (c, h, ADone p)
  end.

(** What is seen of a call: an arrival is accepted when the channel takes it;
    one that cannot be detached is only logged. *)
Definition observe (op : conn_op) (s : conn_state) (r : conn_answer) : action :=
  match op, r with
  | Arrive (Ok d), _ =>
      if (try_send_clone (incoming_data_channels_rx s.1) d).2 is Ok _
      then Arrived (detached_id d) else Refused
  | PollEvent, AStream (Ready (Ok ch)) => Inbound (stream_identifier ch)
  | PollEvent, AStream (Ready (Err _)) => InboundEnd
  | PollEvent, AStream Pending => Waiting
  | PollOutbound _, AStream (Ready (Ok ch)) => Outbound (stream_identifier ch)
  | Destroy s, _ => Destroyed (stream_identifier s)
  | Close, ADone (Ready (Ok _)) => Closed
  | CloseShutdown, ADone (Ready (Ok _)) => Closed
  | _, _ => Nothing
  end.

Fixpoint conn_run (ops : list conn_op) (s : conn_state) : conn_state * list action :=
  match ops with
  | [] => (s, [])
  | op :: ops =>
      let '(s1, r) := conn_do op s in
      let '(s2, l) := conn_run ops s1 in (s2, observe op s r :: l)
  end.

(** The incoming channels that opened and could be detached *)
Definition arrivals (ops : list conn_op) : list Z :=
  omap (λ op, if op is Arrive (Ok d) then Some (detached_id d) else None) ops.

Definition streams (c : DataChannelsInner) : Streams :=
  mk_streams (dom (map c)) (detached_id <$> chan_items (incoming_data_channels_rx c))
    (negb (chan_closed (incoming_data_channels_rx c))).
End histories.

(** ** Closing, poll after poll *)

Section closing.
Context `{MultiaddrApi, ErrorTypes, DataChannelApi, CertificateApi, !WebRTCApi,
          ChannelApi}.

(** [close] polled at most [n] times, until it answers; [env] is what happens
    to the channels between two polls. *)
Fixpoint close_polls (order : gmap Z PollDataChannel → list (Z * PollDataChannel))
    (env : DcHeap → DcHeap) (n : nat) (c : DataChannelsInner) (h : DcHeap)
    : DataChannelsInner * DcHeap * poll (result io_error ()) :=
  match n with
  | 0 => (c, h, Pending)
  | S n =>
      match close order c h with
      | (c, h, Pending) => close_polls order env n c (env h)
      | answered => answered
      end
  end.

(** Polling does not add to the work, and is pending only if there is some. *)
Definition patient (work : DcHeap → nat) (f : DcHeap → DcHeap * poll (result io_error ()))
    : Prop :=
  ∀ h, work (f h).1 ≤ work h ∧ ((f h).2 = Pending → work (f h).1 ≠ 0).
End closing.

(** * Lemmas *)

Section lemmas.
Context `{MultiaddrApi, ErrorTypes, DataChannelLaws, CertificateApi, !WebRTCApi,
          ChannelLaws}.

#[local] Hint Constructors stream_step : core.

Lemma insert_channel_streams d c h :
  let '(c', _, ch) := insert_channel d c h in
  streams c' = mk_streams ({[stream_identifier ch]} ∪ s_live (streams c))
                 (s_queue (streams c)) (s_open (streams c)).
Proof.
  pose proof (insert_channel_spec d c h) as Hi.
  destruct (insert_channel d c h) as [[c' h'] ch]. destruct Hi as (-> & ch' & _ & ->).
  unfold streams. cbn. by rewrite dom_insert_L.
Qed.

Lemma arrive_streams d c :
  stream_step (streams c)
    (if (try_send_clone (incoming_data_channels_rx c) d).2 is Ok _
     then Arrived (detached_id d) else Refused)
    (streams (set_rx (incoming_data_channel_open (Ok d) (incoming_data_channels_rx c)) c)).
Proof.
  unfold incoming_data_channel_open, streams.
  destruct (try_send_clone _ d) as [rx r] eqn:Hs. cbn in *.
  destruct (try_send_clone_items _ _ _ _ _ Hs) as [-> Hi].
  destruct (chan_closed (incoming_data_channels_rx c)).
  - destruct Hi as [[e ->] ->]. constructor.
  - destruct Hi as [-> ->]. rewrite fmap_app. constructor.
Qed.

Lemma poll_event_streams c h :
  let '(c', _, p) := poll_event c h in
  stream_step (streams c)
    (match p with
     | Ready (Ok ch) => Inbound (stream_identifier ch)
     | Ready (Err _) => InboundEnd
     | Pending => Waiting
     end) (streams c').
Proof.
  unfold poll_event. destruct (poll_next _) as [rx p] eqn:Hp.
  destruct (poll_next_items _ _ _ _ Hp) as [Hcl Hi]. destruct p as [[d|]|].
  - pose proof (insert_channel_streams d (set_rx rx c) h) as Hs.
    pose proof (insert_channel_spec d (set_rx rx c) h) as Hid.
    destruct (insert_channel d _ h) as [[c' h'] ch]. destruct Hid as [Hid _].
    rewrite Hs, Hid. destruct c as [m rx0 cap]. unfold streams. cbn in *.
    rewrite Hi, Hcl. constructor.
  - destruct Hi as (Hi & Hi' & Hc). destruct c as [m rx0 cap]. unfold streams. cbn in *.
    rewrite Hi, Hi', Hcl, Hc. constructor.
  - destruct Hi as (Hi & Hi' & Hc). destruct c as [m rx0 cap]. unfold streams. cbn in *.
    rewrite Hi, Hi', Hcl, Hc. constructor.
Qed.

Lemma poll_outbound_streams s c h :
  let '(c', _, p) := poll_outbound s c h in
  stream_step (streams c)
    (if p is Ready (Ok ch) then Outbound (stream_identifier ch) else Nothing) (streams c').
Proof.
  unfold poll_outbound. destruct s as [[d|e]|]; [|constructor..].
  pose proof (insert_channel_streams d c h) as Hs.
  destruct (insert_channel d c h) as [[c' h'] ch]. rewrite Hs. constructor.
Qed.

Lemma shutdown_all_streams order c h :
  let '(c', _, p) := shutdown_all order c h in
  stream_step (streams c) (if p is Ready (Ok _) then Closed else Nothing) (streams c').
Proof.
  unfold shutdown_all. destruct (poll_each _ _ _) as [h' [[u|e]|]]; [|constructor..].
  unfold streams. cbn. rewrite chan_close_items, chan_close_closed. constructor.
Qed.

Lemma close_streams order c h :
  let '(c', _, p) := close order c h in
  stream_step (streams c) (if p is Ready (Ok _) then Closed else Nothing) (streams c').
Proof.
  destruct (close order c h) as [[c' h'] p] eqn:Hc.
  apply close_cases in Hc as [(-> & _ & ->)|(Hp & -> & _)].
  - unfold streams. cbn. rewrite chan_close_items, chan_close_closed. constructor.
  - destruct p as [[[]|]|]; [done|constructor..].
Qed.

Lemma conn_do_streams order op s :
  let '(s', r) := conn_do order op s in
  stream_step (streams s.1) (observe op s r) (streams s'.1).
Proof.
  destruct s as [c h]. destruct op as [[d|e]| |o| |s buf|s buf|s|s|s| | |]; cbn.
  - apply arrive_streams.
  - destruct c. constructor.
  - pose proof (poll_event_streams c h) as Hp.
    destruct (poll_event c h) as [[c' h'] [[ch|e]|]]; apply Hp.
  - pose proof (poll_outbound_streams o c h) as Hp.
    destruct (poll_outbound o c h) as [[c' h'] [[ch|e]|]]; apply Hp.
  - constructor.
  - destruct (read_substream s buf h) as [[h' b] p]. constructor.
  - destruct (write_substream s buf h) as [h' p]. constructor.
  - destruct (flush_substream s h) as [h' p]. constructor.
  - destruct (shutdown_substream s h) as [h' p]. constructor.
  - unfold streams. cbn. rewrite dom_delete_L. constructor.
  - pose proof (close_streams order c h) as Hp.
    destruct (close order c h) as [[c' h'] [[u|e]|]]; apply Hp.
  - destruct (flush_all order c h) as [h' p]. constructor.
  - pose proof (shutdown_all_streams order c h) as Hp.
    destruct (shutdown_all order c h) as [[c' h'] [[u|e]|]]; apply Hp.
Qed.

Lemma conn_do_wf order op s : conn_wf s.1 → conn_wf (conn_do order op s).1.1.
Proof.
  destruct s as [c h]. intros Hc.
  destruct op as [d| |o| |s buf|s buf|s|s|s| | |]; cbn [conn_do fst] in *; try done.
  - pose proof (poll_event_wf c h Hc). by destruct (poll_event c h) as [[??]?].
  - pose proof (poll_outbound_wf o c h Hc). by destruct (poll_outbound o c h) as [[??]?].
  - by destruct (read_substream s buf h) as [[??]?].
  - by destruct (write_substream s buf h) as [??].
  - by destruct (flush_substream s h) as [??].
  - by destruct (shutdown_substream s h) as [??].
  - by apply destroy_substream_wf.
  - pose proof (close_wf order c h Hc). by destruct (close order c h) as [[??]?].
  - by destruct (flush_all order c h) as [??].
  - pose proof (shutdown_all_wf order c h Hc). by destruct (shutdown_all order c h) as [[??]?].
Qed.

Lemma conn_run_streams order ops s :
  conn_wf s.1 →
  let '(s', l) := conn_run order ops s in
  stream_run (streams s.1) l (streams s'.1) ∧ conn_wf s'.1.
Proof.
  revert s. induction ops as [|op ops IH]; intros s Hs; [by split; [constructor|]|].
  cbn [conn_run]. pose proof (conn_do_streams order op s) as Hstep.
  pose proof (conn_do_wf order op s Hs) as Hwf.
  destruct (conn_do order op s) as [s1 r]. specialize (IH s1 Hwf).
  destruct (conn_run order ops s1) as [s2 l]. destruct IH as [Hrun Hs2].
  split; [by econstructor|done].
Qed.

(** What a call that leaves the connection open accepts *)
Lemma conn_do_accepted order op s :
  let '(s', r) := conn_do order op s in
  chan_closed (incoming_data_channels_rx s.1) = false →
  accepted [observe op s r] = arrivals [op].
Proof.
  destruct s as [c h]. destruct op as [[d|e]| |o| |s buf|s buf|s|s|s| | |]; cbn;
    [|done|..]; repeat case_match; simplify_eq; try done; intros Ho;
    match goal with Hs : (try_send_clone _ _).2 = _ |- _ => revert Hs end;
    destruct (try_send_clone _ d) as [rx r] eqn:Hs; cbn; intros ->;
    destruct (try_send_clone_items _ _ _ _ _ Hs) as [_ Hi]; rewrite Ho in Hi; by destruct Hi.
Qed.

(** ** Closing *)

Lemma conn_run_app order ops ops' s :
  (conn_run order (ops ++ ops') s).1 = (conn_run order ops' (conn_run order ops s).1).1.
Proof.
  revert s. induction ops as [|op ops IH]; intros s; [done|]. cbn [conn_run app].
  destruct (conn_do order op s) as [s1 r]. specialize (IH s1).
  destruct (conn_run order ops s1), (conn_run order (ops ++ ops') s1). apply IH.
Qed.

(** A [close] between whose parts other calls come, as a history *)
Lemma close_while_history order ops c h h1 :
  flush_all order c h = (h1, Ready (Ok ())) →
  (close_while order (λ s, (conn_run order ops s).1) c h).1
    = (conn_run order (CloseFlush :: ops ++ [CloseShutdown]) (c, h)).1.
Proof.
  intros Hf. unfold close_while.
  change (CloseFlush :: ops ++ [CloseShutdown]) with ([CloseFlush] ++ ops ++ [CloseShutdown]).
  rewrite conn_run_app. cbn [conn_run conn_do]. rewrite Hf. cbn [fst].
  rewrite conn_run_app. destruct (conn_run order ops (c, h1)).1 as [c2 h2]. cbn.
  by destruct (shutdown_all order c2 h2) as [[??]?].
Qed.

Lemma poll_each_patient work f l h :
  (∀ ch, patient work (f ch)) →
  let '(h', p) := poll_each f l h in
  work h' ≤ work h ∧ (p = Pending → work h' ≠ 0).
Proof.
  intros Hf. revert h. induction l as [|[id ch] l IH]; intros h; cbn; [by split|].
  destruct (Hf ch h) as [Hle Hp]. destruct (f ch h) as [h1 [[u|e]|]]; cbn in *; [|by auto..].
  specialize (IH h1). destruct (poll_each f l h1) as [h2 p]. split; [lia|apply IH].
Qed.

Lemma close_patient work order c h :
  (∀ ch, patient work (flush_substream ch)) → (∀ ch, patient work (shutdown_substream ch)) →
  let '(c', h', p) := close order c h in
  work h' ≤ work h ∧ (p = Pending → work h' ≠ 0)
  ∧ (p = Ready (Ok ()) → chan_closed (incoming_data_channels_rx c') = true).
Proof.
  intros Hf Hs. unfold close, close_while, flush_all, shutdown_all.
  pose proof (poll_each_patient work flush_substream (order (map c)) h Hf) as Hfl.
  destruct (poll_each flush_substream _ h) as [h1 [[u|e]|]]; [|naive_solver..].
  pose proof (poll_each_patient work shutdown_substream (order (map c)) h1 Hs) as Hsh.
  destruct (poll_each shutdown_substream _ h1) as [h2 [[v|e]|]]; cbn;
    rewrite ?chan_close_closed; split_and!; try done; try lia; naive_solver.
Qed.

Lemma close_polls_ready work env order :
  (∀ h, work h ≠ 0 → work (env h) < work h) →
  (∀ ch, patient work (flush_substream ch)) → (∀ ch, patient work (shutdown_substream ch)) →
  ∀ n c h, work h < n →
  ∃ r, (close_polls order env n c h).2 = Ready r
    ∧ (r = Ok () →
       chan_closed (incoming_data_channels_rx (close_polls order env n c h).1.1) = true).
Proof.
  intros He Hf Hs n. induction n as [|n IH]; intros c h Hn; [lia|]. cbn.
  pose proof (close_patient work order c h Hf Hs) as Hc.
  destruct (close order c h) as [[c' h'] [r|]]; destruct Hc as (Hle & Hp & Hcl).
  - exists r. split; [done|]. intros ->. by apply Hcl.
  - apply IH. specialize (He h' (Hp eq_refl)). lia.
Qed.

(** ** Histories of the specification *)

Lemma stream_run_queue s l s' :
  stream_run s l s' → inbound l ++ s_queue s' = s_queue s ++ accepted l.
Proof.
  induction 1 as [s|s a s1 l s2 Hs _ IH]; [by rewrite app_nil_r|].
  unfold inbound, accepted in *.
  destruct Hs; cbn in *; rewrite ?IH; by rewrite <-?app_assoc.
Qed.

(** Closed, a connection stays closed and accepts nothing. *)
Lemma stream_run_closed s l s' :
  stream_run s l s' → s_open s = false → s_open s' = false ∧ accepted l = [].
Proof.
  induction 1 as [s|s a s1 l s2 Hs _ IH]; [done|].
  destruct Hs; cbn in *; intros; simplify_eq; by apply IH.
Qed.

(** A substream that is live, or is yielded, stays live until it is destroyed. *)
Lemma stream_run_live s l s' id :
  stream_run s l s' → Destroyed id ∉ l →
  id ∈ s_live s ∨ Inbound id ∈ l ∨ Outbound id ∈ l → id ∈ s_live s'.
Proof.
  induction 1 as [s|s a s1 l s2 Hs _ IH]; intros Hd Hid; [set_solver|].
  apply not_elem_of_cons in Hd as [Hda Hd]. apply IH; [done|].
  rewrite !elem_of_cons in Hid. destruct Hs; cbn in *; set_solver.
Qed.

(** A connection that is open now was open before: it accepted all. *)
Lemma conn_run_accepted order ops s :
  conn_wf s.1 →
  let '(s', l) := conn_run order ops s in
  chan_closed (incoming_data_channels_rx s'.1) = false → accepted l = arrivals ops.
Proof.
  revert s. induction ops as [|op ops IH]; intros s Hs; [done|]. cbn [conn_run].
  pose proof (conn_do_accepted order op s) as Ha.
  pose proof (conn_do_wf order op s Hs) as Hwf.
  pose proof (conn_run_streams order (op :: ops) s Hs) as Hrun. cbn [conn_run] in Hrun.
  destruct (conn_do order op s) as [s1 r]. specialize (IH s1 Hwf).
  destruct (conn_run order ops s1) as [s2 l]. destruct Hrun as [Hrun _]. intros Ho.
  change (observe op s r :: l) with ([observe op s r] ++ l) in *.
  change (op :: ops) with ([op] ++ ops). unfold accepted, arrivals in *.
  rewrite !omap_app, IH by done. f_equal. apply Ha.
  destruct (chan_closed (incoming_data_channels_rx s.1)) eqn:Hcl; [|done].
  apply stream_run_closed in Hrun as [Ho' _]; cbn in *; [by rewrite Ho in Ho'|by rewrite Hcl].
Qed.

Lemma elem_of_inbound id l : id ∈ inbound l ↔ Inbound id ∈ l.
Proof.
  unfold inbound. rewrite list_elem_of_omap. split.
  - intros (a & Ha & Hid). destruct a; simplify_eq. done.
  - intros. by exists (Inbound id).
Qed.
End lemmas.

(** * Correctness *)

Section correctness.
Context `{MultiaddrApi, ErrorTypes, DataChannelLaws, CertificateApi, !WebRTCApi,
          ChannelLaws}.
Context (order : gmap Z PollDataChannel → list (Z * PollDataChannel)).

(** C8: every history of calls to a connection, whatever the data channels
    answer, is a history of the abstract specification: a poll yields the first
    incoming substream that is queued, waits only when none is and the
    connection is open, and fails only when none is and it is closed; channels
    are accepted only while it is open; a yielded substream becomes live and a
    destroyed one, alone, ceases to be; reads, writes, flushes and shutdowns of
    substreams change none of it. *)
Theorem connection_implements_streams ops s :
  conn_wf s.1 →
  let '(s', l) := conn_run order ops s in
  stream_run (streams s.1) l (streams s'.1) ∧ conn_wf s'.1.
Proof. exact (conn_run_streams order ops s). Qed.

(** C19: no incoming data channel is lost, invented or overtaken: over any
    history the ones yielded, then those still queued, are the ones queued at
    the start, then those accepted since; what was yielded and not destroyed is
    in the map that [close] flushes and shuts down; while the connection is open
    every channel that opened is accepted, however many are queued, since each
    is sent by a sender of its own; once it is closed, none is. *)
Theorem inbound_streams_in_order ops s :
  conn_wf s.1 →
  let '(s', l) := conn_run order ops s in
  inbound l ++ s_queue (streams s'.1) = s_queue (streams s.1) ++ accepted l
  ∧ (∀ id, id ∈ inbound l ∨ Outbound id ∈ l → Destroyed id ∉ l →
       is_Some (map s'.1 !! id))
  ∧ (chan_closed (incoming_data_channels_rx s'.1) = false → accepted l = arrivals ops)
  ∧ (chan_closed (incoming_data_channels_rx s.1) = true →
     accepted l = [] ∧ chan_closed (incoming_data_channels_rx s'.1) = true).
Proof.
  intros Hs. pose proof (conn_run_streams order ops s Hs) as Hrun.
  pose proof (conn_run_accepted order ops s Hs) as Ha.
  destruct (conn_run order ops s) as [s' l]. destruct Hrun as [Hrun _].
  split_and!.
  - by apply stream_run_queue.
  - intros id Hid Hd. apply elem_of_dom.
    apply (stream_run_live _ _ _ id Hrun Hd). rewrite elem_of_inbound in Hid. by right.
  - exact Ha.
  - intros Hcl. apply stream_run_closed in Hrun as [Ho Hno]; cbn; [|by rewrite Hcl].
    split; [done|]. cbn in Ho. by apply negb_false_iff.
Qed.

(** C30: a [close] that is polled until it answers does answer, although each
    poll starts over with the first channel: when the channels have some amount
    of work left, which gets less between two polls and does not grow by
    flushing and shutting down, and a channel is only pending when there is
    some, then as many polls, none of which other tasks come into, and one more
    are enough. *)
Theorem close_completes (work : DcHeap → nat) (env : DcHeap → DcHeap) c h :
  (∀ h, work h ≠ 0 → work (env h) < work h) →
  (∀ ch, patient work (flush_substream ch)) → (∀ ch, patient work (shutdown_substream ch)) →
  ∃ r, (close_polls order env (S (work h)) c h).2 = Ready r
    ∧ (r = Ok () →
       chan_closed (incoming_data_channels_rx (close_polls order env (S (work h)) c h).1.1)
         = true).
Proof.
  intros He Hf Hs. destruct (close_polls_ready work env order He Hf Hs (S (work h)) c h)
    as (r & -> & Hr); [lia|]. by exists r.
Qed.
(** C20: [close] does not hold the lock between flushing and shutting down: a
    channel that another task takes from the queue in between is in the map
    by then, so it is shut down, although [close] flushed the channels that
    were there before and not this one. The other task is any history of calls
    of which one yields the channel and none destroys it. *)
Theorem close_misses_late_channel ops c h c' h' id :
  (∀ m, order m ≡ₚ map_to_list m) →
  conn_wf c → map c !! id = None →
  close_while order (λ s, (conn_run order ops s).1) c h = (c', h', Ready (Ok ())) →
  let flushed := flush_all order c h in
  let seen := (conn_run order ops (c, flushed.1)).2 in
  Inbound id ∈ seen ∨ Outbound id ∈ seen → Destroyed id ∉ seen →
  flushed.2 = Ready (Ok ())
  ∧ all_ok flush_substream (order (map c)) h flushed.1
  ∧ (∀ ch, (id, ch) ∉ order (map c))
  ∧ ∃ ch h1 h2, map c' !! id = Some ch
      ∧ (id, ch) ∈ order (map c')
      ∧ all_ok shutdown_substream (order (map c')) (conn_run order ops (c, flushed.1)).1.2 h'
      ∧ shutdown_substream ch h1 = (h2, Ready (Ok ())).
Proof.
  intros Ho Hwf Hid Hc flushed seen Hin Hd. subst flushed seen.
  unfold close_while in Hc. destruct (flush_all order c h) as [h1 [[[]|]|]] eqn:Hf; try done.
  cbn [fst snd] in *. pose proof (conn_run_streams order ops (c, h1) Hwf) as Hrun.
  destruct (conn_run order ops (c, h1)) as [[c2 h2] seen]. cbn [fst snd] in *.
  destruct Hrun as [Hrun _]. unfold shutdown_all in Hc.
  destruct (poll_each shutdown_substream _ h2) as [h3 [[u|]|]] eqn:Hs; simplify_eq.
  apply poll_each_ok in Hs. split; [done|]. split; [by apply (poll_each_ok _ _ _ _ ())|].
  split; [intros ch; rewrite Ho; intros Hch%elem_of_map_to_list; congruence|].
  destruct (map c2 !! id) as [ch|] eqn:Hch; last first.
  { apply not_elem_of_dom in Hch. destruct Hch.
    apply (stream_run_live _ _ _ id Hrun Hd). by right. }
  assert ((id, ch) ∈ order (map c2)) as Hel by by rewrite Ho; apply elem_of_map_to_list.
  destruct (all_ok_elem _ _ _ _ _ _ Hs Hel) as (ha & hb & [] & Hsh).
  by exists ch, ha, hb.
Qed.
End correctness.

(** ** Witnesses *)

Module Witness.
Import MultiaddrRef ErrorRef DataChannelRef ChannelRef Connection.Witness.

(** A third channel arrives, two are yielded, one is destroyed, the connection
    is closed and a late channel refused. *)
Definition history : list conn_op :=
  [ Arrive (Ok 5%Z); PollEvent; PollEvent; Destroy (mk_poll_data_channel 3%Z);
    Write (mk_poll_data_channel 5%Z) [Byte.x01]; Close; Arrive (Ok 7%Z); PollEvent ].
Definition cells : gmap Z cell := <[5%Z := mk_cell [] [] 0 0]> two_cells.

Definition before : conn_state := (conn, cells).

Example history_seen :
  (conn_run id_order history before).2 =
    [ Arrived 5; Inbound 3; Inbound 5; Destroyed 3; Nothing; Closed; Refused; InboundEnd ]%Z.
Proof. vm_compute. reflexivity. Qed.

(** The queue takes more than its buffer. *)
Example twenty_arrivals :
  accepted (conn_run id_order (replicate 20 (Arrive (Ok 5%Z))) before).2 = replicate 20 5%Z.
Proof. vm_compute. reflexivity. Qed.

Lemma conn_is_wf : conn_wf before.1.
Proof. apply map_Forall_singleton. reflexivity. Qed.

Lemma connection_implements_streams_witness :
  ∃ s', stream_run (streams before.1)
    [ Arrived 5; Inbound 3; Inbound 5; Destroyed 3; Nothing; Closed; Refused; InboundEnd ]%Z s'.
Proof.
  pose proof (connection_implements_streams id_order history before conn_is_wf) as Hr.
  pose proof history_seen as Hs.
  destruct (conn_run id_order history before) as [s' l]. cbn [snd] in Hs. subst l.
  destruct Hr as [Hr _]. by eexists.
Defined.

Lemma inbound_streams_in_order_witness :
  let '(s', _) := conn_run id_order history before in is_Some (map s'.1 !! 5%Z).
Proof.
  pose proof (inbound_streams_in_order id_order history before conn_is_wf) as Hr.
  pose proof history_seen as Hs.
  destruct (conn_run id_order history before) as [s' l]. cbn [snd] in Hs. subst l.
  destruct Hr as (_ & Hl & _). apply Hl.
  - left. apply elem_of_inbound. right. right. left.
  - intros Hin. repeat (apply elem_of_cons in Hin as [Hin|Hin]; [discriminate|]).
    by apply elem_of_nil in Hin.
Defined.
(** Between the two parts of a close another task is given channel 3, and
    writes to it: it is shut down with its byte and without a flush. *)
Definition meanwhile : list conn_op :=
  [ PollEvent; Write (mk_poll_data_channel 3%Z) [Byte.x01] ].
Definition disturbed : DataChannelsInner * DcHeap * poll (result io_error ()) :=
  close_while id_order (λ s, (conn_run id_order meanwhile s).1) conn two_cells.

Definition flushed_and_shut (id : Z) : option (nat * nat * list byte) :=
  (λ s, (flushes s, shutdowns s, written s)) <$> (disturbed.1.2 : gmap Z cell) !! id.

Example late_channel :
  (flushed_and_shut 1, flushed_and_shut 3)
  = (Some (1, 1, []), Some (0, 1, [Byte.x01])).
Proof. vm_compute. reflexivity. Qed.

Lemma close_misses_late_channel_witness :
  (∀ ch, (3%Z, ch) ∉ id_order (map conn))
  ∧ ∃ ch h1 h2, shutdown_substream ch h1 = (h2, Ready (Ok ())).
Proof.
  assert (bool_decide (disturbed.2 = Ready (Ok ())) = true) as Hp%bool_decide_eq_true
    by (vm_compute; reflexivity).
  destruct disturbed as [[c' h'] p] eqn:E. cbn [snd] in Hp. subst p.
  destruct (close_misses_late_channel id_order meanwhile conn two_cells c' h' 3%Z)
    as (_ & _ & Hno & ch & h1 & h2 & _ & _ & _ & Hs).
  - done.
  - exact conn_is_wf.
  - reflexivity.
  - exact E.
  - left. vm_compute. left.
  - intros Hin. vm_compute in Hin.
    repeat (apply elem_of_cons in Hin as [Hin|Hin]; [discriminate|]).
    by apply elem_of_nil in Hin.
  - split; [exact Hno|]. by exists ch, h1, h2.
Defined.
End Witness.

Module ClosingWitness.
Import MultiaddrRef ErrorRef ChannelRef.

(** Channels that share an association with some bytes in flight: flushing and
    shutting down wait for the last one. *)
Definition when_sent (h : nat) : nat * poll (result io_error ()) :=
  (h, if Nat.eqb h 0 then Ready (Ok ()) else Pending).

#[local] Instance in_flight : DataChannelApi := {|
  DetachedDataChannel := Z;
  RTCPollDataChannel := Z;
  DcHeap := nat;
  detached_id d := d;
  rtc_id c := c;
  rtc_new d h := (h, d);
  rtc_clone c h := (h, c);
  rtc_poll_read _ b h := (h, b, Pending);
  rtc_poll_write _ buf h := (h + length buf, Ready (Ok (length buf)));
  rtc_poll_write_vectored _ bufs h := (h + length (concat bufs), Ready (Ok (length (concat bufs))));
  rtc_poll_flush _ := when_sent;
  rtc_poll_shutdown _ := when_sent;
  rtc_messages_sent _ _ := 0%Z;
  rtc_messages_received _ _ := 0%Z;
  rtc_bytes_sent _ _ := 0%Z;
  rtc_bytes_received _ _ := 0%Z;
  rtc_buffered_amount _ h := Z.of_nat h;
  rtc_buffered_amount_low_threshold _ _ := 0%Z;
|}.

Definition two_channels : DataChannelsInner :=
  set_map (λ m, <[1%Z := mk_poll_data_channel 1%Z]> (<[2%Z := mk_poll_data_channel 2%Z]> m))
    DataChannelsInner_new.

(** Three bytes are in flight, and one arrives between two polls. *)
Lemma close_completes_witness :
  ∃ r, (close_polls map_to_list pred 4 two_channels 3).2 = Ready r.
Proof.
  destruct (close_completes (H1 := in_flight) map_to_list (λ h, h) pred two_channels 3) as (r & Hr & _).
  - intros h Hh. lia.
  - intros ch h. cbn. split; [lia|]. by destruct (Nat.eqb_spec h 0).
  - intros ch h. cbn. split; [lia|]. by destruct (Nat.eqb_spec h 0).
  - by exists r.
Defined.
End ClosingWitness.
