(* ===== verification/Handshake.v ===== *)
(** * Connection establishment

    [do_dial] of [src/transport.rs] and [webrtc] of [src/upgrade.rs]: the
    dialing and the listening side of the same handshake, as programs over
    the events of WebRtc. [build_setting_engine] of [src/transport.rs] is
    common to both. *)

From S2P Require Import Prelude RustString Net Multiaddr Fingerprint Errors Channel.
From S2P Require Import Sdp DataChannel Prog WebRtc Connection.

#[local] Open Scope rust_scope.

Section handshake.
Context `{MultiaddrApi, ErrorTypes, DataChannelApi, CertificateApi, !WebRTCApi,
          ChannelApi, TemplateApi}.

(** ** [build_setting_engine] *)

Definition build_setting_engine (addr : SocketAddr) (fingerprint : string)
    : SettingEngine :=
  let f := without_colons fingerprint in
  [ SetIceCredentials f f;
    SetUdpNetworkMuxed;
    DetachDataChannels;
    SetNetworkTypes [if is_ipv4 addr then Udp4 else Udp6] ].

(** The opening of the first data channel, waited for at most ten seconds *)
Definition await_data_channel (data_channel : RTCDataChannel)
    : may rtcE Error DetachedDataChannel :=
  register_data_channel_open_handler data_channel ;;;
  let! s := call (SelectOpen data_channel 10) in
  match s with
  | RxReady e =>
      match rx_result e with
      | Ok detached => returns detached
      | Err _ => throws (InternalError display_canceled)
      end
  | DelayElapsed =>
      throws (InternalError
        "data channel opening took longer than 10 seconds (see logs)")
  end.

(** The Noise handshake; only a remote with an identity key is accepted. *)
Definition noise_handshake (dir : Direction) (id_keys : Keypair)
    (detached : DetachedDataChannel) : may rtcE Error (PeerId * NoiseOutput) :=
  let! dh_keys := call_unwrap (IntoAuthentic id_keys) in
  let! info := pure_ (unwrap_opt (head (protocol_info dh_keys))) in
  let! remote := call_try Noise (NoiseUpgrade dir dh_keys info detached) in
  match remote with
  | (IdentityKey pk, io) => returns (to_peer_id pk, io)
  | (NoIdentityKey, _) => throws (Noise AuthenticationFailed)
  end.

(** Both sides send their fingerprint over Noise and compare the one they
    get with the one they expect. *)
Definition exchange_fingerprints (noise_io : NoiseOutput)
    (our_fingerprint remote_fingerprint : string) : may rtcE Error () :=
  let! n := call_try IoError (NoiseWrite noise_io (into_bytes our_fingerprint)) in
  let! _ := call_try IoError (NoiseFlush noise_io) in
  let! buf := call_try IoError (NoiseReadExact noise_io n) in
  let! fingerprint_from_noise :=
    pure_ (try_ (map_err (λ _, Noise AuthenticationFailed) (from_utf8 buf))) in
  if bool_decide (fingerprint_from_noise ≠ remote_fingerprint) then
    throws (InvalidFingerprint remote_fingerprint fingerprint_from_noise)
  else returns ().

(** ** [WebRTCDirectTransport::do_dial] *)

Definition do_dial (config : RTCConfiguration) (id_keys : Keypair) (addr : Multiaddr)
    : may rtcE Error (PeerId * Connection) :=
  let! socket_addr :=
    pure_ (try_ (ok_or (InvalidMultiaddr addr) (multiaddr_to_socketaddr addr))) in
  if (port socket_addr =? 0)%Z || is_unspecified (ip socket_addr) then
    throws (InvalidMultiaddr addr)
  else
  let! our_fingerprint := pure_ (fingerprint_of_first_certificate config) in
  let se := build_setting_engine socket_addr our_fingerprint in
  let! peer_connection := call_try WebRTC (NewPeerConnection se config) in
  let! offer := call_try WebRTC (CreateOffer peer_connection) in
  let! _ := call_try WebRTC (SetLocalDescription peer_connection offer) in
  let! remote_fingerprint :=
    match fingerprint_from_addr addr with
    | Some f => returns (fingerprint_to_string f)
    | None => throws (InvalidMultiaddr addr)
    end in
  let! server_session_description := pure_ (render_description
    SERVER_SESSION_DESCRIPTION socket_addr remote_fingerprint) in
  let! sdp := call_unwrap (ParseAnswer server_session_description) in
  let! _ := call_try WebRTC (SetRemoteDescription peer_connection sdp) in
  let! data_channel := call_try WebRTC (CreateDataChannel peer_connection "data"
    (Some {| negotiated := negotiated default_init; init_id := Some 1%Z |})) in
  let! detached := await_data_channel data_channel in
  let! peer := noise_handshake Outbound id_keys detached in
  let '(peer_id, noise_io) := peer in
  exchange_fingerprints noise_io our_fingerprint remote_fingerprint ;;;
  let peer_id_from_addr := try_from_multiaddr addr in
  if bool_decide (peer_id_from_addr ≠ Some peer_id) then
    throws (InvalidPeerID peer_id_from_addr peer_id)
  else
  let! conn := Connection_new peer_connection in
  returns (peer_id, conn).

(** ** [upgrade::webrtc] *)

Definition webrtc (config : RTCConfiguration) (addr : Multiaddr) (id_keys : Keypair)
    : may rtcE Error (PeerId * Connection) :=
  let! socket_addr :=
    pure_ (try_ (ok_or (InvalidMultiaddr addr) (multiaddr_to_socketaddr addr))) in
  let! our_fingerprint := pure_ (fingerprint_of_first_certificate config) in
  let se := build_setting_engine socket_addr our_fingerprint in
  let se := se ++ [SetLite true] in
  let! _ := call_try WebRTC (DtlsRoleCheck se DTLSServer) in
  let se := se ++ [SetAnsweringDtlsRole DTLSServer] in
  let! peer_connection := call_try WebRTC (NewPeerConnection se config) in
  let! remote_fingerprint :=
    match last_fingerprint addr with
    | Some f => returns (fingerprint_to_string f)
    | None => throws (InvalidMultiaddr addr)
    end in
  let! client_session_description := pure_ (render_description
    CLIENT_SESSION_DESCRIPTION socket_addr remote_fingerprint) in
  let! sdp := call_unwrap (ParseOffer client_session_description) in
  let! _ := call_try WebRTC (SetRemoteDescription peer_connection sdp) in
  let! answer := call_try WebRTC (CreateAnswer peer_connection) in
  let! _ := call_try WebRTC (SetLocalDescription peer_connection answer) in
  let! data_channel := call_try WebRTC (CreateDataChannel peer_connection "data"
    (Some {| negotiated := Some true; init_id := Some 1%Z |})) in
  let! detached := await_data_channel data_channel in
  let! peer := noise_handshake Inbound id_keys detached in
  let '(peer_id, noise_io) := peer in
  exchange_fingerprints noise_io our_fingerprint remote_fingerprint ;;;
  let! conn := Connection_new peer_connection in
  returns (peer_id, conn).
End handshake.

(** ** The calls of a successful handshake *)

Section traces.
Context `{MultiaddrApi, ErrorTypes, DataChannelApi, CertificateApi, !WebRTCApi,
          ChannelApi, TemplateApi}.

Definition open_trace (dc : RTCDataChannel) (d : DetachedDataChannel) : list (obs rtcE) :=
  [Obs (OnOpen dc) (); Obs (SelectOpen dc 10) (RxReady (CallbackRan (Ok d)))].

Definition noise_trace dir keys ak info d pk io : list (obs rtcE) :=
  [ Obs (IntoAuthentic keys) (Ok ak);
    Obs (NoiseUpgrade dir ak info d) (Ok (IdentityKey pk, io)) ].

Definition exchange_trace io (our theirs : string) n : list (obs rtcE) :=
  [ Obs (NoiseWrite io (into_bytes our)) (Ok n); Obs (NoiseFlush io) (Ok ());
    Obs (NoiseReadExact io n) (Ok (into_bytes theirs)) ].

Definition dial_trace config keys sa our f pc offer sdp dc d ak info pk io n
    : list (obs rtcE) :=
  [ Obs (NewPeerConnection (build_setting_engine sa our) config) (Ok pc);
    Obs (CreateOffer pc) (Ok offer);
    Obs (SetLocalDescription pc offer) (Ok ());
    Obs (ParseAnswer (server_description sa (fingerprint_to_string f))) (Ok sdp);
    Obs (SetRemoteDescription pc sdp) (Ok ());
    Obs (CreateDataChannel pc "data" (Some (mk_init None (Some 1%Z)))) (Ok dc) ]
  ++ open_trace dc d
  ++ noise_trace Outbound keys ak info d pk io
  ++ exchange_trace io our (fingerprint_to_string f) n
  ++ [ Obs (OnDataChannel pc) () ].

Definition listener_engine sa our : SettingEngine :=
  build_setting_engine sa our ++ [SetLite true; SetAnsweringDtlsRole DTLSServer].

Definition upgrade_trace config keys sa our f pc sdp answer dc d ak info pk io n
    : list (obs rtcE) :=
  [ Obs (DtlsRoleCheck (build_setting_engine sa our ++ [SetLite true]) DTLSServer) (Ok ());
    Obs (NewPeerConnection (listener_engine sa our) config) (Ok pc);
    Obs (ParseOffer (client_description sa (fingerprint_to_string f))) (Ok sdp);
    Obs (SetRemoteDescription pc sdp) (Ok ());
    Obs (CreateAnswer pc) (Ok answer);
    Obs (SetLocalDescription pc answer) (Ok ());
    Obs (CreateDataChannel pc "data" (Some (mk_init (Some true) (Some 1%Z)))) (Ok dc) ]
  ++ open_trace dc d
  ++ noise_trace Inbound keys ak info d pk io
  ++ exchange_trace io our (fingerprint_to_string f) n
  ++ [ Obs (OnDataChannel pc) () ].
End traces.

(** * Lemmas *)

Section lemmas.
Context `{MultiaddrLaws, ErrorTypes, DataChannelApi, CertificateApi, !WebRTCApi,
          ChannelApi, TemplateLaws}.

Lemma await_data_channel_Done dc tr d :
  exec (await_data_channel dc) tr (Done d) ↔ tr = open_trace dc d.
Proof.
  unfold await_data_channel, register_data_channel_open_handler, open_trace. split.
  - intros Hx. exec_steps Hx.
    repeat match goal with u : () |- _ => destruct u | s : select_event |- _ => destruct s
      as [[[]|]|] end; cbn [rx_result open_callback ok_or] in Hx; exec_steps Hx;
      by simplify_eq.
  - intros ->. cbn. by repeat (eexists _, _; split; [done|]).
Qed.

Lemma noise_handshake_Done dir keys d tr peer io :
  exec (noise_handshake dir keys d) tr (Done (peer, io)) ↔
  ∃ ak info pk, tr = noise_trace dir keys ak info d pk io
    ∧ head (protocol_info ak) = Some info ∧ peer = to_peer_id pk.
Proof.
  unfold noise_handshake, noise_trace. split.
  - intros Hx. exec_steps Hx.
    match goal with _ : Done _ = unwrap_opt (head (protocol_info ?ak)) |- _ =>
      exists ak; destruct (head (protocol_info ak)) as [info|] eqn:? end; [|done].
    simplify_eq/=.
    match goal with ri : RemoteIdentity * _ |- _ => destruct ri as [[pk|] io'] end;
      exec_steps Hx; simplify_eq. eauto.
  - intros (ak & info & pk & -> & Hi & ->). cbn.
    eexists (Ok ak), _. split; [done|]. cbn. rewrite Hi. cbn.
    by eexists (Ok (IdentityKey pk, io)), _.
Qed.

Lemma exchange_fingerprints_Done io our f tr :
  exec (exchange_fingerprints io our (fingerprint_to_string f)) tr (Done ()) ↔
  ∃ n, tr = exchange_trace io our (fingerprint_to_string f) n.
Proof.
  unfold exchange_fingerprints, exchange_trace. split.
  - intros Hx. exec_steps Hx.
    match goal with Hu : Done ?s = try_ (map_err _ (from_utf8 ?b)) |- _ =>
      destruct (from_utf8 b) as [s'|] eqn:Hs; [|done]; simplify_eq/= end.
    case_bool_decide as Hne; exec_steps Hx. subst.
    apply from_utf8_bytes in Hs. subst.
    repeat match goal with u : () |- _ => destruct u end. by eexists.
  - intros [n ->]. cbn.
    eexists (Ok n), _. split; [done|]. cbn. eexists (Ok ()), _. split; [done|]. cbn.
    eexists (Ok (into_bytes (fingerprint_to_string f))), _. split; [done|]. cbn.
    rewrite from_utf8_ascii by apply fingerprint_chars_ascii. cbn.
    by rewrite bool_decide_false by auto.
Qed.

(** Every way the exchange ends *)
Lemma exchange_fingerprints_cases io our theirs tr r :
  exec (exchange_fingerprints io our theirs) tr r ↔
  let w := Obs (NoiseWrite io (into_bytes our)) in
  (∃ e, tr = [w (Err e)] ∧ r = Fail (IoError e))
  ∨ (∃ n e, tr = [w (Ok n); Obs (NoiseFlush io) (Err e)] ∧ r = Fail (IoError e))
  ∨ (∃ n e, tr = [w (Ok n); Obs (NoiseFlush io) (Ok ()); Obs (NoiseReadExact io n) (Err e)]
            ∧ r = Fail (IoError e))
  ∨ (∃ n b, tr = [w (Ok n); Obs (NoiseFlush io) (Ok ()); Obs (NoiseReadExact io n) (Ok b)]
            ∧ r = match from_utf8 b with
                  | Err _ => Fail (Noise AuthenticationFailed)
                  | Ok got => if bool_decide (got = theirs) then Done ()
                              else Fail (InvalidFingerprint theirs got)
                  end).
Proof.
  cbn zeta. unfold exchange_fingerprints. split.
  - intros ([n|e] & ? & -> & Hx); cbn in Hx; [|naive_solver].
    destruct Hx as ([[]|e] & ? & -> & Hx); cbn in Hx; [|naive_solver].
    destruct Hx as ([b|e] & ? & -> & Hx); cbn in Hx; [|naive_solver].
    do 3 right. exists n, b.
    destruct (from_utf8 b) as [got|]; cbn in Hx; [|naive_solver].
    repeat case_bool_decide; naive_solver.
  - intros [(e & -> & ->)|[(n & e & -> & ->)|[(n & e & -> & ->)|(n & b & -> & ->)]]];
      repeat (eexists _, _; split; [done|]; cbn); [done..|].
    destruct (from_utf8 b); cbn; [|done]. by repeat case_bool_decide.
Qed.

Lemma Connection_new_Done {Er} pc tr conn :
  exec (Connection_new (Er := Er) pc) tr (Done conn) ↔
  tr = [Obs (OnDataChannel pc) ()] ∧ conn = mk_connection pc DataChannelsInner_new.
Proof.
  unfold Connection_new. split.
  - intros Hx. exec_steps Hx. by repeat match goal with u : () |- _ => destruct u end.
  - intros [-> ->]. cbn. by eexists _, _.
Qed.

Lemma accepted_fingerprint addr sa :
  multiaddr_to_socketaddr addr = Some sa → is_Some (fingerprint_from_addr addr).
Proof.
  intros (i & p & f & hs & Hm & ->)%accepted_components. eexists.
  by eapply webrtc_components_fingerprint.
Qed.

Lemma last_is_first_fingerprint addr sa f :
  multiaddr_to_socketaddr addr = Some sa → last_fingerprint addr = Some f →
  fingerprint_from_addr addr = Some f.
Proof.
  intros (i & p & g & hs & Hm & ->)%accepted_components Hl.
  rewrite (webrtc_components_last _ _ _ _ _ Hm) in Hl.
  destruct hs; [|done]. simplify_eq. by eapply webrtc_components_fingerprint.
Qed.

(** A completed dial performed exactly these calls. *)
Lemma do_dial_Done config keys addr tr peer conn :
  exec (do_dial config keys addr) tr (Done (peer, conn)) →
  ∃ sa our f pc offer sdp dc d ak info pk io n,
    multiaddr_to_socketaddr addr = Some sa
    ∧ port sa ≠ 0%Z ∧ is_unspecified (ip sa) = false
    ∧ fingerprint_of_first_certificate (E := Error) config = Done our
    ∧ fingerprint_from_addr addr = Some f
    ∧ head (protocol_info ak) = Some info
    ∧ peer = to_peer_id pk ∧ try_from_multiaddr addr = Some peer
    ∧ tr = dial_trace config keys sa our f pc offer sdp dc d ak info pk io n
    ∧ conn = mk_connection pc DataChannelsInner_new.
Proof.
  unfold do_dial. intros Hx.
  exec_step Hx. destruct (multiaddr_to_socketaddr addr) as [sa|] eqn:Ha; [|done].
  simplify_eq/=.
  destruct (_ || _) eqn:Hp; [exec_step Hx|]. apply orb_false_iff in Hp as [Hp Hu].
  apply Z.eqb_neq in Hp. exec_steps Hx.
  destruct (accepted_fingerprint _ _ Ha) as [f Hf].
  repeat match goal with
  | Hm : exec (match fingerprint_from_addr addr with _ => _ end) _ _ |- _ =>
      rewrite Hf in Hm; exec_step Hm
  | Hr : Done _ = render_description _ _ _ |- _ =>
      rewrite render_server in Hr by apply fingerprint_to_string_safe; injection Hr as ->
  | Hd : exec (await_data_channel _) _ _ |- _ => apply await_data_channel_Done in Hd as ->
  | pi : PeerId * NoiseOutput |- _ => destruct pi
  | Hn : exec (noise_handshake _ _ _) _ _ |- _ =>
      apply noise_handshake_Done in Hn as (? & ? & ? & -> & ? & ->)
  | u : () |- _ => destruct u
  end.
  exec_steps Hx.
  repeat match goal with
  | u : () |- _ => destruct u
  | He : exec (exchange_fingerprints _ _ _) _ _ |- _ =>
      apply exchange_fingerprints_Done in He as [? ->]
  end.
  case_bool_decide as Hid; exec_steps Hx.
  match goal with Hc : exec (Connection_new _) _ _ |- _ =>
    apply Connection_new_Done in Hc as [-> ->] end.
  repeat eexists; eauto.
Qed.

(** And when the environment cooperates these calls complete it. *)
Lemma do_dial_completes config keys addr sa our f pc offer sdp dc d ak info pk io n :
  multiaddr_to_socketaddr addr = Some sa →
  port sa ≠ 0%Z → is_unspecified (ip sa) = false →
  fingerprint_of_first_certificate (E := Error) config = Done our →
  fingerprint_from_addr addr = Some f →
  head (protocol_info ak) = Some info →
  try_from_multiaddr addr = Some (to_peer_id pk) →
  exec (do_dial config keys addr)
    (dial_trace config keys sa our f pc offer sdp dc d ak info pk io n)
    (Done (to_peer_id pk, mk_connection pc DataChannelsInner_new)).
Proof.
  intros Ha Hp Hu Hour Hf Hinfo Hid. apply Z.eqb_neq in Hp.
  unfold do_dial, dial_trace. cbn [app].
  apply exec_may_bind_Done. exists [], (dial_trace config keys sa our f pc offer sdp dc d ak info pk io n), sa.
  split; [done|]. split; [by rewrite Ha|]. rewrite Hp, Hu. cbn [orb].
  repeat (apply exec_may_bind_Done; first
    [ eexists [_], _, _; split; [done|]; split; [by eexists _, _|]
    | eexists [], _, _; split; [done|]; split;
      [rewrite ?Hour, ?Hf, ?render_server by apply fingerprint_to_string_safe; done|]
    | eexists (open_trace dc d), _, d; split; [done|]; split;
      [by apply await_data_channel_Done|]
    | eexists (noise_trace _ _ _ _ _ _ _), _, (_, _); split; [done|]; split;
      [apply noise_handshake_Done; by eauto 10|]
    | eexists (exchange_trace _ _ _ _), _, (); split; [done|]; split;
      [apply exchange_fingerprints_Done; by eauto|] ]).
  rewrite bool_decide_false by auto. cbn. by eexists (), [].
Qed.

Lemma webrtc_Done config keys addr tr peer conn :
  exec (webrtc config addr keys) tr (Done (peer, conn)) →
  ∃ sa our f pc sdp answer dc d ak info pk io n,
    multiaddr_to_socketaddr addr = Some sa
    ∧ fingerprint_of_first_certificate (E := Error) config = Done our
    ∧ last_fingerprint addr = Some f
    ∧ head (protocol_info ak) = Some info
    ∧ peer = to_peer_id pk
    ∧ tr = upgrade_trace config keys sa our f pc sdp answer dc d ak info pk io n
    ∧ conn = mk_connection pc DataChannelsInner_new.
Proof.
  unfold webrtc. intros Hx.
  exec_step Hx. destruct (multiaddr_to_socketaddr addr) as [sa|] eqn:Ha; [|done].
  simplify_eq/=. exec_steps Hx.
  destruct (last_fingerprint addr) as [f|] eqn:Hf;
    match goal with Hm : exec _ _ (Done ?s) |- context [render_description] => idtac
    | Hm : exec (returns _) _ _ |- _ => exec_step Hm
    | Hm : exec (throws _) _ _ |- _ => exec_step Hm end.
  repeat match goal with
  | Hr : Done _ = render_description _ _ _ |- _ =>
      rewrite render_client in Hr by apply fingerprint_to_string_safe; injection Hr as ->
  | Hd : exec (await_data_channel _) _ _ |- _ => apply await_data_channel_Done in Hd as ->
  | pi : PeerId * NoiseOutput |- _ => destruct pi
  | Hn : exec (noise_handshake _ _ _) _ _ |- _ =>
      apply noise_handshake_Done in Hn as (? & ? & ? & -> & ? & ->)
  | u : () |- _ => destruct u
  end.
  exec_steps Hx.
  repeat match goal with
  | u : () |- _ => destruct u
  | He : exec (exchange_fingerprints _ _ _) _ _ |- _ =>
      apply exchange_fingerprints_Done in He as [? ->]
  | Hc : exec (Connection_new _) _ _ |- _ => apply Connection_new_Done in Hc as [-> ->]
  end.
  repeat eexists; eauto.
  all: unfold upgrade_trace, listener_engine; by rewrite <-?app_assoc.
Qed.

Lemma webrtc_completes config keys addr sa our f pc sdp answer dc d ak info pk io n :
  multiaddr_to_socketaddr addr = Some sa →
  fingerprint_of_first_certificate (E := Error) config = Done our →
  last_fingerprint addr = Some f →
  head (protocol_info ak) = Some info →
  exec (webrtc config addr keys)
    (upgrade_trace config keys sa our f pc sdp answer dc d ak info pk io n)
    (Done (to_peer_id pk, mk_connection pc DataChannelsInner_new)).
Proof.
  intros Ha Hour Hf Hinfo.
  unfold webrtc, upgrade_trace, listener_engine. rewrite Ha, Hour. cbn [app].
  repeat (apply exec_may_bind_Done; first
    [ eexists [_], _, _; split; [done|]; split; [by eexists _, _|]; rewrite <-?app_assoc
    | eexists [], _, _; split; [done|]; split;
      [rewrite ?Hf, ?render_client by apply fingerprint_to_string_safe; done|]
    | eexists (open_trace dc d), _, d; split; [done|]; split;
      [by apply await_data_channel_Done|]
    | eexists (noise_trace _ _ _ _ _ _ _), _, (_, _); split; [done|]; split;
      [apply noise_handshake_Done; by eauto 10|]
    | eexists (exchange_trace _ _ _ _), _, (); split; [done|]; split;
      [apply exchange_fingerprints_Done; by eauto|] ]).
  done.
Qed.

(** ** Panics *)

Lemma await_data_channel_no_panic dc tr : ¬ exec (await_data_channel dc) tr Panic.
Proof.
  unfold await_data_channel, register_data_channel_open_handler. intros Hx.
  panic_steps Hx.
Qed.

(** The two [unwrap]s before the Noise handshake *)
Definition keys_refused (keys : Keypair) (tr : list (obs rtcE)) : Prop :=
  (∃ e, Obs (IntoAuthentic keys) (Err e) ∈ tr)
  ∨ (∃ ak, Obs (IntoAuthentic keys) (Ok ak) ∈ tr ∧ protocol_info ak = []).

Lemma noise_handshake_panics dir keys d tr :
  exec (noise_handshake dir keys d) tr Panic → keys_refused keys tr.
Proof.
  unfold noise_handshake. intros Hx.
  apply exec_may_bind_Panic in Hx as [(? & ? & ak & -> & Ha & Hx)|Hx].
  - right. exists ak. exec_step Ha. split; [in_trace|]. panic_steps Hx.
    match goal with Hi : Panic = unwrap_opt (head ?l) |- _ => by destruct l end.
  - left. panic_step Hx. eexists. in_trace.
Qed.

Lemma keys_refused_app keys tr1 tr2 :
  keys_refused keys tr1 ∨ keys_refused keys tr2 → keys_refused keys (tr1 ++ tr2).
Proof. unfold keys_refused. setoid_rewrite elem_of_app. naive_solver. Qed.

Lemma exchange_fingerprints_no_panic io our theirs tr :
  ¬ exec (exchange_fingerprints io our theirs) tr Panic.
Proof.
  unfold exchange_fingerprints. intros Hx. panic_steps Hx.
  match goal with Hp : Panic = try_ (map_err _ ?r) |- _ => by destruct r end.
Qed.

Lemma render_no_panic {E} sa f :
  render_description (E := E) SERVER_SESSION_DESCRIPTION sa (fingerprint_to_string f)
    ≠ Panic
  ∧ render_description (E := E) CLIENT_SESSION_DESCRIPTION sa (fingerprint_to_string f)
    ≠ Panic.
Proof.
  by rewrite render_server, render_client by apply fingerprint_to_string_safe.
Qed.
Lemma Connection_new_no_panic {Er} pc tr : ¬ exec (Connection_new (Er := Er) pc) tr Panic.
Proof. unfold Connection_new. intros Hx. panic_steps Hx. Qed.

Lemma first_certificate_not_Fail {E} config (e : E) :
  fingerprint_of_first_certificate config ≠ Fail e.
Proof.
  unfold fingerprint_of_first_certificate.
  destruct (head _); cbn; [|done]. destruct (get_fingerprints _); cbn; [|done].
  by destruct (head _).
Qed.

Ltac panic_case :=
  match goal with
  | Hx : exec (await_data_channel _) _ Panic |- _ => by apply await_data_channel_no_panic in Hx
  | Hx : exec (exchange_fingerprints _ _ _) _ Panic |- _ =>
      by apply exchange_fingerprints_no_panic in Hx
  | Hx : exec (Connection_new _) _ Panic |- _ => by apply Connection_new_no_panic in Hx
  | Hx : exec (noise_handshake _ _ _) _ Panic |- _ =>
      right; right; repeat (apply keys_refused_app; right);
      by apply noise_handshake_panics in Hx
  | Hx : Panic = try_ ?r |- _ => by destruct r
  | Hx : Panic = fingerprint_of_first_certificate _ |- _ => by left
  | Hm : exec (match ?o with _ => _ end) _ (Done ?s),
    Hr : Panic = render_description _ _ ?s |- _ =>
      exfalso; destruct o; exec_step Hm;
      by rewrite ?render_server, ?render_client in Hr by apply fingerprint_to_string_safe
  | Hx : exec (match ?o with _ => _ end) _ Panic |- _ => by destruct o; panic_step Hx
  | |- context [ParseAnswer] => right; left; eexists _, _; in_trace
  | |- context [ParseOffer] => right; left; eexists _, _; in_trace
  end.

Lemma do_dial_panics config keys addr tr :
  exec (do_dial config keys addr) tr Panic →
  fingerprint_of_first_certificate (E := Error) config = Panic
  ∨ (∃ text e, Obs (ParseAnswer text) (Err e) ∈ tr)
  ∨ keys_refused keys tr.
Proof.
  unfold do_dial. intros Hx. panic_steps Hx; panic_case.
Qed.

Lemma webrtc_panics config keys addr tr :
  exec (webrtc config addr keys) tr Panic →
  fingerprint_of_first_certificate (E := Error) config = Panic
  ∨ (∃ text e, Obs (ParseOffer text) (Err e) ∈ tr)
  ∨ keys_refused keys tr.
Proof.
  unfold webrtc. intros Hx. panic_steps Hx; panic_case.
Qed.
End lemmas.

(** * Correctness *)

Section correctness.
Context `{MultiaddrLaws, ErrorTypes, DataChannelApi, CertificateApi, !WebRTCApi,
          ChannelApi, TemplateLaws}.

(** C14: every way the exchange of fingerprints ends, after which calls: each
    I/O error is returned as it is, bytes that are not UTF-8 are an
    authentication failure, and any other text than the expected fingerprint
    is reported together with it. *)
Theorem exchange_fingerprints_spec io our theirs tr r :
  exec (exchange_fingerprints io our theirs) tr r ↔
  let w := Obs (NoiseWrite io (into_bytes our)) in
  (∃ e, tr = [w (Err e)] ∧ r = Fail (IoError e))
  ∨ (∃ n e, tr = [w (Ok n); Obs (NoiseFlush io) (Err e)] ∧ r = Fail (IoError e))
  ∨ (∃ n e, tr = [w (Ok n); Obs (NoiseFlush io) (Ok ()); Obs (NoiseReadExact io n) (Err e)]
            ∧ r = Fail (IoError e))
  ∨ (∃ n b, tr = [w (Ok n); Obs (NoiseFlush io) (Ok ()); Obs (NoiseReadExact io n) (Ok b)]
            ∧ r = match from_utf8 b with
                  | Err _ => Fail (Noise AuthenticationFailed)
                  | Ok got => if bool_decide (got = theirs) then Done ()
                              else Fail (InvalidFingerprint theirs got)
                  end).
Proof. apply exchange_fingerprints_cases. Qed.

(** C24: the handshakes panic only where the source unwraps: on a configuration
    without a usable certificate, when the rendered description does not
    parse, when the Noise keys cannot be signed, or when the protocol has no
    name. In particular no remote message makes them panic. *)
Theorem handshake_panics config keys addr tr :
  exec (do_dial config keys addr) tr Panic ∨ exec (webrtc config addr keys) tr Panic →
  fingerprint_of_first_certificate (E := Error) config = Panic
  ∨ (∃ text e, Obs (ParseAnswer text) (Err e) ∈ tr ∨ Obs (ParseOffer text) (Err e) ∈ tr)
  ∨ keys_refused keys tr.
Proof.
  intros [Hx|Hx]; [apply do_dial_panics in Hx|apply webrtc_panics in Hx]; naive_solver.
Qed.
End correctness.

(** ** Witness *)

Module Witness.
Import MultiaddrRef ErrorRef DataChannelRef ChannelRef CertificateRef TemplateRef WebRtcRef.

Definition some_keys : Keypair := [Byte.x01].
Definition real_address : Multiaddr :=
  [Ip4 (mk_v4 127 0 0 1); Udp 4001; XWebRTC (replicate 32 Byte.xf0)].

(** No certificate *)
Lemma handshake_panics_witness :
  fingerprint_of_first_certificate (E := Error) (mk_config []) = Panic
  ∨ (∃ text e, Obs (E := rtcE) (ParseAnswer text) (Err e) ∈ []
               ∨ Obs (E := rtcE) (ParseOffer text) (Err e) ∈ [])
  ∨ keys_refused some_keys [].
Proof. apply (handshake_panics (mk_config []) some_keys real_address). by left. Defined.
End Witness.
