(* ===== verification/Exchange.v ===== *)
(** * The exchange of fingerprints, both sides at once

    [exchange_fingerprints] of Handshake, the last phase of [do_dial] and of
    [webrtc], run by the two peers at the same time over the two directions of
    a Noise stream, which is an interface: what a write accepts, when a flush
    is done, whether a read fails are the library's. Each side writes, flushes
    and then waits for as many bytes as its own write accepted. *)

From S2P Require Import Prelude RustString Net Multiaddr Fingerprint Errors Channel.
From S2P Require Import Sdp DataChannel Prog WebRtc Connection Handshake.

#[local] Open Scope rust_scope.

(** ** The stream of [libp2p_noise] *)

(** One direction of it, with what can be told of it: the bytes accepted and
    not flushed, and those on their way and not read. [wire_read_exact] is
    [None] while it waits. *)
Class NoiseStreamApi := {
  Wire : Type;
  wire_new : Wire;
  unflushed : Wire → list byte;
  in_flight : Wire → list byte;
  wire_write : list byte → Wire → Wire * result io_error nat;
  wire_flush : Wire → Wire * result io_error ();
  wire_read_exact : nat → Wire → option (Wire * result io_error (list byte));
}.

(** A write accepts a part of its bytes, which come out in order, some of them
    maybe at once, and all after a flush; a read gives the bytes asked for, and
    does not wait when they are there. *)
Class NoiseStreamLaws `{NoiseStreamApi} : Prop := {
  wire_new_empty : in_flight wire_new = [] ∧ unflushed wire_new = [];
  wire_write_ok buf w w' n :
    wire_write buf w = (w', Ok n) →
    n ≤ length buf
    ∧ in_flight w' ++ unflushed w' = in_flight w ++ unflushed w ++ take n buf;
  wire_flush_ok w w' :
    wire_flush w = (w', Ok ()) →
    in_flight w' = in_flight w ++ unflushed w ∧ unflushed w' = [];
  wire_read_ok n w w' l :
    wire_read_exact n w = Some (w', Ok l) →
    length l = n ∧ in_flight w = l ++ in_flight w' ∧ unflushed w' = unflushed w;
  wire_read_waits n w : wire_read_exact n w = None → length (in_flight w) < n;
}.

(** ** Model *)

Section model.
Context `{MultiaddrApi, ErrorTypes, DataChannelApi, CertificateApi, !WebRTCApi,
          ChannelApi, TemplateApi, NoiseStreamApi}.

(** How the stream answers a side whose output goes to [out] and whose input
    comes from [inn] *)
Definition wire_event {X} (e : rtcE X) (out inn : Wire) : option (Wire * Wire * X) :=
  match e in rtcE X return option (Wire * Wire * X) with
  | NoiseWrite _ buf => let '(out, r) := wire_write buf out in Some (out, inn, r)
  | NoiseFlush _ => let '(out, r) := wire_flush out in Some (out, inn, r)
  | NoiseReadExact _ n =>
      match wire_read_exact n inn with
      | Some (inn, r) => Some (out, inn, r)
      | None => None
      end
  | _ => None
  end.

Definition side : Type := may rtcE Error ().

Definition side_step (p : side) (out inn : Wire) : option (side * Wire * Wire) :=
  match p with
  | Ret _ => None
  | Vis e k =>
      match wire_event e out inn with
      | Some (out, inn, x) => Some (k x, out, inn)
      | None => None
      end
  end.

Record Duplex := mk_duplex {
  left_side : side;
  right_side : side;
  to_right : Wire;
  to_left : Wire;
}.

Inductive duplex_step : Duplex → Duplex → Prop :=
| step_left l r tr tl l' tr' tl' :
    side_step l tr tl = Some (l', tr', tl') →
    duplex_step (mk_duplex l r tr tl) (mk_duplex l' r tr' tl')
| step_right l r tr tl r' tr' tl' :
    side_step r tl tr = Some (r', tl', tr') →
    duplex_step (mk_duplex l r tr tl) (mk_duplex l r' tr' tl').

(** Both sides at the start; what a side says of the fingerprint it got; the
    text of the first bytes of one *)
Definition meeting (io1 io2 : NoiseOutput) (s1 s2 e1 e2 : string) : Duplex :=
  mk_duplex (exchange_fingerprints io1 s1 e1) (exchange_fingerprints io2 s2 e2)
    wire_new wire_new.
Definition verdict (expected got : string) : outcome Error () :=
  if bool_decide (got ≠ expected) then Fail (InvalidFingerprint expected got) else Done ().
Definition first_bytes (n : nat) (s : string) : string := of_bytes (take n (into_bytes s)).

(** No call on the stream fails; its first write of [s] accepts [n] bytes. *)
Definition never_fails : Prop :=
  (∀ w, ∃ w', wire_flush w = (w', Ok ()))
  ∧ (∀ n w w' e, wire_read_exact n w ≠ Some (w', Err e)).
Definition accepts (s : string) (n : nat) : Prop :=
  ∃ w, wire_write (into_bytes s) wire_new = (w, Ok n).

(** ** The phases of a side *)

Definition to_read (io : NoiseOutput) (n : nat) (expected : string) : side :=
  let! buf := call_try IoError (NoiseReadExact io n) in
  let! got := pure_ (try_ (map_err (λ _, Noise AuthenticationFailed) (from_utf8 buf))) in
  if bool_decide (got ≠ expected) then throws (InvalidFingerprint expected got)
  else returns ().
Definition to_flush (io : NoiseOutput) (n : nat) (expected : string) : side :=
  let! _ := call_try IoError (NoiseFlush io) in to_read io n expected.

(** The side that sends [s], of which [n] bytes are accepted, and gets [got],
    after [i] events *)
Definition phase (io : NoiseOutput) (s expected : string) (n : nat) (got : string) (i : nat)
    : side :=
  match i with
  | 0 => exchange_fingerprints io s expected
  | 1 => to_flush io n expected
  | 2 => to_read io n expected
  | _ => Ret (verdict expected got)
  end.

(** The wire from a side that has [d] accepted, after [i] events, to one after
    [j] *)
Definition wire_at (d : list byte) (i j : nat) (w : Wire) : Prop :=
  let left := if Nat.ltb j 3 then d else [] in
  match i with
  | 0 => w = wire_new
  | 1 => in_flight w ++ unflushed w = left
  | _ => in_flight w = left ∧ unflushed w = []
  end.

(** Nobody has read before the other has written. *)
Definition possible (i j : nat) : Prop :=
  i ≤ 3 ∧ j ≤ 3 ∧ (i = 3 → 1 ≤ j) ∧ (j = 3 → 1 ≤ i).
End model.

(** * Lemmas *)

Lemma from_utf8_first n s :
  str_all is_ascii_char s → from_utf8 (take n (into_bytes s)) = Ok (first_bytes n s).
Proof.
  intros Hs. rewrite <-(into_of_bytes (take n (into_bytes s))). apply from_utf8_ascii.
  unfold first_bytes.
  revert n Hs. induction s as [|c s IH]; intros [|n] Hs; [done..|].
  rewrite into_bytes_cons. cbn in *. rewrite Ascii.ascii_of_byte_of_ascii.
  apply andb_True in Hs as [Hc Hs]. apply andb_True. split; [done|]. by apply IH.
Qed.

Lemma first_bytes_all n s : String.length s ≤ n → first_bytes n s = s.
Proof.
  intros Hn. unfold first_bytes. rewrite take_ge by by rewrite length_into_bytes.
  apply of_into_bytes.
Qed.

Section lemmas.
Context `{MultiaddrApi, ErrorTypes, DataChannelApi, CertificateApi, !WebRTCApi,
          ChannelApi, TemplateApi, NoiseStreamLaws}.
Context (Hnf : never_fails).

Lemma possible_sym i j : possible i j → possible j i.
Proof. unfold possible. tauto. Qed.

(** What each call does *)
Lemma flush_step io n e out inn p' out' inn' :
  side_step (to_flush io n e) out inn = Some (p', out', inn') →
  p' = to_read io n e ∧ inn' = inn
  ∧ in_flight out' = in_flight out ++ unflushed out ∧ unflushed out' = [].
Proof.
  cbn. destruct (proj1 Hnf out) as [w Hw]. rewrite Hw. intros [= <- <- <-].
  apply wire_flush_ok in Hw as [-> ->]. done.
Qed.

Lemma read_step io n e out inn p' out' inn' :
  side_step (to_read io n e) out inn = Some (p', out', inn') →
  ∃ l, length l = n ∧ in_flight inn = l ++ in_flight inn' ∧ unflushed inn' = unflushed inn
       ∧ out' = out
       ∧ p' = Ret (match from_utf8 l with
                   | Ok got => verdict e got | Err _ => Fail (Noise AuthenticationFailed) end).
Proof.
  cbn -[from_utf8]. destruct (wire_read_exact n inn) as [[w [l|err]]|] eqn:Hr; [| |done].
  - apply wire_read_ok in Hr as (Hl & Hi & Hu). intros [= <- <- <-].
    exists l. split_and!; [done..|]. cbn -[from_utf8]. unfold verdict.
    destruct (from_utf8 l); cbn; [|done]. by case_bool_decide.
  - by destruct (proj2 Hnf n inn w err).
Qed.

Section one_side.
Context (io : NoiseOutput) (s s' e : string) (n : nat).
Context (Hs' : str_all is_ascii_char s') (Hn : 0 < n) (Hacc : accepts s n)
  (Hlen : n ≤ String.length s').

#[local] Abbreviation d := (take n (into_bytes s)).
#[local] Abbreviation d' := (take n (into_bytes s')).

Lemma length_sent : length d' = n.
Proof using Hlen. clear Hn. rewrite length_take, length_into_bytes. lia. Qed.

(** A step takes a side to its next phase, and it reads what it should. *)
Lemma phase_step i j out inn p' out' inn' :
  possible i j → wire_at d i j out → wire_at d' j i inn →
  side_step (phase io s e n (first_bytes n s') i) out inn = Some (p', out', inn') →
  i < 3 ∧ possible (S i) j ∧ p' = phase io s e n (first_bytes n s') (S i)
  ∧ wire_at d (S i) j out' ∧ wire_at d' j (S i) inn'.
Proof using Type*.
  intros Hp Hout Hinn Hst. pose proof Hp as (Hi & Hj & Hij & Hji).
  destruct i as [|[|[|i]]]; cbn [phase] in Hst.
  - assert (j < 3) as Hj3 by lia. destruct Hacc as [w1 Hw1]. cbn in Hout. subst out.
    cbn in Hst. rewrite Hw1 in Hst. injection Hst as <- <- <-.
    apply wire_write_ok in Hw1 as [_ Hw1]. destruct wire_new_empty as [E1 E2].
    rewrite E1, E2 in Hw1. split_and!; [lia|unfold possible; lia|done| |by destruct j as [|[|]]].
    by destruct j as [|[|[|]]]; [..|lia].
  - apply flush_step in Hst as (-> & -> & Hf & Hu). cbn in Hout.
    split_and!; [lia|unfold possible; lia|done| |by destruct j as [|[|]]].
    cbn. by rewrite Hf, Hout, Hu.
  - apply read_step in Hst as (l & Hl & Hfl & Hu & -> & ->).
    assert (l = d' ∧ in_flight inn' = [] ∧ 1 ≤ j ∧ (1 < j → unflushed inn = [])
      ∧ unflushed inn = [] ) as (-> & Hi' & Hj1 & _ & Hun).
    { pose proof length_sent as Hd. destruct j as [|[|j]]; cbn in Hinn.
      - subst inn. destruct wire_new_empty as [E1 _]. rewrite E1 in Hfl.
        destruct l; cbn in *; [lia|done].
      - rewrite Hfl, <-app_assoc in Hinn.
        assert (in_flight inn' ++ unflushed inn = []) as Hnil.
        { apply (f_equal length) in Hinn as Hlen'. rewrite length_app, Hd, Hl in Hlen'.
          apply length_zero_iff_nil. lia. }
        apply app_nil in Hnil as [E1 E2]. rewrite E1, E2, !app_nil_r in Hinn.
        split_and!; by try lia.
      - destruct Hinn as [Hif Hun]. rewrite Hfl in Hif.
        assert (in_flight inn' = []) as E1.
        { apply (f_equal length) in Hif as Hlen'. rewrite length_app, Hd, Hl in Hlen'.
          apply length_zero_iff_nil. lia. }
        rewrite E1, app_nil_r in Hif. split_and!; by try lia. }
    rewrite (from_utf8_first n s' Hs').
    split_and!; [lia|unfold possible; lia|done|by destruct j as [|[|[|[|]]]]; try lia|].
    destruct j as [|[|j]]; [lia|..]; cbn; rewrite Hi', Hu, Hun; done.
  - cbn in Hst. by destruct i.
Qed.

(** A side only waits for the other to flush. *)
Lemma phase_goes_on i j out inn :
  possible i j → wire_at d i j out → wire_at d' j i inn →
  i < 2 ∨ i = 2 ∧ 2 ≤ j →
  is_Some (side_step (phase io s e n (first_bytes n s') i) out inn).
Proof using Type*.
  intros Hp Hout Hinn Hi. destruct i as [|[|[|i]]]; [..|lia]; cbn [phase].
  - cbn in Hout. subst out. destruct Hacc as [w1 Hw1]. cbn. by rewrite Hw1.
  - cbn. destruct (proj1 Hnf out) as [w ->]. done.
  - destruct j as [|[|j]]; [lia..|]. destruct Hinn as [Hif _]. cbn -[from_utf8] in *.
    destruct (wire_read_exact n inn) as [[]|] eqn:Hr; [done|].
    apply wire_read_waits in Hr. rewrite Hif, length_sent in Hr. lia.
Qed.
End one_side.
End lemmas.

(** ** Two sides whose writes accept the same number of bytes *)

Section pair.
Context `{MultiaddrApi, ErrorTypes, DataChannelApi, CertificateApi, !WebRTCApi,
          ChannelApi, TemplateApi, NoiseStreamLaws}.
Context (Hnf : never_fails) (io1 io2 : NoiseOutput) (s1 s2 e1 e2 : string) (n : nat).
Context (Ha1 : str_all is_ascii_char s1) (Ha2 : str_all is_ascii_char s2) (Hn : 0 < n)
  (Hacc1 : accepts s1 n) (Hacc2 : accepts s2 n).

Definition at_phases (i j : nat) (c : Duplex) : Prop :=
  left_side c = phase io1 s1 e1 n (first_bytes n s2) i
  ∧ right_side c = phase io2 s2 e2 n (first_bytes n s1) j
  ∧ wire_at (take n (into_bytes s1)) i j (to_right c)
  ∧ wire_at (take n (into_bytes s2)) j i (to_left c)
  ∧ possible i j.

Lemma accepted_fits s : accepts s n → n ≤ String.length s.
Proof.
  intros [w Hw]. apply wire_write_ok in Hw as [Hw _]. by rewrite length_into_bytes in Hw.
Qed.

Lemma at_phases_start : at_phases 0 0 (meeting io1 io2 s1 s2 e1 e2).
Proof using Hn. split_and!; [done..|unfold possible; lia]. Qed.

Lemma at_phases_step i j c c' :
  at_phases i j c → duplex_step c c' →
  ∃ i' j', at_phases i' j' c' ∧ i' + j' = S (i + j).
Proof using Type*.
  pose proof (accepted_fits _ Hacc1). pose proof (accepted_fits _ Hacc2).
  intros (Hl & Hr & Htr & Htl & Hp) Hst.
  destruct Hst as [l r tr tl l' tr' tl' Hst|l r tr tl r' tr' tl' Hst]; cbn in *; subst l r.
  - eapply phase_step in Hst as (Hi & Hp' & -> & Htr' & Htl'); [|done..].
    exists (S i), j. split; [by split_and!|lia].
  - eapply phase_step in Hst as (Hj & Hp' & -> & Htl' & Htr'); [|eauto using possible_sym..].
    exists i, (S j). split; [split_and!; [done..|by apply possible_sym]|lia].
Qed.

Lemma at_phases_goes_on i j c :
  at_phases i j c → i + j < 6 → ∃ c', duplex_step c c'.
Proof using Type*.
  pose proof (accepted_fits _ Hacc1). pose proof (accepted_fits _ Hacc2).
  destruct c as [l r tr tl]. intros (Hl & Hr & Htr & Htl & Hp) Hij. cbn in *. subst l r.
  assert ((i < 2 ∨ i = 2 ∧ 2 ≤ j) ∨ (j < 2 ∨ j = 2 ∧ 2 ≤ i)) as [Hg|Hg]
    by (unfold possible in Hp; lia).
  - destruct (phase_goes_on Hnf io1 s1 s2 e1 n Ha2 Hn Hacc1 ltac:(done) i j tr tl)
      as [[[? ?] ?] Hs]; [done..|]. eexists. by apply step_left.
  - destruct (phase_goes_on Hnf io2 s2 s1 e2 n Ha1 Hn Hacc2 ltac:(done) j i tl tr)
      as [[[? ?] ?] Hs]; [by eauto using possible_sym..|]. eexists. by apply step_right.
Qed.

Lemma at_phases_reach k i j c c' :
  at_phases i j c → nsteps duplex_step k c c' →
  ∃ i' j', at_phases i' j' c' ∧ i' + j' = k + i + j.
Proof using Type*.
  revert i j c. induction k as [|k IH]; intros i j c Hc Hk;
    inversion Hk as [|? ? y ? Hst Hr]; subst; [by exists i, j|].
  destruct (at_phases_step _ _ _ _ Hc Hst) as (i1 & j1 & Hc1 & Hs1).
  destruct (IH _ _ _ Hc1 Hr) as (i2 & j2 & Hc2 & Hs2).
  exists i2, j2. split; [done|lia].
Qed.
End pair.

(** ** A side whose write accepted more than the other's *)

Section starved.
Context `{MultiaddrApi, ErrorTypes, DataChannelApi, CertificateApi, !WebRTCApi,
          ChannelApi, TemplateApi, NoiseStreamLaws}.
Context (Hnf : never_fails) (io1 io2 : NoiseOutput) (s1 s2 e1 e2 : string) (n1 n2 : nat).
Context (Hacc1 : accepts s1 n1) (Hacc2 : accepts s2 n2) (Hn2 : 0 < n2) (Hlt : n2 < n1).

(** It has not read; the other side may have, and then it has ended. *)
Definition starved (c : Duplex) : Prop :=
  (left_side c = exchange_fingerprints io1 s1 e1 ∧ to_right c = wire_new
   ∨ left_side c = to_flush io1 n1 e1 ∨ left_side c = to_read io1 n1 e1)
  ∧ (right_side c = exchange_fingerprints io2 s2 e2 ∧ to_left c = wire_new
     ∨ (right_side c = to_flush io2 n2 e2 ∨ right_side c = to_read io2 n2 e2
        ∨ ∃ r, right_side c = Ret r)
       ∧ length (in_flight (to_left c) ++ unflushed (to_left c)) ≤ n2).

Lemma write_step io s n e inn p' out' inn' :
  accepts s n → side_step (exchange_fingerprints io s e) wire_new inn = Some (p', out', inn') →
  p' = to_flush io n e ∧ inn' = inn ∧ length (in_flight out' ++ unflushed out') ≤ n.
Proof using Type*.
  intros [w Hw]. cbn. rewrite Hw. intros [= <- <- <-].
  apply wire_write_ok in Hw as [_ ->]. destruct wire_new_empty as [-> ->].
  split_and!; [done..|]. cbn. rewrite length_take. lia.
Qed.

Lemma starved_step c c' : starved c → duplex_step c c' → starved c'.
Proof using Type*.
  destruct wire_new_empty as [Hnew _]. intros [Hl Hr] Hst.
  destruct Hst as [l r tr tl l' tr' tl' Hst|l r tr tl r' tr' tl' Hst];
    unfold starved in *; cbn [left_side right_side to_right to_left] in *.
  - destruct Hl as [[-> ->]|[->| ->]].
    + apply (write_step _ _ n1) in Hst as (-> & -> & _); [|done]. auto.
    + apply flush_step in Hst as (-> & -> & _); [|done]. auto.
    + apply read_step in Hst as (bs & Hlen & Hfl & _); [|done].
      apply (f_equal length) in Hfl. rewrite length_app in Hfl.
      destruct Hr as [[_ ->]|[_ Hr]]; [rewrite Hnew in Hfl; cbn in Hfl; lia|].
      rewrite length_app in Hr. lia.
  - destruct Hr as [[-> ->]|[[->|[->|[o ->]]] Hr]]; [..|done].
    + apply (write_step _ _ n2) in Hst as (-> & -> & Hlen); [|done]. auto 10.
    + apply flush_step in Hst as (-> & -> & Hf & Hu); [|done].
      split; [done|]. right. split; [auto|]. by rewrite Hf, Hu, app_nil_r.
    + apply read_step in Hst as (bs & Hlen & Hfl & Hu & -> & ->); [|done].
      split; [|right; by eauto 10]. destruct Hl as [[-> ->]|Hl]; [|auto].
      rewrite Hnew in Hfl. destruct bs; cbn in *; [lia|done].
Qed.

Lemma starved_never_ends k c r :
  nsteps duplex_step k (meeting io1 io2 s1 s2 e1 e2) c → left_side c ≠ Ret r.
Proof using Type*.
  intros Hk. assert (starved c) as [Hl _].
  { revert Hk. assert (starved (meeting io1 io2 s1 s2 e1 e2)) as Hs by by split; left.
    revert Hs. generalize (meeting io1 io2 s1 s2 e1 e2). intros d Hs Hk.
    induction Hk; eauto using starved_step. }
  destruct Hl as [[-> _]|[->| ->]]; done.
Qed.
End starved.

(** The sides can be named either way. *)
Definition swap `{MultiaddrApi, ErrorTypes, DataChannelApi, CertificateApi, !WebRTCApi,
    ChannelApi, TemplateApi, NoiseStreamApi} (c : Duplex) : Duplex :=
  mk_duplex (right_side c) (left_side c) (to_left c) (to_right c).

Lemma swap_steps `{MultiaddrApi, ErrorTypes, DataChannelApi, CertificateApi, !WebRTCApi,
    ChannelApi, TemplateApi, NoiseStreamApi} k c c' :
  nsteps duplex_step k c c' → nsteps duplex_step k (swap c) (swap c').
Proof.
  induction 1 as [|k c c1 c2 Hst _ IH]; [constructor|].
  econstructor; [|exact IH]. destruct Hst; by constructor.
Qed.

(** * Correctness *)

Section correctness.
Context `{MultiaddrApi, ErrorTypes, DataChannelApi, CertificateApi, !WebRTCApi,
          ChannelApi, TemplateApi, NoiseStreamLaws}.

(** C12: two sides exchange fingerprints over a stream of which no call fails
    and which delivers what it flushed; a write may accept a part of what it
    is given. When both writes accept the same number of bytes, the exchange
    takes six events, in whatever order these come: before that, one of the
    two sides can always go on, so neither waits for ever; after it, both have
    ended, each with success or the error for exactly those bytes of the
    other's fingerprint, which is all of it if all was accepted. When the
    writes accept different numbers, the side that accepted more never ends:
    it reads as much as it wrote. *)
Theorem exchange_always_completes io1 io2 f1 f2 e1 e2 n1 n2 k c :
  let s1 := fingerprint_to_string f1 in
  let s2 := fingerprint_to_string f2 in
  never_fails → accepts s1 n1 → accepts s2 n2 → 0 < n1 → 0 < n2 →
  nsteps duplex_step k (meeting io1 io2 s1 s2 e1 e2) c →
  (n1 = n2 →
     k ≤ 6 ∧ (k < 6 → ∃ c', duplex_step c c')
     ∧ (k = 6 → left_side c = Ret (verdict e1 (first_bytes n1 s2))
                ∧ right_side c = Ret (verdict e2 (first_bytes n1 s1))))
  ∧ (n2 < n1 → ∀ r, left_side c ≠ Ret r)
  ∧ (n1 < n2 → ∀ r, right_side c ≠ Ret r)
  ∧ (String.length s2 ≤ n1 → first_bytes n1 s2 = s2).
Proof.
  intros s1 s2 Hnf Hacc1 Hacc2 Hn1 Hn2 Hk.
  split; [|split_and!; [..|apply first_bytes_all]].
  - intros <-. pose proof (fingerprint_chars_ascii f1 : str_all is_ascii_char s1) as Ha1.
    pose proof (fingerprint_chars_ascii f2 : str_all is_ascii_char s2) as Ha2.
    pose proof (at_phases_start io1 io2 s1 s2 e1 e2 n1 Hn1) as Hstart.
    destruct (at_phases_reach Hnf io1 io2 s1 s2 e1 e2 n1 Ha1 Ha2 Hn1 Hacc1 Hacc2
      _ _ _ _ _ Hstart Hk) as (i & j & Hc & Hij).
    pose proof Hc as (Hl & Hr & _ & _ & Hp). unfold possible in Hp.
    split; [lia|]. split; [|intros ->].
    + intros. by apply (at_phases_goes_on Hnf io1 io2 s1 s2 e1 e2 n1 Ha1 Ha2 Hn1 Hacc1 Hacc2
        i j); [|lia].
    + assert (i = 3) as -> by lia. by assert (j = 3) as -> by lia.
  - intros Hlt r. by eapply (starved_never_ends Hnf io1 io2 s1 s2 e1 e2 n1 n2).
  - intros Hlt r. apply swap_steps in Hk.
    by eapply (starved_never_ends Hnf io2 io1 s2 s1 e2 e1 n2 n1) in Hk.
Qed.
End correctness.

(** ** A reference stream

    It accepts at most so many bytes at a time and keeps them until a flush. *)

Module StreamRef.
Record wire := mk_wire { buffered : list byte; delivered : list byte }.
Definition limit : nat := 100.

#[export] Instance api : NoiseStreamApi := {|
  Wire := wire;
  wire_new := mk_wire [] [];
  unflushed := buffered;
  in_flight := delivered;
  wire_write buf w :=
    (mk_wire (buffered w ++ take limit buf) (delivered w), Ok (length (take limit buf)));
  wire_flush w := (mk_wire [] (delivered w ++ buffered w), Ok ());
  wire_read_exact n w :=
    if Nat.leb n (length (delivered w)) then
      Some (mk_wire (buffered w) (drop n (delivered w)), Ok (take n (delivered w)))
    else None;
|}.

#[export] Instance laws : NoiseStreamLaws.
Proof.
  split; cbn -[limit].
  - done.
  - intros buf w w' n [= <- <-]. cbn -[limit]. rewrite length_take. split; [lia|].
    f_equal. f_equal. destruct (Nat.min_spec limit (length buf)) as [[_ ->]|[Hle ->]]; [done|].
    by rewrite !take_ge.
  - by intros w w' [= <-].
  - intros n w w' l. destruct (Nat.leb_spec n (length (delivered w))); [|done].
    intros [= <- <-]. cbn. rewrite length_take, take_drop. split_and!; [lia|done..].
  - intros n w. by destruct (Nat.leb_spec n (length (delivered w))).
Qed.

Lemma stream_never_fails : never_fails.
Proof.
  split; [by eexists|]. intros n w w' e. cbn. by destruct (Nat.leb _ _).
Qed.
End StreamRef.

(** ** Witness *)

Module Witness.
Import MultiaddrRef ErrorRef DataChannelRef ChannelRef CertificateRef TemplateRef WebRtcRef.
Import StreamRef.

(** The left side does all it can first; it expects another fingerprint. *)
Definition before : Duplex :=
  meeting 0 1 (fingerprint_to_string [Byte.x2a]) (fingerprint_to_string [Byte.xf0]) "0f" "2a".

Definition go (left : bool) (d : Duplex) : option Duplex :=
  let 'mk_duplex l r tr tl := d in
  if left then
    '(l, tr, tl) ← side_step l tr tl; Some (mk_duplex l r tr tl)
  else
    '(r, tl, tr) ← side_step r tl tr; Some (mk_duplex l r tr tl).

Lemma go_step b d d' : go b d = Some d' → duplex_step d d'.
Proof.
  destruct d as [l r tr tl], b; cbn -[side_step];
    [destruct (side_step l tr tl) as [[[??]?]|] eqn:E
    |destruct (side_step r tl tr) as [[[??]?]|] eqn:E]; intros Hg; cbn in Hg;
    simplify_eq; by constructor.
Qed.

Fixpoint go_all (l : list bool) (d : Duplex) : option Duplex :=
  match l with [] => Some d | b :: l => d' ← go b d; go_all l d' end.

Lemma go_all_steps l d d' : go_all l d = Some d' → nsteps duplex_step (length l) d d'.
Proof.
  revert d. induction l as [|b l IH]; intros d; cbn; [intros [= <-]; constructor|].
  destruct (go b d) as [d1|] eqn:Hg; [|done]. intros Hl.
  econstructor; [by eapply go_step|by apply IH].
Qed.

Definition order : list bool := [true; true; false; false; false; true].

Lemma exchange_always_completes_witness :
  ∃ d, go_all order before = Some d ∧ left_side d = Ret (Fail (InvalidFingerprint "0f" "f0"))
       ∧ right_side d = Ret (Done ()).
Proof.
  destruct (go_all order before) as [d|] eqn:Hd; [|discriminate Hd].
  exists d. split; [reflexivity|].
  destruct (exchange_always_completes _ _ [Byte.x2a] [Byte.xf0] "0f" "2a" 2 2 6 d
    stream_never_fails ltac:(eexists; reflexivity) ltac:(eexists; reflexivity)
    ltac:(lia) ltac:(lia) (go_all_steps order before d Hd)) as [Hend _].
  destruct (Hend eq_refl) as (_ & _ & He). destruct (He eq_refl) as [Hl Hr].
  rewrite Hl, Hr. split; reflexivity.
Defined.
End Witness.
