(* ===== verification/HandshakeErrors.v ===== *)
(** * How a connection establishment fails

    [do_dial] and [webrtc] of Handshake stop at the first call that fails, and
    the error they return is the one that call, or what it answered, is to
    blame for. *)

From S2P Require Import Prelude RustString Net Multiaddr Fingerprint Errors Channel.
From S2P Require Import Sdp DataChannel Prog WebRtc Connection Handshake.

#[local] Open Scope rust_scope.

(** ** Blame *)

Section blame.
Context `{MultiaddrApi, ErrorTypes, DataChannelApi, CertificateApi, !WebRTCApi}.

Definition err_of {A E} (conv : E → Error) (r : result E A) : option Error :=
  match r with Ok _ => None | Err e => Some (conv e) end.

(** The error a call's answer becomes; the answers that are unwrapped have
    none. *)
Definition failure (ev : obs rtcE) : option Error :=
  match ev with
  | Obs (DtlsRoleCheck _ _) r => err_of WebRTC r
  | Obs (NewPeerConnection _ _) r => err_of WebRTC r
  | Obs (CreateOffer _) r => err_of WebRTC r
  | Obs (CreateAnswer _) r => err_of WebRTC r
  | Obs (SetLocalDescription _ _) r => err_of WebRTC r
  | Obs (SetRemoteDescription _ _) r => err_of WebRTC r
  | Obs (CreateDataChannel _ _ _) r => err_of WebRTC r
  | Obs (SelectOpen _ _) s =>
      match s with
      | RxReady e => err_of (λ _, InternalError display_canceled) (rx_result e)
      | DelayElapsed => Some (InternalError
          "data channel opening took longer than 10 seconds (see logs)")
      end
  | Obs (NoiseUpgrade _ _ _ _) r =>
      match r with
      | Ok (IdentityKey _, _) => None
      | Ok (NoIdentityKey, _) => Some (Noise AuthenticationFailed)
      | Err e => Some (Noise e)
      end
  | Obs (NoiseWrite _ _) r => err_of IoError r
  | Obs (NoiseFlush _) r => err_of IoError r
  | Obs (NoiseReadExact _ _) r => err_of IoError r
  | _ => None
  end.

(** No call of the trace failed. *)
Definition clean (tr : list (obs rtcE)) : Prop := Forall (λ ev, failure ev = None) tr.

(** What the last event has to do with the error: its answer is the error; or
    it is the text read over Noise, which is not one, or not the fingerprint of
    the address, or is, and the peer is another, which a
    dial refuses; or the peer connection was made for an upgrade whose address
    does not end in a fingerprint. *)
Inductive blamed (addr : Multiaddr) : Direction → obs rtcE → Error → Prop :=
| blamed_answer dir ev e : failure ev = Some e → blamed addr dir ev e
| blamed_text dir io n b e :
    from_utf8 b = Err e →
    blamed addr dir (Obs (NoiseReadExact io n) (Ok b)) (Noise AuthenticationFailed)
| blamed_fingerprint dir io n b f got :
    from_utf8 b = Ok got → fingerprint_from_addr addr = Some f →
    got ≠ fingerprint_to_string f →
    blamed addr dir (Obs (NoiseReadExact io n) (Ok b))
      (InvalidFingerprint (fingerprint_to_string f) got)
| blamed_peer io n f peer :
    fingerprint_from_addr addr = Some f → try_from_multiaddr addr ≠ Some peer →
    blamed addr Outbound
      (Obs (NoiseReadExact io n) (Ok (into_bytes (fingerprint_to_string f))))
      (InvalidPeerID (try_from_multiaddr addr) peer)
| blamed_suffix se config pc :
    last_fingerprint addr = None →
    blamed addr Inbound (Obs (NewPeerConnection se config) (Ok pc)) (InvalidMultiaddr addr).

Definition fails_at (dir : Direction) (addr : Multiaddr) (tr : list (obs rtcE)) (e : Error) : Prop :=
  ∃ tr' ev, tr = tr' ++ [ev] ∧ clean tr' ∧ blamed addr dir ev e.
End blame.

(** * Lemmas *)

Section lemmas.
Context `{MultiaddrLaws, ErrorTypes, DataChannelApi, CertificateApi, !WebRTCApi,
          ChannelApi, TemplateLaws}.

Lemma fails_at_app dir addr tr1 tr2 e :
  clean tr1 → fails_at dir addr tr2 e → fails_at dir addr (tr1 ++ tr2) e.
Proof.
  intros Hc1 (tr' & ev & -> & Hc2 & Hb). exists (tr1 ++ tr'), ev.
  rewrite app_assoc. split; [done|]. split; [by apply Forall_app|done].
Qed.

Lemma fails_at_once dir addr ev e : blamed addr dir ev e → fails_at dir addr [ev] e.
Proof. intros. exists [], ev. split_and!; [done|constructor|done]. Qed.

(** A program whose completed executions are clean, and whose failed ones
    blame their last event *)
Definition careful {A} dir addr (p : may rtcE Error A) : Prop :=
  ∀ tr, (∀ a, exec p tr (Done a) → clean tr) ∧ (∀ e, exec p tr (Fail e) → fails_at dir addr tr e).

Lemma careful_bind {A B} dir addr (p : may rtcE Error A) (f : A → may rtcE Error B) :
  careful dir addr p → (∀ tr a, exec p tr (Done a) → careful dir addr (f a)) →
  careful dir addr (may_bind p f).
Proof.
  intros Hp Hf tr. split.
  - intros b (tr1 & tr2 & a & -> & Hx1 & Hx2)%exec_may_bind_Done. apply Forall_app.
    split; [by eapply Hp|by eapply Hf].
  - intros e [(tr1 & tr2 & a & -> & Hx1 & Hx2)|Hx1]%exec_may_bind_Fail; [|by apply Hp].
    apply fails_at_app; [by eapply Hp|by eapply Hf].
Qed.

Lemma careful_try {A Er'} dir addr (conv : Er' → Error) (e : rtcE (result Er' A)) :
  (∀ r, failure (Obs e r) = err_of conv r) → careful dir addr (call_try conv e).
Proof.
  intros He tr. split.
  - intros a [(x & -> & _)|(err & _ & [=])]%exec_call_try.
    apply Forall_singleton. by rewrite He.
  - intros e' [(x & _ & [=])|(err & -> & [= ->])]%exec_call_try.
    apply fails_at_once, blamed_answer. by rewrite He.
Qed.

Lemma careful_unwrap {A Er'} dir addr (e : rtcE (result Er' A)) :
  (∀ r, failure (Obs e r) = None) → careful dir addr (call_unwrap e).
Proof.
  intros He tr. split.
  - intros a [(x & -> & _)|(err & _ & [=])]%exec_call_unwrap. by apply Forall_singleton.
  - by intros e' [(x & _ & [=])|(err & _ & [=])]%exec_call_unwrap.
Qed.

Lemma careful_call {A} dir addr (e : rtcE A) :
  (∀ r, failure (Obs e r) = None) → careful dir addr (call e).
Proof.
  intros He tr. split.
  - intros a (x & -> & _)%exec_call. by apply Forall_singleton.
  - by intros e' (x & _ & [=])%exec_call.
Qed.

Lemma careful_pure {A} dir addr (o : outcome Error A) :
  (∀ e, o ≠ Fail e) → careful dir addr (pure_ o).
Proof.
  intros Ho tr. split; [intros a [-> _]%exec_pure; constructor|].
  intros e [_ Hx]%exec_pure. by destruct (Ho e).
Qed.

Lemma careful_returns {A} dir addr (a : A) : careful dir addr (returns a).
Proof. by apply (careful_pure dir addr (Done a)). Qed.

(** ** The parts of the handshakes *)

Lemma careful_select dir addr dc :
  careful dir addr (await_data_channel dc).
Proof.
  unfold await_data_channel, register_data_channel_open_handler.
  apply careful_bind; [by apply careful_call|]. intros _ [] _ tr.
  split.
  - intros d (tr1 & tr2 & s & -> & (x & -> & [= <-])%exec_call & Hx)%exec_may_bind_Done.
    destruct s as [ev|]; [destruct (rx_result ev) as [d'|] eqn:Hr|]; exec_step Hx.
    apply Forall_singleton. cbn. by rewrite Hr.
  - intros e [(tr1 & tr2 & s & -> & (x & -> & [= <-])%exec_call & Hx)
      |(x & _ & [=])%exec_call]%exec_may_bind_Fail.
    destruct s as [ev|]; [destruct (rx_result ev) as [d'|] eqn:Hr|];
      destruct Hx as [-> Hx]; try done; simplify_eq;
      apply fails_at_once, blamed_answer; cbn; by rewrite ?Hr.
Qed.

Lemma careful_noise dir addr d' keys d : careful dir addr (noise_handshake d' keys d).
Proof.
  unfold noise_handshake. apply careful_bind; [by apply careful_unwrap|]. intros _ ak _.
  apply careful_bind; [apply careful_pure; by destruct (head _)|]. intros _ info _ tr.
  split.
  - intros p (tr1 & tr2 & s & -> & Hc & Hx)%exec_may_bind_Done. apply exec_call_try in Hc
      as [(x & -> & [= <-])|(? & _ & [=])].
    destruct s as [[pk|] io]; exec_step Hx. by apply Forall_singleton.
  - intros e [(tr1 & tr2 & s & -> & Hc & Hx)|Hc]%exec_may_bind_Fail.
    + apply exec_call_try in Hc as [(x & -> & [= <-])|(? & _ & [=])].
      destruct s as [[pk|] io]; destruct Hx as [-> Hx]; simplify_eq.
      by apply fails_at_once, blamed_answer.
    + apply exec_call_try in Hc as [(x & _ & [=])|(err & -> & [= ->])].
      by apply fails_at_once, blamed_answer.
Qed.

Lemma careful_exchange dir addr io our f :
  fingerprint_from_addr addr = Some f →
  careful dir addr (exchange_fingerprints io our (fingerprint_to_string f)).
Proof.
  intros Hf tr. split.
  - intros [] [n ->]%exchange_fingerprints_Done. by repeat constructor.
  - intros e Hx. apply exchange_fingerprints_cases in Hx as
      [(e' & -> & [= ->])|[(n & e' & -> & [= ->])|[(n & e' & -> & [= ->])|(n & b & -> & Hx)]]].
    + by apply fails_at_once, blamed_answer.
    + apply (fails_at_app _ _ [_]); [by repeat constructor|].
      by apply fails_at_once, blamed_answer.
    + apply (fails_at_app _ _ [_; _]); [by repeat constructor|].
      by apply fails_at_once, blamed_answer.
    + apply (fails_at_app _ _ [_; _]); [by repeat constructor|]. apply fails_at_once.
      destruct (from_utf8 b) as [got|] eqn:Hb; [case_bool_decide|]; simplify_eq.
      * by apply blamed_fingerprint.
      * by eapply blamed_text.
Qed.

Lemma careful_connection dir addr pc : careful dir addr (Connection_new pc).
Proof.
  unfold Connection_new. apply careful_bind; [by apply careful_call|].
  intros _ [] _. apply careful_returns.
Qed.

(** A peer that is not the one of the address, after the exchange *)
Lemma careful_mismatch {A} addr io our f peer :
  fingerprint_from_addr addr = Some f → try_from_multiaddr addr ≠ Some peer →
  careful (A := A) Outbound addr (exchange_fingerprints io our (fingerprint_to_string f) ;;;
    throws (InvalidPeerID (try_from_multiaddr addr) peer)).
Proof.
  intros Hf Hp tr. split.
  - intros a Hx. exec_steps Hx.
  - intros e [(tr1 & tr2 & [] & -> & [n ->]%exchange_fingerprints_Done & [-> [= ->]])
      |Hx]%exec_may_bind_Fail; [|by eapply careful_exchange].
    rewrite app_nil_r. apply (fails_at_app _ _ [_; _]); [by repeat constructor|].
    by apply fails_at_once, blamed_peer.
Qed.

Ltac careful_step :=
  first
    [ apply careful_bind;
      [first [ by apply careful_try | by apply careful_unwrap
             | apply careful_select | apply careful_noise | by apply careful_exchange
             | apply careful_connection | apply careful_returns
             | apply careful_pure; by eauto using first_certificate_not_Fail ]
      |intros ???]
    | apply careful_returns ].

(** A dial of an address it does not refuse *)
Lemma do_dial_accepted config keys addr sa tr e :
  multiaddr_to_socketaddr addr = Some sa →
  (port sa =? 0)%Z || is_unspecified (ip sa) = false →
  exec (do_dial config keys addr) tr (Fail e) → fails_at Outbound addr tr e.
Proof.
  intros Ha Hr. unfold do_dial. rewrite Ha.
  destruct (accepted_fingerprint _ _ Ha) as [f Hf]. cbn [ok_or try_].
  intros [(tr1 & tr2 & s & -> & [-> [= ->]]%exec_pure & Hx)|[_ [=]]%exec_pure]
    %exec_may_bind_Fail. cbn [app]. rewrite Hr in Hx.
  match type of Hx with exec ?p _ _ => assert (careful Outbound addr p) as Hc; [clear Hx|by apply Hc] end.
  do 4 careful_step. rewrite Hf. apply careful_bind; [apply careful_returns|].
  intros ?? [-> [= ->]]%exec_returns. rewrite render_server by apply fingerprint_to_string_safe.
  do 6 careful_step. match goal with p : _ * _ |- _ => destruct p as [peer io] end.
  case_bool_decide; [by apply careful_mismatch|].
  repeat careful_step.
Qed.

Lemma do_dial_careful config keys addr tr e :
  exec (do_dial config keys addr) tr (Fail e) →
  (tr = [] ∧ e = InvalidMultiaddr addr) ∨ fails_at Outbound addr tr e.
Proof.
  intros Hx. destruct (multiaddr_to_socketaddr addr) as [sa|] eqn:Ha.
  - destruct ((port sa =? 0)%Z || is_unspecified (ip sa)) eqn:Hr;
      [left|right; by eapply do_dial_accepted].
    revert Hx. unfold do_dial. rewrite Ha. cbn [ok_or try_ pure_ may_bind mbind prog_bind prog_bind_].
    rewrite Hr. by intros [-> [= ->]].
  - left. revert Hx. unfold do_dial. rewrite Ha. by intros [-> [= ->]].
Qed.

(** An address that does not end in a fingerprint, after the peer connection
    was made *)
Lemma careful_refused {A} addr se config (k : RTCPeerConnection → string → may rtcE Error A) :
  last_fingerprint addr = None →
  careful Inbound addr (let! pc := call_try WebRTC (NewPeerConnection se config) in
                let! f := throws (InvalidMultiaddr addr) in k pc f).
Proof.
  intros Hf tr. split.
  - intros a Hx. exec_steps Hx.
  - intros e [(tr1 & tr2 & pc & -> & Hc & [-> [= ->]])|Hc]%exec_may_bind_Fail;
      apply exec_call_try in Hc as [(x & -> & [=])|(err & -> & [=])]; subst;
      apply fails_at_once; [by apply blamed_suffix|by apply blamed_answer].
Qed.

Lemma webrtc_careful config keys addr tr e :
  exec (webrtc config addr keys) tr (Fail e) →
  (tr = [] ∧ e = InvalidMultiaddr addr) ∨ fails_at Inbound addr tr e.
Proof.
  unfold webrtc. destruct (multiaddr_to_socketaddr addr) as [sa|] eqn:Ha;
    [|intros [? [= ->]]; by left].
  intros Hx. right. revert Hx. cbn [ok_or try_].
  match goal with |- exec ?p _ _ → _ => assert (careful Inbound addr p) as Hc; [|by apply Hc] end.
  apply careful_bind; [by apply careful_pure|]. intros ?? [-> [= ->]]%exec_pure.
  do 2 careful_step.
  destruct (last_fingerprint addr) as [f|] eqn:Hl; [|by apply careful_refused].
  pose proof (last_is_first_fingerprint _ _ _ Ha Hl) as Hf.
  careful_step. apply careful_bind; [apply careful_returns|].
  intros ?? [-> [= ->]]%exec_returns. rewrite render_client by apply fingerprint_to_string_safe.
  do 8 careful_step. match goal with p : _ * _ |- _ => destruct p as [peer io] end.
  repeat careful_step.
Qed.
End lemmas.

(** * Correctness *)

Section correctness.
Context `{MultiaddrLaws, ErrorTypes, DataChannelApi, CertificateApi, !WebRTCApi,
          ChannelApi, TemplateLaws}.

(** C11: a dial or an upgrade that fails has either refused the address before
    any call, or stopped at the first call that failed: every call before the
    last one succeeded, and the error is that of the last one, or what is wrong
    with the text it read, with the peer, or with the address. *)
Theorem failures_blame_last_call dir config keys addr tr e :
  exec (match dir with
        | Outbound => do_dial config keys addr
        | Inbound => webrtc config addr keys
        end) tr (Fail e) →
  (tr = [] ∧ e = InvalidMultiaddr addr)
  ∨ ∃ tr' ev, tr = tr' ++ [ev] ∧ clean tr' ∧ blamed addr dir ev e.
Proof. destruct dir; intros Hx; [by apply webrtc_careful in Hx|by apply do_dial_careful in Hx]. Qed.
End correctness.

(** ** Witness *)

Module Witness.
Import MultiaddrRef ErrorRef DataChannelRef ChannelRef CertificateRef TemplateRef WebRtcRef.

Definition config : RTCConfiguration := mk_config [replicate 32 Byte.x2a].
Definition keys : Keypair := [Byte.x01].
Definition address : Multiaddr :=
  [Ip4 (mk_v4 127 0 0 1); Udp 4001; XWebRTC (replicate 32 Byte.xf0)].
Definition engine : SettingEngine :=
  build_setting_engine (V4 (mk_v4 127 0 0 1) 4001)
    (fingerprint_to_string (replicate 32 Byte.x2a)).

(** The offer cannot be created. *)
Definition unavailable : WebRTCError := tt.
Definition no_offer : list (obs rtcE) :=
  [ Obs (NewPeerConnection engine config) (Ok 0); Obs (CreateOffer 0) (Err unavailable) ].

Lemma failures_blame_last_call_witness :
  ∃ tr' ev, no_offer = tr' ++ [ev] ∧ clean tr' ∧ blamed address Outbound ev (WebRTC unavailable).
Proof.
  destruct (failures_blame_last_call Outbound config keys address no_offer (WebRTC unavailable))
    as [[Hno _]|Hb]; [|discriminate Hno|exact Hb].
  eexists _, _. split; [reflexivity|]. eexists _, _. split; [reflexivity|].
  split; reflexivity.
Defined.
End Witness.
