(* ===== verification/HandshakeSpec.v ===== *)
(** * What a connection establishment guarantees

    The theorems about [do_dial] and [webrtc] of Handshake: which executions
    complete, what stops them, when they panic, and what two peers that
    complete one with each other have agreed on. *)

From S2P Require Import Prelude RustString Net Multiaddr Fingerprint Errors Channel.
From S2P Require Import Sdp DataChannel Prog WebRtc Connection Handshake.

#[local] Open Scope rust_scope.

(** ** What the stream under the Noise output does *)

Section stream.
Context `{MultiaddrApi, ErrorTypes, DataChannelApi, CertificateApi, !WebRTCApi}.

(** [AsyncReadExt::read_exact] fills the buffer or fails. *)
Definition filled (e : obs rtcE) : Prop :=
  match e with
  | Obs (NoiseReadExact _ n) r => match r with Ok b => length b = n | Err _ => True end
  | _ => True
  end.
Definition read_exact_fills (tr : list (obs rtcE)) : Prop := Forall filled tr.

(** The bytes a side took out of its stream *)
Definition was_read (e : obs rtcE) : list byte :=
  match e with
  | Obs (NoiseReadExact _ _) r => match r with Ok b => b | Err _ => [] end
  | _ => []
  end.
Definition all_read (tr : list (obs rtcE)) : list byte := concat (was_read <$> tr).

(** The bytes a side put into its stream: [write] accepts a prefix. *)
Definition written (e : obs rtcE) : list byte :=
  match e with
  | Obs (NoiseWrite _ buf) r =>
      match r with Ok n => take n buf | Err _ => [] end
  | _ => []
  end.
Definition all_written (tr : list (obs rtcE)) : list byte := concat (written <$> tr).

(** How many bytes each call of [write] accepted *)
Definition accepted (e : obs rtcE) : option nat :=
  match e with
  | Obs (NoiseWrite _ _) r => match r with Ok n => Some n | Err _ => None end
  | _ => None
  end.
Definition accepted_writes (tr : list (obs rtcE)) : list nat := omap accepted tr.

(** What one side reads is the beginning of what the other wrote: Noise
    encrypts and authenticates the stream. *)
Definition faithful_stream (reader writer : list (obs rtcE)) : Prop :=
  all_read reader `prefix_of` all_written writer.

(** ** Addresses and certificates *)

(** [Protocol::XWebRTC] holds 32 bytes. *)
Definition fingerprints_sized (addr : Multiaddr) : Prop :=
  ∀ f, XWebRTC f ∈ ma_iter addr → length f = 32.

(** The fingerprint of the certificate is a SHA-256 one: 32 digit pairs. *)
Definition sha256_certificate (config : RTCConfiguration) : Prop :=
  ∃ s, fingerprint_of_first_certificate (E := Error) config = Done s
       ∧ String.length s = 95.

(** The address names the certificate. *)
Definition names_certificate (addr : Multiaddr) (config : RTCConfiguration) : Prop :=
  ∃ f, fingerprint_from_addr addr = Some f
       ∧ fingerprint_of_first_certificate (E := Error) config
         = Done (fingerprint_to_string f).
End stream.

(** * Lemmas *)

Section lemmas.
Context `{MultiaddrLaws, ErrorTypes, DataChannelApi, CertificateApi, !WebRTCApi,
          ChannelApi, TemplateLaws}.

Lemma dial_trace_written config keys sa our f pc offer sdp dc d ak info pk io n :
  all_written (dial_trace config keys sa our f pc offer sdp dc d ak info pk io n)
  = take n (into_bytes our).
Proof. unfold all_written, dial_trace. cbn. by rewrite app_nil_r. Qed.

Lemma upgrade_trace_written config keys sa our f pc sdp ans dc d ak info pk io n :
  all_written (upgrade_trace config keys sa our f pc sdp ans dc d ak info pk io n)
  = take n (into_bytes our).
Proof. unfold all_written, upgrade_trace. cbn. by rewrite app_nil_r. Qed.

Lemma dial_trace_read config keys sa our f pc offer sdp dc d ak info pk io n :
  all_read (dial_trace config keys sa our f pc offer sdp dc d ak info pk io n)
  = into_bytes (fingerprint_to_string f).
Proof. unfold all_read, dial_trace. cbn. by rewrite app_nil_r. Qed.

Lemma upgrade_trace_read config keys sa our f pc sdp ans dc d ak info pk io n :
  all_read (upgrade_trace config keys sa our f pc sdp ans dc d ak info pk io n)
  = into_bytes (fingerprint_to_string f).
Proof. unfold all_read, upgrade_trace. cbn. by rewrite app_nil_r. Qed.

(** [read_exact] reads as much as [write] accepted. *)
Lemma dial_trace_filled config keys sa our f pc offer sdp dc d ak info pk io n :
  read_exact_fills (dial_trace config keys sa our f pc offer sdp dc d ak info pk io n) ↔
  String.length (fingerprint_to_string f) = n.
Proof.
  unfold read_exact_fills, dial_trace, open_trace, noise_trace, exchange_trace.
  rewrite <-length_into_bytes.
  repeat rewrite ?Forall_app, ?Forall_cons, ?Forall_nil. cbn. tauto.
Qed.

Lemma upgrade_trace_filled config keys sa our f pc sdp ans dc d ak info pk io n :
  read_exact_fills (upgrade_trace config keys sa our f pc sdp ans dc d ak info pk io n) ↔
  String.length (fingerprint_to_string f) = n.
Proof.
  unfold read_exact_fills, upgrade_trace, open_trace, noise_trace, exchange_trace.
  rewrite <-length_into_bytes.
  repeat rewrite ?Forall_app, ?Forall_cons, ?Forall_nil. cbn. tauto.
Qed.

(** A fingerprint found at the start of what a certificate's fingerprint of
    the same length wrote is that certificate's. *)
Lemma prefix_written_fingerprint f our n :
  into_bytes (fingerprint_to_string f) `prefix_of` take n (into_bytes our) →
  String.length our = String.length (fingerprint_to_string f) →
  our = fingerprint_to_string f.
Proof.
  intros Hp Hl. apply into_bytes_inj.
  assert (Hq : into_bytes (fingerprint_to_string f) `prefix_of` into_bytes our).
  { etrans; [done|]. apply prefix_take. }
  symmetry. apply prefix_length_eq; [done|]. rewrite !length_into_bytes. lia.
Qed.
Lemma fingerprint_from_addr_sized addr f :
  fingerprints_sized addr → fingerprint_from_addr addr = Some f →
  String.length (fingerprint_to_string f) = 95.
Proof.
  intros Hs Hf. assert (length f = 32) as Hl.
  { apply Hs. revert Hf. unfold fingerprint_from_addr.
    induction (ma_iter addr) as [|[] l IH]; cbn; intros; simplify_eq; auto using list_elem_of. }
  rewrite length_fingerprint_to_string by (by intros ->). lia.
Qed.

(** A side that completes has been told the fingerprint it expected. *)
Lemma faithful_names addr config f our n reader writer :
  faithful_stream reader writer →
  all_read reader = into_bytes (fingerprint_to_string f) →
  all_written writer = take n (into_bytes our) →
  fingerprint_of_first_certificate (E := Error) config = Done our →
  sha256_certificate config → fingerprints_sized addr →
  fingerprint_from_addr addr = Some f → names_certificate addr config.
Proof.
  intros Hs Hr Hw Hour (s & Hs' & Hl) Hsz Hf. rewrite Hour in Hs'. simplify_eq.
  exists f. split; [done|]. rewrite Hour. f_equal.
  unfold faithful_stream in Hs. rewrite Hr, Hw in Hs.
  eapply prefix_written_fingerprint; [done|].
  by rewrite (fingerprint_from_addr_sized _ _ Hsz Hf).
Qed.
End lemmas.

(** * Correctness *)

Section correctness.
Context `{MultiaddrLaws, ErrorTypes, DataChannelApi, CertificateApi, !WebRTCApi,
          ChannelApi, TemplateLaws}.

(** C1: a dial succeeds on exactly one kind of execution: the address is an
    accepted one with a real port and IP, the calls of [dial_trace] were made
    in that order and all answered, with the predefined answer rendered from
    the address, the fingerprint read over Noise is the one in the address
    and the peer id Noise authenticated is the one in the address. *)
Theorem dial_authenticates config keys addr tr peer conn :
  exec (do_dial config keys addr) tr (Done (peer, conn)) ↔
  ∃ sa our f pc offer sdp dc d ak info pk io n,
    multiaddr_to_socketaddr addr = Some sa
    ∧ port sa ≠ 0%Z ∧ is_unspecified (ip sa) = false
    ∧ fingerprint_of_first_certificate (E := Error) config = Done our
    ∧ fingerprint_from_addr addr = Some f
    ∧ head (protocol_info ak) = Some info
    ∧ peer = to_peer_id pk ∧ try_from_multiaddr addr = Some peer
    ∧ tr = dial_trace config keys sa our f pc offer sdp dc d ak info pk io n
    ∧ conn = mk_connection pc DataChannelsInner_new.
Proof.
  split; [apply do_dial_Done|]. intros. split_hyps. subst. by apply do_dial_completes.
Qed.

(** C2: likewise for the listening side: an upgrade succeeds exactly when the
    last component of the address is the fingerprint that is read over
    Noise, the calls being those of [upgrade_trace]. *)
Theorem upgrade_authenticates config keys addr tr peer conn :
  exec (webrtc config addr keys) tr (Done (peer, conn)) ↔
  ∃ sa our f pc sdp answer dc d ak info pk io n,
    multiaddr_to_socketaddr addr = Some sa
    ∧ fingerprint_of_first_certificate (E := Error) config = Done our
    ∧ last_fingerprint addr = Some f
    ∧ head (protocol_info ak) = Some info
    ∧ peer = to_peer_id pk
    ∧ tr = upgrade_trace config keys sa our f pc sdp answer dc d ak info pk io n
    ∧ conn = mk_connection pc DataChannelsInner_new.
Proof.
  split; [apply webrtc_Done|]. intros. split_hyps. subst. by apply webrtc_completes.
Qed.

(** C25: [noise_io.write] may accept a part of the fingerprint only, and the
    buffer for the remote one is made that long: no handshake completes then.
    Each side that completes wrote the whole length of a fingerprint in one
    call. *)
Theorem partial_write_never_completes config keys addr tr p :
  exec (do_dial config keys addr) tr (Done p)
    ∨ exec (webrtc config addr keys) tr (Done p) →
  read_exact_fills tr → fingerprints_sized addr → accepted_writes tr = [95].
Proof.
  destruct p as [peer conn]. intros [Hx|Hx] Hr Hs.
  - apply do_dial_Done in Hx. split_hyps. subst.
    apply dial_trace_filled in Hr as <-. unfold accepted_writes, dial_trace.
    by erewrite fingerprint_from_addr_sized.
  - apply webrtc_Done in Hx. split_hyps. subst.
    apply upgrade_trace_filled in Hr as <-. unfold accepted_writes, upgrade_trace.
    by erewrite fingerprint_from_addr_sized by eauto using last_is_first_fingerprint.
Qed.

(** An address of the wrong shape, or with port 0 or an unspecified IP, is
    refused before any call is made. *)
Theorem dial_refuses_address config keys addr tr r :
  (∀ sa, multiaddr_to_socketaddr addr = Some sa →
     port sa = 0%Z ∨ is_unspecified (ip sa) = true) →
  exec (do_dial config keys addr) tr r ↔ tr = [] ∧ r = Fail (InvalidMultiaddr addr).
Proof.
  intros Hbad. unfold do_dial.
  destruct (multiaddr_to_socketaddr addr) as [sa|]; [|done]. cbn.
  destruct (Hbad sa eq_refl) as [->| ->]; [done|]. by rewrite orb_true_r.
Qed.

(** The listening side takes the fingerprint from the last component, so
    an address with a [/p2p] suffix, although it has a socket address and a
    fingerprint, is refused, after the peer connection was made. *)
Theorem upgrade_refuses_suffix config keys addr sa our tr r :
  multiaddr_to_socketaddr addr = Some sa → length (ma_iter addr) ≠ 3 →
  fingerprint_of_first_certificate (E := Error) config = Done our →
  exec (webrtc config addr keys) tr r ↔
  let role := Obs (DtlsRoleCheck (build_setting_engine sa our ++ [SetLite true]) DTLSServer) in
  let new := Obs (NewPeerConnection (listener_engine sa our) config) in
  (∃ e, tr = [role (Err e)] ∧ r = Fail (WebRTC e))
  ∨ (∃ e, tr = [role (Ok ()); new (Err e)] ∧ r = Fail (WebRTC e))
  ∨ (∃ pc, tr = [role (Ok ()); new (Ok pc)] ∧ r = Fail (InvalidMultiaddr addr)).
Proof.
  intros Ha Hl Hour. cbn zeta. unfold webrtc, listener_engine.
  assert (last_fingerprint addr = None) as ->.
  { apply accepted_components in Ha as (i & p & f & hs & Hm & ->).
    rewrite (webrtc_components_last _ _ _ _ _ Hm). rewrite Hm in Hl. by destruct hs. }
  rewrite Ha, Hour. cbn [pure_ ok_or try_ may_bind]. split.
  - intros ([[]|e] & ? & -> & Hx); cbn in Hx; [|naive_solver].
    destruct Hx as ([pc|e] & ? & -> & Hx); naive_solver.
  - intros [(e & -> & ->)|[(e & -> & ->)|(pc & -> & ->)]]; cbn; rewrite <-?app_assoc;
      by repeat (eexists _, _; split; [done|]; cbn).
Qed.

(** C3: when a dialer and a listener complete a handshake with each other,
    over a stream that delivers to each side what the other wrote, each one's
    address names the certificate the other one holds: no third certificate
    is between them. *)
Theorem handshake_agreement cfg1 keys1 addr1 tr1 p1 cfg2 keys2 addr2 tr2 p2 :
  exec (do_dial cfg1 keys1 addr1) tr1 (Done p1) →
  exec (webrtc cfg2 addr2 keys2) tr2 (Done p2) →
  faithful_stream tr1 tr2 → faithful_stream tr2 tr1 →
  sha256_certificate cfg1 → sha256_certificate cfg2 →
  fingerprints_sized addr1 → fingerprints_sized addr2 →
  names_certificate addr1 cfg2 ∧ names_certificate addr2 cfg1.
Proof.
  destruct p1, p2. intros Hd Hl ?? Hc1 Hc2 ??.
  apply do_dial_Done in Hd. apply webrtc_Done in Hl. split_hyps. subst. split.
  - by eapply faithful_names; [|apply dial_trace_read|apply upgrade_trace_written|done..].
  - eapply faithful_names; [done|apply upgrade_trace_read|apply dial_trace_written|done..|].
    by eapply last_is_first_fingerprint.
Qed.
End correctness.

(** ** Witnesses *)

Module Witness.
Import MultiaddrRef ErrorRef DataChannelRef ChannelRef CertificateRef TemplateRef WebRtcRef.

(** A dialer and a listener on the loopback interface *)
Definition f_dialer : list byte := replicate 32 Byte.x2a.
Definition f_listener : list byte := replicate 32 Byte.xf0.
Definition dialer_config : RTCConfiguration := mk_config [f_dialer].
Definition listener_config : RTCConfiguration := mk_config [f_listener].
Definition dialer_keys : Keypair := [Byte.x01].
Definition listener_keys : Keypair := [Byte.x07].
Definition dialer_id : PeerId := [Byte.x01].
Definition listener_id : PeerId := [Byte.x07].
Definition the_connection : Connection := mk_connection 0 DataChannelsInner_new.
Definition sa : SocketAddr := V4 (mk_v4 127 0 0 1) 4001.
Definition listener_addr : Multiaddr :=
  [Ip4 (mk_v4 127 0 0 1); Udp 4001; XWebRTC f_listener; P2p [Byte.x07]].
Definition dialer_addr : Multiaddr := [Ip4 (mk_v4 127 0 0 1); Udp 4001; XWebRTC f_dialer].

Definition dialer_run : list (obs rtcE) :=
  dial_trace dialer_config dialer_keys sa
    (fingerprint_to_string f_dialer) f_listener
    0 "offer" "answer" 0 0%Z [Byte.x01] "/noise" [Byte.x07] 0 95.
Definition listener_run : list (obs rtcE) :=
  upgrade_trace listener_config listener_keys sa (fingerprint_to_string f_listener) f_dialer
    0 "offer" "answer" 0 0%Z [Byte.x07] "/noise" [Byte.x01] 0 95.

Lemma dial_authenticates_witness :
  exec (do_dial dialer_config dialer_keys listener_addr) dialer_run
    (Done (listener_id, the_connection)).
Proof.
  apply (proj2 (dial_authenticates dialer_config dialer_keys listener_addr dialer_run
    listener_id the_connection)).
  exists sa, (fingerprint_to_string f_dialer), f_listener.
  repeat eexists; reflexivity || discriminate.
Defined.

Lemma upgrade_authenticates_witness :
  exec (webrtc listener_config dialer_addr listener_keys) listener_run
    (Done (dialer_id, the_connection)).
Proof.
  apply (proj2 (upgrade_authenticates listener_config listener_keys dialer_addr listener_run
    dialer_id the_connection)).
  exists sa, (fingerprint_to_string f_listener), f_dialer.
  repeat eexists; reflexivity.
Defined.

Lemma sized_listener_addr : fingerprints_sized listener_addr.
Proof. intros f. unfold listener_addr. simpl. rewrite !elem_of_cons, elem_of_nil. naive_solver. Qed.

Lemma sized_dialer_addr : fingerprints_sized dialer_addr.
Proof. intros f. unfold dialer_addr. simpl. rewrite !elem_of_cons, elem_of_nil. naive_solver. Qed.

Lemma dialer_run_exec :
  exec (do_dial dialer_config dialer_keys listener_addr) dialer_run
    (Done (listener_id, the_connection)).
Proof. exact (do_dial_completes dialer_config dialer_keys listener_addr sa _ _ 0 _ _ 0 _ _
  _ listener_id 0 95 eq_refl ltac:(discriminate) eq_refl eq_refl eq_refl eq_refl eq_refl).
Qed.

Lemma listener_run_exec :
  exec (webrtc listener_config dialer_addr listener_keys) listener_run
    (Done (dialer_id, the_connection)).
Proof. exact (webrtc_completes listener_config listener_keys dialer_addr sa _ _ 0 _ _ 0 _ _
  _ dialer_id 0 95 eq_refl eq_refl eq_refl eq_refl).
Qed.

Lemma partial_write_never_completes_witness : accepted_writes dialer_run = [95].
Proof.
  apply (partial_write_never_completes dialer_config dialer_keys listener_addr dialer_run
    (listener_id, the_connection)).
  - left. apply dialer_run_exec.
  - apply dial_trace_filled. reflexivity.
  - apply sized_listener_addr.
Defined.

(** Port 0 *)
Lemma dial_refuses_address_witness :
  exec (do_dial dialer_config dialer_keys
          [Ip4 (mk_v4 127 0 0 1); Udp 0; XWebRTC f_listener]) []
    (Fail (InvalidMultiaddr [Ip4 (mk_v4 127 0 0 1); Udp 0; XWebRTC f_listener])).
Proof.
  refine (proj2 (dial_refuses_address dialer_config dialer_keys
    [Ip4 (mk_v4 127 0 0 1); Udp 0; XWebRTC f_listener] [] _ _) _); [|done].
  intros s Hs. left. by injection Hs as <-.
Defined.

(** The dialer's address with a [/p2p] suffix *)
Lemma upgrade_refuses_suffix_witness :
  exec (webrtc dialer_config listener_addr listener_keys)
    [ Obs (DtlsRoleCheck (build_setting_engine sa (fingerprint_to_string f_dialer)
             ++ [SetLite true]) DTLSServer) (Ok ());
      Obs (NewPeerConnection (listener_engine sa (fingerprint_to_string f_dialer))
             dialer_config) (Ok 0) ]
    (Fail (InvalidMultiaddr listener_addr)).
Proof.
  refine (proj2 (upgrade_refuses_suffix dialer_config listener_keys listener_addr sa
    (fingerprint_to_string f_dialer) _ _ _ _ _) _); [done..|]. right; right. by exists 0.
Defined.

Lemma handshake_agreement_witness :
  names_certificate listener_addr listener_config
  ∧ names_certificate dialer_addr dialer_config.
Proof.
  apply (handshake_agreement _ _ _ _ _ _ _ _ _ _ dialer_run_exec listener_run_exec).
  - by exists [].
  - by exists [].
  - by eexists.
  - by eexists.
  - apply sized_listener_addr.
  - apply sized_dialer_addr.
Defined.
End Witness.
