(* ===== verification/Listener.v ===== *)
(** * The transport and its listen stream

    [WebRTCDirectTransport] and [WebRTCListenStream] of [src/transport.rs]: the
    transport's constructor and its [Transport] methods, and the [poll_next]
    of the stream that reports listening addresses and incoming connections.
    The interface watcher ([if_watch]) and the timer ([futures_timer]) are
    interfaces. *)

From S2P Require Import Prelude RustString Net Multiaddr Fingerprint Errors Stun.
From S2P Require Import Channel Sdp DataChannel Prog UdpMux WebRtc Connection.
From S2P Require Import Handshake.

#[local] Open Scope rust_scope.

(** ** Interfaces *)

(** A watcher yields the events queued on it; [watch_arrive] is the operating
    system adding to them. *)
Class IfWatchApi := {
  IpNet : Type;
  inet_addr : IpNet → IpAddr;
  IfWatcher : Type;
  IfEvent : Type;
  if_up : IpNet → IfEvent;
  if_down : IpNet → IfEvent;
  (** matching on the two variants *)
  if_event_case : IfEvent → IpNet + IpNet;
  watch_events : IfWatcher → list (result io_error IfEvent);
  watch_poll : IfWatcher → IfWatcher * poll (result io_error IfEvent);
  watch_arrive : IfWatcher → list (result io_error IfEvent) → IfWatcher;
}.

Class IfWatchLaws `{IfWatchApi} : Prop := {
  if_up_case n : if_event_case (if_up n) = inl n;
  if_down_case n : if_event_case (if_down n) = inr n;
  if_case_up ev n : if_event_case ev = inl n → ev = if_up n;
  if_case_down ev n : if_event_case ev = inr n → ev = if_down n;
  watch_poll_events w w' p :
    watch_poll w = (w', p) →
    match p with
    | Ready ev => watch_events w = ev :: watch_events w'
    | Pending => watch_events w = [] ∧ watch_events w' = []
    end;
  watch_arrive_events w l : watch_events (watch_arrive w l) = watch_events w ++ l;
}.

(** A [Delay] made at a time (in milliseconds) for a duration, polled later *)
Class DelayApi := {
  Delay : Type;
  delay_new : Z → Z → Delay;
  delay_poll : Z → Delay → poll ();
}.
Class DelayLaws `{DelayApi} : Prop :=
  delay_poll_ready now start d :
    delay_poll now (delay_new start d) = Ready () ↔ (start + d ≤ now)%Z.

Section listener.
Context `{MultiaddrApi, ErrorTypes, DataChannelApi, CertificateApi, !WebRTCApi,
          ChannelApi, TemplateApi, IfWatchApi, DelayApi}.

(** ** State *)

Inductive IfWatch :=
| IfPending
| IfReady (watch : IfWatcher).

Inductive InAddr :=
| One (out : option Multiaddr)
| Any (if_watch : IfWatch).

(** [udp_mux] and [new_addr_rx] are shared with the multiplexer: the channel
    is an argument of the polls. *)
Record WebRTCListenStream := mk_listen {
  listen_addr : SocketAddr;
  in_addr : InAddr;
  sleep_on_error : Z;
  pause : option Delay;
  listen_config : RTCConfiguration;
  listen_keys : Keypair;
}.

Definition set_in_addr (i : InAddr) (me : WebRTCListenStream) : WebRTCListenStream :=
  mk_listen (listen_addr me) i (sleep_on_error me) (pause me) (listen_config me)
    (listen_keys me).
Definition set_pause (p : option Delay) (me : WebRTCListenStream) : WebRTCListenStream :=
  mk_listen (listen_addr me) (in_addr me) (sleep_on_error me) p (listen_config me)
    (listen_keys me).

Definition WebRTCListenStream_new (addr : SocketAddr) (config : RTCConfiguration)
    (keys : Keypair) : WebRTCListenStream :=
  let i :=
    if is_unspecified (ip addr) then Any IfPending
    else One (Some (ip_to_multiaddr (ip addr) (port addr))) in
  mk_listen addr i 100 None config keys.

(** ** Polling *)

Inductive ListenerEvent :=
| NewAddress (m : Multiaddr)
| AddressExpired (m : Multiaddr)
| ListenerError (e : Error)
| Upgrade (local remote : Multiaddr) (upgrade : may rtcE Error (PeerId * Connection)).

Definition ListenItem : Type := result Error ListenerEvent.

(** What a poll finds: the time, and the answer of the future of
    [IfWatcher::new()] when there is one *)
Record Env := mk_env { now : Z; if_new : poll (result io_error IfWatcher) }.

Definition same_family (a : SocketAddr) (i : IpAddr) : bool :=
  Bool.eqb (is_ipv4 a) (ip_is_ipv4 i) || Bool.eqb (is_ipv6 a) (ip_is_ipv6 i).

(** What one event of the watcher makes the stream report *)
Definition if_item (addr : SocketAddr) (ev : result io_error IfEvent)
    : option ListenerEvent :=
  match ev with
  | Ok ev =>
      match if_event_case ev with
      | inl inet =>
          if same_family addr (inet_addr inet)
          then Some (NewAddress (ip_to_multiaddr (inet_addr inet) (port addr))) else None
      | inr inet =>
          if same_family addr (inet_addr inet)
          then Some (AddressExpired (ip_to_multiaddr (inet_addr inet) (port addr)))
          else None
      end
  | Err err => Some (ListenerError (IoError err))
  end.

(** [while let Poll::Ready(ev) = watch.poll_unpin(cx)]: the first event to
    report, if any, and the watcher left *)
Fixpoint drain (fuel : nat) (addr : SocketAddr) (w : IfWatcher)
    : option (IfWatcher * option (result io_error IfEvent * ListenerEvent)) :=
  match fuel with
  | 0 => None
  | S fuel =>
      match watch_poll w with
      | (w, Pending) => Some (w, None)
      | (w, Ready ev) =>
          match if_item addr ev with
          | Some item => Some (w, Some (ev, item))
          | None => drain fuel addr w
          end
      end
  end.

Definition start_pause (env : Env) (me : WebRTCListenStream) : WebRTCListenStream :=
  set_pause (Some (delay_new (now env) (sleep_on_error me))) me.

(** After the match on [in_addr]: the pause, then the channel *)
Definition poll_upgrades (env : Env) (me : WebRTCListenStream) (rx : Chan Multiaddr)
    : WebRTCListenStream * Chan Multiaddr * poll (option ListenItem) :=
  let waiting :=
    match pause me with Some d => delay_poll (now env) d | None => Ready () end in
  match waiting with
  | Pending => (me, rx, Pending)
  | Ready _ =>
      let me := set_pause None me in
      match poll_next rx with
      | (rx, Ready (Some addr)) =>
          (me, rx, Ready (Some (Ok (Upgrade
             (ip_to_multiaddr (ip (listen_addr me)) (port (listen_addr me)))
             addr
             (webrtc (listen_config me) addr (listen_keys me))))))
      | (rx, Ready None) => (me, rx, Ready None)
      | (rx, Pending) => (me, rx, Pending)
      end
  end.

(** The [loop]; [None] is running out of fuel, of the loop or of the drain *)
Fixpoint poll_loop (fuel : nat) (env : Env) (me : WebRTCListenStream) (rx : Chan Multiaddr)
    : option (WebRTCListenStream * Chan Multiaddr * poll (option ListenItem)) :=
  match fuel with
  | 0 => None
  | S fuel =>
      match in_addr me with
      | Any IfPending =>
          match if_new env with
          | Pending => Some (me, rx, Pending)
          | Ready (Ok w) => poll_loop fuel env (set_in_addr (Any (IfReady w)) me) rx
          | Ready (Err err) =>
              Some (start_pause env (set_in_addr (Any IfPending) me), rx,
                    Ready (Some (Ok (ListenerError (IoError err)))))
          end
      | Any (IfReady w) =>
          match drain (S (length (watch_events w))) (listen_addr me) w with
          | None => None
          | Some (w, None) => Some (poll_upgrades env (set_in_addr (Any (IfReady w)) me) rx)
          | Some (w, Some (ev, item)) =>
              let me := set_in_addr (Any (IfReady w)) me in
              let me := if ev is Err _ then start_pause env me else me in
              Some (me, rx, Ready (Some (Ok item)))
          end
      | One (Some m) => Some (set_in_addr (One None) me, rx, Ready (Some (Ok (NewAddress m))))
      | One None => Some (poll_upgrades env me rx)
      end
  end.

(** One poll; two iterations are enough. *)
Definition listen_poll (env : Env) (me : WebRTCListenStream) (rx : Chan Multiaddr)
    : WebRTCListenStream * Chan Multiaddr * poll (option ListenItem) :=
  default (me, rx, Pending) (poll_loop 2 env me rx).
End listener.

#[global] Arguments listen_poll : simpl never.

(** ** The transport *)

(** [tokio::net::UdpSocket] *)
Class UdpSocketApi `{SocketApi} := {
  ToSocketAddrs : Type;
  udp_bind : ToSocketAddrs → result io_error Socket;
  udp_local_addr : Socket → result io_error SocketAddr;
}.

(** What the remaining methods call in [libp2p_core]: [StreamMuxerBox::new] and
    [address_translation] *)
Class CoreApi `{MultiaddrApi, ErrorTypes, DataChannelApi, CertificateApi, !WebRTCApi,
                ChannelApi} := {
  StreamMuxerBox : Type;
  stream_muxer_box : Connection → StreamMuxerBox;
  core_address_translation : Multiaddr → Multiaddr → option Multiaddr;
}.

(** The variant of [TransportError] the source names *)
Inductive TransportError (E : Type) := TransportOther (e : E).
Arguments TransportOther {E} e.

Section transport.
Context `{MultiaddrApi, ErrorTypes, DataChannelApi, CertificateApi, !WebRTCApi,
          ChannelApi, TemplateApi, IfWatchApi, DelayApi, UDPMuxConnApi, UdpSocketApi}.

(** [udp_mux] and [new_addr_rx] are in the [World] made along with it. *)
Record WebRTCDirectTransport := mk_transport {
  config : RTCConfiguration;
  udp_mux_addr : SocketAddr;
  id_keys : Keypair;
}.

Definition transport_new (certificate : RTCCertificate) (keys : Keypair)
    (addr : ToSocketAddrs) (h : ConnHeap)
    : result (TransportError Error) (WebRTCDirectTransport * World) :=
  socket ← map_err (λ e, TransportOther (IoError e)) (udp_bind addr);
  local ← map_err (λ e, TransportOther (IoError e)) (udp_local_addr socket);
  Ok (mk_transport (mk_config [certificate]) local keys,
      mux_new (UDPMuxParams_new socket) h (channel 1)).

Definition cert_fingerprint {E} (t : WebRTCDirectTransport) : outcome E string :=
  fingerprint_of_first_certificate (config t).

(** The address is ignored. *)
Definition listen_on (t : WebRTCDirectTransport) (_ : Multiaddr)
    : result (TransportError Error) WebRTCListenStream :=
  Ok (WebRTCListenStream_new (udp_mux_addr t) (config t) (id_keys t)).

Definition dial (t : WebRTCDirectTransport) (addr : Multiaddr)
    : result (TransportError Error) (may rtcE Error (PeerId * Connection)) :=
  Ok (do_dial (config t) (id_keys t) addr).

Definition dial_as_listener (t : WebRTCDirectTransport) (addr : Multiaddr)
    : result (TransportError Error) (may rtcE Error (PeerId * Connection)) :=
  dial t addr.

(** The closure [boxed] maps over the outputs of dials and upgrades *)
Definition boxed_output `{!CoreApi} (o : PeerId * Connection) : PeerId * StreamMuxerBox :=
  let '(peer_id, conn) := o in (peer_id, stream_muxer_box conn).

Definition address_translation `{!CoreApi} (_ : WebRTCDirectTransport)
    (server observed : Multiaddr) : option Multiaddr :=
  core_address_translation server observed.
End transport.

(** ** Reference instances *)

Module ListenerRef.
(** A watcher is the queue of its events; a network is its address. *)
#[export] Instance if_watch_api : IfWatchApi := {|
  IpNet := IpAddr;
  inet_addr n := n;
  IfWatcher := list (result io_error (IpAddr + IpAddr));
  IfEvent := IpAddr + IpAddr;
  if_up := inl;
  if_down := inr;
  if_event_case e := e;
  watch_events w := w;
  watch_poll w := match w with [] => ([], Pending) | ev :: w => (w, Ready ev) end;
  watch_arrive w l := w ++ l;
|}.
#[export] Instance if_watch_laws : IfWatchLaws.
Proof.
  split; try done; try by intros ? ? ->.
  intros [|ev w] w' p [= <- <-]; done.
Qed.

(** A delay is its deadline. *)
#[export] Instance delay_api : DelayApi := {|
  Delay := Z;
  delay_new start d := (start + d)%Z;
  delay_poll now d := if (d <=? now)%Z then Ready () else Pending;
|}.
#[export] Instance delay_laws : DelayLaws.
Proof. intros now start d. cbn. destruct (Z.leb_spec (start + d) now) as [Hl|Hl];
  split; [done..|intros [=]|]. intros ?%Z.lt_nge; done. Qed.

(** Binding gives a socket at the address asked for. *)
#[export] Instance udp_socket_api : UdpSocketApi (H := MuxRef.socket_api) := {|
  ToSocketAddrs := SocketAddr;
  udp_bind a := Ok (MuxRef.socket a);
  udp_local_addr s := Ok s.1;
|}.
End ListenerRef.
