(* ===== verification/ListenerSpec.v ===== *)
(** * What a listen stream reports

    The theorems about the [poll_next] of Listener, over histories of polls
    between which time passes, interface events arrive and the multiplexer
    reports addresses. *)

From S2P Require Import Prelude RustString Net Multiaddr Fingerprint Errors Stun.
From S2P Require Import Channel Sdp DataChannel Prog UdpMux WebRtc Connection.
From S2P Require Import Handshake Listener.

#[local] Open Scope rust_scope.

(** ** Histories *)

Section history.
Context `{MultiaddrApi, ErrorTypes, DataChannelApi, CertificateApi, !WebRTCApi,
          ChannelApi, TemplateApi, IfWatchApi, DelayApi}.

(** What happens before a poll, and what the poll finds *)
Record Turn := mk_turn {
  t_events : list (result io_error IfEvent);
  t_sent : list Multiaddr;
  t_env : Env;
}.

Definition arrive (l : list (result io_error IfEvent)) (me : WebRTCListenStream)
    : WebRTCListenStream :=
  match in_addr me with
  | Any (IfReady w) => set_in_addr (Any (IfReady (watch_arrive w l))) me
  | _ => me
  end.

(** The channel after the sends, and the messages it took *)
Fixpoint send_all (l : list Multiaddr) (c : Chan Multiaddr)
    : Chan Multiaddr * list Multiaddr :=
  match l with
  | [] => (c, [])
  | a :: l =>
      let '(c, r) := try_send c a in
      let '(c, taken) := send_all l c in
      (c, if r is Ok _ then a :: taken else taken)
  end.

(** The stream and the channel in the end, the answers of the polls and the
    addresses the channel took *)
Fixpoint listen_run (ts : list Turn) (me : WebRTCListenStream) (rx : Chan Multiaddr)
    : WebRTCListenStream * Chan Multiaddr * list (poll (option ListenItem))
      * list Multiaddr :=
  match ts with
  | [] => (me, rx, [], [])
  | t :: ts =>
      let '(rx, taken) := send_all (t_sent t) rx in
      let '(me, rx, out) := listen_poll (t_env t) (arrive (t_events t) me) rx in
      let '(me, rx, outs, taken') := listen_run ts me rx in
      (me, rx, out :: outs, taken ++ taken')
  end.

Definition event_of (out : poll (option ListenItem)) : option ListenerEvent :=
  match out with Ready (Some (Ok ev)) => Some ev | _ => None end.
Definition is_upgrade (ev : ListenerEvent) : bool :=
  match ev with Upgrade _ _ _ => true | _ => false end.

(** The upgrades among the answers, and everything else reported *)
Definition upgrades_of (outs : list (poll (option ListenItem))) : list ListenerEvent :=
  filter is_upgrade (omap event_of outs).
Definition reports_of (outs : list (poll (option ListenItem))) : list ListenerEvent :=
  filter (λ ev, negb (is_upgrade ev)) (omap event_of outs).

(** The upgrade a stream makes of an address *)
Definition upgrade_for (me : WebRTCListenStream) (remote : Multiaddr) : ListenerEvent :=
  Upgrade (ip_to_multiaddr (ip (listen_addr me)) (port (listen_addr me))) remote
    (webrtc (listen_config me) remote (listen_keys me)).

(** What happens to the interfaces: a network comes or goes, or watching them
    fails; as the watcher tells it; whether it concerns a stream listening at
    an address; and what the stream is to report of it *)
Inductive IfChange :=
| Came (n : IpNet)
| Went (n : IpNet)
| Failed (e : io_error).

Definition told (c : IfChange) : result io_error IfEvent :=
  match c with Came n => Ok (if_up n) | Went n => Ok (if_down n) | Failed e => Err e end.

Definition same_version (a : SocketAddr) (i : IpAddr) : bool :=
  match a, i with V4 _ _, IpV4 _ | V6 _ _ _ _, IpV6 _ => true | _, _ => false end.

Definition concerns (a : SocketAddr) (c : IfChange) : bool :=
  match c with Came n | Went n => same_version a (inet_addr n) | Failed _ => true end.

Definition reported (a : SocketAddr) (c : IfChange) (ev : ListenerEvent) : Prop :=
  match c, ev with
  | Came n, NewAddress m | Went n, AddressExpired m =>
      ma_iter m = [ip_into (inet_addr n); Udp (port a)]
  | Failed e, ListenerError err => err = IoError e
  | _, _ => False
  end.

(** The watcher a poll drains *)
Definition watcher_of (env : Env) (me : WebRTCListenStream) : option IfWatcher :=
  match in_addr me with
  | One _ => None
  | Any (IfReady w) => Some w
  | Any IfPending => match if_new env with Ready (Ok w) => Some w | _ => None end
  end.

(** What a poll waits for: a watcher, or the end of the pause *)
Definition waits (env : Env) (me : WebRTCListenStream) : Prop :=
  in_addr me = Any IfPending ∧ if_new env = Pending
  ∨ ∃ d, pause me = Some d ∧ delay_poll (now env) d = Pending.

(** The upgrades and the ends among the answers *)
Definition yielded (outs : list (poll (option ListenItem))) : list (option ListenerEvent) :=
  omap (λ out, match out with
               | Ready None => Some None
               | Ready (Some (Ok (Upgrade _ _ _ as ev))) => Some (Some ev)
               | _ => None
               end) outs.

(** A stream that nothing keeps from what is in the channel but events to
    report, and how many these are at most *)
Definition no_failure (ev : result io_error IfEvent) : Prop := ∃ e, ev = Ok e.
Definition calm (env : Env) (me : WebRTCListenStream) : Prop :=
  pause me = None
  ∧ (if in_addr me is One _ then True
     else ∃ w, watcher_of env me = Some w ∧ Forall no_failure (watch_events w)).
Definition backlog (env : Env) (me : WebRTCListenStream) : nat :=
  match in_addr me with
  | One (Some _) => 1
  | One None => 0
  | Any _ => if watcher_of env me is Some w then length (watch_events w) else 0
  end.

(** The ways one poll goes *)
Inductive poll_case (env : Env) (me : WebRTCListenStream) (rx : Chan Multiaddr) :
  WebRTCListenStream → Chan Multiaddr → poll (option ListenItem) → Prop :=
| case_no_watcher :
    in_addr me = Any IfPending → if_new env = Pending → poll_case env me rx me rx Pending
| case_watcher_failed err :
    in_addr me = Any IfPending → if_new env = Ready (Err err) →
    poll_case env me rx (start_pause env (set_in_addr (Any IfPending) me)) rx
      (Ready (Some (Ok (ListenerError (IoError err)))))
| case_one m :
    in_addr me = One (Some m) →
    poll_case env me rx (set_in_addr (One None) me) rx (Ready (Some (Ok (NewAddress m))))
| case_interface w w' skipped ev item :
    watcher_of env me = Some w →
    watch_events w = skipped ++ ev :: watch_events w' →
    Forall (λ ev, if_item (listen_addr me) ev = None) skipped →
    if_item (listen_addr me) ev = Some item →
    poll_case env me rx
      ((if ev is Err _ then start_pause env else id) (set_in_addr (Any (IfReady w')) me))
      rx (Ready (Some (Ok item)))
| case_upgrades_one me' rx' out :
    in_addr me = One None → poll_upgrades env me rx = (me', rx', out) →
    poll_case env me rx me' rx' out
| case_upgrades_any w w' me' rx' out :
    watcher_of env me = Some w →
    Forall (λ ev, if_item (listen_addr me) ev = None) (watch_events w) →
    watch_events w' = [] →
    poll_upgrades env (set_in_addr (Any (IfReady w')) me) rx = (me', rx', out) →
    poll_case env me rx me' rx' out.
End history.

(** * Lemmas *)

Section lemmas.
Context `{MultiaddrLaws, ErrorTypes, DataChannelApi, CertificateApi, !WebRTCApi,
          ChannelLaws, TemplateApi, IfWatchLaws, DelayLaws}.

Lemma drain_spec fuel addr w :
  length (watch_events w) < fuel →
  ∃ w' skipped, Forall (λ ev, if_item addr ev = None) skipped ∧
    ((drain fuel addr w = Some (w', None)
      ∧ watch_events w = skipped ∧ watch_events w' = [])
     ∨ ∃ ev item, drain fuel addr w = Some (w', Some (ev, item))
         ∧ watch_events w = skipped ++ ev :: watch_events w' ∧ if_item addr ev = Some item).
Proof.
  revert w. induction fuel as [|fuel IH]; intros w Hf; [lia|]. cbn.
  destruct (watch_poll w) as [w1 p] eqn:Hp. apply watch_poll_events in Hp.
  destruct p as [ev|]; last first.
  { destruct Hp. exists w1, []. auto. }
  destruct (if_item addr ev) as [item|] eqn:Hi.
  { exists w1, []. split; [done|]. right. by exists ev, item. }
  destruct (IH w1) as (w' & sk & Hsk & Hc). { rewrite Hp in Hf. cbn in Hf. lia. }
  exists w', (ev :: sk). split; [by constructor|]. rewrite Hp.
  destruct Hc as [(-> & <- & ?)|(ev' & item & -> & -> & ?)]; [by left|right].
  by exists ev', item.
Qed.

(** What an iteration does once there is a watcher *)
Lemma poll_loop_watch fuel env me rx w :
  watcher_of env me = Some w →
  ∃ me' rx' out,
    poll_loop (S fuel) env (set_in_addr (Any (IfReady w)) me) rx = Some (me', rx', out)
    ∧ poll_case env me rx me' rx' out.
Proof.
  intros Hw. cbn [poll_loop in_addr listen_addr set_in_addr].
  destruct (drain_spec (S (length (watch_events w))) (listen_addr me) w) as
    (w' & sk & Hsk & [(-> & <- & He)|(ev & item & -> & Hev & Hitem)]); [lia|..].
  - destruct (poll_upgrades env _ rx) as [[me' rx'] out] eqn:Hu.
    repeat eexists. by eapply case_upgrades_any.
  - repeat eexists.
    pose proof (case_interface env me rx w w' sk ev item Hw Hev Hsk Hitem) as Hc.
    by destruct ev.
Qed.

Lemma poll_loop_new fuel env me rx :
  in_addr me = Any IfPending →
  poll_loop (S fuel) env me rx =
    match if_new env with
    | Pending => Some (me, rx, Pending)
    | Ready (Ok w) => poll_loop fuel env (set_in_addr (Any (IfReady w)) me) rx
    | Ready (Err err) =>
        Some (start_pause env (set_in_addr (Any IfPending) me), rx,
              Ready (Some (Ok (ListenerError (IoError err)))))
    end.
Proof. intros Hi. cbn [poll_loop]. by rewrite Hi. Qed.

Lemma poll_loop_case fuel env me rx :
  2 ≤ fuel →
  ∃ me' rx' out, poll_loop fuel env me rx = Some (me', rx', out)
    ∧ poll_case env me rx me' rx' out.
Proof.
  destruct fuel as [|[|fuel]]; [lia..|]. intros _.
  destruct (in_addr me) as [[m|]|[|w]] eqn:Hi.
  - cbn. rewrite Hi. repeat eexists. by constructor.
  - cbn. rewrite Hi. destruct (poll_upgrades env me rx) as [[? ?] ?] eqn:Hu.
    repeat eexists. by apply case_upgrades_one.
  - rewrite poll_loop_new by done. destruct (if_new env) as [[w|err]|] eqn:Hn.
    + destruct (poll_loop_watch fuel env me rx w) as (? & ? & ? & Hl & Hc).
      { unfold watcher_of. by rewrite Hi, Hn. }
      rewrite Hl. by repeat eexists.
    + repeat eexists. by apply case_watcher_failed.
    + repeat eexists. by apply case_no_watcher.
  - destruct (poll_loop_watch (S fuel) env me rx w) as (? & ? & ? & Hl & Hc).
    { unfold watcher_of. by rewrite Hi. }
    replace (set_in_addr (Any (IfReady w)) me) with me in Hl
      by (destruct me; cbn in *; by subst).
    rewrite Hl. by repeat eexists.
Qed.

Lemma listen_poll_case env me rx me' rx' out :
  listen_poll env me rx = (me', rx', out) → poll_case env me rx me' rx' out.
Proof.
  unfold listen_poll. destruct (poll_loop_case 2 env me rx) as (? & ? & ? & -> & ?); [lia|].
  cbn. by intros [= <- <- <-].
Qed.

(** ** One poll *)

(** What never changes *)
Definition same_stream (me me' : WebRTCListenStream) : Prop :=
  listen_addr me' = listen_addr me ∧ sleep_on_error me' = sleep_on_error me
  ∧ listen_config me' = listen_config me ∧ listen_keys me' = listen_keys me.

#[local] Instance same_stream_preorder : PreOrder same_stream.
Proof.
  unfold same_stream. split; [done|]. intros ??? (?&?&?&?) (?&?&?&?). split_and!; congruence.
Qed.

(** A poll moves the front of the channel into an upgrade, or leaves it. *)
Definition upgrades_moved (me : WebRTCListenStream) (rx rx' : Chan Multiaddr)
    (outs : list (poll (option ListenItem))) (taken : list Multiaddr) : Prop :=
  chan_closed rx' = chan_closed rx
  ∧ (Ready None ∈ outs → chan_closed rx = true)
  ∧ ∃ remotes, upgrades_of outs = upgrade_for me <$> remotes
               ∧ remotes ++ chan_items rx' = chan_items rx ++ taken.

Lemma upgrades_moved_none me rx out :
  event_of out = None ∨ (∃ ev, event_of out = Some ev ∧ is_upgrade ev = false) →
  out ≠ Ready None → upgrades_moved me rx rx [out] [].
Proof.
  intros Hev Hout. split; [done|]. split; [by intros E%list_elem_of_singleton; try congruence|].
  exists []. rewrite app_nil_r. split; [|done]. unfold upgrades_of. cbn.
  destruct Hev as [->|(ev & -> & Hu)]; [done|].
  by destruct ev.
Qed.

Lemma poll_upgrades_moved env me rx me' rx' out :
  poll_upgrades env me rx = (me', rx', out) →
  same_stream me me' ∧ in_addr me' = in_addr me
  ∧ upgrades_moved me rx rx' [out] [] ∧ reports_of [out] = [].
Proof.
  unfold poll_upgrades.
  destruct (match pause me with Some _ => _ | None => _ end) as [[]|];
    [destruct (poll_next rx) as [rx1 p] eqn:Hp; apply poll_next_items in Hp as [Hc Hp];
     destruct p as [[m|]|]|]; intros [= <- <- <-].
  - split_and!; [done|done| |done]. split; [done|]. split.
    { by intros E%list_elem_of_singleton. }
    exists [m]. by rewrite Hp, app_nil_r.
  - destruct Hp as (Hi & Hi' & Hcl). split_and!; [done|done| |done].
    split; [done|]. split; [done|]. exists []. by rewrite Hi, Hi'.
  - destruct Hp as (Hi & Hi' & Hcl). split_and!; [done|done| |done].
    split; [done|]. split; [by intros E%list_elem_of_singleton; try congruence|].
    exists []. by rewrite Hi, Hi'.
  - split_and!; [done|done| |done]. apply upgrades_moved_none; [by left|done].
Qed.

Lemma if_item_not_upgrade addr ev item : if_item addr ev = Some item → is_upgrade item = false.
Proof.
  unfold if_item. intros. repeat case_match; by simplify_eq/=.
Qed.

Lemma poll_case_moved env me rx me' rx' out :
  poll_case env me rx me' rx' out →
  same_stream me me' ∧ upgrades_moved me rx rx' [out] [].
Proof.
  destruct 1 as [| | |w w' sk ev item ? ? ? Hi| |].
  - split; [done|]. apply upgrades_moved_none; [by left|done].
  - split; [done|]. apply upgrades_moved_none; [right; by eexists|done].
  - split; [done|]. apply upgrades_moved_none; [right; by eexists|done].
  - split; [by destruct ev|]. apply upgrades_moved_none; [|done].
    right. eexists. split; [done|]. by eapply if_item_not_upgrade.
  - by match goal with Hu : poll_upgrades _ _ _ = _ |- _ =>
      apply poll_upgrades_moved in Hu as (? & ? & ? & ?) end.
  - by match goal with Hu : poll_upgrades _ _ _ = _ |- _ =>
      apply poll_upgrades_moved in Hu as (? & ? & ? & ?) end.
Qed.

(** ** Histories *)

Lemma send_all_items l c c' taken :
  send_all l c = (c', taken) →
  chan_items c' = chan_items c ++ taken ∧ chan_closed c' = chan_closed c.
Proof.
  revert c c' taken. induction l as [|a l IH]; intros c c' taken; cbn.
  - intros [= <- <-]. by rewrite app_nil_r.
  - destruct (try_send c a) as [c1 r] eqn:Hs. apply try_send_items in Hs as [Hi Hc].
    destruct (send_all l c1) as [c2 tk] eqn:Hl. apply IH in Hl as [Hi2 Hc2].
    intros [= <- <-]. rewrite Hi2, Hi, Hc2, Hc. split; [|done].
    destruct r; by rewrite <-?app_assoc, ?app_nil_r.
Qed.

Lemma upgrade_for_same me me' : same_stream me me' → upgrade_for me' = upgrade_for me.
Proof. intros (Ha & _ & Hc & Hk). unfold upgrade_for. by rewrite Ha, Hc, Hk. Qed.

Lemma upgrades_of_cons out outs :
  upgrades_of (out :: outs) = upgrades_of [out] ++ upgrades_of outs.
Proof. unfold upgrades_of. change (out :: outs) with ([out] ++ outs). by rewrite omap_app, filter_app. Qed.

Lemma reports_of_cons out outs :
  reports_of (out :: outs) = reports_of [out] ++ reports_of outs.
Proof. unfold reports_of. change (out :: outs) with ([out] ++ outs). by rewrite omap_app, filter_app. Qed.

Lemma arrive_same l me : same_stream me (arrive l me).
Proof. unfold arrive. by destruct (in_addr me) as [|[]]. Qed.

Lemma listen_run_moved ts me rx me' rx' outs taken :
  listen_run ts me rx = (me', rx', outs, taken) →
  same_stream me me' ∧ upgrades_moved me rx rx' outs taken.
Proof.
  revert me rx me' rx' outs taken.
  induction ts as [|t ts IH]; intros me rx me' rx' outs taken; cbn.
  { intros [= <- <- <- <-]. split; [done|]. split; [done|]. split; [by intros ?%elem_of_nil|].
    exists []. by rewrite app_nil_r. }
  destruct (send_all (t_sent t) rx) as [rx1 tk] eqn:Hs. apply send_all_items in Hs as [Hi Hc].
  destruct (listen_poll _ _ rx1) as [[me2 rx2] out] eqn:Hl.
  destruct (listen_run ts me2 rx2) as [[[me3 rx3] outs'] tk'] eqn:Hr.
  intros [= <- <- <- <-].
  apply listen_poll_case, poll_case_moved in Hl as [Hm2 (Hc2 & Hn2 & rs & Hu & Hrs)].
  apply IH in Hr as [Hm3 (Hc3 & Hn3 & rs' & Hu' & Hrs')].
  assert (same_stream me me2) as Hm by by rewrite <-Hm2, <-arrive_same.
  split; [by rewrite Hm|]. split; [congruence|]. split.
  { intros [<-|?]%elem_of_cons; [rewrite <-Hc; apply Hn2; by constructor|].
    rewrite <-Hc, <-Hc2. by apply Hn3. }
  exists (rs ++ rs'). rewrite upgrades_of_cons, Hu, Hu', fmap_app.
  rewrite (upgrade_for_same _ _ Hm), (upgrade_for_same _ _ (arrive_same _ _)).
  split; [done|]. rewrite <-app_assoc, Hrs', !app_assoc, Hrs, app_nil_r, Hi. done.
Qed.

(** ** The end of the stream *)

Lemma send_all_closed l c : chan_closed c = true → (send_all l c).2 = [].
Proof.
  revert c. induction l as [|a l IH]; intros c Hc; [done|]. cbn.
  destruct (try_send_closed _ c a Hc) as [e He]. destruct (try_send c a) as [c1 r] eqn:Hs.
  apply try_send_items in Hs as [_ Hc1]. cbn in He. subst r. specialize (IH c1).
  destruct (send_all l c1). apply IH. congruence.
Qed.

Lemma yielded_cons out outs : yielded (out :: outs) = yielded [out] ++ yielded outs.
Proof. unfold yielded. change (out :: outs) with ([out] ++ outs). by rewrite omap_app. Qed.

Lemma yielded_end outs : None ∈ yielded outs → Ready None ∈ outs.
Proof.
  intros (out & Hin & Ho)%list_elem_of_omap. by repeat (case_match; simplify_eq/=).
Qed.

(** With a closed channel a poll waits, reports, or yields what is first in the
    channel, the end when nothing is. *)
Definition closed_case (env : Env) (me : WebRTCListenStream) (rx rx' : Chan Multiaddr)
    (out : poll (option ListenItem)) : Prop :=
  (chan_items rx' = chan_items rx ∧ yielded [out] = [] ∧ (out = Pending → waits env me))
  ∨ (yielded [out] = [upgrade_for me <$> head (chan_items rx)]
     ∧ chan_items rx' = tail (chan_items rx)).

Lemma poll_upgrades_closed env me rx me' rx' out :
  chan_closed rx = true → poll_upgrades env me rx = (me', rx', out) →
  closed_case env me rx rx' out
  ∧ (pause me = None → pause me' = None ∧ yielded [out] ≠ []).
Proof.
  unfold poll_upgrades, closed_case, waits. intros Hc.
  destruct (match pause me with Some d => delay_poll _ d | None => _ end) as [[]|] eqn:Hd.
  - destruct (poll_next rx) as [rx1 p] eqn:Hp. apply poll_next_items in Hp as [_ Hp].
    destruct p as [[m|]|]; [| |by destruct Hp as (_ & _ & ?); congruence];
      intros [= <- <- <-]; (split; [|done]); right.
    + by rewrite Hp.
    + by destruct Hp as (-> & -> & _).
  - intros [= <- <- <-]. destruct (pause me) as [d|]; [|done].
    split; [|done]. left. split_and!; [done..|]. intros _. right. by exists d.
Qed.

Lemma poll_case_closed env me rx me' rx' out :
  chan_closed rx = true → poll_case env me rx me' rx' out → closed_case env me rx rx' out.
Proof.
  intros Hc Hp. destruct Hp as
    [? ?|err ? _|m ?|w1 w' sk ev item Hw Hev Hsk Hit|me' rx' out ? Hu|w1 w' me' rx' out Hw Hsk He Hu].
  - left. split_and!; [done..|]. by left.
  - by left.
  - by left.
  - left. apply if_item_not_upgrade in Hit. by destruct item.
  - by apply poll_upgrades_closed in Hu as [? _].
  - apply poll_upgrades_closed in Hu as [[(? & ? & Hw')|?] _]; [left|by right|done].
    split_and!; [done..|]. intros [[? _]|?]%Hw'; [done|by right].
Qed.

Lemma listen_run_closed ts me rx me' rx' outs sent :
  chan_closed rx = true → listen_run ts me rx = (me', rx', outs, sent) →
  sent = [] ∧ chan_closed rx' = true
  ∧ ∀ i o, yielded outs !! i = Some o → o = upgrade_for me <$> (chan_items rx !! i).
Proof.
  revert me rx me' rx' outs sent.
  induction ts as [|t ts IH]; intros me rx me' rx' outs sent Hc; cbn.
  { intros [= <- <- <- <-]. by split_and!. }
  pose proof (send_all_closed (t_sent t) rx Hc) as Htk.
  destruct (send_all (t_sent t) rx) as [rx1 tk] eqn:Hs. cbn in Htk. subst tk.
  apply send_all_items in Hs as [Hi Hc1]. rewrite app_nil_r in Hi. rewrite Hc in Hc1.
  destruct (listen_poll _ _ rx1) as [[me2 rx2] out] eqn:Hl.
  destruct (listen_run ts me2 rx2) as [[[me3 rx3] outs'] tk'] eqn:Hr.
  intros [= <- <- <- <-]. apply listen_poll_case in Hl.
  destruct (poll_case_moved _ _ _ _ _ _ Hl) as [Hsame (Hc2 & _)].
  apply poll_case_closed in Hl; [|done]. rewrite Hc1 in Hc2.
  destruct (IH _ _ _ _ _ _ Hc2 Hr) as (-> & Hc3 & Hy). split_and!; [done..|].
  rewrite yielded_cons. rewrite (upgrade_for_same _ _ Hsame) in Hy.
  unfold closed_case in Hl. rewrite Hi in Hl.
  rewrite (upgrade_for_same _ _ (arrive_same _ _)) in Hl, Hy.
  destruct Hl as [(Hi2 & -> & _)|(-> & Hi2)]; rewrite Hi2 in Hy; [done|].
  intros [|i] o; [intros [= <-]|intros Ho; cbn in Ho; apply Hy in Ho];
    by destruct (chan_items rx).
Qed.

(** A stream that is calm stays so, and each poll yields or has less to
    report. *)
Lemma arrive_calm l env me :
  calm env me → Forall no_failure l →
  calm env (arrive l me) ∧ backlog env (arrive l me) ≤ backlog env me + length l.
Proof.
  unfold calm, backlog, arrive, watcher_of. intros [Hp Hw] Hl.
  destruct (in_addr me) as [[?|]|[|w]] eqn:Hi; cbn; rewrite ?Hi; split_and!; try done; try lia.
  - destruct Hw as (w' & [= ->] & Hw). exists (watch_arrive w' l). split; [done|].
    rewrite watch_arrive_events. by apply Forall_app.
  - rewrite watch_arrive_events, length_app. lia.
Qed.

Lemma poll_case_calm env env' me rx me' rx' out :
  chan_closed rx = true → calm env me → poll_case env me rx me' rx' out →
  calm env' me'
  ∧ (backlog env' me' < backlog env me ∨ yielded [out] ≠ [] ∧ backlog env' me' = 0).
Proof.
  unfold calm, backlog. intros Hc [Hp Hw] Hcase. destruct Hcase as
    [Hi Hn|err Hi Hn|m Hi|w1 w' sk ev item Hw1 Hev Hsk Hit|me' rx' out Hi Hu|w1 w' me' rx' out Hw1 Hsk He Hu].
  - rewrite Hi in Hw. destruct Hw as (w & Hw & _). unfold watcher_of in Hw.
    by rewrite Hi, Hn in Hw.
  - rewrite Hi in Hw. destruct Hw as (w & Hw & _). unfold watcher_of in Hw.
    by rewrite Hi, Hn in Hw.
  - rewrite Hi. cbn. split; [done|]. left. lia.
  - assert (∃ i, in_addr me = Any i) as [i Hi].
    { unfold watcher_of in Hw1. destruct (in_addr me); [done|by eexists]. }
    rewrite Hi in Hw |- *. rewrite Hw1 in Hw |- *. destruct Hw as (w & [= <-] & Hok).
    rewrite Hev in Hok |- *. apply Forall_app in Hok as [_ [[e ->] Hok]%Forall_cons].
    cbn. split; [split; [done|by eexists]|]. left. rewrite length_app. cbn. lia.
  - pose proof (poll_upgrades_moved _ _ _ _ _ _ Hu) as (_ & Hi' & _).
    apply poll_upgrades_closed in Hu as [_ Hu]; [|done]. destruct (Hu Hp) as [Hp' Hy].
    rewrite Hi', Hi. by split; [|right].
  - pose proof (poll_upgrades_moved _ _ _ _ _ _ Hu) as (_ & Hi' & _). cbn in Hi'.
    apply poll_upgrades_closed in Hu as [_ Hu]; [|done]. destruct (Hu Hp) as [Hp' Hy].
    unfold watcher_of. rewrite Hi'. split; [split; [done|]|right; by rewrite He].
    exists w'. by rewrite He.
Qed.

Definition first_env (ts : list Turn) (env : Env) : Env :=
  match ts with [] => env | t :: _ => t_env t end.

Lemma listen_run_calm env ts me rx me' rx' outs sent :
  chan_closed rx = true → calm (first_env ts env) me →
  Forall no_failure (concat (t_events <$> ts)) →
  listen_run ts me rx = (me', rx', outs, sent) →
  length ts ≤ backlog (first_env ts env) me + length (concat (t_events <$> ts))
              + length (yielded outs).
Proof.
  revert me rx me' rx' outs sent.
  induction ts as [|t ts IH]; intros me rx me' rx' outs sent Hc Hcalm Hev; cbn; [lia|].
  cbn in Hev, Hcalm. apply Forall_app in Hev as [Hev1 Hev2].
  destruct (send_all (t_sent t) rx) as [rx1 tk] eqn:Hs.
  apply send_all_items in Hs as [_ Hc1]. rewrite Hc in Hc1.
  destruct (listen_poll _ _ rx1) as [[me2 rx2] out] eqn:Hl.
  destruct (listen_run ts me2 rx2) as [[[me3 rx3] outs'] tk'] eqn:Hr.
  intros [= <- <- <- <-]. apply listen_poll_case in Hl.
  destruct (poll_case_moved _ _ _ _ _ _ Hl) as [_ (Hc2 & _)]. rewrite Hc1 in Hc2.
  destruct (arrive_calm (t_events t) _ _ Hcalm Hev1) as [Hcalm1 Hb1].
  destruct (poll_case_calm _ (first_env ts env) _ _ _ _ _ Hc1 Hcalm1 Hl) as [Hcalm2 Hb2].
  specialize (IH _ _ _ _ _ _ Hc2 Hcalm2 Hev2 Hr).
  rewrite yielded_cons, !length_app.
  destruct Hb2 as [?|[Hy ?]]; [lia|]. destruct (yielded [out]); [done|]. cbn. lia.
Qed.

(** ** Reports *)

Definition items_of (me : WebRTCListenStream) (l : list (result io_error IfEvent))
    : list ListenerEvent := omap (if_item (listen_addr me)) l.

Lemma items_of_same me me' : same_stream me me' → items_of me' = items_of me.
Proof. intros (Ha & _). unfold items_of. by rewrite Ha. Qed.

Lemma items_of_none me l :
  Forall (λ ev, if_item (listen_addr me) ev = None) l → items_of me l = [].
Proof. unfold items_of. by induction 1 as [|ev l Hev _ IH]; cbn; rewrite ?Hev. Qed.

(** Every event tells a change, and is reported as it should be. *)
Lemma told_surj (l : list (result io_error IfEvent)) : ∃ cs, l = told <$> cs.
Proof.
  induction l as [|ev l [cs ->]]; [by exists []|].
  destruct ev as [ev|e]; [|by exists (Failed e :: cs)].
  destruct (if_event_case ev) as [n|n] eqn:Hc.
  - apply if_case_up in Hc as ->. by exists (Came n :: cs).
  - apply if_case_down in Hc as ->. by exists (Went n :: cs).
Qed.

Lemma same_family_version a i : same_family a i = same_version a i.
Proof. by destruct a, i. Qed.

Lemma items_of_reported me cs :
  Forall2 (reported (listen_addr me)) (filter (concerns (listen_addr me)) cs)
    (items_of me (told <$> cs)).
Proof.
  induction cs as [|c cs IH]; [constructor|]. rewrite filter_cons, fmap_cons.
  unfold items_of in *. destruct c as [n|n|e]; cbn -[filter];
    rewrite ?if_up_case, ?if_down_case, ?same_family_version;
    try destruct (same_version _ _); cbn -[filter]; try done;
    (constructor; [|done]); try done; apply iter_ip_to_multiaddr.
Qed.

Lemma reports_of_item item : is_upgrade item = false → reports_of [Ready (Some (Ok item))] = [item].
Proof. by destruct item. Qed.

(** A stream with a watcher keeps it. Its reports are those of the events it
    takes, and it takes all of them unless it reports one. *)
Definition events_reported (me me' : WebRTCListenStream)
    (outs : list (poll (option ListenItem))) (evs : list (result io_error IfEvent)) : Prop :=
  ∃ w' taken, in_addr me' = Any (IfReady w')
    ∧ evs = taken ++ watch_events w'
    ∧ reports_of outs = items_of me taken
    ∧ (∀ out, last outs = Some out → reports_of [out] = [] → watch_events w' = []).

Lemma poll_case_reports env me rx me' rx' out w :
  in_addr me = Any (IfReady w) → poll_case env me rx me' rx' out →
  events_reported me me' [out] (watch_events w).
Proof.
  intros Hi Hp. destruct Hp as
    [? _|err ? _|m ?|w1 w' sk ev item Hw Hev Hsk Hit|me' rx' out ? _|w1 w' me' rx' out Hw Hsk He Hu];
    try congruence.
  - unfold watcher_of in Hw. rewrite Hi in Hw. simplify_eq. exists w', (sk ++ [ev]).
    assert (is_upgrade item = false) as Hnu by by eapply if_item_not_upgrade.
    split_and!; [by destruct ev|by rewrite Hev, <-app_assoc| |].
    + rewrite reports_of_item by done. apply items_of_none in Hsk. unfold items_of in *.
      rewrite omap_app, Hsk. cbn. by rewrite Hit.
    + intros out [= <-]. by rewrite reports_of_item.
  - unfold watcher_of in Hw. rewrite Hi in Hw. simplify_eq. exists w', (watch_events w1).
    apply poll_upgrades_moved in Hu as (_ & -> & _ & ->).
    split_and!; [done|by rewrite He, app_nil_r|by rewrite (items_of_none me _ Hsk)|done].
Qed.

Lemma listen_run_reports ts me rx me' rx' outs taken w :
  in_addr me = Any (IfReady w) →
  listen_run ts me rx = (me', rx', outs, taken) →
  ts ≠ [] →
  events_reported me me' outs (watch_events w ++ concat (t_events <$> ts)).
Proof.
  revert me rx me' rx' outs taken w.
  induction ts as [|t ts IH]; intros me rx me' rx' outs taken w Hi; cbn; [done|].
  destruct (send_all (t_sent t) rx) as [rx1 tk].
  destruct (listen_poll _ _ rx1) as [[me2 rx2] out] eqn:Hl.
  destruct (listen_run ts me2 rx2) as [[[me3 rx3] outs'] tk'] eqn:Hr.
  intros [= <- <- <- <-] _. apply listen_poll_case in Hl.
  destruct (poll_case_moved _ _ _ _ _ _ Hl) as [Hs _].
  apply (poll_case_reports _ _ _ _ _ _ (watch_arrive w (t_events t))) in Hl
    as (w2 & tk2 & Hi2 & He2 & Hr2 & Hq2); [|unfold arrive; by rewrite Hi].
  rewrite watch_arrive_events in He2.
  rewrite (items_of_same me (arrive _ _)) in Hr2 by apply arrive_same.
  destruct ts as [|u ts].
  { injection Hr as <- <- <- <-. exists w2, tk2. cbn. by rewrite app_nil_r. }
  destruct (IH _ _ _ _ _ _ _ Hi2 Hr ltac:(done)) as (w3 & tk3 & Hi3 & He3 & Hr3 & Hq3).
  rewrite (items_of_same me me2) in Hr3 by (by rewrite <-Hs, <-arrive_same).
  exists w3, (tk2 ++ tk3). split_and!; [done|..].
  - by rewrite app_assoc, He2, <-app_assoc, He3, app_assoc.
  - rewrite reports_of_cons, Hr2, Hr3. unfold items_of. by rewrite omap_app.
  - intros o. destruct outs' as [|o' outs']; [|rewrite last_cons_cons; apply Hq3].
    exfalso. clear -Hr. cbn in Hr. by repeat case_match.
Qed.

(** ** What is reported is the stream's own *)

Definition own_report (a : SocketAddr) (ev : ListenerEvent) : Prop :=
  match ev with
  | NewAddress m | AddressExpired m =>
      ∃ i, m = ip_to_multiaddr i (port a) ∧ ip_is_ipv4 i = is_ipv4 a
  | ListenerError e => ∃ err, e = IoError err
  | Upgrade local _ _ => local = ip_to_multiaddr (ip a) (port a)
  end.

(** The address of a stream on one interface is the one it listens on. *)
Definition in_addr_ok (me : WebRTCListenStream) : Prop :=
  ∀ m, in_addr me = One (Some m) →
    m = ip_to_multiaddr (ip (listen_addr me)) (port (listen_addr me)).

Lemma same_family_ipv4 a i : same_family a i = true → ip_is_ipv4 i = is_ipv4 a.
Proof. unfold same_family, is_ipv4, is_ipv6. by destruct (ip a), i. Qed.

Lemma if_item_own a ev item : if_item a ev = Some item → own_report a item.
Proof.
  unfold if_item. destruct ev as [ev|err]; [|intros [= <-]; by eexists].
  destruct (if_event_case ev) as [n|n]; destruct (same_family _ _) eqn:Hf; intros [= <-];
    eexists; eauto using same_family_ipv4.
Qed.

Lemma poll_upgrades_own env me rx me' rx' out ev :
  poll_upgrades env me rx = (me', rx', out) → event_of out = Some ev →
  own_report (listen_addr me) ev.
Proof.
  unfold poll_upgrades. intros Hp He. repeat case_match; by simplify_eq/=.
Qed.

Lemma poll_case_own env me rx me' rx' out :
  in_addr_ok me → poll_case env me rx me' rx' out →
  in_addr_ok me' ∧ ∀ ev, event_of out = Some ev → own_report (listen_addr me) ev.
Proof.
  intros Hok Hp. destruct Hp as
    [? _|err ? _|m Hm|w1 w' sk ev item Hw Hev Hsk Hit|me' rx' out Hi Hu|w1 w' me' rx' out Hw Hsk He Hu].
  - by split.
  - split; [done|]. intros ev [= <-]. by eexists.
  - split; [done|]. intros ev [= <-]. apply Hok in Hm as ->. by eexists.
  - split; [by destruct ev|]. intros ? [= <-]. by eapply if_item_own.
  - split; [|intros; by eapply poll_upgrades_own].
    apply poll_upgrades_moved in Hu as (_ & Hi' & _). intros m. by rewrite Hi', Hi.
  - split; [|intros; change (listen_addr me) with
      (listen_addr (set_in_addr (Any (IfReady w')) me)); by eapply poll_upgrades_own].
    apply poll_upgrades_moved in Hu as (_ & Hi' & _). intros m. by rewrite Hi'.
Qed.

Lemma arrive_ok l me : in_addr_ok me → in_addr_ok (arrive l me).
Proof. unfold in_addr_ok, arrive. by destruct (in_addr me) as [|[]] eqn:Hi; rewrite ?Hi. Qed.

Lemma listen_run_own ts me rx me' rx' outs taken :
  in_addr_ok me → listen_run ts me rx = (me', rx', outs, taken) →
  Forall (own_report (listen_addr me)) (omap event_of outs).
Proof.
  revert me rx me' rx' outs taken.
  induction ts as [|t ts IH]; intros me rx me' rx' outs taken Hok; cbn.
  { intros [= <- <- <- <-]. constructor. }
  destruct (send_all (t_sent t) rx) as [rx1 tk].
  destruct (listen_poll _ _ rx1) as [[me2 rx2] out] eqn:Hl.
  destruct (listen_run ts me2 rx2) as [[[me3 rx3] outs'] tk'] eqn:Hr.
  intros [= <- <- <- <-]. apply listen_poll_case in Hl.
  destruct (poll_case_moved _ _ _ _ _ _ Hl) as [[Ha2 _] _].
  destruct (arrive_same (t_events t) me) as [Ha1 _].
  destruct (poll_case_own _ _ _ _ _ _ (arrive_ok _ _ Hok) Hl) as [Hok2 Hown].
  apply IH in Hr; [|done]. rewrite Ha2 in Hr. rewrite Ha1 in *. cbn.
  destruct (event_of out) as [ev|]; [|done]. constructor; auto.
Qed.

(** ** One interface *)

Lemma poll_one_none env me rx me' rx' out :
  in_addr me = One None → poll_case env me rx me' rx' out →
  in_addr me' = One None ∧ reports_of [out] = [].
Proof.
  intros Hi. destruct 1; unfold watcher_of in *; rewrite ?Hi in *; try congruence.
  match goal with Hu : poll_upgrades _ _ _ = _ |- _ =>
    apply poll_upgrades_moved in Hu as (_ & -> & _ & ->) end. done.
Qed.

Lemma listen_run_one_none ts me rx me' rx' outs taken :
  in_addr me = One None → listen_run ts me rx = (me', rx', outs, taken) →
  reports_of outs = [].
Proof.
  revert me rx me' rx' outs taken.
  induction ts as [|t ts IH]; intros me rx me' rx' outs taken Hi; cbn.
  { by intros [= <- <- <- <-]. }
  destruct (send_all (t_sent t) rx) as [rx1 tk].
  destruct (listen_poll _ _ rx1) as [[me2 rx2] out] eqn:Hl.
  destruct (listen_run ts me2 rx2) as [[[me3 rx3] outs'] tk'] eqn:Hr.
  intros [= <- <- <- <-]. unfold arrive in Hl. rewrite Hi in Hl.
  apply listen_poll_case, poll_one_none in Hl as [Hi2 Hrep]; [|done].
  by rewrite reports_of_cons, Hrep, (IH _ _ _ _ _ _ Hi2 Hr).
Qed.

(** ** Fuel *)

Lemma poll_loop_ready fuel fuel' env me rx :
  in_addr me ≠ Any IfPending →
  poll_loop (S fuel) env me rx = poll_loop (S fuel') env me rx.
Proof. intros Hi. cbn [poll_loop]. by destruct (in_addr me) as [|[]]. Qed.

Lemma poll_loop_fuel fuel env me rx :
  2 ≤ fuel → poll_loop fuel env me rx = poll_loop 2 env me rx.
Proof.
  destruct fuel as [|[|fuel]]; [lia..|]. intros _.
  destruct (in_addr me) as [o|[|w]] eqn:Hi; [by apply poll_loop_ready; rewrite Hi| |
    by apply poll_loop_ready; rewrite Hi].
  rewrite !poll_loop_new by done. destruct (if_new env) as [[w|]|]; [|done..].
  by apply poll_loop_ready.
Qed.

(** ** Pauses *)

(** The pause began at [t] or later. *)
Definition paused_since (t : Z) (me : WebRTCListenStream) : Prop :=
  ∃ s, pause me = Some (delay_new s (sleep_on_error me)) ∧ (t ≤ s)%Z.

Lemma poll_upgrades_paused t env me rx me' rx' out :
  paused_since t me → (now env < t + sleep_on_error me)%Z →
  poll_upgrades env me rx = (me', rx', out) → me' = me ∧ rx' = rx ∧ out = Pending.
Proof.
  intros (s & Hp & Hs) Hnow. unfold poll_upgrades. rewrite Hp.
  destruct (delay_poll (now env) _) as [[]|] eqn:Hd; [|naive_solver].
  apply delay_poll_ready in Hd. lia.
Qed.

Lemma start_pause_paused t env me : (t ≤ now env)%Z → paused_since t (start_pause env me).
Proof. intros. by exists (now env). Qed.

Lemma poll_case_paused t env me rx me' rx' out :
  paused_since t me → (t ≤ now env < t + sleep_on_error me)%Z →
  poll_case env me rx me' rx' out →
  paused_since t me' ∧ rx' = rx ∧ upgrades_of [out] = [] ∧ out ≠ Ready None.
Proof.
  intros Hp [Hge Hlt] Hc. destruct Hc as
    [? _|err ? _|m Hm|w1 w' sk ev item Hw Hev Hsk Hit|me' rx' out Hi Hu|w1 w' me' rx' out Hw Hsk He Hu].
  - done.
  - split_and!; [by apply start_pause_paused|done..].
  - done.
  - split_and!; [|done| |done].
    + destruct ev; [done|by apply start_pause_paused].
    + apply if_item_not_upgrade in Hit. by destruct item.
  - by eapply poll_upgrades_paused in Hu as (-> & -> & ->).
  - by eapply poll_upgrades_paused in Hu as (-> & -> & ->).
Qed.

Lemma arrive_paused t l me : paused_since t me → paused_since t (arrive l me).
Proof. unfold arrive. by destruct (in_addr me) as [|[]]. Qed.

Lemma listen_run_paused t ts me rx me' rx' outs taken :
  paused_since t me →
  Forall (λ u, (t ≤ now (t_env u) < t + sleep_on_error me)%Z) ts →
  listen_run ts me rx = (me', rx', outs, taken) →
  upgrades_of outs = [] ∧ Ready None ∉ outs.
Proof.
  revert me rx me' rx' outs taken.
  induction ts as [|u ts IH]; intros me rx me' rx' outs taken Hp Hts; cbn.
  { intros [= <- <- <- <-]. split; [done|apply not_elem_of_nil]. }
  apply Forall_cons in Hts as [Hu Hts].
  destruct (send_all (t_sent u) rx) as [rx1 tk].
  destruct (listen_poll _ _ rx1) as [[me2 rx2] out] eqn:Hl.
  destruct (listen_run ts me2 rx2) as [[[me3 rx3] outs'] tk'] eqn:Hr.
  intros [= <- <- <- <-]. apply listen_poll_case in Hl.
  destruct (poll_case_moved _ _ _ _ _ _ Hl) as [(_ & Hs2 & _) _].
  destruct (arrive_same (t_events u) me) as (_ & Hs1 & _).
  rewrite Hs1 in Hs2.
  apply (poll_case_paused t) in Hl as (Hp2 & _ & Hout & Hne);
    [|by apply arrive_paused|by rewrite Hs1].
  destruct (IH _ _ _ _ _ _ Hp2 ltac:(by rewrite Hs2) Hr) as [Hups Hend].
  rewrite upgrades_of_cons, Hout. split; [done|]. rewrite not_elem_of_cons. auto.
Qed.
End lemmas.

(** * Correctness *)

Section correctness.
Context `{MultiaddrLaws, ErrorTypes, DataChannelApi, CertificateApi, !WebRTCApi,
          ChannelLaws, TemplateApi, IfWatchLaws, DelayLaws}.

(** C18: [poll_next] returns: its loop turns at most twice and its inner loop
    as often as there are events queued, whatever the state it starts in; it
    goes in one of six ways. *)
Theorem listen_poll_terminates fuel env me rx :
  2 ≤ fuel →
  ∃ me' rx' out, poll_loop fuel env me rx = Some (me', rx', out)
    ∧ listen_poll env me rx = (me', rx', out) ∧ poll_case env me rx me' rx' out.
Proof.
  intros Hf. rewrite poll_loop_fuel by done. unfold listen_poll.
  destruct (poll_loop_case 2 env me rx) as (me' & rx' & out & -> & Hc); [lia|].
  by exists me', rx', out.
Qed.

(** C17: every address the multiplexer reported becomes one upgrade, in order,
    and none is made up: over any history the upgrades, followed by what is
    still in the channel, are what was in it, followed by what it took. Each
    is the [upgrade::webrtc] of its address with the stream's configuration.
    The stream ends only when the channel is closed. *)
Theorem upgrades_in_order ts me rx me' rx' outs taken :
  listen_run ts me rx = (me', rx', outs, taken) →
  (∃ remotes, upgrades_of outs = upgrade_for me <$> remotes
              ∧ remotes ++ chan_items rx' = chan_items rx ++ taken)
  ∧ (Ready None ∈ outs → chan_closed rx = true).
Proof. intros (_ & _ & Hn & Hm)%listen_run_moved. by split. Qed.

(** C22: a stream that has its watcher reports, over any history, what happens
    to the interfaces, in order, once each and nothing else: a network that
    comes or goes, when its IP has the version of the listen address, as that
    IP with the listen port, new or expired; a failure as itself. What it has
    not taken is still queued, and after a poll with no report nothing is. *)
Theorem interface_events_in_order t ts me rx me' rx' outs sent w :
  in_addr me = Any (IfReady w) →
  listen_run (t :: ts) me rx = (me', rx', outs, sent) →
  ∃ w' changes,
    in_addr me' = Any (IfReady w')
    ∧ watch_events w ++ concat (t_events <$> t :: ts) = (told <$> changes) ++ watch_events w'
    ∧ Forall2 (reported (listen_addr me)) (filter (concerns (listen_addr me)) changes)
        (reports_of outs)
    ∧ (∀ out, last outs = Some out → reports_of [out] = [] → watch_events w' = []).
Proof.
  intros Hi Hr. eapply listen_run_reports in Hr as (w' & tk & Hi' & He & Hrep & Hq); [|done..].
  destruct (told_surj tk) as [cs ->]. exists w', cs. split_and!; [done..| |done].
  rewrite Hrep. apply items_of_reported.
Qed.

(** C31: a new stream only reports addresses with the port and the family it
    listens on: with the fingerprint of a certificate appended, each one is
    an address to dial. *)
Theorem reports_are_own addr config keys ts rx me' rx' outs taken :
  listen_run ts (WebRTCListenStream_new addr config keys) rx = (me', rx', outs, taken) →
  Forall (own_report addr) (omap event_of outs)
  ∧ ∀ m f, Ready (Some (Ok (NewAddress m))) ∈ outs →
      ∃ i, ip_is_ipv4 i = is_ipv4 addr
           ∧ multiaddr_to_socketaddr (ma_with m (XWebRTC f))
             = Some (SocketAddr_new i (port addr)).
Proof.
  intros Hr. apply listen_run_own in Hr.
  - split; [done|]. intros m f Hm. rewrite Forall_forall in Hr.
    destruct (Hr (NewAddress m)) as (i & -> & Hi).
    { apply list_elem_of_omap. by eexists. }
    exists i. split; [done|]. eapply webrtc_components_accepted, iter_with_fingerprint.
  - intros m. cbn. by case_match; intros [= <-].
Qed.

(** A stream on one interface reports its address at the first poll, and
    nothing but upgrades afterwards. *)
Theorem one_address_reported_once addr config keys t ts rx me' rx' outs taken :
  is_unspecified (ip addr) = false →
  listen_run (t :: ts) (WebRTCListenStream_new addr config keys) rx
    = (me', rx', outs, taken) →
  ∃ outs', outs = Ready (Some (Ok (NewAddress (ip_to_multiaddr (ip addr) (port addr)))))
                  :: outs'
           ∧ reports_of outs' = [].
Proof.
  intros Hu. cbn [listen_run]. unfold WebRTCListenStream_new. rewrite Hu.
  destruct (send_all (t_sent t) rx) as [rx1 tk].
  destruct (listen_poll _ _ _) as [[me2 rx2] out] eqn:Hl.
  unfold listen_poll, arrive in Hl. cbn in Hl. injection Hl as <- <- <-.
  destruct (listen_run ts _ _) as [[[me3 rx3] outs'] tk'] eqn:Hr.
  intros [= <- <- <- <-]. eexists. split; [done|]. by eapply listen_run_one_none in Hr.
Qed.

(** C32: after an error of the watcher no upgrade is reported, and the channel
    is not looked at, before [sleep_on_error] has passed. *)
Theorem error_pauses_upgrades env me rx me' rx' e ts me'' rx'' outs taken :
  listen_poll env me rx = (me', rx', Ready (Some (Ok (ListenerError e)))) →
  Forall (λ t, (now env ≤ now (t_env t) < now env + sleep_on_error me)%Z) ts →
  listen_run ts me' rx' = (me'', rx'', outs, taken) →
  upgrades_of outs = [] ∧ Ready None ∉ outs ∧ chan_items rx'' = chan_items rx' ++ taken.
Proof.
  intros Hl Hts Hr. apply listen_poll_case in Hl.
  destruct (poll_case_moved _ _ _ _ _ _ Hl) as [(_ & Hs & _) _].
  assert (paused_since (now env) me') as Hp.
  { inversion Hl as [|? ? ?| |? ? ? ev ? ? ? ? Hi| ? ? ? ? Hu| ? ? ? ? ? ? ? ? Hu]; subst.
    - by apply start_pause_paused.
    - destruct ev as [ev|]; [|by apply start_pause_paused].
      unfold if_item in Hi. by repeat case_match.
    - unfold poll_upgrades in Hu. by repeat case_match.
    - unfold poll_upgrades in Hu. by repeat case_match. }
  destruct (listen_run_paused (now env) ts me' rx' me'' rx'' outs taken) as [Hups Hend];
    [done|by rewrite Hs|done|].
  apply listen_run_moved in Hr as (_ & _ & _ & rs & Hrs & Hitems). rewrite Hups in Hrs.
  symmetry in Hrs. apply fmap_nil_inv in Hrs as ->. done.
Qed.

(** The pause does not delay the retry it was scheduled for: while making
    a watcher keeps failing, every poll reports an error at once, at whatever
    times, and what the multiplexer reports stays in the channel. *)
Theorem failing_watcher_retried_at_once ts (errs : list io_error) me rx me' rx' outs taken :
  in_addr me = Any IfPending →
  (if_new ∘ t_env) <$> ts = (λ e, Ready (Err e)) <$> errs →
  listen_run ts me rx = (me', rx', outs, taken) →
  outs = (λ e, Ready (Some (Ok (ListenerError (IoError e))))) <$> errs
  ∧ chan_items rx' = chan_items rx ++ taken.
Proof.
  intros Hi Ht Hr. assert (outs = (λ e, Ready (Some (Ok (ListenerError (IoError e))))) <$> errs)
    as Ho.
  { revert errs me rx me' rx' outs taken Hi Ht Hr.
    induction ts as [|t ts IH]; intros [|e errs] me rx me' rx' outs taken Hi Ht; cbn; try done.
    { by intros [= <- <- <- <-]. }
    injection Ht as Hn Ht. unfold arrive. rewrite Hi.
    destruct (send_all (t_sent t) rx) as [rx1 tk]. unfold listen_poll.
    rewrite poll_loop_new by done. cbn in Hn. rewrite Hn. cbn [default from_option id].
    destruct (listen_run ts _ _) as [[[me3 rx3] outs'] tk'] eqn:Hr.
    intros [= <- <- <- <-]. f_equal. by eapply IH in Hr. }
  split; [done|]. apply listen_run_moved in Hr as (_ & _ & _ & rs & Hrs & Hitems).
  assert (upgrades_of outs = []) as Hups.
  { rewrite Ho. unfold upgrades_of. clear. by induction errs. }
  rewrite Hups in Hrs. symmetry in Hrs. by apply fmap_nil_inv in Hrs as ->.
Qed.
End correctness.

(** ** Witnesses *)

Module Witness.
Import MultiaddrRef ErrorRef DataChannelRef ChannelRef CertificateRef TemplateRef
  WebRtcRef ListenerRef.

Definition all_v4 : SocketAddr := V4 (mk_v4 0 0 0 0) 4001.
Definition lo_v4 : SocketAddr := V4 (mk_v4 127 0 0 1) 4001.
Definition conf : RTCConfiguration := mk_config [replicate 32 Byte.xf0].
Definition keys : Keypair := [Byte.x07].
Definition remote : Multiaddr :=
  [Ip4 (mk_v4 10 0 0 2); Udp 999; XWebRTC (replicate 32 Byte.x2a)].
Definition failure : io_error := io_error_new Other "no interfaces".
Definition no_watcher : list (result io_error IfEvent) := [].

Definition up (i : IpAddr) : result io_error IfEvent := Ok (if_up i).
Definition down (i : IpAddr) : result io_error IfEvent := Ok (if_down i).

(** A watcher that fails once; then interfaces of both families come and one
    goes, while a peer is reported. *)
Definition session : list Turn :=
  [ mk_turn [] [] (mk_env 0 (Ready (Err failure)));
    mk_turn [] [remote] (mk_env 1 Pending);
    mk_turn [] [] (mk_env 2 (Ready (Ok no_watcher)));
    mk_turn [up (ip lo_v4); up (IpV6 (mk_v6 0 0 0 0 0 0 0 1)); down (ip lo_v4)] []
      (mk_env 3 Pending);
    mk_turn [] [] (mk_env 4 Pending);
    mk_turn [] [] (mk_env 99 Pending);
    mk_turn [] [] (mk_env 100 Pending);
    mk_turn [] [] (mk_env 101 Pending) ].

Definition tag (out : poll (option ListenItem)) : string :=
  match out with
  | Pending => "pending"
  | Ready None => "end"
  | Ready (Some (Ok (NewAddress _))) => "new"
  | Ready (Some (Ok (AddressExpired _))) => "expired"
  | Ready (Some (Ok (ListenerError _))) => "error"
  | Ready (Some (Ok (Upgrade _ _ _))) => "upgrade"
  | Ready (Some (Err _)) => "failed"
  end.

Example session_tags :
  bool_decide (tag <$> (listen_run session (WebRTCListenStream_new all_v4 conf keys)
      (channel 1)).1.2
    = ["error"; "pending"; "pending"; "new"; "expired"; "pending"; "upgrade"; "pending"])
  = true.
Proof. vm_compute. reflexivity. Qed.

Definition one_up : IfWatcher := [up (ip lo_v4)].

Lemma listen_poll_terminates_witness :
  ∃ r, poll_loop 7 (mk_env 0 (Ready (Ok one_up)))
         (WebRTCListenStream_new all_v4 conf keys) (channel 1) = Some r.
Proof.
  destruct (listen_poll_terminates 7 (mk_env 0 (Ready (Ok one_up)))
    (WebRTCListenStream_new all_v4 conf keys) (channel 1)) as (me' & rx' & out & Hp & _);
    [lia|by eexists].
Defined.

Lemma upgrades_in_order_witness :
  let '(_, rx', outs, taken) :=
    listen_run session (WebRTCListenStream_new all_v4 conf keys) (channel 1) in
  ∃ remotes, upgrades_of outs
      = upgrade_for (WebRTCListenStream_new all_v4 conf keys) <$> remotes
    ∧ remotes ++ chan_items rx' = [] ++ taken.
Proof.
  destruct (listen_run session _ _) as [[[me' rx'] outs] taken] eqn:Hr.
  exact (proj1 (upgrades_in_order _ _ _ _ _ _ _ Hr)).
Defined.

Definition watching : WebRTCListenStream :=
  set_in_addr (Any (IfReady [up (IpV4 (mk_v4 10 0 0 1))]))
    (WebRTCListenStream_new all_v4 conf keys).

Definition session_reports : list ListenerEvent :=
  [NewAddress [Ip4 (mk_v4 10 0 0 1); Udp 4001]; NewAddress [Ip4 (mk_v4 127 0 0 1); Udp 4001];
   AddressExpired [Ip4 (mk_v4 127 0 0 1); Udp 4001]].

(** The IPv6 network is not reported, and nothing is left. *)
Lemma interface_events_in_order_witness :
  ∃ changes,
    told <$> changes
      = [up (IpV4 (mk_v4 10 0 0 1)); up (ip lo_v4); up (IpV6 (mk_v6 0 0 0 0 0 0 0 1));
         down (ip lo_v4)]
    ∧ Forall2 (reported all_v4) (filter (concerns all_v4) changes) session_reports.
Proof.
  assert (reports_of (listen_run session watching (channel 1)).1.2 = session_reports)
    as Hrs by reflexivity.
  assert (last (listen_run session watching (channel 1)).1.2 = Some Pending)
    as Hl by reflexivity.
  destruct (listen_run session watching (channel 1)) as [[[me' rx'] outs] sent] eqn:Hr.
  destruct (interface_events_in_order _ _ watching _ _ _ _ _ [up (IpV4 (mk_v4 10 0 0 1))]
    eq_refl Hr) as (w' & changes & _ & He & Hrep & Hq).
  cbn -[reports_of] in Hrs. rewrite Hrs in Hrep.
  specialize (Hq _ Hl eq_refl). cbn in Hq. subst w'.
  exists changes. split; [|exact Hrep]. symmetry. exact (eq_trans He (app_nil_r _)).
Defined.

Lemma reports_are_own_witness :
  let '(_, _, outs, _) :=
    listen_run session (WebRTCListenStream_new all_v4 conf keys) (channel 1) in
  Forall (own_report all_v4) (omap event_of outs).
Proof.
  destruct (listen_run session _ _) as [[[me' rx'] outs] taken] eqn:Hr.
  exact (proj1 (reports_are_own _ _ _ _ _ _ _ _ _ Hr)).
Defined.

Lemma one_address_reported_once_witness :
  let '(_, _, outs, _) :=
    listen_run session (WebRTCListenStream_new lo_v4 conf keys) (channel 1) in
  ∃ outs', outs = Ready (Some (Ok (NewAddress
                    [Ip4 (mk_v4 127 0 0 1); Udp 4001]))) :: outs'
           ∧ reports_of outs' = [].
Proof.
  destruct (listen_run session _ _) as [[[me' rx'] outs] taken] eqn:Hr.
  refine (one_address_reported_once lo_v4 conf keys _ _ _ _ _ _ _ _ Hr). reflexivity.
Defined.

(** After the error at time 0, the polls at 1, 2, 3, 4 and 99 *)
Lemma error_pauses_upgrades_witness :
  let '(me', rx', _) := listen_poll (mk_env 0 (Ready (Err failure)))
    (WebRTCListenStream_new all_v4 conf keys) (channel 1) in
  let '(_, rx'', outs, taken) := listen_run (take 5 (tail session)) me' rx' in
  upgrades_of outs = [] ∧ Ready None ∉ outs ∧ chan_items rx'' = chan_items rx' ++ taken.
Proof.
  destruct (listen_poll _ _ _) as [[me' rx'] out] eqn:Hl.
  destruct (listen_run _ _ _) as [[[me'' rx''] outs] taken] eqn:Hr.
  assert (out = Ready (Some (Ok (ListenerError (IoError failure))))) as ->
    by by injection Hl.
  refine (error_pauses_upgrades _ _ _ me' rx' _ (take 5 (tail session)) _ _ outs taken
    Hl _ Hr).
  repeat constructor; cbn; lia.
Defined.

Lemma failing_watcher_retried_at_once_witness :
  let '(_, rx', outs, taken) := listen_run
    [ mk_turn [] [] (mk_env 0 (Ready (Err failure)));
      mk_turn [] [remote] (mk_env 1 (Ready (Err failure))) ]
    (WebRTCListenStream_new all_v4 conf keys) (channel 1) in
  outs = [ Ready (Some (Ok (ListenerError (IoError failure))));
           Ready (Some (Ok (ListenerError (IoError failure)))) ]
  ∧ chan_items rx' = [] ++ taken.
Proof.
  destruct (listen_run _ _ _) as [[[me' rx'] outs] taken] eqn:Hr.
  refine (failing_watcher_retried_at_once _ [failure; failure] _ _ _ _ _ _ _ _ Hr);
    reflexivity.
Defined.
End Witness.
