(* ===== verification/System.v ===== *)
(** * The listening side as a whole

    The multiplexer, its worker, the watchers that [get_conn] spawns and the
    listen stream, which share the multiplexer's state and the channel of new
    addresses, as one transition system: from the datagrams received to the
    upgrades reported. *)

From S2P Require Import Prelude RustString Net Multiaddr Fingerprint Errors Stun.
From S2P Require Import Channel Sdp DataChannel Prog UdpMux MuxSpec ConnWorker.
From S2P Require Import WebRtc Connection Handshake Listener ListenerSpec.

#[local] Open Scope rust_scope.

(** ** Model *)

Section system.
Context `{UDPMuxConnApi, SocketApi, MultiaddrApi, ChannelApi, StunApi, HexApi,
          !ErrorTypes, DataChannelApi, CertificateApi, !WebRTCApi, TemplateApi,
          IfWatchApi, DelayApi}.

(** The parts, with two logs: the buffers the worker handled with their
    sources, and the upgrades the stream yielded *)
Record System := mk_system {
  sys_world : World;
  sys_worker : Worker;
  sys_listener : WebRTCListenStream;
  sys_handled : list (list byte * SocketAddr);
  sys_upgrades : list ListenerEvent;
}.

Definition sys_init (socket : Socket) (h : ConnHeap) (addr : SocketAddr)
    (cfg : RTCConfiguration) (keys : Keypair) : System :=
  mk_system (mux_new (UDPMuxParams_new socket) h (channel 1)) worker_new
    (WebRTCListenStream_new addr cfg keys) [] [].

(** The task spawned by [get_conn]: when its wait ends it removes the
    fragment. *)
Definition fire_watcher (u : string) (rest : list (UDPMuxConn * string)) (w : World)
    : World := (mux_do (OpRemove u) (set_watchers (λ _, rest) w)).1.

Definition handled (ev : worker_event) (k : Worker) : list (list byte * SocketAddr) :=
  match ev with
  | Recv (Received d addr) => [(recv_into (buffer k) d, addr)]
  | _ => []
  end.

(** The wait for a connection's close signal ends when it is closed, or when its
    last handle is dropped, which it may be once the multiplexer has none. *)
Definition unheld (c : UDPMuxConn) (w : World) : Prop :=
  (∀ u, conns (mux w) !! u ≠ Some c) ∧ (∀ a, address_map (mux w) !! a ≠ Some c).
Definition watcher_wakes (c : UDPMuxConn) (w : World) : Prop :=
  conn_is_closed (heap w) c = true ∨ unheld c w.

(** What makes the system move: a call, the worker's [select!], a connection
    that closes, a watcher that wakes, events of the interface watcher, a poll *)
Inductive input :=
| IOp (op : mux_op)
| IWorker (ev : worker_event)
| IConnClose (c : UDPMuxConn)
| IWatcher (c : UDPMuxConn) (u : string)
| IArrive (l : list (result io_error IfEvent))
| IListen (env : Env).

Inductive sys_act : input → System → System → Prop :=
| act_op w k me hs us op w' r :
    mux_do op w = (w', r) →
    sys_act (IOp op) (mk_system w k me hs us) (mk_system w' k me hs us)
| act_worker w k me hs us ev k' w' :
    (ev = CloseSignal → close_signal w = true) → worker_turn ev k w = (k', w') →
    sys_act (IWorker ev) (mk_system w k me hs us)
      (mk_system w' k' me (hs ++ handled ev k) us)
| act_conn_close w k me hs us c :
    sys_act (IConnClose c) (mk_system w k me hs us)
      (mk_system (set_heap (conn_close c) w) k me hs us)
| act_watcher w k me hs us l1 c u l2 :
    watchers w = l1 ++ (c, u) :: l2 → watcher_wakes c w →
    sys_act (IWatcher c u) (mk_system w k me hs us)
      (mk_system (fire_watcher u (l1 ++ l2) w) k me hs us)
| act_arrive w k me hs us l :
    sys_act (IArrive l) (mk_system w k me hs us) (mk_system w k (arrive l me) hs us)
| act_listen w k me hs us env me' rx' out :
    listen_poll env me (new_addr_chan w) = (me', rx', out) →
    sys_act (IListen env) (mk_system w k me hs us)
      (mk_system (set_chan rx' w) k me' hs (us ++ upgrades_of [out])).

Definition sys_step (s s' : System) : Prop := ∃ i, sys_act i s s'.

(** The buffer holds the first message of a dialer with fingerprint [f] to a
    listener with fingerprint [local]: a STUN message with both fragments. *)
Definition greets (b : list byte) (local : string) (f : list byte) : Prop :=
  is_stun_message b = true
  ∧ stun_username b (username (without_colons local)
                       (without_colons (fingerprint_to_string f))).

(** A report with the message it comes from *)
Definition justified (hs : list (list byte * SocketAddr)) (af : SocketAddr * list byte)
    : Prop := length af.2 = 32 ∧ ∃ b, (b, af.1) ∈ hs ∧ announces b af.2.

Record sys_ok (me0 : WebRTCListenStream) (s : System) : Prop := {
  ok_mux : ∃ strays, mux_wf_except strays (sys_world s);
  ok_stream : same_stream me0 (sys_listener s);
  ok_reports : ∃ l remotes,
    sys_upgrades s = upgrade_for me0 <$> remotes
    ∧ remotes ++ chan_items (new_addr_chan (sys_world s)) = ConnWorker.reports_of l
    ∧ Forall (justified (sys_handled s)) l;
}.
End system.

(** * Lemmas *)

Section lemmas.
Context `{UDPMuxConnLaws, SocketApi, MultiaddrLaws, ChannelLaws, StunApi, HexLaws,
          !ErrorTypes, DataChannelApi, CertificateApi, !WebRTCApi, TemplateApi,
          IfWatchLaws, DelayLaws}.

Lemma justified_app hs hs' af : justified hs af → justified (hs ++ hs') af.
Proof.
  intros (Hl & b & Hb & Ha). split; [done|]. exists b. split; [|done].
  apply elem_of_app. by left.
Qed.

(** What a turn of the worker adds to the channel comes from what it read. *)
Lemma worker_turn_justified ev k w :
  ∃ l, chan_items (new_addr_chan (worker_turn ev k w).2)
         = chan_items (new_addr_chan w) ++ ConnWorker.reports_of l
       ∧ Forall (justified (handled ev k)) l.
Proof.
  assert (∀ w', chan_items (new_addr_chan w') = chan_items (new_addr_chan w) →
    ∃ l, chan_items (new_addr_chan w')
           = chan_items (new_addr_chan w) ++ ConnWorker.reports_of l
         ∧ Forall (justified (handled ev k)) l) as Hnil.
  { intros w' ->. exists []. cbn. by rewrite app_nil_r. }
  assert (chan_items (new_addr_chan (end_task w)) = chan_items (new_addr_chan w)) as Hend
    by apply drop_sender_items.
  unfold worker_turn. destruct (worker_status k); [|by apply Hnil..].
  destruct ev as [[d addr|[[]| | | |]]|]; try by apply Hnil.
  rewrite run_handle_packet, run_report. destruct (lookup_conn _ _ _) as [c|]; cbn.
  { unfold write_packet. destruct (conn_write_packet _ _ _ _). by apply Hnil. }
  case_bool_decide; [by apply Hnil|].
  destruct (ufrag_from_stun_message _ false) as [u|] eqn:Hu; [|by apply Hnil].
  destruct (hex_to_cow _) as [f|e|] eqn:Hf; [|by apply Hnil..].
  unfold try_send_new_addr. destruct (try_send _ _) as [c [[]|]] eqn:Hs;
    destruct (try_send_items _ _ _ _ _ Hs) as [Hi _];
    [|apply Hnil; cbn; by rewrite Hi, app_nil_r].
  cbn. rewrite Hi.
  exists [(addr, f)]. split; [done|]. apply Forall_singleton.
  apply hex_to_cow_Done in Hf as [Hf Hl]. split; [done|].
  exists (recv_into (buffer k) d). split; [by apply list_elem_of_singleton|]. by exists u.
Qed.

Lemma sys_init_ok socket h addr cfg keys :
  sys_ok (WebRTCListenStream_new addr cfg keys) (sys_init socket h addr cfg keys).
Proof.
  split; [exists ∅; apply mux_new_wf|done|]. exists [], []. cbn. by rewrite channel_empty.
Qed.

Lemma sys_step_ok me0 s s' : sys_ok me0 s → sys_step s s' → sys_ok me0 s'.
Proof.
  intros [[S Hw] Hs (l & rs & Hu & Hi & Hl)] Hstep.
  destruct Hstep as [i Hstep].
  destruct Hstep as [w k me hs us op w' r Hdo|w k me hs us ev k' w' _ Ht|w k me hs us c
    |w k me hs us l1 c u l2 _ _|w k me hs us evs|w k me hs us env me' rx' out Hp];
    cbn [sys_world sys_worker sys_listener sys_handled sys_upgrades] in *.
  - split; [|done|].
    { destruct (mux_do_refines S op w w' r Hw Hdo) as (S' & _ & Hw'). by exists S'. }
    exists l, rs. cbn.
    pose proof (mux_do_chan op w) as Hc. rewrite Hdo in Hc. cbn in Hc. by rewrite Hc.
  - pose proof (worker_turn_wf S ev k w Hw) as Hwf.
    destruct (worker_turn_justified ev k w) as (l' & Hc & Hl'). rewrite Ht in Hwf, Hc.
    split; [by exists S|done|]. exists (l ++ l'), rs. cbn in *. split; [done|]. split.
    + unfold ConnWorker.reports_of in *. by rewrite Hc, app_assoc, Hi, fmap_app.
    + apply Forall_app. split; [by eapply Forall_impl; eauto using justified_app|].
      eapply Forall_impl; [done|]. intros af (? & b & ? & ?). split; [done|].
      exists b. split; [|done]. apply elem_of_app. by right.
  - split; [exists S|done|by exists l, rs]. eapply mux_wf_ext; [done..|]. intros c'.
    apply conn_close_addresses.
  - split; [|done|].
    + unfold fire_watcher. destruct (mux_do _ _) as [w' r] eqn:Hdo.
      apply (mux_do_refines S) in Hdo as (S' & _ & Hw'); [by exists S'|].
      by eapply mux_wf_ext.
    + exists l, rs. cbn. unfold fire_watcher. by rewrite mux_do_chan.
  - split; [by exists S| |by exists l, rs]. cbn. destruct Hs as (? & ? & ? & ?).
    destruct (arrive_same evs me) as (? & ? & ? & ?). split_and!; congruence.
  - destruct (poll_case_moved _ _ _ _ _ _ (listen_poll_case _ _ _ _ _ _ Hp)) as
      [Hs' (_ & _ & rs' & Hu' & Hi')].
    split; [exists S; by eapply mux_wf_ext| |].
    + cbn. destruct Hs as (? & ? & ? & ?), Hs' as (? & ? & ? & ?). split_and!; congruence.
    + exists l, (rs ++ rs').
      cbn [sys_world sys_worker sys_listener sys_handled sys_upgrades set_chan new_addr_chan].
      rewrite Hu, Hu', fmap_app.
      rewrite (upgrade_for_same me0 me) by done. split; [done|].
      by rewrite <-app_assoc, Hi', app_nil_r.
Qed.

Lemma sys_reachable_ok socket h addr cfg keys s :
  rtc sys_step (sys_init socket h addr cfg keys) s →
  sys_ok (WebRTCListenStream_new addr cfg keys) s.
Proof.
  intros Hr. pose proof (sys_init_ok socket h addr cfg keys) as Hok.
  revert Hok. generalize (WebRTCListenStream_new addr cfg keys). intros me0.
  induction Hr; eauto using sys_step_ok.
Qed.

Lemma fire_watcher_effect u rest w :
  conns (mux (fire_watcher u rest w)) !! u = None
  ∧ heap (fire_watcher u rest w) = heap w.
Proof.
  unfold fire_watcher, mux_do. pose proof (run_remove u (set_watchers (λ _, rest) w)) as E.
  destruct (run_mux _ _) as [w' []]. cbn [fst] in *. subst w'. cbn.
  destruct (conns (mux w) !! u); by split; [apply lookup_delete_eq|].
Qed.

(** ** One message *)

Lemma greets_ufrag b local f x :
  greets b local f →
  ufrag_from_stun_message b x = Ok (if x then without_colons local
                                    else without_colons (fingerprint_to_string f)).
Proof. intros [_ Hu]. apply ufrag_of_pair; [done|apply replace_char_free..]. Qed.

Lemma greets_announces b local f : greets b local f → announces b f.
Proof.
  intros Hg. eexists. split; [by apply (greets_ufrag _ _ _ false Hg)|].
  unfold without_colons at 1.
  rewrite replace_char_id by apply replace_char_free. apply hex_decode_fingerprint.
Qed.

(** The connection a greeting is for, when its source is not routed *)
Lemma greets_lookup b local f addr m :
  greets b local f → address_map m !! addr = None →
  lookup_conn b addr m = conns m !! without_colons local.
Proof.
  intros Hg Ha. unfold lookup_conn. rewrite Ha, (proj1 Hg).
  by rewrite (greets_ufrag _ _ _ true Hg).
Qed.

(** A message whose fragment is the fingerprint [f], from a source that is
    neither routed, nor known, nor reported, is reported. *)
Lemma worker_reports_message d addr k w f :
  worker_status k = Running →
  lookup_conn (recv_into (buffer k) d) addr (mux w) = None →
  addr ∉ new_addrs (mux w) →
  announces (recv_into (buffer k) d) f → length f = 32 →
  (try_send (new_addr_chan w) (new_address addr f)).2 = Ok () →
  let '(k', w') := worker_turn (Recv (Received d addr)) k w in
  k' = mk_worker (recv_into (buffer k) d) Running
  ∧ chan_items (new_addr_chan w') = chan_items (new_addr_chan w) ++ [new_address addr f]
  ∧ mux w' = set_new_addrs (union {[addr]}) (mux w).
Proof.
  intros Hk Hc Ha (u & Hu & Hf) Hl Hs. unfold worker_turn.
  rewrite Hk, run_handle_packet, Hc, run_report, bool_decide_false, Hu by done.
  rewrite (proj2 (hex_to_cow_Done (E := UtilError) _ f)) by done.
  unfold try_send_new_addr. destruct (try_send _ _) as [c r] eqn:E. cbn in Hs. subst r.
  destruct (try_send_items _ _ _ _ _ E) as [Hi _]. done.
Qed.

Lemma new_address_dialable a f :
  multiaddr_to_socketaddr (new_address a f) = Some (SocketAddr_new (ip a) (port a))
  ∧ last_fingerprint (new_address a f) = Some f.
Proof.
  pose proof (new_address_components a f) as Hc. split.
  - by apply webrtc_components_accepted with f [].
  - by rewrite (webrtc_components_last _ _ _ _ _ Hc).
Qed.

(** A source that was reported is not reported again. *)
Lemma worker_ignores_known d addr k w :
  worker_status k = Running →
  lookup_conn (recv_into (buffer k) d) addr (mux w) = None → addr ∈ new_addrs (mux w) →
  worker_turn (Recv (Received d addr)) k w
    = (mk_worker (recv_into (buffer k) d) Running, w).
Proof.
  intros Hk Hc Ha. unfold worker_turn.
  by rewrite Hk, run_handle_packet, Hc, run_report, bool_decide_true.
Qed.

Lemma recv_into_twice b d : recv_into (recv_into b d) d = recv_into b d.
Proof.
  unfold recv_into at 1. assert (fits (recv_into b d) d = fits b d) as ->.
  { unfold fits. by rewrite length_recv_into. }
  unfold recv_into. by rewrite drop_app_length.
Qed.

(** ** Polls of a stream that is past its own address *)

Lemma idle_poll env me rx :
  in_addr me = One None → pause me = None →
  listen_poll env me rx =
    match poll_next rx with
    | (rx', Ready (Some m)) => (me, rx', Ready (Some (Ok (upgrade_for me m))))
    | (rx', Ready None) => (me, rx', Ready None)
    | (rx', Pending) => (me, rx', Pending)
    end.
Proof.
  intros Hi Hp. unfold listen_poll. cbn [poll_loop]. rewrite Hi. unfold poll_upgrades.
  rewrite Hp. destruct me. cbn in *. subst. by destruct (poll_next rx) as [rx' [[m|]|]].
Qed.

Lemma worker_turn_ends ev k w k' w' :
  worker_status k = Running → worker_turn ev k w = (k', w') →
  worker_status k' ≠ Running → chan_closed (new_addr_chan w') = true.
Proof.
  unfold worker_turn. intros Hk. rewrite Hk.
  assert (chan_closed (new_addr_chan (end_task w)) = true) as Hend by apply drop_sender_closed.
  destruct ev as [[d addr|[[]| | | |]]|]; try (intros [= <- <-]; done).
  destruct (run _ _ _) as [w1 []]; intros [= <- <-] Hr; try by destruct Hr.
  apply drop_sender_closed.
Qed.
End lemmas.

(** * Correctness *)

Section correctness.
Context `{UDPMuxConnLaws, SocketApi, MultiaddrLaws, ChannelLaws, StunApi, HexLaws,
          !ErrorTypes, DataChannelApi, CertificateApi, !WebRTCApi, TemplateApi,
          IfWatchLaws, DelayLaws}.

(** In every reachable state of the listening side the multiplexer is well
    formed except for strays, and every upgrade reported is for a message that was received: its
    remote address is the message's source, with the 32 byte fingerprint the
    message announced, and is one an upgrade accepts. *)
Theorem upgrades_have_messages socket h addr cfg keys s :
  rtc sys_step (sys_init socket h addr cfg keys) s →
  (∃ strays, mux_wf_except strays (sys_world s))
  ∧ ∀ ev, ev ∈ sys_upgrades s → ∃ a f b,
      ev = Upgrade (ip_to_multiaddr (ip addr) (port addr)) (new_address a f)
             (webrtc cfg (new_address a f) keys)
      ∧ (b, a) ∈ sys_handled s ∧ announces b f ∧ length f = 32
      ∧ multiaddr_to_socketaddr (new_address a f) = Some (SocketAddr_new (ip a) (port a))
      ∧ last_fingerprint (new_address a f) = Some f.
Proof.
  intros Hr. destruct (sys_reachable_ok _ _ _ _ _ _ Hr) as [Hw _ (l & rs & Hu & Hi & Hl)].
  split; [done|]. intros ev Hev. rewrite Hu in Hev.
  apply list_elem_of_fmap in Hev as (m & -> & Hm).
  assert (m ∈ ConnWorker.reports_of l) as Hml.
  { rewrite <-Hi. apply elem_of_app. by left. }
  apply list_elem_of_fmap in Hml as ([a f] & -> & Haf). cbn in *.
  rewrite Forall_forall in Hl. destruct (Hl _ Haf) as (Hlen & b & Hb & Ha).
  exists a, f, b. split_and!; [done|done|done|done|apply new_address_dialable..].
Qed.

(** From the first packet to the upgrade: a message with the fragments of
    a listener and of a dialer with fingerprint [f], from a source that is not
    known, makes the next poll of an idle stream yield the upgrade whose
    address is that source and whose expected fingerprint is [f]; the source
    is not reported again by the same message. *)
Theorem message_becomes_upgrade local f d addr k w me hs us env :
  worker_status k = Running →
  let b := recv_into (buffer k) d in
  greets b local f → length f = 32 →
  conns (mux w) !! without_colons local = None → address_map (mux w) !! addr = None →
  addr ∉ new_addrs (mux w) → chan_items (new_addr_chan w) = [] →
  (try_send (new_addr_chan w) (new_address addr f)).2 = Ok () →
  in_addr me = One None → pause me = None →
  let '(k', w') := worker_turn (Recv (Received d addr)) k w in
  let '(me', rx', out) := listen_poll env me (new_addr_chan w') in
  rtc sys_step (mk_system w k me hs us)
    (mk_system (set_chan rx' w') k' me (hs ++ [(b, addr)])
       (us ++ [upgrade_for me (new_address addr f)]))
  ∧ chan_items rx' = []
  ∧ multiaddr_to_socketaddr (new_address addr f) = Some (SocketAddr_new (ip addr) (port addr))
  ∧ last_fingerprint (new_address addr f) = Some f
  ∧ worker_turn (Recv (Received d addr)) k' w' = (k', w').
Proof.
  intros Hk b Hg Hl Hc Ham Hna Hch Hsend Hi Hp. subst b.
  pose proof (greets_lookup _ _ _ _ _ Hg Ham) as Hlook. rewrite Hc in Hlook.
  pose proof (worker_reports_message d addr k w f Hk Hlook Hna
    (greets_announces _ _ _ Hg) Hl Hsend) as Hw.
  destruct (worker_turn _ k w) as [k' w'] eqn:Ht. destruct Hw as (-> & Hit & Hnew).
  destruct (listen_poll env me _) as [[me' rx'] out] eqn:Hl'.
  pose proof (idle_poll env me (new_addr_chan w') Hi Hp) as Hpoll. rewrite Hl' in Hpoll.
  destruct (poll_next (new_addr_chan w')) as [rx p] eqn:Hn.
  apply poll_next_items in Hn as [_ Hn]. rewrite Hit, Hch in Hn.
  destruct p as [[m|]|]; [|by destruct Hn..]. injection Hn as <- Hrx.
  injection Hpoll as -> -> ->. split_and!; [|done|apply new_address_dialable..|].
  - eapply rtc_l; [by eexists; eapply (act_worker _ _ _ _ _ (Recv (Received d addr)))|].
    apply rtc_once. eexists. by eapply act_listen in Hl'.
  - rewrite worker_ignores_known; cbn [buffer]; rewrite ?recv_into_twice; try done.
    + rewrite (greets_lookup _ _ _ _ _ Hg); by rewrite Hnew.
    + rewrite Hnew. cbn. set_solver.
Qed.

(** C37: every upgrade of a listener, and every dial, has the same ICE user
    fragment, that of its own certificate. So while that fragment has a
    connection, the first message of another dialer goes to this connection:
    it is not reported, and no upgrade is made for its source. *)
Theorem second_dialer_not_reported local f d addr k w c :
  worker_status k = Running →
  let b := recv_into (buffer k) d in
  greets b local f →
  conns (mux w) !! without_colons local = Some c → address_map (mux w) !! addr = None →
  length d ≤ length (buffer k) →
  (conn_write_packet c d addr (heap w)).2 = Ok () →
  (∀ sa, SetIceCredentials (without_colons local) (without_colons local)
           ∈ build_setting_engine sa local) ∧
  let '(k', w') := worker_turn (Recv (Received d addr)) k w in
  announces b f
  ∧ worker_status k' = Running ∧ new_addr_chan w' = new_addr_chan w ∧ mux w' = mux w
  ∧ conn_packets (heap w') c = conn_packets (heap w) c ++ [(d, addr)].
Proof.
  intros Hk b Hg Hc Ham Hd Hwr. subst b. split; [intros; by constructor|].
  pose proof (greets_lookup _ _ _ _ _ Hg Ham) as Hlook. rewrite Hc in Hlook.
  unfold worker_turn. rewrite Hk, run_handle_packet, Hlook, take_recv_into, fits_all by done.
  unfold write_packet. pose proof (conn_write_packets c d addr (heap w) c) as Hp.
  destruct (conn_write_packet c d addr (heap w)) as [h r]. cbn in *. subst r.
  rewrite decide_True in Hp by done. split_and!; by eauto using greets_announces.
Qed.

(** C40: a watcher removes by fragment, not by connection. When a fragment was
    removed and then got a new connection, the closing of the old one removes
    the new one from the multiplexer, still open. *)
Theorem stale_watcher_removes_connection w k me hs us u l1 c1 l2 c2 :
  watchers w = l1 ++ (c1, u) :: l2 →
  conns (mux w) !! u = Some c2 → c1 ≠ c2 → conn_is_closed (heap w) c2 = false →
  ∃ w', rtc sys_step (mk_system w k me hs us) (mk_system w' k me hs us)
        ∧ conns (mux w') !! u = None ∧ conn_is_closed (heap w') c2 = false.
Proof.
  intros Hwt Hu Hne Ho.
  exists (fire_watcher u (l1 ++ l2) (set_heap (conn_close c1) w)).
  destruct (fire_watcher_effect u (l1 ++ l2) (set_heap (conn_close c1) w)) as [-> ->].
  split; [|cbn; by rewrite conn_close_closed, bool_decide_false].
  eapply rtc_l; [by eexists; apply (act_conn_close w k me hs us c1)|]. apply rtc_once.
  eexists. eapply act_watcher; [exact Hwt|]. left. cbn. by rewrite conn_close_closed, bool_decide_true.
Qed.

(** C33: when the worker ends, by a panic, an error of the socket or the close
    signal, no address is taken by the channel any more, and the listen stream,
    in whatever state it is, yields the upgrades of the addresses still in it,
    in order, and after them nothing but its end. Until then a poll is only
    pending while the watcher is not made or the pause is not over. A stream on
    one interface, or one that gets its watcher at the first poll or has it,
    which is not paused and is told no failure, does end: after at most one
    poll for its own address or for each interface event, and one for each
    address in the channel. *)
Theorem stopped_worker_ends_stream s s' t ts me' rx' outs sent :
  worker_status (sys_worker s) = Running → sys_step s s' →
  worker_status (sys_worker s') ≠ Running →
  let me := sys_listener s' in
  let rx := new_addr_chan (sys_world s') in
  listen_run (t :: ts) me rx = (me', rx', outs, sent) →
  sent = []
  ∧ (∀ i o, yielded outs !! i = Some o → o = upgrade_for me <$> (chan_items rx !! i))
  ∧ (∀ evs env me'' rx'', listen_poll env (arrive evs me') rx' = (me'', rx'', Pending) →
       waits env (arrive evs me'))
  ∧ (calm (t_env t) me → Forall no_failure (concat (t_events <$> t :: ts)) →
     backlog (t_env t) me + length (concat (t_events <$> t :: ts)) + length (chan_items rx)
       < length (t :: ts) →
     Ready None ∈ outs).
Proof.
  intros Hk Hstep Hk' me rx Hr.
  assert (chan_closed rx = true) as Hc.
  { subst rx. destruct Hstep as [i Hstep].
    destruct Hstep as [|w k l hs us ev k' w' _ Ht| | | |]; cbn in *; try congruence.
    by eapply worker_turn_ends. }
  destruct (listen_run_closed _ _ _ _ _ _ _ Hc Hr) as (-> & Hc' & Hy).
  split_and!; [done..| |].
  - intros evs env me'' rx'' Hp%listen_poll_case.
    apply poll_case_closed in Hp as [(_ & _ & Hw)|[Hw _]]; [by apply Hw|by unfold yielded in Hw|done].
  - intros Hcalm Hev Hlt.
    pose proof (listen_run_calm (t_env t) (t :: ts) _ _ _ _ _ _ Hc Hcalm Hev Hr) as Hlen.
    destruct (yielded outs !! length (chan_items rx)) as [o|] eqn:Ho.
    + pose proof (Hy _ _ Ho) as ->. rewrite (lookup_ge_None_2 (chan_items rx)) in Ho by done.
      apply yielded_end. by eapply list_elem_of_lookup_2.
    + apply lookup_ge_None in Ho. cbn [first_env] in Hlen. lia.
Qed.
End correctness.

Section transport.
Context `{UDPMuxConnLaws, SocketApi, MultiaddrLaws, ChannelLaws, StunApi, HexApi,
          !ErrorTypes, DataChannelApi, CertificateApi, !WebRTCApi, TemplateLaws,
          IfWatchApi, DelayApi, !UdpSocketApi}.

(** A transport that was created has a bound socket, and what it shares
    with the stream of [listen_on] is the initial state of the listening side,
    whatever address [listen_on] was given. Its fingerprint is that of the
    certificate it was created with, and its dials never panic for want of
    one. *)
Theorem transport_starts_system certificate keys addr h t w s l m :
  transport_new certificate keys addr h = Ok (t, w) →
  get_fingerprints certificate = Ok (s :: l) →
  (∃ socket, udp_bind addr = Ok socket ∧ udp_local_addr socket = Ok (udp_mux_addr t)
     ∧ let init := sys_init socket h (udp_mux_addr t) (config t) (id_keys t) in
       sys_world init = w ∧ listen_on t m = Ok (sys_listener init))
  ∧ cert_fingerprint (E := Error) t = Done s
  ∧ ∀ a p tr, dial t a = Ok p ∨ dial_as_listener t a = Ok p → exec p tr Panic →
      (∃ text e, Obs (ParseAnswer text) (Err e) ∈ tr) ∨ keys_refused keys tr.
Proof.
  unfold transport_new. intros Ht Hs.
  destruct (udp_bind addr) as [so|] eqn:Hb; [|done]. cbn in Ht.
  destruct (udp_local_addr so) as [la|] eqn:Hla; [|done]. cbn in Ht. simplify_eq.
  split; [by exists so|].
  assert (cert_fingerprint (E := Error) (mk_transport (mk_config [certificate]) la keys)
    = Done s) as Hf.
  { unfold cert_fingerprint, fingerprint_of_first_certificate. cbn. by rewrite Hs. }
  split; [done|]. intros a p tr Hp Hx.
  assert (p = do_dial (mk_config [certificate]) keys a) as ->.
  { unfold dial_as_listener, dial in Hp. cbn in Hp. by destruct Hp as [[= <-]|[= <-]]. }
  apply do_dial_panics in Hx as [Hx|Hx]; [|done].
  unfold cert_fingerprint in Hf. cbn [config] in Hf. by rewrite Hx in Hf.
Qed.
End transport.

(** ** Witnesses *)

Module Witness.
Import MuxRef MultiaddrRef ChannelRef StunRef HexRef ErrorRef DataChannelRef CertificateRef
  TemplateRef WebRtcRef ListenerRef.
Import ConnWorker.Witness ListenerSpec.Witness.

(** The listener's fragment and a dialer's, in the first message *)
Definition our : string := fingerprint_to_string (replicate 32 Byte.xf0).
Definition hello : list byte :=
  message (username (without_colons our) (without_colons (fingerprint_to_string fingerprint))).

Definition s0 : System := sys_init (socket lo_v4) empty_heap lo_v4 conf keys.
Definition turn1 := worker_turn (Recv (Received hello other)) (sys_worker s0) (sys_world s0).
Definition s1 : System :=
  mk_system turn1.2 turn1.1 (sys_listener s0) (handled (Recv (Received hello other))
    (sys_worker s0)) [].
Definition listened (s : System) : System :=
  let p := listen_poll (mk_env 0 Pending) (sys_listener s) (new_addr_chan (sys_world s)) in
  mk_system (set_chan p.1.2 (sys_world s)) (sys_worker s) p.1.1 (sys_handled s)
    (sys_upgrades s ++ upgrades_of [p.2]).

Lemma listened_step s : sys_step s (listened s).
Proof.
  destruct s as [w k me hs us]. unfold listened.
  cbn [sys_world sys_worker sys_listener sys_handled sys_upgrades].
  destruct (listen_poll _ me _) as [[me' rx'] out] eqn:Hp. eexists. by eapply act_listen.
Qed.

Definition s3 : System := listened (listened s1).

Lemma s3_reachable : rtc sys_step s0 s3.
Proof.
  eapply rtc_l; [|eapply rtc_l; [apply listened_step|apply rtc_once, listened_step]].
  eexists. eapply (act_worker _ _ _ [] [] (Recv (Received hello other))); [discriminate|].
  apply surjective_pairing.
Qed.

Example one_upgrade : length (sys_upgrades s3) = 1.
Proof. vm_compute. reflexivity. Qed.

Lemma upgrades_have_messages_witness :
  ∃ ev a f b, sys_upgrades s3 = [ev]
    ∧ ev = Upgrade (ip_to_multiaddr (ip lo_v4) (port lo_v4)) (new_address a f)
             (webrtc conf (new_address a f) keys)
    ∧ (b, a) ∈ sys_handled s3 ∧ announces b f.
Proof.
  pose proof (upgrades_have_messages (socket lo_v4) empty_heap lo_v4 conf keys s3
    s3_reachable) as [_ Hev].
  pose proof one_upgrade as Hl.
  destruct (sys_upgrades s3) as [|ev [|]]; [discriminate Hl| |discriminate Hl].
  destruct (Hev ev) as (a & f & b & He & Hb & Ha & _); [by constructor|].
  by exists ev, a, f, b.
Defined.

(** A stream that has reported its address, and a small buffer *)
Definition past_address : WebRTCListenStream :=
  set_in_addr (One None) (WebRTCListenStream_new lo_v4 conf keys).
Definition small : Worker := mk_worker (replicate 200 Byte.x00) Running.
Definition fresh : World := mux_new (UDPMuxParams_new (socket lo_v4)) empty_heap (channel 1).

Lemma hello_greets : greets (recv_into (buffer small) hello) our fingerprint.
Proof.
  split; [vm_compute; reflexivity|].
  exists (into_bytes (username (without_colons our)
    (without_colons (fingerprint_to_string fingerprint)))).
  split; [|split]; vm_compute; reflexivity.
Qed.

Lemma message_becomes_upgrade_witness :
  ∃ w k hs, rtc sys_step (mk_system fresh small past_address [] [])
    (mk_system w k past_address hs
       [upgrade_for past_address (new_address other fingerprint)]).
Proof.
  pose proof (message_becomes_upgrade our fingerprint hello other small fresh past_address
    [] [] (mk_env 0 Pending) eq_refl hello_greets eq_refl
    eq_refl eq_refl (not_elem_of_empty _) eq_refl eq_refl eq_refl eq_refl) as Hm.
  destruct (worker_turn _ small fresh) as [k' w'].
  destruct (listen_poll _ past_address (new_addr_chan w')) as [[me' rx'] out].
  eexists _, _, _. apply Hm.
Defined.

(** The listener has a connection, from an earlier upgrade. *)
Definition busy : World := (mux_do (OpGetConn (without_colons our)) fresh).1.
Definition first_conn : UDPMuxConn := handle 0 (without_colons our).

Lemma second_dialer_not_reported_witness :
  let w' := (worker_turn (Recv (Received hello other)) small busy).2 in
  conn_packets (heap w') first_conn = [(hello, other)] ∧ new_addr_chan w' = new_addr_chan busy.
Proof.
  assert (bool_decide (conns (mux busy) !! without_colons our = Some first_conn) = true)
    as Hc%bool_decide_eq_true by (vm_compute; reflexivity).
  assert (length hello ≤ length (buffer small)) as Hl by (vm_compute; lia).
  pose proof (second_dialer_not_reported our fingerprint hello other small busy first_conn
    eq_refl hello_greets Hc eq_refl Hl eq_refl) as [_ Hw].
  destruct (worker_turn _ small busy) as [k' w']. by destruct Hw as (_ & _ & ? & _ & ?).
Defined.

(** The fragment "a" was removed and asked for again: two watchers *)
Definition replaced : World :=
  (mux_exec fresh [OpGetConn "a"; OpRemove "a"; OpGetConn "a"]).1.

Lemma stale_watcher_removes_connection_witness :
  ∃ w', rtc sys_step (mk_system replaced small past_address [] [])
          (mk_system w' small past_address [] [])
        ∧ conns (mux w') !! "a" = None ∧ conn_is_closed (heap w') (handle 1 "a") = false.
Proof.
  apply (stale_watcher_removes_connection replaced small past_address [] [] "a"
    [(handle 1 "a", "a")] (handle 0 "a") [] (handle 1 "a")).
  - reflexivity.
  - apply (bool_decide_eq_true_1 (conns (mux replaced) !! "a" = Some (handle 1 "a"))).
    vm_compute. reflexivity.
  - discriminate.
  - reflexivity.
Defined.

(** The close signal with one address still in the channel, while the stream,
    on all interfaces, has one of them to report *)
Definition reported : World := (worker_turn (Recv (Received hello other)) small fresh).2.
Definition quiet : Turn := mk_turn [] [] (mk_env 0 Pending).

Definition closing : World := send_close_signal reported.
Definition before_end : System := mk_system closing small watching [] [].
Definition after_end : System :=
  mk_system (end_task closing) (mk_worker (buffer small) Stopped) watching [] [].

Lemma stopped_worker_ends_stream_witness :
  Ready None ∈ (listen_run [quiet; quiet; quiet] watching
                  (new_addr_chan (end_task closing))).1.2.
Proof.
  assert (bool_decide (chan_items (new_addr_chan (end_task closing))
    = [new_address other fingerprint]) = true) as Hi%bool_decide_eq_true
    by (vm_compute; reflexivity).
  assert (sys_step before_end after_end) as Hstep
    by by eexists; apply (act_worker _ _ _ [] [] CloseSignal).
  destruct (listen_run _ _ _) as [[[me' rx'] outs] sent] eqn:Hr.
  destruct (stopped_worker_ends_stream before_end after_end quiet [quiet; quiet]
    me' rx' outs sent eq_refl Hstep ltac:(done) Hr) as (_ & _ & _ & Hend).
  cbn [sys_world sys_listener after_end] in Hend. rewrite Hi in Hend. apply Hend.
  - split; [reflexivity|]. eexists. split; [reflexivity|]. repeat constructor. by eexists.
  - repeat constructor.
  - cbn. lia.
Defined.

Lemma transport_starts_system_witness :
  ∃ t w, transport_new (replicate 32 Byte.xf0) keys lo_v4 empty_heap = Ok (t, w)
    ∧ cert_fingerprint (E := Error) t = Done our
    ∧ listen_on t [] = Ok (sys_listener s0).
Proof.
  eexists _, _. split; [reflexivity|].
  pose proof (transport_starts_system (replicate 32 Byte.xf0) keys lo_v4 empty_heap
    _ _ our [] [] eq_refl eq_refl) as ((so & _ & _ & _ & Hl) & Hf & _).
  split; [exact Hf|exact Hl].
Defined.
End Witness.
