(* ===== verification/ConcSystem.v ===== *)
(** * The listening side at the grain of its critical sections

    The system of System, but the worker, the calls and the watchers are
    threads that may be interrupted between any two critical sections, and the
    transport may have been asked to listen more than once: its streams share
    the channel of new addresses. What every interleaving keeps of the way from
    datagrams to upgrades. *)

From S2P Require Import Prelude RustString Net Multiaddr Fingerprint Errors Stun.
From S2P Require Import Channel Sdp DataChannel Prog Threads UdpMux MuxSpec MuxConc.
From S2P Require Import ConnWorker WorkerConc WebRtc Connection Handshake Listener.
From S2P Require Import ListenerSpec System.

#[local] Open Scope rust_scope.

(** ** Model *)

Section model.
Context `{UDPMuxConnApi, SocketApi, MultiaddrApi, ChannelApi, StunApi, HexApi,
          !ErrorTypes, DataChannelApi, CertificateApi, !WebRTCApi, TemplateApi,
          IfWatchApi, DelayApi}.

(** The parts: what is left of the worker's turn, the calls on their way, the
    listen streams; with three logs: the buffers handled with their sources,
    the addresses the channel took, the upgrades all streams yielded *)
Record Conc := mk_conc {
  cc_world : World;
  cc_worker : prog muxE Worker;
  cc_calls : list (prog muxE op_result);
  cc_listeners : list WebRTCListenStream;
  cc_handled : list (list byte * SocketAddr);
  cc_sent : list Multiaddr;
  cc_upgrades : list ListenerEvent;
}.

(** A created transport, not listening yet *)
Definition conc_init (t : WebRTCDirectTransport) (w : World) : Conc :=
  mk_conc w (Ret worker_new) [] [] [] [] [].

(** What a section adds to the channel *)
Definition added (w w' : World) : list Multiaddr :=
  drop (length (chan_items (new_addr_chan w))) (chan_items (new_addr_chan w')).

Inductive conc_step (t : WebRTCDirectTransport) : Conc → Conc → Prop :=
(** the worker's [select!] answers *)
| conc_select w k ps ls hs sent us ev :
    worker_status k = Running → (ev = CloseSignal → close_signal w = true) →
    conc_step t (mk_conc w (Ret k) ps ls hs sent us)
      (mk_conc w (worker_prog [ev] k) ps ls (hs ++ handled ev k) sent us)
(** the worker's next section *)
| conc_worker w p ps ls hs sent us w' p' :
    thread_step mux_handler p w = Some (w', p') →
    conc_step t (mk_conc w p ps ls hs sent us)
      (mk_conc w' p' ps ls hs (sent ++ added w w') us)
(** a call starts; its next section *)
| conc_call w p ps ls hs sent us op :
    conc_step t (mk_conc w p ps ls hs sent us)
      (mk_conc w p (ps ++ [op_prog op]) ls hs sent us)
| conc_section w p ps ls hs sent us i q w' q' :
    ps !! i = Some q → thread_step mux_handler q w = Some (w', q') →
    conc_step t (mk_conc w p ps ls hs sent us)
      (mk_conc w' p (<[i := q']> ps) ls hs sent us)
(** a connection closes; a watcher wakes and starts to remove its fragment *)
| conc_conn_close w p ps ls hs sent us c :
    conc_step t (mk_conc w p ps ls hs sent us)
      (mk_conc (set_heap (conn_close c) w) p ps ls hs sent us)
| conc_watcher w p ps ls hs sent us l1 c u l2 :
    watchers w = l1 ++ (c, u) :: l2 → watcher_wakes c w →
    conc_step t (mk_conc w p ps ls hs sent us)
      (mk_conc (set_watchers (λ _, l1 ++ l2) w) p (ps ++ [op_prog (OpRemove u)]) ls hs sent us)
(** the transport is asked to listen; interfaces change; a stream is polled *)
| conc_listen_on w p ps ls hs sent us m me :
    listen_on t m = Ok me →
    conc_step t (mk_conc w p ps ls hs sent us) (mk_conc w p ps (ls ++ [me]) hs sent us)
| conc_arrive w p ps ls hs sent us i me l :
    ls !! i = Some me →
    conc_step t (mk_conc w p ps ls hs sent us)
      (mk_conc w p ps (<[i := arrive l me]> ls) hs sent us)
| conc_poll w p ps ls hs sent us i me env me' rx' out :
    ls !! i = Some me → listen_poll env me (new_addr_chan w) = (me', rx', out) →
    conc_step t (mk_conc w p ps ls hs sent us)
      (mk_conc (set_chan rx' w) p ps (<[i := me']> ls) hs sent (us ++ upgrades_of [out])).

(** What the sections may do to the channel: nothing, and report no source
    besides; add nothing; or add addresses announced by the handled messages *)
Definition leaves_reports (w w' : World) : Prop :=
  new_addr_chan w' = new_addr_chan w ∧ new_addrs (mux w') ⊆ new_addrs (mux w).
Definition adds_nothing (w w' : World) : Prop :=
  chan_items (new_addr_chan w') = chan_items (new_addr_chan w).
Definition adds_announced (hs : list (list byte * SocketAddr)) (w w' : World) : Prop :=
  ∃ l, chan_items (new_addr_chan w')
         = chan_items (new_addr_chan w) ++ ConnWorker.reports_of l
       ∧ Forall (justified hs) l.

(** Every stream is one of the transport. *)
Definition first_stream (t : WebRTCDirectTransport) : WebRTCListenStream :=
  WebRTCListenStream_new (udp_mux_addr t) (config t) (id_keys t).

Record conc_ok (t : WebRTCDirectTransport) (c : Conc) : Prop := {
  co_worker : guarantees mux_handler (adds_announced (cc_handled c)) (cc_worker c);
  co_calls : Forall (guarantees mux_handler leaves_reports) (cc_calls c);
  co_streams : Forall (same_stream (first_stream t)) (cc_listeners c);
  co_sent : ∃ l, cc_sent c = ConnWorker.reports_of l ∧ Forall (justified (cc_handled c)) l;
  co_moved : ∃ remotes,
    cc_upgrades c = upgrade_for (first_stream t) <$> remotes
    ∧ remotes ++ chan_items (new_addr_chan (cc_world c)) = cc_sent c;
}.
End model.

(** * Lemmas *)

Section lemmas.
Context `{UDPMuxConnLaws, SocketApi, MultiaddrLaws, ChannelLaws, StunApi, HexLaws,
          !ErrorTypes, DataChannelApi, CertificateApi, !WebRTCApi, TemplateApi,
          IfWatchLaws, DelayLaws}.

Lemma guarantees_step {R} G (p : prog muxE R) w w' p' :
  guarantees mux_handler G p → thread_step mux_handler p w = Some (w', p') →
  G w w' ∧ guarantees mux_handler G p'.
Proof.
  destruct p as [r|X e k]; [done|]. intros [He Hk]. specialize (He w). cbn in *.
  destruct (e w). by intros [= <- <-].
Qed.

Lemma guarantees_weaken {R} (G G' : World → World → Prop) (p : prog muxE R) :
  (∀ w w', G w w' → G' w w') → guarantees mux_handler G p → guarantees mux_handler G' p.
Proof.
  intros HG. induction p as [r|X e k IH]; [done|]. intros [He Hk].
  split; [intros; by apply HG|]. intros x. by apply IH.
Qed.

(** ** Calls *)

(** The sections of the operations leave the channel as it is. *)
Ltac same_channel :=
  unfold leaves_reports, mux_handler, get_conn_locked, create_muxed_conn, remove_conn, remove_addresses,
    register_address, forget_new_addr, close_conn, read_closed, take_closed_tx;
  cbn; repeat (case_match; simplify_eq/=); (split; [done|set_solver]).

Lemma close_all_leaves_reports l : guarantees mux_handler leaves_reports (close_all l).
Proof. by induction l as [|[u c] l IH]. Qed.

Lemma op_prog_leaves_reports op : guarantees mux_handler leaves_reports (op_prog op).
Proof.
  destruct op as [|u|u|c a]; cbn -[close_all].
  - split; [done|]. intros [|]; [done|]. split; [intros; same_channel|].
    intros [|]; [|done]. cbn -[close_all]. split; [done|]. intros m.
    apply guarantees_bind; [|done]. apply guarantees_bind; [apply close_all_leaves_reports|].
    cbn. split; [done|]. intros _. split; [|done]. intros; same_channel.
  - split; [done|]. intros [|]; [done|]. cbn. split; [|done]. intros; same_channel.
  - split; [done|]. by intros [c|].
  - split; [done|]. intros _. split; [intros; same_channel|]. intros [|]; [done|]. cbn.
    split; [intros; same_channel|]. intros _. split; [|done]. intros; same_channel.
Qed.

(** ** The worker *)

Lemma adds_announced_nil hs w w' : adds_nothing w w' → adds_announced hs w w'.
Proof. intros Hw. exists []. cbn. by rewrite app_nil_r. Qed.

Lemma report_adds hs b a :
  (b, a) ∈ hs → guarantees mux_handler (adds_announced hs) (report_new_address b a).
Proof.
  intros Hb. unfold report_new_address. cbn. split; [intros; by apply adds_announced_nil|].
  intros [|]; cbn; [done|].
  destruct (ufrag_from_stun_message b false) as [u|] eqn:Hu; cbn; [|done].
  destruct (hex_to_cow _) as [f|e|] eqn:Hf; cbn; [|done..].
  apply hex_to_cow_Done in Hf as [Hf Hl]. split.
  - intros w. unfold try_send_new_addr. destruct (try_send _ _) as [c [[]|e]] eqn:Hs;
      destruct (try_send_items _ _ _ _ _ Hs) as [Hi _].
    + exists [(a, f)]. split; [done|]. apply Forall_singleton. split; [done|].
      exists b. split; [done|]. by exists u.
    + apply adds_announced_nil. unfold adds_nothing. cbn. by rewrite Hi, app_nil_r.
  - intros [[]|]; cbn; [|done]. split; [|done]. intros; by apply adds_announced_nil.
Qed.

Lemma handle_adds hs b len a :
  (b, a) ∈ hs → guarantees mux_handler (adds_announced hs) (handle_packet b len a).
Proof.
  intros Hb. unfold handle_packet, may_bind. apply guarantees_bind.
  { split; [|done]. intros; by apply adds_announced_nil. }
  intros [c|e|]; [|done..]. apply guarantees_bind.
  { destruct c; [done|]. destruct (is_stun_message b); [|done].
    unfold conn_from_stun_message. destruct (ufrag_from_stun_message b true); [|done].
    split; [|done]. intros; by apply adds_announced_nil. }
  intros [[c'|]|e|]; [|by apply report_adds|done..]. cbn. split; [|done].
  intros w. apply adds_announced_nil. unfold adds_nothing, write_packet.
  by destruct (conn_write_packet _ _ _ _).
Qed.

Lemma turn_adds hs ev k :
  guarantees mux_handler (adds_announced (hs ++ handled ev k)) (worker_prog [ev] k).
Proof.
  assert (∀ hs k, guarantees mux_handler (adds_announced hs)
    (_ ← atomic (λ w, (end_task w, ())); worker_prog [] k)) as Hend.
  { intros hs' k'. split; [|done]. intros w. apply adds_announced_nil, drop_sender_items. }
  cbn [worker_prog]. destruct (worker_status k); [|done..].
  destruct ev as [[d a|[[]| | | |]]|]; try (exact (Hend _ _) || done).
  apply guarantees_bind; [|intros [| |]; [done..|apply Hend]].
  apply handle_adds. apply elem_of_app. right. by apply list_elem_of_singleton.
Qed.

(** ** The system *)

Lemma conc_init_ok t w :
  chan_items (new_addr_chan w) = [] → conc_ok t (conc_init t w).
Proof.
  intros Hw. split; [done|apply Forall_nil_2..| |].
  - exists []. by split.
  - exists []. cbn. by rewrite Hw.
Qed.

Lemma conc_step_ok t c c' : conc_ok t c → conc_step t c c' → conc_ok t c'.
Proof.
  intros [Hp Hps Hls (l & Hsent & Hl) (rs & Hus & Hrs)] Hstep.
  destruct Hstep as [w k ps ls hs sent us ev Hk Hcl|w p ps ls hs sent us w' p' Hst
    |w p ps ls hs sent us op|w p ps ls hs sent us i q w' q' Hi Hst|w p ps ls hs sent us c
    |w p ps ls hs sent us l1 c u l2 _ _|w p ps ls hs sent us m me [= <-]
    |w p ps ls hs sent us i me evs Hi|w p ps ls hs sent us i me env me' rx' out Hi Hpoll];
    cbn [cc_world cc_worker cc_calls cc_listeners cc_handled cc_sent cc_upgrades] in *.
  - split; [apply turn_adds|done|done| |by exists rs].
    exists l. split; [done|]. eapply Forall_impl; eauto using justified_app.
  - destruct (guarantees_step _ _ _ _ _ Hp Hst) as [(l' & Hw & Hl') Hp'].
    unfold added. rewrite Hw, drop_app_length. split; [done..| |].
    + exists (l ++ l'). unfold ConnWorker.reports_of in *. cbn. rewrite Hsent, fmap_app.
      split; [done|]. by apply Forall_app.
    + exists rs. cbn. by rewrite Hw, app_assoc, Hrs.
  - split; [done| |done|by exists l|by exists rs].
    apply Forall_app. split; [done|]. apply Forall_singleton, op_prog_leaves_reports.
  - destruct (guarantees_step _ _ _ _ _ (Forall_lookup_1 _ _ _ _ Hps Hi) Hst)
      as [[Hw _] Hq'].
    split; [done|by apply Forall_insert|done|by exists l|].
    exists rs. cbn. by rewrite Hw.
  - split; [done..|by exists l|by exists rs].
  - split; [done| |done|by exists l|by exists rs].
    apply Forall_app. split; [done|]. apply Forall_singleton, op_prog_leaves_reports.
  - split; [done..| |by exists l|by exists rs].
    apply Forall_app. split; [done|]. by apply Forall_singleton.
  - split; [done..| |by exists l|by exists rs]. apply Forall_insert; [done|].
    pose proof (Forall_lookup_1 _ _ _ _ Hls Hi) as (? & ? & ? & ?).
    destruct (arrive_same evs me) as (? & ? & ? & ?). split_and!; congruence.
  - pose proof (Forall_lookup_1 _ _ _ _ Hls Hi) as Hme.
    destruct (poll_case_moved _ _ _ _ _ _ (listen_poll_case _ _ _ _ _ _ Hpoll)) as
      [Hs' (_ & _ & rs' & Hu' & Hi')].
    split; [done..| |by exists l|].
    + apply Forall_insert; [done|]. destruct Hme as (? & ? & ? & ?), Hs' as (? & ? & ? & ?).
      split_and!; congruence.
    + exists (rs ++ rs').
      cbn [cc_world cc_worker cc_calls cc_listeners cc_handled cc_sent cc_upgrades
        set_chan new_addr_chan].
      rewrite Hus, Hu', fmap_app, (upgrade_for_same (first_stream t) me) by done.
      split; [done|]. by rewrite <-app_assoc, Hi', app_nil_r.
Qed.

Lemma conc_reachable_ok t w c :
  chan_items (new_addr_chan w) = [] → rtc (conc_step t) (conc_init t w) c → conc_ok t c.
Proof.
  intros Hw Hr. pose proof (conc_init_ok t w Hw) as Hok. revert Hok.
  induction Hr; eauto using conc_step_ok.
Qed.
End lemmas.

(** * Correctness *)

Section correctness.
Context `{UDPMuxConnLaws, SocketApi, MultiaddrLaws, ChannelLaws, StunApi, HexLaws,
          !ErrorTypes, DataChannelApi, CertificateApi, !WebRTCApi, TemplateApi,
          IfWatchLaws, DelayLaws, !UdpSocketApi}.

(** The channel of a created transport *)
Lemma transport_new_channel cert keys addr h t w :
  transport_new cert keys addr h = Ok (t, w) → chan_items (new_addr_chan w) = [].
Proof.
  unfold transport_new. destruct (udp_bind addr) as [so|]; [|done]. cbn.
  destruct (udp_local_addr so); [|done]. cbn. intros [= <- <-]. apply channel_empty.
Qed.

(** C6: however the sections of the worker, of calls, and of watchers are
    interleaved with each other and with the polls of any number of streams of
    one transport: the addresses the channel took are yielded as upgrades in
    the order they were taken, each by one stream only, or are still queued;
    and each is for a message that was received, with its source and the 32
    byte fingerprint it announced, and is one an upgrade accepts. *)
Theorem interleaved_upgrades_have_messages cert keys addr h t w c :
  transport_new cert keys addr h = Ok (t, w) → rtc (conc_step t) (conc_init t w) c →
  (∃ remotes, cc_upgrades c = upgrade_for (first_stream t) <$> remotes
              ∧ remotes ++ chan_items (new_addr_chan (cc_world c)) = cc_sent c)
  ∧ ∀ m, m ∈ cc_sent c → ∃ a f b,
      m = new_address a f ∧ (b, a) ∈ cc_handled c ∧ announces b f ∧ length f = 32
      ∧ multiaddr_to_socketaddr m = Some (SocketAddr_new (ip a) (port a))
      ∧ last_fingerprint m = Some f.
Proof.
  intros Hnew Hr. apply conc_reachable_ok in Hr as [_ _ _ (l & -> & Hl) Hmoved];
    [|by eapply transport_new_channel].
  split; [done|]. intros m ([a f] & -> & Haf)%list_elem_of_fmap. cbn.
  rewrite Forall_forall in Hl. destruct (Hl _ Haf) as (Hlen & b & Hb & Ha).
  exists a, f, b. split_and!; [done|done|done|done|apply new_address_dialable..].
Qed.
End correctness.

(** ** Witness *)

Module Witness.
Import MuxRef MultiaddrRef ChannelRef StunRef HexRef ErrorRef DataChannelRef CertificateRef
  TemplateRef WebRtcRef ListenerRef.
Import ConnWorker.Witness ListenerSpec.Witness System.Witness.

Definition certificate : RTCCertificate := replicate 32 Byte.xf0.
Definition t : WebRTCDirectTransport := mk_transport conf lo_v4 keys.

(** The worker's next section, and a poll of a stream, as functions *)
Definition section (c : Conc) : Conc :=
  match thread_step mux_handler (cc_worker c) (cc_world c) with
  | Some (w', p') =>
      mk_conc w' p' (cc_calls c) (cc_listeners c) (cc_handled c)
        (cc_sent c ++ added (cc_world c) w') (cc_upgrades c)
  | None => c
  end.
Definition poll_stream (i : nat) (c : Conc) : Conc :=
  match cc_listeners c !! i with
  | Some me =>
      let '(me', rx', out) := listen_poll (mk_env 0 Pending) me (new_addr_chan (cc_world c)) in
      mk_conc (set_chan rx' (cc_world c)) (cc_worker c) (cc_calls c)
        (<[i := me']> (cc_listeners c)) (cc_handled c) (cc_sent c)
        (cc_upgrades c ++ upgrades_of [out])
  | None => c
  end.

Definition at_most_a_step (c c' : Conc) : Prop := c = c' ∨ conc_step t c c'.
Lemma at_most_a_step_steps c c' : at_most_a_step c c' → rtc (conc_step t) c c'.
Proof. intros [->|?]; [done|by apply rtc_once]. Qed.

Lemma section_step c : at_most_a_step c (section c).
Proof.
  destruct c as [w p ps ls hs sent us]. unfold section. cbn.
  destruct (thread_step mux_handler p w) as [[w' p']|] eqn:Hst; [|by left].
  right. by constructor.
Qed.

Lemma poll_stream_step i c : at_most_a_step c (poll_stream i c).
Proof.
  destruct c as [w p ps ls hs sent us]. unfold poll_stream. cbn.
  destruct (ls !! i) as [me|] eqn:Hi; [|by left].
  destruct (listen_poll _ me _) as [[me' rx'] out] eqn:Hp.
  right. by eapply conc_poll.
Qed.

(** Two streams report their address; the worker, interrupted by their polls,
    reports a dialer to one of them. *)
Definition stream : WebRTCListenStream := WebRTCListenStream_new lo_v4 conf keys.
Definition listening_twice : Conc :=
  mk_conc fresh (worker_prog [Recv (Received hello other)] worker_new) [] [stream; stream]
    (handled (Recv (Received hello other)) worker_new) [] [].
Definition seen : Conc :=
  poll_stream 0 (section (poll_stream 1 (section (section (poll_stream 1 (section
    (poll_stream 0 (section listening_twice)))))))).

Example one_upgrade_seen :
  Nat.eqb (length (cc_upgrades seen)) 1 && Nat.eqb (length (cc_sent seen)) 1 = true.
Proof. vm_compute. reflexivity. Qed.

Lemma listening_reachable : rtc (conc_step t) (conc_init t fresh) listening_twice.
Proof.
  eapply rtc_l; [by apply (conc_listen_on t _ _ _ _ _ _ _ ma_empty stream)|].
  eapply rtc_l; [by apply (conc_listen_on t _ _ _ _ _ _ _ ma_empty stream)|].
  apply rtc_once. by apply (conc_select t fresh worker_new [] [stream; stream] [] [] []
    (Recv (Received hello other))).
Qed.

Lemma seen_reachable : rtc (conc_step t) (conc_init t fresh) seen.
Proof.
  transitivity listening_twice; [exact listening_reachable|].
  unfold seen. repeat lazymatch goal with
    | |- rtc _ _ (section ?c) => transitivity c; [|apply at_most_a_step_steps, section_step]
    | |- rtc _ _ (poll_stream _ ?c) => transitivity c; [|apply at_most_a_step_steps, poll_stream_step]
    end.
  apply rtc_refl.
Qed.

Lemma created : transport_new certificate keys lo_v4 empty_heap = Ok (t, fresh).
Proof. reflexivity. Qed.

Lemma interleaved_upgrades_have_messages_witness :
  ∃ m a f b, cc_sent seen = [m] ∧ m = new_address a f
             ∧ (b, a) ∈ cc_handled seen ∧ announces b f.
Proof.
  destruct (interleaved_upgrades_have_messages _ _ _ _ t fresh seen created
    seen_reachable) as [_ Hs].
  pose proof one_upgrade_seen as Hl. apply andb_prop in Hl as [_ Hl].
  destruct (cc_sent seen) as [|m [|]]; [discriminate Hl| |discriminate Hl].
  destruct (Hs m (list_elem_of_here _ _)) as (a & f & b & Hm & Hb & Ha & _).
  exists m, a, f, b. split; [reflexivity|]. split; [exact Hm|]. split; [exact Hb|exact Ha].
Defined.
End Witness.
