(* ===== verification/ConcMessage.v ===== *)
(** * What a first message leads to, under interleaving

    A dialer's first message among everything else that happens on the
    listening side: as long as nothing else claims its source or the listener's
    fragment, four sections of the worker's turn put its address into the
    channel, whatever comes between them, and the next upgrade is for it. *)

From S2P Require Import Prelude RustString Net Multiaddr Fingerprint Errors Stun.
From S2P Require Import Channel Sdp DataChannel Prog Threads UdpMux MuxSpec MuxConc.
From S2P Require Import ConnWorker WorkerConc WebRtc Connection Handshake Listener.
From S2P Require Import ListenerSpec System ConcSystem.

#[local] Open Scope rust_scope.

(** ** Model *)

Section model.
Context `{UDPMuxConnApi, SocketApi, MultiaddrApi, ChannelApi, StunApi, HexApi,
          !ErrorTypes, DataChannelApi, CertificateApi, !WebRTCApi, TemplateApi,
          IfWatchApi, DelayApi}.

(** The worker's next section, as the step [conc_worker] *)
Definition worker_section (c c' : Conc) : Prop :=
  ∃ w' p', thread_step mux_handler (cc_worker c) (cc_world c) = Some (w', p')
    ∧ c' = mk_conc w' p' (cc_calls c) (cc_listeners c) (cc_handled c)
             (cc_sent c ++ added (cc_world c) w') (cc_upgrades c).

(** No connection is routed the source, or has the listener's fragment. *)
Definition unclaimed (local : string) (addr : SocketAddr) (w : World) : Prop :=
  address_map (mux w) !! addr = None ∧ conns (mux w) !! without_colons local = None.

(** Executions that leave both unclaimed, with at least [n] sections of the
    worker *)
Inductive undisturbed (t : WebRTCDirectTransport) (local : string) (addr : SocketAddr)
  : nat → Conc → Conc → Prop :=
| und_refl c : undisturbed t local addr 0 c c
| und_section n c c1 c2 :
    worker_section c c1 → undisturbed t local addr n c1 c2 →
    undisturbed t local addr (S n) c c2
| und_step n c c1 c2 :
    conc_step t c c1 → unclaimed local addr (cc_world c1) →
    undisturbed t local addr n c1 c2 → undisturbed t local addr n c c2.

(** The upgrade after those of [c0] is for [m]: it was yielded, or the next
    poll of a stream with nothing else to report yields it. *)
Definition next_upgrade (t : WebRTCDirectTransport) (c0 c : Conc) (m : Multiaddr) : Prop :=
  let up := upgrade_for (first_stream t) m in
  cc_upgrades c !! length (cc_upgrades c0) = Some up
  ∨ cc_upgrades c = cc_upgrades c0
    ∧ ∀ i me env, cc_listeners c !! i = Some me → in_addr me = One None → pause me = None →
        ∃ rx', listen_poll env me (new_addr_chan (cc_world c))
                 = (me, rx', Ready (Some (Ok up))).

(** ** The turn that reports a source *)

Section turn.
Context (local : string) (addr : SocketAddr) (m : Multiaddr).

(** Nothing keeps the worker from reporting the source. *)
Definition ready_to_report (w : World) : Prop :=
  unclaimed local addr w ∧ (addr ∉ new_addrs (mux w))
  ∧ chan_items (new_addr_chan w) = [] ∧ chan_closed (new_addr_chan w) = false.

(** One of the next [n] events sends [m], those before it only read. *)
Fixpoint sends_within (n : nat) (p : prog muxE Worker) : Prop :=
  match n, p with
  | S n, Vis e k =>
      ∀ w, ready_to_report w →
        chan_items (new_addr_chan (mux_handler _ e w).1) = [m]
        ∨ ((mux_handler _ e w).1 = w ∧ sends_within n (k (mux_handler _ e w).2))
  | _, _ => False
  end.

(** What every step keeps, from a state that has sent [sent] and yielded [us] *)
Record reporting (t : WebRTCDirectTransport) (sent : list Multiaddr)
    (us : list ListenerEvent) (n : nat) (c : Conc) : Prop := {
  rp_ok : conc_ok t c;
  rp_upgrades : us `prefix_of` cc_upgrades c;
  rp_sent :
    (∃ rest, cc_sent c = sent ++ m :: rest)
    ∨ cc_sent c = sent ∧ ready_to_report (cc_world c) ∧ sends_within n (cc_worker c);
}.
End turn.
End model.

(** * Lemmas *)

Section lemmas.
Context `{UDPMuxConnLaws, SocketApi, MultiaddrLaws, ChannelLaws, StunApi, HexLaws,
          !ErrorTypes, DataChannelApi, CertificateApi, !WebRTCApi, TemplateApi,
          IfWatchLaws, DelayLaws}.

Lemma worker_section_step t c c' : worker_section c c' → conc_step t c c'.
Proof. destruct c. intros (w' & p' & Hst & ->). by constructor. Qed.

Lemma sends_within_S local addr m n p :
  sends_within local addr m n p → sends_within local addr m (S n) p.
Proof.
  revert p. induction n as [|n IH]; intros p; [done|].
  destruct p as [r|X e k]; [done|]. intros Hp w Hw.
  destruct (Hp w Hw) as [?|[? ?]]; [by left|right]. split; [done|]. by apply IH.
Qed.

(** The turn of a first message: two lookups, a look at the known sources, and
    the address is sent. *)
Lemma turn_sends local f d addr k :
  worker_status k = Running → greets (recv_into (buffer k) d) local f → length f = 32 →
  sends_within local addr (new_address addr f) 4 (worker_prog [Recv (Received d addr)] k).
Proof.
  intros Hk Hg Hl. cbn [worker_prog]. rewrite Hk.
  unfold handle_packet, conn_from_stun_message.
  set (b := recv_into (buffer k) d) in *.
  rewrite (proj1 Hg), (greets_ufrag _ _ _ true Hg).
  intros w [[Ha Hc] _]. right. split; [done|]. cbn. rewrite Ha. cbn.
  intros w1 [[_ Hc1] _]. right. split; [done|]. cbn. rewrite Hc1. cbn.
  intros w2 (_ & Hn & _). right. split; [done|]. rewrite bool_decide_false by done. cbn.
  destruct (greets_announces _ _ _ Hg) as (u & Hu & Hf). rewrite Hu.
  rewrite (proj2 (hex_to_cow_Done (E := UtilError) _ f)) by done. cbn.
  intros w3 (_ & _ & Hi & Ho). left. unfold try_send_new_addr.
  pose proof (try_send_empty _ _ (new_address addr f) Ho Hi) as Hs.
  destruct (try_send _ _) as [c r] eqn:E. cbn in Hs. subst r.
  destruct (try_send_items _ _ _ _ _ E) as [Hi' _]. cbn. by rewrite Hi', Hi.
Qed.

(** ** Steps *)

Section steps.
Context (t : WebRTCDirectTransport) (local : string) (addr : SocketAddr) (m : Multiaddr)
  (sent : list Multiaddr) (us : list ListenerEvent).

#[local] Abbreviation holds := (reporting local addr m t sent us).

Lemma worker_section_reporting n c c' :
  holds (S n) c → worker_section c c' → holds n c'.
Proof.
  intros [Hok Hus Hs] Hsec. split.
  { eapply conc_step_ok; [done|]. by apply worker_section_step. }
  { by destruct Hsec as (? & ? & _ & ->). }
  destruct c as [w p ps ls hs snt us']. destruct Hsec as (w' & p' & Hst & ->). cbn in *.
  destruct Hs as [[rest ->]|(-> & Hr & Hp)].
  { left. eexists. by rewrite <-app_assoc. }
  destruct p as [|X e k]; [done|]. specialize (Hp w Hr). cbn in Hst, Hp.
  pose proof Hr as (_ & _ & Hi & _).
  destruct (e w) as [w1 x]. simplify_eq/=. unfold added. rewrite Hi. destruct Hp as [->|[-> Hp]].
  - left. by exists [].
  - right. rewrite Hi, app_nil_r. done.
Qed.

Lemma reporting_S n c : holds n c → holds (S n) c.
Proof.
  intros [Hok Hus Hs]. split; [done..|].
  destruct Hs as [?|(? & ? & ?)]; [by left|right]. eauto using sends_within_S.
Qed.

(** A step that is not one of the worker *)
Lemma reporting_beside n c c' :
  holds n c → conc_step t c c' → unclaimed local addr (cc_world c') →
  cc_worker c' = cc_worker c → cc_sent c' = cc_sent c →
  cc_upgrades c `prefix_of` cc_upgrades c' →
  new_addrs (mux (cc_world c')) ⊆ new_addrs (mux (cc_world c)) →
  (chan_items (new_addr_chan (cc_world c)) = [] →
   chan_items (new_addr_chan (cc_world c')) = []) →
  chan_closed (new_addr_chan (cc_world c')) = chan_closed (new_addr_chan (cc_world c)) →
  holds n c'.
Proof.
  intros [Hok Hus Hs] Hstep Hu Hp Hsent Hups Hn Hi Ho. split.
  - by eapply conc_step_ok.
  - by etrans.
  - rewrite Hp, Hsent. destruct Hs as [?|(? & (_ & Hn1 & Hi1 & Ho1) & ?)]; [by left|right].
    split; [done|]. split; [|done]. split_and!; [done|set_solver|auto|by rewrite Ho].
Qed.

Lemma conc_step_reporting n c c' :
  holds n c → conc_step t c c' → unclaimed local addr (cc_world c') → holds n c'.
Proof.
  intros Hc Hstep Hu. pose proof Hc as [[_ Hps _ _ _] Hus Hs]. pose proof Hstep as Hcase.
  destruct Hcase as [w k ps ls hs snt us' ev _ _|w p ps ls hs snt us' w' p' Hst
    | |w p ps ls hs snt us' i q w' q' Hi Hst| | | |
    |w p ps ls hs snt us' i me env me' rx' out Hi Hpoll];
    try by (eapply reporting_beside; [done..|reflexivity| | |]).
  - split; [by eapply conc_step_ok; [apply Hc|]|done|].
    destruct Hs as [?|(_ & _ & Hk)]; [by left|by destruct n].
  - eapply worker_section_reporting; [by apply reporting_S|]. by exists w', p'.
  - destruct (guarantees_step _ _ _ _ _ (Forall_lookup_1 _ _ _ _ Hps Hi) Hst) as [[Hw Hn] _].
    eapply reporting_beside; [done..|reflexivity|done| |]; cbn; by rewrite Hw.
  - destruct (poll_case_moved _ _ _ _ _ _ (listen_poll_case _ _ _ _ _ _ Hpoll)) as
      [_ (Ho & _ & rs & _ & Hi')]. rewrite app_nil_r in Hi'.
    eapply reporting_beside; [done..|by apply prefix_app_r|done| |done]. cbn.
    rewrite <-Hi'. by intros [_ ?]%app_nil.
Qed.

Lemma undisturbed_reporting n k c c' :
  undisturbed t local addr n c c' → holds k c → holds (k - n) c'.
Proof.
  intros Hr. revert k. induction Hr as [c|n c c1 c2 Hsec _ IH|n c c1 c2 Hst Hu _ IH];
    intros k Hc.
  - by rewrite Nat.sub_0_r.
  - replace (k - S n) with (pred k - n) by lia. apply IH. destruct k as [|k].
    + by eapply worker_section_reporting; [apply reporting_S|].
    + by eapply worker_section_reporting.
  - apply IH. by eapply conc_step_reporting.
Qed.
End steps.

(** The address that was sent is the next one to be yielded. *)
Lemma sent_next_upgrade t c0 c m rest :
  conc_ok t c0 → conc_ok t c → chan_items (new_addr_chan (cc_world c0)) = [] →
  cc_upgrades c0 `prefix_of` cc_upgrades c → cc_sent c = cc_sent c0 ++ m :: rest →
  next_upgrade t c0 c m.
Proof.
  intros [_ _ _ _ (rs0 & Hu0 & Hs0)] [_ _ Hls _ (rs & Hu & Hs)] Hi [us Hus] Hsent.
  rewrite Hi, app_nil_r in Hs0. subst rs0. unfold next_upgrade. rewrite Hsent in Hs.
  assert (length rs = length (cc_sent c0) + length us) as Hl.
  { apply (f_equal length) in Hus. by rewrite Hu, Hu0, length_app, !length_fmap in Hus. }
  destruct us as [|u us]; cbn in Hl.
  - right. split; [by rewrite Hus, app_nil_r|]. intros i me env Hme Hone Hp.
    apply app_inj_1 in Hs as [_ Hs]; [|lia]. rewrite idle_poll by done.
    destruct (poll_next _) as [rx' p] eqn:Hn.
    destruct (poll_next_items _ _ _ _ Hn) as [_ Hn']. rewrite Hs in Hn'.
    destruct p as [[m'|]|]; [|by destruct Hn'..]. injection Hn' as <- _. eexists.
    by rewrite (upgrade_for_same (first_stream t) me) by exact (Forall_lookup_1 _ _ _ _ Hls Hme).
  - left. rewrite Hu, Hu0, length_fmap, list_lookup_fmap.
    assert ((rs ++ chan_items (new_addr_chan (cc_world c))) !! length (cc_sent c0) = Some m)
      as Hm by by rewrite Hs, list_lookup_middle.
    rewrite lookup_app_l in Hm by lia. by rewrite Hm.
Qed.

Lemma sends_within_goes_on local addr m n c :
  sends_within local addr m n (cc_worker c) → ∃ c', worker_section c c'.
Proof.
  destruct c as [w [|X e k] ps ls hs sent us]; [by destruct n|]. intros _.
  destruct (mux_handler X e w) as [w' x] eqn:He.
  eexists. exists w', (k x). split; [|done]. cbn in *. by rewrite He.
Qed.
End lemmas.

(** * Correctness *)

Section correctness.
Context `{UDPMuxConnLaws, SocketApi, MultiaddrLaws, ChannelLaws, StunApi, HexLaws,
          !ErrorTypes, DataChannelApi, CertificateApi, !WebRTCApi, TemplateApi,
          IfWatchLaws, DelayLaws, !UdpSocketApi}.

(** C7: a listener receives the first message of a dialer, from a source it has
    not reported, while its channel is empty. As long as no connection is
    routed that source or has the listener's own fragment, whatever the calls,
    the closing connections, their watchers and the streams do between the
    worker's sections: the worker is never kept from its next section, and
    after four of them the next upgrade is for that source, with the
    dialer's fingerprint: a stream has yielded it, or the next poll of any
    stream with nothing else to report yields it. *)
Theorem first_message_becomes_next_upgrade cert keys bind h t w c0 k d addr local f n c :
  transport_new cert keys bind h = Ok (t, w) → rtc (conc_step t) (conc_init t w) c0 →
  cc_worker c0 = worker_prog [Recv (Received d addr)] k → worker_status k = Running →
  greets (recv_into (buffer k) d) local f → length f = 32 →
  ready_to_report local addr (cc_world c0) → undisturbed t local addr n c0 c →
  let m := new_address addr f in
  next_upgrade t c0 c m ∨ n < 4 ∧ ∃ c', worker_section c c'.
Proof.
  intros Hnew Hr Hw Hk Hg Hl Hready Hu m.
  assert (conc_ok t c0) as Hok.
  { eapply conc_reachable_ok; [|exact Hr]. by eapply transport_new_channel. }
  assert (reporting local addr m t (cc_sent c0) (cc_upgrades c0) 4 c0) as Hc0.
  { split; [done..|]. right. split; [done|]. split; [done|]. rewrite Hw.
    by apply turn_sends. }
  apply (undisturbed_reporting _ _ _ _ _ _ _ _ _ _ Hu) in Hc0 as [Hok' Hus Hs].
  destruct Hs as [[rest Hs]|(_ & _ & Hs)].
  - left. eapply sent_next_upgrade; [done..| |done|done]. by destruct Hready as (_ & _ & ? & _).
  - right. split; [|by eapply sends_within_goes_on].
    destruct (decide (n < 4)) as [|Hn]; [done|]. by replace (4 - n) with 0 in Hs by lia.
Qed.
End correctness.

(** ** Witness *)

Module Witness.
Import MuxRef MultiaddrRef ChannelRef StunRef HexRef ErrorRef DataChannelRef CertificateRef
  TemplateRef WebRtcRef ListenerRef.
Import ConnWorker.Witness ListenerSpec.Witness System.Witness ConcSystem.Witness.

(** The worker's sections, interrupted by a poll of each stream and by a
    [get_conn] of another fragment *)
Definition start_call (op : mux_op) (c : Conc) : Conc :=
  mk_conc (cc_world c) (cc_worker c) (cc_calls c ++ [op_prog op]) (cc_listeners c)
    (cc_handled c) (cc_sent c) (cc_upgrades c).
Definition called : Conc :=
  start_call (OpGetConn "a") (poll_stream 0 (section listening_twice)).
Definition call_section (c : Conc) : Conc :=
  match cc_calls c !! 0 with
  | Some q =>
      match thread_step mux_handler q (cc_world c) with
      | Some (w', q') =>
          mk_conc w' (cc_worker c) (<[0 := q']> (cc_calls c)) (cc_listeners c)
            (cc_handled c) (cc_sent c) (cc_upgrades c)
      | None => c
      end
  | None => c
  end.
Definition interleaved : Conc :=
  section (poll_stream 1 (section (section (call_section (call_section called))))).

Lemma start_call_step op c : at_most_a_step c (start_call op c).
Proof. destruct c. right. constructor. Qed.

Lemma call_section_step c : at_most_a_step c (call_section c).
Proof.
  destruct c as [w p ps ls hs sent us]. unfold call_section. cbn.
  destruct (ps !! 0) as [q|] eqn:Hi; [|by left].
  destruct (thread_step mux_handler q w) as [[w' q']|] eqn:Hst; [|by left].
  right. by econstructor.
Qed.

(** The functions take the steps of an undisturbed execution. *)
Definition goes_on (c : Conc) : bool :=
  if thread_step mux_handler (cc_worker c) (cc_world c) is Some _ then true else false.
Definition free (c : Conc) : bool :=
  bool_decide (address_map (mux (cc_world c)) !! other = None)
  && bool_decide (conns (mux (cc_world c)) !! without_colons our = None).

Lemma und_section_of n c c' :
  goes_on c = true →
  undisturbed t our other n (section c) c' → undisturbed t our other (S n) c c'.
Proof.
  intros Hst. apply und_section. unfold goes_on, section, worker_section in *.
  destruct (thread_step _ _ _) as [[w' p']|]; [|done]. by exists w', p'.
Qed.

Lemma und_step_of n c c1 c' :
  at_most_a_step c c1 → free c1 = true →
  undisturbed t our other n c1 c' → undisturbed t our other n c c'.
Proof.
  intros [->|Hst] [Ha%bool_decide_eq_true Hc%bool_decide_eq_true]%andb_prop; [done|].
  by apply und_step.
Qed.

Lemma interleaved_undisturbed : undisturbed t our other 4 listening_twice interleaved.
Proof.
  apply und_section_of; [vm_compute; reflexivity|].
  unfold interleaved, called.
  eapply und_step_of; [apply (poll_stream_step 0)|vm_compute; reflexivity|].
  eapply und_step_of; [apply (start_call_step (OpGetConn "a"))|vm_compute; reflexivity|].
  do 2 (eapply und_step_of; [apply call_section_step|vm_compute; reflexivity|]).
  do 2 (apply und_section_of; [vm_compute; reflexivity|]).
  eapply und_step_of; [apply (poll_stream_step 1)|vm_compute; reflexivity|].
  apply und_section_of; [vm_compute; reflexivity|]. apply und_refl.
Qed.

Lemma first_message_becomes_next_upgrade_witness :
  next_upgrade t listening_twice interleaved (new_address other fingerprint).
Proof.
  assert (greets (recv_into (buffer worker_new) hello) our fingerprint) as Hg.
  { split; [vm_compute; reflexivity|].
    exists (into_bytes (username (without_colons our)
      (without_colons (fingerprint_to_string fingerprint)))).
    split; [|split]; vm_compute; reflexivity. }
  assert (ready_to_report our other (cc_world listening_twice)) as Hready.
  { split; [split; reflexivity|]. split; [apply not_elem_of_empty|split; reflexivity]. }
  destruct (first_message_becomes_next_upgrade _ _ _ _ t fresh
    listening_twice worker_new hello other our fingerprint 4 interleaved created
    listening_reachable eq_refl eq_refl Hg eq_refl Hready interleaved_undisturbed)
    as [Hn|[Hlt _]]; [exact Hn|lia].
Defined.
End Witness.
