(* ===== verification/Connect.v ===== *)
(** * Two transports that connect

    The tests of [src/transport.rs] as definitions and theorems: the cases of
    [multiaddr_to_socketaddr_conversion], and [connect], which creates a
    listener, takes the address it reports, adds its fingerprint and peer id
    and dials that from a second transport. *)

From S2P Require Import Prelude RustString Net Multiaddr Fingerprint Errors Stun.
From S2P Require Import Channel Sdp DataChannel Prog UdpMux MuxSpec ConnWorker.
From S2P Require Import WebRtc Connection Handshake HandshakeErrors HandshakeSpec.
From S2P Require Import Listener ListenerSpec System.

#[local] Open Scope rust_scope.

(** ** The cases of [multiaddr_to_socketaddr_conversion]

    Each address as the components its text is parsed to. *)

Definition test_fingerprint : list byte :=
  default [] (hex_decode "ACD1E533EC271FCDE0275947F4D62A2B2331FF10C9DDE0298EB7B399B4BFF60B").

Definition localhost : Ipv4Addr := mk_v4 127 0 0 1.
Definition all_ones : Ipv6Addr := mk_v6 65535 65535 65535 65535 65535 65535 65535 65535.

Definition conversion_cases : list (list Protocol * option SocketAddr) :=
  [ ([Ip4 localhost; Udp 1234], None);
    ([Ip4 localhost; Udp 12345; XWebRTC test_fingerprint], Some (V4 localhost 12345));
    ([Ip4 localhost; OtherProtocol "tcp/12345"; XWebRTC test_fingerprint], None);
    ([Ip4 localhost; Udp 12345; XWebRTC test_fingerprint; OtherProtocol "tcp/12345"], None);
    ([Ip4 (mk_v4 255 255 255 255); Udp 8080; XWebRTC test_fingerprint],
      Some (V4 (mk_v4 255 255 255 255) 8080));
    ([Ip6 (mk_v6 0 0 0 0 0 0 0 1); Udp 12345; XWebRTC test_fingerprint],
      Some (V6 (mk_v6 0 0 0 0 0 0 0 1) 12345 0 0));
    ([Ip6 all_ones; Udp 8080; XWebRTC test_fingerprint], Some (V6 all_ones 8080 0 0)) ]%Z.

Definition ma_of `{MultiaddrApi} (l : list Protocol) : Multiaddr := foldl ma_with ma_empty l.

(** ** [connect] *)

(** [Protocol::P2p(peer.into())], which [PeerId::try_from_multiaddr] reads *)
Class PeerIdApi `{MultiaddrApi} := peer_hash : PeerId → list byte.
Class PeerIdLaws `{PeerIdApi} : Prop :=
  try_from_with_p2p m p : try_from_multiaddr (ma_with m (P2p (peer_hash p))) = Some p.

Section connect.
Context `{UDPMuxConnApi, SocketApi, MultiaddrApi, ChannelApi, StunApi, HexApi,
          !ErrorTypes, DataChannelApi, CertificateApi, !WebRTCApi, TemplateApi,
          IfWatchApi, DelayApi, !UdpSocketApi, !PeerIdApi}.

Definition into_new_address (ev : ListenerEvent) : option Multiaddr :=
  match ev with NewAddress m => Some m | _ => None end.

(** The listener and the address of its first event; every step that does not
    go as expected panics. *)
Definition connect_listener {E} (env : Env) (t : WebRTCDirectTransport) (rx : Chan Multiaddr)
    : outcome E (WebRTCListenStream * Chan Multiaddr * Multiaddr) :=
  me ← unwrap (listen_on t (ip_to_multiaddr (ip (udp_mux_addr t)) (port (udp_mux_addr t))));
  let '(me, rx, p) := listen_poll env me rx in
  ev ← unwrap_opt (event_of p);
  addr ← unwrap_opt (into_new_address ev);
  if bool_decide (ma_iter addr !! 1 = Some (Udp 0)) then Panic else Done (me, rx, addr).

(** The address to dial: with the listener's fingerprint and peer id *)
Definition dial_address {E} (t : WebRTCDirectTransport) (addr : Multiaddr) (peer : PeerId)
    : outcome E Multiaddr :=
  fingerprint ← cert_fingerprint t;
  f ← hex_to_cow (without_colons fingerprint);
  Done (ma_with (ma_with addr (XWebRTC f)) (P2p (peer_hash peer))).

(** The outbound future, with the stream the inbound one takes; creating the
    transports is [transport_new], and [t1] and [t2] are what it returned. *)
Definition connect {E} (env : Env) (t1 t2 : WebRTCDirectTransport) (rx : Chan Multiaddr)
    (peer : PeerId)
    : outcome E (WebRTCListenStream * Chan Multiaddr * may rtcE Error (PeerId * Connection)) :=
  l ← connect_listener env t1 rx;
  let '(me, rx, addr) := l in
  addr ← dial_address t1 addr peer;
  outbound ← unwrap (dial t2 addr);
  Done (me, rx, outbound).

(** The inbound future, over the answers of the stream: it takes the first
    upgrade, which it then awaits, and panics if the stream fails or ends
    before; [None] is that there is none yet. *)
Definition into_upgrade (ev : ListenerEvent)
    : option (may rtcE Error (PeerId * Connection) * Multiaddr) :=
  match ev with Upgrade _ remote upgrade => Some (upgrade, remote) | _ => None end.

Fixpoint first_upgrade {E} (outs : list (poll (option ListenItem)))
    : option (outcome E (may rtcE Error (PeerId * Connection))) :=
  match outs with
  | [] => None
  | Pending :: outs => first_upgrade outs
  | Ready None :: _ => Some Panic
  | Ready (Some (Err _)) :: _ => Some Panic
  | Ready (Some (Ok ev)) :: outs =>
      match into_upgrade ev with
      | Some (conn, _) => Some (Done conn)
      | None => first_upgrade outs
      end
  end.

Definition inbound {E} (ts : list Turn) (me : WebRTCListenStream) (rx : Chan Multiaddr)
    : option (outcome E (may rtcE Error (PeerId * Connection))) :=
  first_upgrade (listen_run ts me rx).1.2.

(** [a.and(b).unwrap()] on what the two futures joined gave *)
Definition both {E A B} (a : outcome Error A) (b : outcome Error B) : outcome E B :=
  match a, b with
  | Done _, Done b => Done b
  | _, _ => Panic
  end.

(** What the libraries answer to the calls of one handshake *)
Record Answers := {
  an_pc : RTCPeerConnection;
  an_made : RTCSessionDescription;
  an_parsed : RTCSessionDescription;
  an_dc : RTCDataChannel;
  an_detached : DetachedDataChannel;
  an_keys : AuthenticKeypair;
  an_info : NoiseInfo;
  an_io : NoiseOutput;
}.

(** A listening transport as [connect] needs it: just created, on a bound
    address that is not a wildcard, with a SHA-256 certificate *)
Record listening (t : WebRTCDirectTransport) (w : World) (f : list byte) : Prop := {
  l_created : ∃ cert keys addr h, transport_new cert keys addr h = Ok (t, w);
  l_specified : is_unspecified (ip (udp_mux_addr t)) = false;
  l_port : port (udp_mux_addr t) ≠ 0%Z;
  l_certificate :
    fingerprint_of_first_certificate (E := Error) (config t) = Done (fingerprint_to_string f);
  l_sized : length f = 32;
}.
End connect.

(** * Lemmas *)

Section lemmas.
Context `{UDPMuxConnLaws, SocketApi, MultiaddrLaws, ChannelLaws, StunApi, HexLaws,
          !ErrorTypes, DataChannelApi, CertificateApi, !WebRTCApi, TemplateLaws,
          IfWatchLaws, DelayLaws, !UdpSocketApi, !PeerIdApi, !PeerIdLaws}.

Lemma iter_ma_of l : ma_iter (ma_of l) = l.
Proof.
  unfold ma_of. rewrite <-(app_nil_l l) at 2. rewrite <-iter_empty.
  generalize ma_empty. induction l as [|p l IH]; intros m; cbn; [by rewrite app_nil_r|].
  by rewrite IH, iter_with, <-app_assoc.
Qed.

Lemma certificate_any {E} t f :
  fingerprint_of_first_certificate (E := Error) (config t) = Done f →
  cert_fingerprint (E := E) t = Done f.
Proof.
  unfold cert_fingerprint, fingerprint_of_first_certificate.
  destruct (head _); cbn; [|done]. destruct (get_fingerprints _); cbn; [|done].
  destruct (head _); cbn; [|done]. by intros [= ->].
Qed.

(** The stream of a listener on one address, after its first event *)
Definition settled (t : WebRTCDirectTransport) : WebRTCListenStream :=
  set_in_addr (One None) (WebRTCListenStream_new (udp_mux_addr t) (config t) (id_keys t)).

Lemma connect_Done {E} env t1 t2 w f rx peer :
  listening t1 w f →
  ∃ a, connect (E := E) env t1 t2 rx peer
         = Done (settled t1, rx, do_dial (config t2) (id_keys t2) a)
       ∧ ma_iter a = webrtc_components (ip (udp_mux_addr t1)) (port (udp_mux_addr t1)) f
                       [peer_hash peer]
       ∧ try_from_multiaddr a = Some peer.
Proof.
  intros [_ Hu Hp Hc Hl]. unfold connect, connect_listener, listen_on.
  cbn [unwrap mbind outcome_bind].
  unfold settled, WebRTCListenStream_new. rewrite Hu. unfold listen_poll. cbn.
  rewrite iter_ip_to_multiaddr. cbn. rewrite bool_decide_false by naive_solver.
  unfold dial_address. cbn. rewrite (certificate_any _ _ Hc). cbn.
  rewrite hex_to_cow_fingerprint by done. cbn. eexists. split; [done|]. split.
  - by rewrite !iter_with, iter_ip_to_multiaddr.
  - apply try_from_with_p2p.
Qed.

(** A stream never fails, so the inbound future finds its first upgrade. *)
Lemma poll_case_no_error env me rx me' rx' out e :
  poll_case env me rx me' rx' out → out ≠ Ready (Some (Err e)).
Proof.
  assert (∀ me me' rx rx' out, poll_upgrades env me rx = (me', rx', out) →
    out ≠ Ready (Some (Err e))) as Hu.
  { unfold poll_upgrades. intros. repeat case_match; by simplify_eq. }
  destruct 1; eauto.
Qed.

Lemma listen_run_no_error ts me rx me' rx' outs taken e :
  listen_run ts me rx = (me', rx', outs, taken) → Ready (Some (Err e)) ∉ outs.
Proof.
  revert me rx me' rx' outs taken.
  induction ts as [|t ts IH]; intros me rx me' rx' outs taken; cbn.
  { intros [= <- <- <- <-]. apply not_elem_of_nil. }
  destruct (send_all (t_sent t) rx) as [rx1 tk].
  destruct (listen_poll _ _ rx1) as [[me2 rx2] out] eqn:Hl.
  destruct (listen_run ts me2 rx2) as [[[me3 rx3] outs'] tk'] eqn:Hr.
  intros [= <- <- <- <-]. apply listen_poll_case in Hl.
  apply not_elem_of_cons. split; [|by eapply IH].
  intros E. by eapply poll_case_no_error in Hl.
Qed.

Lemma first_upgrade_spec {E} outs :
  (∀ e, Ready (Some (Err e)) ∉ outs) → Ready None ∉ outs →
  first_upgrade (E := E) outs =
    (ev ← head (upgrades_of outs); u ← into_upgrade ev; Some (Done u.1)).
Proof.
  induction outs as [|out outs IH]; intros He Hn; [done|].
  rewrite upgrades_of_cons. apply not_elem_of_cons in Hn as [Ho Hn].
  assert (∀ e, Ready (Some (Err e)) ∉ outs) as He'.
  { intros e Hin. apply (He e). by right. }
  specialize (IH He' Hn). destruct out as [[[ev|e]|]|]; cbn [first_upgrade]; try done.
  - by destruct ev.
  - destruct (He e). by left.
Qed.

Lemma sized_components a i p f hs :
  ma_iter a = webrtc_components i p f hs → length f = 32 → fingerprints_sized a.
Proof.
  intros Ha Hf g Hg. rewrite Ha in Hg. unfold webrtc_components in Hg.
  rewrite elem_of_app, !elem_of_cons in Hg.
  destruct Hg as [[Hi|[Hu|[Hx|Hn]]]|Hs].
  - destruct i; by rewrite ?ip_into_v4, ?ip_into_v6 in Hi.
  - done.
  - by injection Hx as ->.
  - by apply elem_of_nil in Hn.
  - by apply list_elem_of_fmap in Hs as (? & ? & _).
Qed.

(** A dial never refuses an address of the right shape. *)
Lemma do_dial_not_refused cfg keys a sa tr :
  multiaddr_to_socketaddr a = Some sa → port sa ≠ 0%Z → is_unspecified (ip sa) = false →
  ¬ exec (do_dial cfg keys a) tr (Fail (InvalidMultiaddr a)).
Proof.
  intros Ha Hp Hu Hx.
  apply (do_dial_accepted _ _ _ sa) in Hx as (tr' & ev & _ & _ & Hb); [|done|].
  - inversion Hb as [? ? ? Hf| | | |]; subst.
    destruct ev as [X []]; cbn in Hf; repeat case_match; simplify_eq; try done;
      unfold err_of in Hf; repeat case_match; by simplify_eq.
  - apply orb_false_iff. split; [by apply Z.eqb_neq|done].
Qed.
Lemma length_sha256 f : length f = 32 → String.length (fingerprint_to_string f) = 95.
Proof. intros Hf. rewrite length_fingerprint_to_string by (by intros ->). lia. Qed.

Lemma created_empty cert keys addr h t w :
  transport_new cert keys addr h = Ok (t, w) →
  conns (mux w) = ∅ ∧ address_map (mux w) = ∅ ∧ new_addrs (mux w) = ∅
  ∧ new_addr_chan w = channel 1.
Proof.
  unfold transport_new. destruct (udp_bind addr); [|done]. cbn.
  destruct (udp_local_addr _); [|done]. cbn. by intros [= <- <-].
Qed.

(** A dialer's message at a fresh listener is the upgrade of its next poll. *)
Lemma first_message_polled env t w f1 f2 d src :
  listening t w f1 → length f2 = 32 →
  greets (recv_into (buffer worker_new) d) (fingerprint_to_string f1) f2 →
  (try_send (new_addr_chan w) (new_address src f2)).2 = Ok () →
  let '(_, w') := worker_turn (Recv (Received d src)) worker_new w in
  ∃ rx', listen_poll env (settled t) (new_addr_chan w')
    = (settled t, rx', Ready (Some (Ok (upgrade_for (settled t) (new_address src f2))))).
Proof.
  intros (cert & keys & la & h & Hnew)%l_created Hf2.
  assert (worker_status worker_new = Running) as Hk by done.
  revert Hk. generalize worker_new. intros k Hk Hg Hsend.
  apply created_empty in Hnew as (Hcs & Ham & Hna & Hch).
  assert (lookup_conn (recv_into (buffer k) d) src (mux w) = None) as Hlook.
  { rewrite (greets_lookup _ _ _ _ _ Hg); by rewrite ?Hcs, ?Ham, lookup_empty. }
  pose proof (worker_reports_message d src k w f2 Hk Hlook
    ltac:(rewrite Hna; set_solver) (greets_announces _ _ _ Hg) Hf2 Hsend) as Hw.
  destruct (worker_turn _ k w) as [k' w']. destruct Hw as (_ & Hit & _).
  rewrite Hch, channel_empty in Hit. cbn in Hit.
  pose proof (idle_poll env (settled t) (new_addr_chan w') eq_refl eq_refl) as Hpoll.
  destruct (poll_next (new_addr_chan w')) as [rx' p] eqn:Hnx.
  apply poll_next_items in Hnx as [_ Hnx]. rewrite Hit in Hnx.
  destruct p as [[m|]|]; [|by destruct Hnx..]. injection Hnx as <- _. by eexists.
Qed.
End lemmas.

(** * Correctness *)

Section correctness.
Context `{UDPMuxConnLaws, SocketApi, MultiaddrLaws, ChannelLaws, StunApi, HexLaws,
          !ErrorTypes, DataChannelApi, CertificateApi, !WebRTCApi, TemplateLaws,
          IfWatchLaws, DelayLaws, !UdpSocketApi, !PeerIdApi, !PeerIdLaws}.

(** The unit test of the conversion to a socket address, case by case. *)
Theorem multiaddr_to_socketaddr_conversion :
  Forall (λ c, multiaddr_to_socketaddr (ma_of c.1) = c.2) conversion_cases.
Proof.
  unfold multiaddr_to_socketaddr. repeat apply Forall_cons_2; try apply Forall_nil_2;
    cbn [fst snd]; by rewrite iter_ma_of.
Qed.

(** C13: [connect] never panics: the listener's first event is its address, and
    the address extended with its fingerprint and peer id is one that a dial
    does not refuse, that names the listener's certificate, and whose dials
    complete with that peer only, after reading that fingerprint. *)
Theorem connect_dials_listener {E} env t1 t2 w f rx peer :
  listening t1 w f →
  ∃ a, connect (E := E) env t1 t2 rx peer
         = Done (settled t1, rx, do_dial (config t2) (id_keys t2) a)
    ∧ names_certificate a (config t1) ∧ fingerprints_sized a
    ∧ ∀ tr, let dials := exec (do_dial (config t2) (id_keys t2) a) tr in
        ¬ dials (Fail (InvalidMultiaddr a))
        ∧ ∀ p conn, dials (Done (p, conn)) →
            p = peer ∧ all_read tr = into_bytes (fingerprint_to_string f).
Proof.
  intros Hl. destruct (connect_Done (E := E) env t1 t2 w f rx peer Hl)
    as (a & Hc & Hm & Hpeer).
  pose proof (webrtc_components_accepted _ _ _ _ _ Hm) as Hsa.
  pose proof (webrtc_components_fingerprint _ _ _ _ _ Hm) as Hf.
  exists a. split_and!.
  - exact Hc.
  - exists f. split; [done|]. apply (l_certificate _ _ _ Hl).
  - eapply sized_components; [done|apply (l_sized _ _ _ Hl)].
  - intros tr dials. split.
    + eapply do_dial_not_refused; [done|..]; rewrite ?port_new, ?ip_new; apply Hl.
    + intros p conn Hd%do_dial_Done. split_hyps. subst. rewrite dial_trace_read.
      split; congruence.
Qed.

(** What [inbound] awaits is the [upgrade::webrtc] of the first address that is
    in the channel or is taken by it, once the stream has yielded it; while the
    worker runs it does not panic. *)
Theorem inbound_awaits_first_address {E} ts me rx me' rx' outs taken :
  chan_closed rx = false → listen_run ts me rx = (me', rx', outs, taken) →
  inbound (E := E) ts me rx = None ∧ upgrades_of outs = []
  ∨ ∃ m, head (chan_items rx ++ taken) = Some m
         ∧ inbound (E := E) ts me rx = Some (Done (webrtc (listen_config me) m (listen_keys me))).
Proof.
  intros Hc Hr. unfold inbound. rewrite first_upgrade_spec; rewrite Hr; cbn [fst snd].
  - apply listen_run_moved in Hr as (_ & _ & _ & remotes & -> & <-).
    destruct remotes as [|m remotes]; [by left|right]. by exists m.
  - intros e. by eapply listen_run_no_error.
  - apply listen_run_moved in Hr as (_ & _ & Hn & _). intros Hin%Hn. congruence.
Qed.

(** C5: two honest peers can connect: when the dialer's first message reaches
    the fresh listener, the next poll yields an upgrade, and there are
    executions of the dial of [connect] and of that upgrade, with any answers
    of the libraries, that complete with the identities Noise authenticated and
    whose streams carry to each side exactly what the other wrote. *)
Theorem honest_pair_connects env env' t1 t2 w f1 f2 d src (x1 x2 : Answers) pk1 pk2 :
  listening t1 w f1 →
  fingerprint_of_first_certificate (E := Error) (config t2) = Done (fingerprint_to_string f2) →
  length f2 = 32 →
  head (protocol_info (an_keys x1)) = Some (an_info x1) →
  head (protocol_info (an_keys x2)) = Some (an_info x2) →
  greets (recv_into (buffer worker_new) d) (fingerprint_to_string f1) f2 →
  (try_send (new_addr_chan w) (new_address src f2)).2 = Ok () →
  let '(_, w') := worker_turn (Recv (Received d src)) worker_new w in
  ∃ a rx' tr1 tr2,
    connect (E := Error) env t1 t2 (new_addr_chan w') (to_peer_id pk1)
      = Done (settled t1, new_addr_chan w', do_dial (config t2) (id_keys t2) a)
    ∧ listen_poll env' (settled t1) (new_addr_chan w')
      = (settled t1, rx', Ready (Some (Ok (upgrade_for (settled t1) (new_address src f2)))))
    ∧ exec (do_dial (config t2) (id_keys t2) a) tr2
        (Done (to_peer_id pk1, mk_connection (an_pc x2) DataChannelsInner_new))
    ∧ exec (webrtc (config t1) (new_address src f2) (id_keys t1)) tr1
        (Done (to_peer_id pk2, mk_connection (an_pc x1) DataChannelsInner_new))
    ∧ faithful_stream tr1 tr2 ∧ faithful_stream tr2 tr1
    ∧ read_exact_fills tr1 ∧ read_exact_fills tr2.
Proof.
  intros Hl Hc2 Hf2 Hi1 Hi2 Hg Hsend.
  pose proof (first_message_polled env' t1 w f1 f2 d src Hl Hf2 Hg Hsend) as Hpoll.
  destruct (worker_turn _ worker_new w) as [k' w']. destruct Hpoll as [rx' Hpoll].
  destruct (connect_Done (E := Error) env t1 t2 w f1 (new_addr_chan w') (to_peer_id pk1) Hl)
    as (a & Hc & Hm & Hpeer).
  pose proof (webrtc_components_accepted _ _ _ _ _ Hm) as Hsa.
  pose proof (webrtc_components_fingerprint _ _ _ _ _ Hm) as Hf.
  pose proof (new_address_components src f2) as Hn.
  destruct Hl as [_ Hu Hp Hc1 Hf1].
  exists a, rx', (upgrade_trace (config t1) (id_keys t1) (SocketAddr_new (ip src) (port src))
    (fingerprint_to_string f1) f2 (an_pc x1) (an_parsed x1) (an_made x1) (an_dc x1)
    (an_detached x1) (an_keys x1) (an_info x1) pk2 (an_io x1) 95),
    (dial_trace (config t2) (id_keys t2) (SocketAddr_new (ip (udp_mux_addr t1))
      (port (udp_mux_addr t1))) (fingerprint_to_string f2) f1
      (an_pc x2) (an_made x2) (an_parsed x2) (an_dc x2) (an_detached x2) (an_keys x2)
      (an_info x2) pk1 (an_io x2) 95).
  split_and!.
  - exact Hc.
  - exact Hpoll.
  - apply do_dial_completes; rewrite ?port_new, ?ip_new; done.
  - apply webrtc_completes; [by eapply webrtc_components_accepted|done| |done].
    by rewrite (webrtc_components_last _ _ _ _ _ Hn).
  - unfold faithful_stream. rewrite upgrade_trace_read, dial_trace_written.
    rewrite take_ge by (rewrite length_into_bytes, length_sha256 by done; lia). done.
  - unfold faithful_stream. rewrite dial_trace_read, upgrade_trace_written.
    rewrite take_ge by (rewrite length_into_bytes, length_sha256 by done; lia). done.
  - apply upgrade_trace_filled. by apply length_sha256.
  - apply dial_trace_filled. by apply length_sha256.
Qed.
End correctness.

(** ** Witnesses *)

Module Witness.
Import MuxRef MultiaddrRef ChannelRef StunRef HexRef ErrorRef DataChannelRef CertificateRef
  TemplateRef WebRtcRef ListenerRef.
Import ConnWorker.Witness ListenerSpec.Witness System.Witness.

#[export] Instance peer_id_api : PeerIdApi := λ p, p.
#[export] Instance peer_id_laws : PeerIdLaws.
Proof. intros m p. cbn. by rewrite last_snoc. Qed.

(** A listener on the loopback interface and a dialer *)
Definition f_listener : list byte := replicate 32 Byte.xf0.
Definition t1 : WebRTCDirectTransport := mk_transport (mk_config [f_listener]) lo_v4 keys.
Definition w1 : World := mux_new (UDPMuxParams_new (socket lo_v4)) empty_heap (channel 1).
Definition t2 : WebRTCDirectTransport := mk_transport (mk_config [fingerprint]) other keys.
Definition pk1 : PublicKey := [Byte.x07].
Definition pk2 : PublicKey := [Byte.x09].

Lemma t1_listening : listening t1 w1 f_listener.
Proof. split; try done. by exists f_listener, keys, lo_v4, empty_heap. Qed.

Lemma connect_dials_listener_witness :
  ∃ a, connect (E := Error) (mk_env 0 Pending) t1 t2 (channel 1) (to_peer_id pk1)
         = Done (settled t1, channel 1, do_dial (config t2) (id_keys t2) a)
       ∧ names_certificate a (config t1).
Proof.
  destruct (connect_dials_listener (E := Error) (mk_env 0 Pending) t1 t2 w1 f_listener
    (channel 1) (to_peer_id pk1) t1_listening) as (a & Hc & Hn & _).
  exists a. split; [exact Hc|exact Hn].
Defined.

Lemma hello_greets_new :
  greets (recv_into (buffer worker_new) hello) (fingerprint_to_string f_listener) fingerprint.
Proof.
  split; [vm_compute; reflexivity|].
  exists (into_bytes (username (without_colons our)
    (without_colons (fingerprint_to_string fingerprint)))).
  split; [|split]; vm_compute; reflexivity.
Qed.

Definition answers : Answers :=
  {| an_pc := 0; an_made := "made"; an_parsed := "parsed"; an_dc := 0; an_detached := 0%Z;
     an_keys := [Byte.x01]; an_info := "/noise"; an_io := 0 |}.

Lemma honest_pair_connects_witness :
  ∃ a tr1 tr2,
    exec (do_dial (config t2) (id_keys t2) a) tr2
      (Done (to_peer_id pk1, mk_connection (an_pc answers) DataChannelsInner_new))
    ∧ exec (webrtc (config t1) (new_address other fingerprint) (id_keys t1)) tr1
        (Done (to_peer_id pk2, mk_connection (an_pc answers) DataChannelsInner_new))
    ∧ faithful_stream tr1 tr2.
Proof.
  pose proof (honest_pair_connects (mk_env 0 Pending) (mk_env 0 Pending) t1 t2 w1 f_listener
    fingerprint hello other answers answers pk1 pk2 t1_listening eq_refl eq_refl eq_refl
    eq_refl hello_greets_new eq_refl) as Hp.
  destruct (worker_turn _ worker_new w1) as [k' w'].
  destruct Hp as (a & rx' & tr1 & tr2 & _ & _ & Hd & Hu & Hf & _).
  exists a, tr1, tr2. split; [exact Hd|]. split; [exact Hu|exact Hf].
Defined.
End Witness.
